(* ===== verification/_CoqProject ===== *)
-Q . S2P
Prelude.v
GoStrings.v
Json.v
Wire.v
Http.v
Fixture.v
Client.v
Plugin.v
Transcript.v
Total.v
Cli.v
Environ.v
Protocol.v
Session.v
Liveness.v
Server.v
Deploy.v
Program.v
