(* ===== verification/Prelude.v ===== *)
(** * drone-portainer: a verification development

    The program is a CI plugin that deploys or updates a compose stack on a
    Portainer server.  It has three parts, each in one Go file:

    - [src/lib/portainer/portainer.go], the API client: a [Portainer] value
      (HTTP client settings, base address, bearer token) and one method per
      REST call ([Connect], [Auth], [GetEndpointByName], [GetStackByName],
      [DeployStackFromGit], [DeployStackFromString], [DeployStackFromFile],
      [UpdateStackFromString], [UpdateStackFromFile]);
    - [src/plugin.go], the orchestrator: [Plugin.Exec] drives the client
      through connect, authenticate, endpoint resolution, stack lookup and
      then deploy or update, writing progress to standard output;
    - [src/main.go], the command line: [main] declares the table of flags
      with the environment variables that feed them and hands the
      arguments to the flag library, which calls [run]; [run] builds the
      [Plugin] value from the flags, calls [Exec] and ends the process
      with status 1 when [Exec] returns an error.

    The client talks to the server only through [http.Client.Do]; the
    orchestrator talks to the client only through its methods, and to its
    surroundings through [fmt.Printf], [ioutil.ReadFile] (inside the client)
    and [time].

    ** Files, in the order they build

    - [Prelude] (this file): Go values shared by every component.  An
      [error] is its message and the library it comes from; a [result] is
      what a Go call yields: a value ([Ok]), a returned error ([Err]) or a
      run-time panic ([Panic]).  Also the notation scope [go_scope] with
      [let?], the hint databases [go], and the lemmas on results and
      strings the other files share.
    - [GoStrings]: the calls of packages [strings] and [fmt] the program's
      behaviour depends on ([strings.SplitN] with a one-byte separator,
      [strings.Join], the verbs [%d] and quoted [%s]), with the split/join
      round trip and the reading of a split with limit 2.
    - [Json]: JSON documents as trees and the rules [json.Unmarshal]
      follows when it decodes one into a Go value: [null] changes nothing,
      keys match field names without regard to ASCII case, unknown keys are
      skipped, later keys overwrite, an integer must fit 64 bits.  A body
      is a document ([Doc]) or text that is none ([Raw]).
    - [Wire]: modules [Env], [Stack] and [Endpoint] for the structures of
      [portainer.go] lines 14-38 (record, zero value, wire names, decoder),
      the decoders of the two anonymous reply structures, and the
      documents [json.Marshal] builds for the four requests with a body.
    - [Http]: requests and responses; the two interfaces of the
      development, class [GoLib] for the pure library functions left open
      ([urlx.Parse], [urlx.Normalize], [URL.Port], [URL.String], the URL
      check of [http.NewRequest], the text of a duration) and class
      [Platform] for the surroundings (the round trip behind
      [http.Client.Do], [ioutil.ReadFile], the clock); the [World] a run
      changes (state of the surroundings, trace of exchanges, output, count
      of open response bodies), where an exchange is the client it went
      through, the request and what came back; the monad [M] of Go code over it with its
      laws; the invariant [tidy]; the normal form [call]; equivalence of
      computations [≡] with its [Proper] instances; [sent] and [output],
      what a run adds to the trace and to the output.
    - [Fixture]: a small URL library and a scripted server, for running
      the program on concrete inputs.  It models no code.
    - [Client]: [portainer.go], one definition per function in the order of
      the file; then the request and the reply interpreter of each method,
      and the proof that the method is [call] of the two; the nine methods
      as one indexed type [invocation]; the theorems.
    - [Plugin]: [plugin.go].  Module [main] holds the structures and
      [Exec], whose body is cut at the blank lines of the source into
      [connect_phase], [auth_phase], [endpoint_phase], [stack_phase],
      [env_loop], [stack_config], [must_update], [update_branch] and
      [deploy_branch]; then the runs of the pieces and the theorems.
    - [Transcript]: what a run prints.  No method of the client prints
      ([silent]); the output of each phase is its progress line and the
      mark of how its call ended, and the output of a run is the lines
      of its phases in order.
    - [Total]: a logic of total correctness over the monad, [achieves P c
      Q]: from surroundings with [P] the computation returns a value,
      without error or panic, and leaves surroundings with [Q]; one rule
      per combinator and one for [call].  [fails P c Q] is the same for a
      run that returns an error.
    - [Cli]: [main.go].  Module [cli] holds the structures of the flag
      library the program uses (a flag with its kind, name, default, usage
      and environment variables; the application; the context with its
      four readers) and the class [cli.Lib], the interface of [app.Run]:
      the library either deals with the arguments itself or calls the
      action with a context.  Then the table of flags in the five groups
      of the source, [app], [run_plugin] (the [Plugin] literal of [run]),
      [run], [main_] and the status the process ends with.
    - [Environ]: what version 1.20 of the flag library does on a command
      line without arguments, which is how Drone starts a plugin: each
      flag takes the value of the first variable of its list that is set,
      a switch and a number are parsed, a list is cut at the commas.  It
      models no code of the repository; the class [FromEnviron] says that
      a library [cli.Lib] behaves so, and the theorems are proved against
      the class.
    - [Protocol]: the chain of the specification as a machine, an
      inductive relation [step] over the phases of a run labelled by the
      kind of request, with its executable form [next], its histories and
      a rank; a logic [follows] of computations whose requests follow the
      machine, with one rule per combinator of [M], one lemma per method
      and per phase, and the refinement theorem for [Exec].
    - [Session]: the conversation of a run with its data, as a machine
      whose states hold what the run has learnt (the receiver and its
      token, the endpoint selected, its cluster, the stack found) and
      whose one function [advance] gives, for a state, the request sent
      next and the state or the failure the reply leads to; the runs of
      the machine as the inductive relation [runs] and as the function
      [play]; the logic [leads] of computations that make runs of the
      machine, and the proof that [Exec] is the machine.
    - [Liveness]: the assumptions on a server that plays its part
      ([cooperative]), and the theorem that [Exec] then returns without
      error, proved with the logic of [Total].
    - [Server]: a reference server for the eight calls of the remote API
      (specification, section 6): accounts, endpoints, stacks with their
      definition and environment, a bearer token, names distinct on each
      endpoint.  It is an instance of [Platform], models no code of the
      repository, and keeps its invariant [server.wf] on every request.
    - [Deploy]: the runs of the methods, of the phases and of [Exec]
      against that server, and what they leave on it: the lookups by
      what the server knows ([reached]), the effect of a run whose
      configuration fits the server ([fits]), and the runs that fail.
    - [Program]: the whole process against that server: how a run ends
      ([ending_of]) as a function of the configuration and of the state
      of the server, and the exit status and the state of the server
      that follow.

    ** How the model corresponds to the code

    Go strings are [string]; Go [int] is [Z], and decoding refuses a number
    outside the 64-bit range; a slice is a [list]; a pointer that may be
    nil is an [option], and reading a field through [None] is
    [Panic NilDereference]; [e[1]] on a slice of length 1 is
    [Panic (IndexOutOfRange 1 1)].  A method with receiver
    [self *Portainer] takes [self] as an argument; [Auth], the only method
    that writes a field, returns the new receiver.  The [*Endpoint],
    [*Stack] and [*Env] arguments of the methods are values: [Exec] passes
    pointers it has tested or just built.

    [if err != nil { return err }] is the bind of [M]; a panic passes every
    bind and every handler.  [if err != nil { fmt.Printf(FAIL); return err }]
    is [Http.or_else]; an error kept in a variable is [Http.try].
    [defer rsp.Body.Close()] is [Http.defer_close] around the rest of the
    function.  [http.Client.Do] appends the request and what came back to
    the trace, steps the surroundings and, when a response came, counts one
    more open body.  The [http.Client] built by [NewPortainer] is the
    value of its one setting, [InsecureSkipVerify]; the trace records the
    client of each exchange so that a theorem can say which transport a
    request went through.

    ** What the theorems show

    - Resources ([Client.client_closes_every_body],
      [Plugin.Exec_closes_every_body]): every run is [tidy]; it closes the
      bodies it opened and only extends the trace and the output.
    - The client ([Client]): when [Connect] and [Auth] succeed; which
      requests a method sends, that the authenticated ones carry the
      token, at most one exchange per method and two for
      [GetEndpointByName]; what the two loops select, and that they panic
      exactly at a [null] element met first; the exchanges and the result
      of [GetEndpointByName]; the file variants as the string variants;
      what [NewPortainer] does with the scheme.
    - The codecs ([Wire]): decoding never panics; the environment entries
      survive marshalling and decoding; the token is read leniently; an
      identifier must fit an [int].
    - The orchestrator ([Plugin]): a run that succeeds has sent exactly
      one request that changes the stacks, last, after four or five that
      change nothing; at most six exchanges; an entry without [=] makes
      the run panic before any such request; a failed stack lookup is
      absorbed; the transcript of a run, in which an error is preceded
      by the [FAIL] mark unless it is the error of [NewPortainer]
      ([Transcript.Exec_transcript]); the branch test; the inline configuration;
      a deployment without source; which request the run ends with, the
      update of the stack found or the creation on the selected endpoint,
      with the configuration and the environment it carries; every
      exchange goes through the one client built from the setting
      [Insecure] ([Plugin.Exec_keeps_TLS_setting]).
    - The command line ([Cli]): the table of flags is well formed and
      declares every flag [run] reads, with the kind read; [run] does not
      read [commit.ref]; the status of the process is 1 exactly when
      [Exec] returned an error, and 0 when the flag library refused the
      arguments.
    - The settings ([Environ]): for a library that takes the flags from
      the environment, the configuration [Exec] receives as a function of
      the environment, with the priority of the variables of each setting
      and the defaults of the table; a switch that does not parse ends
      the process with status 0 and nothing done; an environment entry
      with a comma reaches [Exec] cut in two.
    - The effect ([Deploy]): a run against the reference server leaves on
      the endpoint wanted a stack of the configured name with the
      configured definition and environment, by an update when the first
      stack of that name runs there and by a creation otherwise; a second
      run changes nothing; but when a stack of the same name on another
      endpoint comes first in the list, the stack wanted is never found
      and every run after the first fails.
    - The process ([Program]): against the reference server, for every
      configuration whose address leads to it, the exit status is 1 when
      the address is refused, the account unknown, the endpoint or the
      stack name missing, the definition unreadable or the creation
      declined, 2 after an entry of the environment without [=], and 0
      otherwise, with the server unchanged unless the status is 0; a
      status of 0, once the library has called [run], means that the
      stack wanted is on the server.
    - The protocol ([Protocol], [Liveness]): the requests of every run of
      [Exec] are a history of the machine, a complete one when the run
      succeeds (refinement); each request lowers the rank of the phase, so
      that a run has at most six (termination); against a cooperative
      server a run with well-formed configuration returns nil (liveness).

    - The session ([Session]): in front of any surroundings the
      exchanges of a run, its result and the state it leaves the
      surroundings in are those of the run of the machine, so that every
      request is a function of the settings and of the replies before it
      ([Session.Exec_plays]); the probe and the login carry no token,
      every later request the token of the login reply, and all go to the
      one server of the receiver built ([Session.Exec_one_session]); an
      error of a run is the error of one move, with one of the nine
      causes of [Session.cause], never of the search for the stack
      ([Session.Exec_error_origin]); a run can crash only at a
      [null] element of a list and at an environment entry without [=]
      ([Session.Exec_panic_origin]).

    Theorems hold for every [GoLib] and every [Platform].  A theorem with a
    hypothesis is also applied, in a lemma named after it with the suffix
    [_witness], to a run against the scripted server of [Fixture], in
    [Liveness] against a server without state that answers by the path
    of the request, in [Deploy] against the reference server with two
    endpoints, and in [Environ] and [Program] from the environment of a
    Drone step.

    ** Bounds and fuel

    Every loop of the program ranges over a slice, so every definition is
    structurally recursive and total; nothing needs fuel, and there is no
    bound on the length of a list, a string or a trace.  Integers are
    unbounded except where the code stores them in an [int], which is at
    decoding.  The machine of [Protocol] has seven phases and no cycle;
    its rank, at most six, bounds the exchanges of a run.  The machine of
    [Session] has eight states and no cycle either: [play] is given seven
    moves, the number [moves_left] of the first state, every move lowers
    that number ([advance_moves_left]), and seven moves therefore reach
    the end or a failure ([play_final]); the relation [runs] needs no
    fuel.

    ** Not modelled

    - The flag library and [godotenv]: how arguments are parsed, how a
      [.env] file is loaded into the environment, and the help text are
      behind [cli.Lib]; the theorems of [Cli] and [Program] hold for
      every such library.  [Environ] states the resolution of the flags
      from the environment from the documented behaviour of the library,
      not from its code, for a bare command line only; a reader applied
      to a flag of another kind is left out, and [strings.TrimSpace]
      knows the blanks below 128.  The process is the value [main_]
      returns: an exit is the outcome [Exited], and nothing runs after
      it.
    - The text of JSON documents, of URLs and of durations: a body is a
      tree or malformed, and the URL and time libraries are the fields of
      [GoLib].
    - Inside a round trip: TLS, redirects, timeouts, connection reuse.
    - The server: any function from requests to replies over any state,
      except in [Deploy] and [Program], where it is the reference server; that server
      is written from the list of calls in the specification, not from
      the code of a Portainer release, and creates stacks from inline
      text only.
    - A failure of [json.Marshal] or of [fmt.Printf]: the structures
      marshalled hold strings and booleans only, and the result of
      [Printf] is discarded by the code. *)

From Stdlib Require Export Ascii String ZArith Lia.
From stdpp Require Export base tactics option list strings pretty gmap.

#[export] Set Warnings "-clear-no-such-hyp".

#[local] Open Scope string_scope.

(** ** Errors and panics *)

(** The library an error value comes from.  The program never inspects an
    error beyond its message, so the origin is kept for the theorems only. *)
Inductive origin : Type :=
| net_http
| encoding_json
| io_ioutil
| goware_urlx.

(** A Go [error]: built by [fmt.Errorf] in the program, or returned by a
    library with a message of the library's own. *)
Inductive error : Type :=
| Errorf (msg : string)
| LibError (o : origin) (msg : string).

(** The [Error()] method. *)
Definition Error (e : error) : string :=
  match e with
  | Errorf msg => msg
  | LibError _ msg => msg
  end.

(** Run-time panics the program can raise. *)
Inductive panic : Type :=
| IndexOutOfRange (i len : nat)
| NilDereference.

#[export] Instance origin_eq_dec : EqDecision origin.
Proof. solve_decision. Defined.
#[export] Instance error_eq_dec : EqDecision error.
Proof. solve_decision. Defined.
#[export] Instance panic_eq_dec : EqDecision panic.
Proof. solve_decision. Defined.

(** ** Results *)

(** What a Go call that returns [(T, error)] yields. *)
Inductive result (A : Type) : Type :=
| Ok (a : A)
| Err (e : error)
| Panic (p : panic).
Arguments Ok {A} a.
Arguments Err {A} e.
Arguments Panic {A} p.

#[export] Instance result_eq_dec `{EqDecision A} : EqDecision (result A).
Proof. solve_decision. Defined.

Definition rbind {A B} (r : result A) (k : A -> result B) : result B :=
  match r with
  | Ok a => k a
  | Err e => Err e
  | Panic p => Panic p
  end.

Definition rmap {A B} (f : A -> B) (r : result A) : result B :=
  rbind r (fun a => Ok (f a)).

Definition is_Ok {A} (r : result A) : bool :=
  match r with Ok _ => true | _ => false end.

Definition is_Err {A} (r : result A) : bool :=
  match r with Err _ => true | _ => false end.

Definition is_Panic {A} (r : result A) : bool :=
  match r with Panic _ => true | _ => false end.

(** A library call that returns [(T, error)] and cannot panic. *)
Definition of_sum {A} (r : error + A) : result A :=
  match r with
  | inl e => Err e
  | inr a => Ok a
  end.

(** The index expression [s[i]] on a slice. *)
Definition index {A} (s : list A) (i : nat) : result A :=
  match s !! i with
  | Some a => Ok a
  | None => Panic (IndexOutOfRange i (length s))
  end.

(** ** Notation *)

Declare Scope go_scope.
Delimit Scope go_scope with go.

Notation "'let?' x := r 'in' k" := (rbind r (fun x => k))
  (at level 10, x name, r at level 100, k at level 200,
   format "'[v' 'let?'  x  :=  r  'in' '/' k ']'") : go_scope.

(** The characters a Go string literal writes with an escape. *)
Definition dquote : string := String (ascii_of_nat 34) EmptyString.
Definition newline : string := String (ascii_of_nat 10) EmptyString.

(** ** Tactics *)

(** Case analysis on the result a [rbind] or a [match] of the goal (or of a
    hypothesis) is stuck on. *)
Ltac case_result :=
  match goal with
  | |- context [rbind ?r _] =>
      lazymatch r with Ok _ => fail | Err _ => fail | Panic _ => fail | _ => idtac end;
      destruct r eqn:?; simpl
  | H : context [rbind ?r _] |- _ =>
      lazymatch r with Ok _ => fail | Err _ => fail | Panic _ => fail | _ => idtac end;
      destruct r eqn:?; simpl in H
  end.

Create HintDb go discriminated.
Create Rewrite HintDb go.

(** ** Lemmas on results *)

Section Results.
Context {A B C : Type}.
Implicit Types (r : result A) (k : A -> result B).

Lemma rbind_Ok a k : rbind (Ok a) k = k a.
Proof. reflexivity. Qed.

Lemma rbind_ret_r r : rbind r Ok = r.
Proof. by destruct r. Qed.

Lemma rbind_assoc r k (h : B -> result C) :
  rbind (rbind r k) h = rbind r (fun a => rbind (k a) h).
Proof. by destruct r. Qed.

Lemma rbind_Ok_inv r k b :
  rbind r k = Ok b -> exists a, r = Ok a /\ k a = Ok b.
Proof. destruct r; simpl; [eauto | done | done]. Qed.

Lemma rbind_Err_inv r k e :
  rbind r k = Err e -> r = Err e \/ exists a, r = Ok a /\ k a = Err e.
Proof. destruct r; simpl; intros; simplify_eq; eauto. Qed.

Lemma rbind_Panic_inv r k p :
  rbind r k = Panic p -> r = Panic p \/ exists a, r = Ok a /\ k a = Panic p.
Proof. destruct r; simpl; intros; simplify_eq; eauto. Qed.

Lemma rmap_Ok_inv (f : A -> B) r b :
  rmap f r = Ok b -> exists a, r = Ok a /\ b = f a.
Proof. destruct r; simpl; intros; simplify_eq; eauto. Qed.

(** Panic freedom, as a boolean so that it computes and rewrites. *)
Lemma is_Panic_false r : is_Panic r = false <-> forall p, r <> Panic p.
Proof. destruct r; simpl; split; try done. intros H. by destruct (H p). Qed.

Lemma rbind_no_Panic r k :
  is_Panic r = false -> (forall a, r = Ok a -> is_Panic (k a) = false) ->
  is_Panic (rbind r k) = false.
Proof. destruct r; simpl; auto. Qed.

Lemma rmap_no_Panic (f : A -> B) r :
  is_Panic r = false -> is_Panic (rmap f r) = false.
Proof. by destruct r. Qed.

Lemma of_sum_no_Panic (s : error + A) : is_Panic (of_sum s) = false.
Proof. by destruct s. Qed.

Lemma index_lt (s : list A) i :
  i < length s -> exists a, index s i = Ok a /\ s !! i = Some a.
Proof.
  intros [a Ha]%lookup_lt_is_Some. exists a. unfold index. by rewrite Ha.
Qed.

Lemma index_ge (s : list A) i :
  length s <= i -> index s i = Panic (IndexOutOfRange i (length s)).
Proof. intros H%lookup_ge_None. unfold index. by rewrite H. Qed.

Lemma index_not_Err (s : list A) i e : index s i <> Err e.
Proof. unfold index. by destruct (s !! i). Qed.

Lemma index_is_Panic (s : list A) i :
  is_Panic (index s i) = bool_decide (length s <= i).
Proof.
  unfold index. case_bool_decide as H.
  - apply lookup_ge_None in H. by rewrite H.
  - destruct (s !! i) eqn:E; [done|]. apply lookup_ge_None in E. lia.
Qed.

End Results.

#[export] Hint Rewrite @rbind_Ok @rbind_ret_r @rbind_assoc : go.
#[export] Hint Resolve rbind_no_Panic rmap_no_Panic of_sum_no_Panic : go.

(** ** Lemmas on strings *)

(** stdpp blocks [simpl] on string append; these two equations unfold it. *)
Lemma string_app_nil_l (s : string) : "" +:+ s = s.
Proof. reflexivity. Qed.

Lemma string_app_cons (a : ascii) (s t : string) :
  String a s +:+ t = String a (s +:+ t).
Proof. reflexivity. Qed.

Lemma string_app_nil_r (s : string) : s +:+ "" = s.
Proof. induction s as [|a s IH]; [done|]. by rewrite string_app_cons, IH. Qed.

Lemma string_app_assoc (s t u : string) : (s +:+ t) +:+ u = s +:+ (t +:+ u).
Proof. induction s as [|a s IH]; [done|]. by rewrite !string_app_cons, IH. Qed.

Lemma string_app_length (s t : string) :
  String.length (s +:+ t) = String.length s + String.length t.
Proof. induction s as [|a s IH]; [done|]. rewrite string_app_cons. simpl. by rewrite IH. Qed.

Lemma string_app_eq_nil (s t : string) : s +:+ t = "" -> s = "" /\ t = "".
Proof. by destruct s. Qed.

Lemma string_app_inv_r (s t u : string) : s +:+ u = t +:+ u -> s = t.
Proof.
  intros H. assert (Hl : String.length s = String.length t).
  { apply (f_equal String.length) in H. rewrite !string_app_length in H. lia. }
  revert t H Hl. induction s as [|a s IH]; intros [|b t] H Hl; try done.
  rewrite !string_app_cons in H. simplify_eq/=. f_equal. by apply IH.
Qed.

#[export] Hint Rewrite string_app_nil_l string_app_cons string_app_nil_r
  string_app_assoc string_app_length : go.
