(* ===== verification/GoStrings.v ===== *)
(** * GoStrings: the calls into packages [strings] and [fmt]

    [plugin.go] splits every environment entry with
    [strings.SplitN(v, "=", 2)] and joins the inline configuration
    fragments with [strings.Join(cfg, "\n")]; [portainer.go] formats
    identifiers into URLs with [%d].  The definitions follow the Go
    library's documented behaviour for a separator of one byte, which is
    the only kind the program passes. *)

From S2P Require Import Prelude.

#[local] Open Scope string_scope.
#[local] Open Scope list_scope.
#[local] Open Scope go_scope.

(** ** Definitions *)

(** [strings.Index(s, sep)] for a one-byte [sep], together with the two
    slices [s[:m]] and [s[m+1:]] the split takes around the match: [None]
    when [sep] does not occur. *)
Fixpoint cut (sep : ascii) (s : string) : option (string * string) :=
  match s with
  | EmptyString => None
  | String c s' =>
      if decide (c = sep) then Some (EmptyString, s')
      else match cut sep s' with
           | Some (a, b) => Some (String c a, b)
           | None => None
           end
  end.

(** Whether the byte occurs in the string. *)
Fixpoint contains (sep : ascii) (s : string) : bool :=
  match s with
  | EmptyString => false
  | String c s' => if decide (c = sep) then true else contains sep s'
  end.

(** The loop of the library's split: at most [k] cuts, the rest of the
    string is the last piece. *)
Fixpoint split_upto (sep : ascii) (k : nat) (s : string) : list string :=
  match k with
  | O => [s]
  | S k' =>
      match cut sep s with
      | None => [s]
      | Some (a, b) => a :: split_upto sep k' b
      end
  end.

(** [strings.SplitN(s, sep, n)]: nothing for [n = 0], every piece for
    [n < 0] (a string has at most [len s] separators), at most [n] pieces
    otherwise. *)
Definition SplitN (s : string) (sep : ascii) (n : Z) : list string :=
  if decide (n = 0)%Z then []
  else if decide (n < 0)%Z then split_upto sep (String.length s) s
  else split_upto sep (Z.to_nat n - 1) s.

(** [strings.Join(elems, sep)]. *)
Fixpoint Join (elems : list string) (sep : string) : string :=
  match elems with
  | [] => EmptyString
  | [x] => x
  | x :: rest => x +:+ sep +:+ Join rest sep
  end.

(** The verb [%d] of [fmt] applied to an [int]. *)
Definition fmt_d (n : Z) : string := pretty n.

(** The bytes [%d] prints: the sign and the digits. *)
Definition decimal (c : ascii) : bool := contains c "-0123456789".

(** The verb [%s] applied to a string in double quotes, as in the format
    [\"%s\"] of the progress messages. *)
Definition quoted (s : string) : string := dquote +:+ s +:+ dquote.

(** ** [cut] and [contains] *)

Section Cut.
Implicit Types (sep c : ascii) (s a b : string).

Lemma cut_None_contains sep s : cut sep s = None <-> contains sep s = false.
Proof.
  induction s as [|c s IH]; simpl; [done|].
  case_decide; [done|]. destruct (cut sep s) as [[??]|]; [split; [done|] | done].
  intros Hc. apply IH in Hc. done.
Qed.

Lemma cut_Some_app sep s a b :
  cut sep s = Some (a, b) -> s = a +:+ String sep b.
Proof.
  revert a. induction s as [|c s IH]; intros a; simpl; [done|].
  case_decide.
  - intros [= <- <-]. by subst.
  - destruct (cut sep s) as [[a' b']|] eqn:E; [|done].
    intros [= <- <-]. rewrite string_app_cons. f_equal. by apply IH.
Qed.

(** The cut is at the first occurrence: the left piece has no separator. *)
Lemma cut_Some_first sep s a b :
  cut sep s = Some (a, b) -> contains sep a = false.
Proof.
  revert a. induction s as [|c s IH]; intros a; simpl; [done|].
  case_decide.
  - by intros [= <- <-].
  - destruct (cut sep s) as [[a' b']|] eqn:E; [|done].
    intros [= <- <-]. simpl. case_decide; [done|]. by apply IH.
Qed.

Lemma cut_app_first sep a b :
  contains sep a = false -> cut sep (a +:+ String sep b) = Some (a, b).
Proof.
  induction a as [|c a IH]; simpl.
  - intros _. rewrite ?string_app_nil_l. simpl. by case_decide.
  - case_decide; [done|]. intros Ha. rewrite ?string_app_cons. simpl.
    by rewrite IH.
Qed.

Lemma cut_length sep s a b :
  cut sep s = Some (a, b) -> String.length b < String.length s.
Proof.
  intros ->%cut_Some_app. rewrite string_app_length. simpl. lia.
Qed.

Lemma contains_app sep a b :
  contains sep (a +:+ b) = contains sep a || contains sep b.
Proof.
  induction a as [|c a IH]; [done|]. rewrite string_app_cons. simpl.
  by case_decide.
Qed.

End Cut.

(** ** [SplitN] and [Join] *)

Section Split.
Implicit Types (sep : ascii) (s : string) (k : nat).

Lemma split_upto_length sep k s :
  1 <= length (split_upto sep k s) <= S k.
Proof.
  revert s. induction k as [|k IH]; intros s; simpl; [lia|].
  destruct (cut sep s) as [[a b]|]; simpl; [|lia].
  specialize (IH b). lia.
Qed.

Lemma Join_cons x y l (sp : string) :
  Join (x :: y :: l) sp = x +:+ sp +:+ Join (y :: l) sp.
Proof. reflexivity. Qed.

Lemma split_upto_nonempty sep k s : split_upto sep k s <> [].
Proof.
  pose proof (split_upto_length sep k s) as H. intros E. rewrite E in H.
  simpl in H. lia.
Qed.

Lemma Join_split_upto sep k s :
  Join (split_upto sep k s) (String sep EmptyString) = s.
Proof.
  revert s. induction k as [|k IH]; intros s; simpl; [done|].
  destruct (cut sep s) as [[a b]|] eqn:E; [|done].
  pose proof (split_upto_nonempty sep k b) as Hne.
  specialize (IH b). destruct (split_upto sep k b) as [|y l]; [done|].
  rewrite Join_cons, IH. apply cut_Some_app in E. by rewrite E.
Qed.

(** No piece but the last contains the separator. *)
Lemma split_upto_pieces sep k s (l : list string) x :
  split_upto sep k s = l ++ [x] ->
  Forall (fun a => contains sep a = false) l.
Proof.
  revert s l. induction k as [|k IH]; intros s l; simpl.
  - destruct l as [|? [|??]]; intros; simplify_eq/=; constructor.
  - destruct (cut sep s) as [[a b]|] eqn:E.
    + destruct l as [|a' l]; simpl.
      * intros [= _ H]. by apply split_upto_nonempty in H.
      * intros [= <- H]. constructor; eauto using cut_Some_first.
    + destruct l as [|? [|??]]; intros; simplify_eq/=; constructor.
Qed.

Lemma SplitN_two_cut s sep :
  SplitN s sep 2 = match cut sep s with
                   | Some (a, b) => [a; b]
                   | None => [s]
                   end.
Proof. unfold SplitN. simpl. by destruct (cut sep s) as [[??]|]. Qed.

End Split.

#[export] Hint Rewrite Join_split_upto SplitN_two_cut : go.

(** ** Theorems on [SplitN] and [Join] *)

Section SplitJoin.
Implicit Types (sep : ascii) (s a b : string) (n : Z).

(** Joining the pieces of a split with the separator gives the string
    back, for every limit other than zero. *)
Theorem SplitN_Join s sep n :
  n <> 0%Z -> Join (SplitN s sep n) (String sep EmptyString) = s.
Proof.
  intros Hn. unfold SplitN. rewrite decide_False by done.
  case_decide; apply Join_split_upto.
Qed.

(** A split with a positive limit [n] yields at least one piece and at
    most [n]. *)
Theorem SplitN_length s sep n :
  (0 < n)%Z -> 1 <= length (SplitN s sep n) <= Z.to_nat n.
Proof.
  intros Hn. unfold SplitN. rewrite !decide_False by lia.
  pose proof (split_upto_length sep (Z.to_nat n - 1) s). lia.
Qed.

(** With limit 2 a string is split at the first separator only: the
    result is the string alone when it holds no separator, and otherwise
    the part before the first separator and everything after it. *)
Theorem SplitN_two_first s sep :
  (contains sep s = false -> SplitN s sep 2 = [s])
  /\ (forall a b, SplitN s sep 2 = [a; b]
                  <-> s = a +:+ String sep b /\ contains sep a = false).
Proof.
  rewrite SplitN_two_cut. split.
  - by intros ->%cut_None_contains.
  - intros a b. split.
    + destruct (cut sep s) as [[a' b']|] eqn:E; [|done].
      intros [= -> ->]. eauto using cut_Some_app, cut_Some_first.
    + intros [-> Ha]. by rewrite cut_app_first.
Qed.

End SplitJoin.

(** ** The bytes of [%d] *)

Section Decimal.
Implicit Types (c : ascii) (n : Z) (s : string).

(** A byte [%d] never prints is no part of a number printed. *)
Lemma contains_pretty_N_go c (x : N) s :
  decimal c = false -> contains c s = false ->
  contains c (pretty_N_go x s) = false.
Proof.
  intros Hc. revert s. induction (N.lt_wf_0 x) as [x _ IH]; intros s Hs.
  destruct (decide (x = 0)%N) as [->|]; [by rewrite pretty_N_go_0|].
  rewrite pretty_N_go_step by lia. apply IH; [apply N.div_lt; lia|].
  simpl. rewrite Hs. case_decide as E; [|done]. subst c. exfalso.
  revert Hc. unfold pretty_N_char. by repeat case_match.
Qed.

Lemma contains_fmt_d c n : decimal c = false -> contains c (fmt_d n) = false.
Proof.
  intros Hc. unfold fmt_d, pretty, pretty_Z.
  assert (forall x : positive, contains c (pretty x) = false) as Hpos.
  { intros x. unfold pretty, pretty_positive, pretty, pretty_N.
    case_decide; [done|]. by apply contains_pretty_N_go. }
  destruct n as [|x|x]; [| apply Hpos |].
  - revert Hc. unfold decimal. simpl. by repeat case_decide.
  - rewrite contains_app, Hpos. revert Hc. unfold decimal. simpl.
    by repeat case_decide.
Qed.

(** A number printed before a byte that is none of its own ends at that
    byte. *)
Lemma cut_fmt_d c n s :
  decimal c = false -> cut c (fmt_d n +:+ String c s) = Some (fmt_d n, s).
Proof. intros Hc. by apply cut_app_first, contains_fmt_d. Qed.

Lemma fmt_d_inj n m : fmt_d n = fmt_d m -> n = m.
Proof. unfold fmt_d. apply (inj pretty). Qed.

End Decimal.
