(* ===== verification/Json.v ===== *)
(** * Json: documents and the decoding rules of [encoding/json]

    A JSON document is a tree; its wire format is not modelled.  The
    decoding primitives follow the rules of [json.Unmarshal] that the
    program's structures exercise: [null] leaves the destination as it is,
    a value of the wrong kind is an error, an object key names a field by
    exact match and else by case-insensitive match, unknown keys are
    skipped, later keys overwrite earlier ones.  A number decodes into a Go
    [int] only when its literal has neither fraction nor exponent and fits
    64 bits.

    Two limits of the model.  Case folding is ASCII only.  When a key whose
    field is a slice is repeated in one object the model keeps the last
    array, while the library decodes it element-wise into the earlier one;
    the program never reads such a field.  The text of an error message of
    the library is approximated; no theorem depends on it. *)

From S2P Require Import Prelude.

#[local] Open Scope string_scope.
#[local] Open Scope list_scope.
#[local] Open Scope go_scope.

(** ** Documents *)

#[local] Unset Elimination Schemes.
Inductive json : Type :=
| JNull
| JBool (b : bool)
| JInt (n : Z)
| JFloat (lit : string)
| JString (s : string)
| JArray (l : list json)
| JObject (fields : list (string * json)).
#[local] Set Elimination Schemes.

(** The name the library's error messages give to the kind of a value. *)
Definition kind_of (j : json) : string :=
  match j with
  | JNull => "null"
  | JBool _ => "bool"
  | JInt _ | JFloat _ => "number"
  | JString _ => "string"
  | JArray _ => "array"
  | JObject _ => "object"
  end.

Fixpoint json_eqb (a b : json) {struct a} : bool :=
  match a, b with
  | JNull, JNull => true
  | JBool x, JBool y => bool_decide (x = y)
  | JInt x, JInt y => bool_decide (x = y)
  | JFloat x, JFloat y => bool_decide (x = y)
  | JString x, JString y => bool_decide (x = y)
  | JArray l1, JArray l2 =>
      (fix go (l1 l2 : list json) : bool :=
         match l1, l2 with
         | [], [] => true
         | x :: l1, y :: l2 => json_eqb x y && go l1 l2
         | _, _ => false
         end) l1 l2
  | JObject l1, JObject l2 =>
      (fix go (l1 l2 : list (string * json)) : bool :=
         match l1, l2 with
         | [], [] => true
         | (k1, x) :: l1, (k2, y) :: l2 =>
             bool_decide (k1 = k2) && json_eqb x y && go l1 l2
         | _, _ => false
         end) l1 l2
  | _, _ => false
  end.

(** The value of the first member named [key] of an object. *)
Fixpoint lookup_member (key : string) (fields : list (string * json))
    : option json :=
  match fields with
  | [] => None
  | (k, v) :: rest => if decide (k = key) then Some v else lookup_member key rest
  end.

Definition member (key : string) (j : json) : option json :=
  match j with
  | JObject fields => lookup_member key fields
  | _ => None
  end.

(** ** Decoding primitives *)

(** The error [json.Unmarshal] returns for a value of the wrong kind. *)
Definition type_error (j : json) (go_type : string) : error :=
  LibError encoding_json
    ("json: cannot unmarshal " +:+ kind_of j +:+ " into Go value of type "
     +:+ go_type).

(** The error for bytes that are no JSON document. *)
Definition syntax_error : error :=
  LibError encoding_json "json: invalid character or unexpected end of JSON input".

(** The range of a Go [int] on a 64-bit platform. *)
Definition int_min : Z := - 2 ^ 63.
Definition int_max : Z := 2 ^ 63 - 1.

Definition in_int_range (n : Z) : bool :=
  bool_decide (int_min <= n <= int_max)%Z.

(** Decoding into a [string] field holding [cur]. *)
Definition decode_string (cur : string) (j : json) : result string :=
  match j with
  | JNull => Ok cur
  | JString s => Ok s
  | _ => Err (type_error j "string")
  end.

(** Decoding into an [int] field holding [cur]. *)
Definition decode_int (cur : Z) (j : json) : result Z :=
  match j with
  | JNull => Ok cur
  | JInt n => if in_int_range n then Ok n else Err (type_error j "int")
  | _ => Err (type_error j "int")
  end.

(** ASCII lower case, for the case-insensitive match of keys. *)
Definition lower (c : ascii) : ascii :=
  let n := nat_of_ascii c in
  if bool_decide (65 <= n <= 90) then ascii_of_nat (n + 32) else c.

Fixpoint to_lower (s : string) : string :=
  match s with
  | EmptyString => EmptyString
  | String c s' => String (lower c) (to_lower s')
  end.

Definition equal_fold (a b : string) : bool :=
  bool_decide (to_lower a = to_lower b).

(** The position of the first name for which [p] holds. *)
Fixpoint find_index (p : string -> bool) (names : list string) : option nat :=
  match names with
  | [] => None
  | n :: rest => if p n then Some 0 else S <$> find_index p rest
  end.

(** The field an object key names, among the wire names of a structure in
    declaration order: the exact match, else the first match up to case. *)
Definition field_of (names : list string) (key : string) : option nat :=
  match find_index (fun n => bool_decide (n = key)) names with
  | Some i => Some i
  | None => find_index (fun n => equal_fold n key) names
  end.

(** The loop over the members of an object: [set i v acc] decodes [v] into
    field [i] of [acc]. *)
Fixpoint decode_fields {T} (names : list string)
    (set : nat -> json -> T -> result T)
    (kvs : list (string * json)) (acc : T) : result T :=
  match kvs with
  | [] => Ok acc
  | (k, v) :: rest =>
      match field_of names k with
      | Some i => let? acc' := set i v acc in decode_fields names set rest acc'
      | None => decode_fields names set rest acc
      end
  end.

(** Decoding into a structure holding [cur]. *)
Definition decode_struct {T} (go_type : string) (names : list string)
    (set : nat -> json -> T -> result T) (cur : T) (j : json) : result T :=
  match j with
  | JNull => Ok cur
  | JObject kvs => decode_fields names set kvs cur
  | _ => Err (type_error j go_type)
  end.

(** Decoding into a fresh pointer [*T]: [null] is the nil pointer, anything
    else is decoded into a new zero value. *)
Definition decode_ptr {T} (dec : T -> json -> result T) (zero : T)
    (j : json) : result (option T) :=
  match j with
  | JNull => Ok None
  | _ => rmap Some (dec zero j)
  end.

(** The loop over the elements of an array. *)
Fixpoint decode_elems {T} (dec : json -> result T) (l : list json)
    : result (list T) :=
  match l with
  | [] => Ok []
  | j :: rest =>
      let? x := dec j in
      let? xs := decode_elems dec rest in
      Ok (x :: xs)
  end.

(** Decoding into a slice: [null] is the nil slice. *)
Definition decode_slice {T} (go_type : string) (dec : json -> result T)
    (j : json) : result (list T) :=
  match j with
  | JNull => Ok []
  | JArray l => decode_elems dec l
  | _ => Err (type_error j go_type)
  end.

(** ** Message bodies *)

(** The bytes of a message body, as far as the program tells them apart: a
    JSON document, or bytes that are none. *)
Inductive bytes : Type :=
| Doc (j : json)
| Raw (s : string).

(** [json.Unmarshal(data, &v)] with [dec] the decoder for the type of [v]. *)
Definition Unmarshal {T} (dec : json -> result T) (data : bytes) : result T :=
  match data with
  | Doc j => dec j
  | Raw _ => Err syntax_error
  end.

(** [json.Marshal(v)] for a value whose document is [j].  Marshalling the
    program's request structures (strings, booleans, slices of string
    pairs) has no failing case. *)
Definition Marshal (j : json) : result bytes := Ok (Doc j).

(** ** Induction and decidable equality on documents *)

Lemma json_ind_nested (P : json -> Prop)
    (Hnull : P JNull) (Hbool : forall b, P (JBool b))
    (Hint : forall n, P (JInt n)) (Hfloat : forall s, P (JFloat s))
    (Hstring : forall s, P (JString s))
    (Harray : forall l, Forall P l -> P (JArray l))
    (Hobject : forall kvs, Forall (fun kv => P kv.2) kvs -> P (JObject kvs)) :
  forall j, P j.
Proof.
  fix IH 1. intros [| b | n | s | s | l | kvs].
  - exact Hnull.
  - apply Hbool.
  - apply Hint.
  - apply Hfloat.
  - apply Hstring.
  - apply Harray. induction l as [|j l IHl]; constructor; [apply IH | exact IHl].
  - apply Hobject.
    induction kvs as [|[k j] kvs IHl]; constructor; [apply IH | exact IHl].
Qed.

Lemma json_eqb_eq (a b : json) : json_eqb a b = true <-> a = b.
Proof.
  revert b. induction a as [| | | | | l IH | kvs IH] using json_ind_nested;
    intros [| | | | | l' | kvs']; simpl;
    rewrite ?bool_decide_eq_true; try (split; congruence).
  - revert l'. induction IH as [|j l Hj _ IHl]; intros [|j' l']; try done.
    rewrite andb_true_iff, Hj. specialize (IHl l'). split.
    + intros [-> H]. apply IHl in H. congruence.
    + intros [= -> ->]. split; [done|]. by apply IHl.
  - revert kvs'.
    induction IH as [|[k j] l Hj _ IHl]; intros [|[k' j'] l']; try done.
    rewrite !andb_true_iff, bool_decide_eq_true. simpl in Hj. rewrite Hj.
    specialize (IHl l'). split.
    + intros [[-> ->] H]. apply IHl in H. congruence.
    + intros [= -> -> ->]. split; [done|]. by apply IHl.
Qed.

#[export] Instance json_eq_dec : EqDecision json.
Proof.
  intros a b. destruct (json_eqb a b) eqn:E.
  - left. by apply json_eqb_eq.
  - right. intros H%json_eqb_eq. congruence.
Defined.

#[export] Instance bytes_eq_dec : EqDecision bytes.
Proof. solve_decision. Defined.

(** ** Lemmas on the decoding primitives *)

Section Decoding.
Context {T : Type}.
Implicit Types (names : list string) (set : nat -> json -> T -> result T).

Lemma decode_string_null cur : decode_string cur JNull = Ok cur.
Proof. reflexivity. Qed.

Lemma decode_string_Ok cur j s :
  decode_string cur j = Ok s <-> (j = JNull /\ s = cur) \/ j = JString s.
Proof. destruct j; simpl; naive_solver. Qed.

Lemma decode_int_Ok cur j n :
  decode_int cur j = Ok n <->
  (j = JNull /\ n = cur) \/ (j = JInt n /\ (int_min <= n <= int_max)%Z).
Proof.
  destruct j as [| |m| | | |]; simpl; try naive_solver.
  unfold in_int_range. case_bool_decide; naive_solver.
Qed.

(** Decoding never panics. *)
Lemma decode_string_no_Panic cur j : is_Panic (decode_string cur j) = false.
Proof. by destruct j. Qed.

Lemma decode_int_no_Panic cur j : is_Panic (decode_int cur j) = false.
Proof. destruct j; simpl; try done. by case_match. Qed.

Lemma decode_fields_no_Panic names set kvs acc :
  (forall i v a, is_Panic (set i v a) = false) ->
  is_Panic (decode_fields names set kvs acc) = false.
Proof.
  intros Hset. revert acc.
  induction kvs as [|[k v] kvs IH]; intros acc; simpl; [done|].
  destruct (field_of names k); auto with go.
Qed.

Lemma decode_struct_no_Panic ty names set cur j :
  (forall i v a, is_Panic (set i v a) = false) ->
  is_Panic (decode_struct ty names set cur j) = false.
Proof. intros. destruct j; simpl; auto using decode_fields_no_Panic. Qed.

Lemma decode_elems_no_Panic (dec : json -> result T) l :
  (forall j, is_Panic (dec j) = false) ->
  is_Panic (decode_elems dec l) = false.
Proof. intros Hdec. induction l as [|j l IH]; simpl; auto 6 with go. Qed.

Lemma decode_slice_no_Panic ty (dec : json -> result T) j :
  (forall j, is_Panic (dec j) = false) ->
  is_Panic (decode_slice ty dec j) = false.
Proof. intros. destruct j; simpl; auto using decode_elems_no_Panic. Qed.

Lemma decode_ptr_no_Panic (dec : T -> json -> result T) zero j :
  (forall c j, is_Panic (dec c j) = false) ->
  is_Panic (decode_ptr dec zero j) = false.
Proof. intros. destruct j; simpl; auto with go. Qed.

(** A slice decodes element by element, in order. *)
Lemma decode_elems_length (dec : json -> result T) l xs :
  decode_elems dec l = Ok xs -> length xs = length l.
Proof.
  revert xs. induction l as [|j l IH]; intros xs; simpl.
  - by intros [= <-].
  - intros (x & _ & (xs' & Hxs & [= <-])%rbind_Ok_inv)%rbind_Ok_inv.
    simpl. f_equal. by apply IH.
Qed.

Lemma decode_elems_lookup (dec : json -> result T) l xs i j :
  decode_elems dec l = Ok xs -> l !! i = Some j ->
  exists x, xs !! i = Some x /\ dec j = Ok x.
Proof.
  revert xs i. induction l as [|j' l IH]; intros xs i; simpl; [done|].
  intros (x & Hx & (xs' & Hxs & [= <-])%rbind_Ok_inv)%rbind_Ok_inv.
  destruct i as [|i]; simpl.
  - intros [= ->]. eauto.
  - eauto.
Qed.

End Decoding.

Lemma Unmarshal_no_Panic {T} (dec : json -> result T) data :
  (forall j, is_Panic (dec j) = false) -> is_Panic (Unmarshal dec data) = false.
Proof. intros. destruct data; simpl; auto. Qed.

Lemma Unmarshal_Raw {T} (dec : json -> result T) s :
  Unmarshal dec (Raw s) = Err syntax_error.
Proof. reflexivity. Qed.

(** Keys are matched up to ASCII case. *)
Lemma equal_fold_refl s : equal_fold s s = true.
Proof. unfold equal_fold. by rewrite bool_decide_eq_true. Qed.

Lemma find_index_Some p names i :
  find_index p names = Some i ->
  exists n, names !! i = Some n /\ p n = true
            /\ forall k m, k < i -> names !! k = Some m -> p m = false.
Proof.
  revert i. induction names as [|n names IH]; intros i; simpl; [done|].
  destruct (p n) eqn:Hp.
  - intros [= <-]. exists n. split_and!; [done | done | lia].
  - destruct (find_index p names) as [i'|]; [|done]. intros [= <-].
    destruct (IH i' eq_refl) as (n' & ? & ? & Hmin).
    exists n'. split_and!; [done | done |].
    intros [|k] m Hk; simpl; [naive_solver | intros; eapply Hmin; [|done]; lia].
Qed.

Lemma field_of_exact names key i :
  NoDup names -> names !! i = Some key -> field_of names key = Some i.
Proof.
  intros Hnd Hi. unfold field_of.
  assert (H : find_index (fun n => bool_decide (n = key)) names = Some i);
    [|by rewrite H].
  revert i Hi. induction Hnd as [|n names Hn Hnd IH]; intros i; [done|].
  simpl. destruct i as [|i]; simpl.
  - intros [= ->]. by rewrite bool_decide_true.
  - intros Hi. case_bool_decide as E.
    + subst. exfalso. apply Hn. by eapply list_elem_of_lookup_2.
    + by rewrite (IH i Hi).
Qed.
