(* ===== verification/Wire.v ===== *)
(** * Wire: the structures of [portainer.go] and their JSON form

    One module per structure of [src/lib/portainer/portainer.go] lines
    14-38, with the record, its zero value, the wire names its field tags
    give, and the decoder [json.Unmarshal] runs for it; then the decoders
    of the two anonymous response structures of [Auth] and
    [GetEndpointByName], and the documents [json.Marshal] builds from the
    anonymous request structures. *)

From S2P Require Import Prelude Json.

#[local] Open Scope string_scope.
#[local] Open Scope list_scope.
#[local] Open Scope go_scope.

(** ** [type Env struct] *)

Module Env.

Record t : Type := mk { Name : string; Value : string }.

Definition zero : t := mk "" "".

Definition names : list string := ["name"; "value"].

Definition set (i : nat) (v : json) (e : t) : result t :=
  let '(mk name value) := e in
  match i with
  | 0 => let? name := decode_string name v in Ok (mk name value)
  | 1 => let? value := decode_string value v in Ok (mk name value)
  | _ => Ok e
  end.

Definition decode : t -> json -> result t :=
  decode_struct "portainer.Env" names set.

Definition marshal (e : t) : json :=
  JObject [("name", JString (Name e)); ("value", JString (Value e))].

End Env.

(** A [[]*Env] field or argument.  The nil slice marshals to [null], and
    the program never builds an empty slice that is not nil. *)
Definition marshal_envs (env : list Env.t) : json :=
  match env with
  | [] => JNull
  | _ => JArray (Env.marshal <$> env)
  end.

Definition decode_envs : json -> result (list (option Env.t)) :=
  decode_slice "[]*portainer.Env" (decode_ptr Env.decode Env.zero).

(** ** [type Stack struct] *)

Module Stack.

Record t : Type := mk {
  Id : Z;
  Name : string;
  Type_ : Z;
  EndpointID : Z;
  EntryPoint : string;
  SwarmID : string;
  ProjectPath : string;
  Env : list (option Env.t)
}.

Definition zero : t := mk 0 "" 0 0 "" "" "" [].

Definition names : list string :=
  ["Id"; "Name"; "Type"; "EndpointID"; "EntryPoint"; "SwarmID";
   "ProjectPath"; "Env"].

Definition set (i : nat) (v : json) (s : t) : result t :=
  let '(mk id name ty eid entry swarm path env) := s in
  match i with
  | 0 => let? id := decode_int id v in Ok (mk id name ty eid entry swarm path env)
  | 1 => let? name := decode_string name v in Ok (mk id name ty eid entry swarm path env)
  | 2 => let? ty := decode_int ty v in Ok (mk id name ty eid entry swarm path env)
  | 3 => let? eid := decode_int eid v in Ok (mk id name ty eid entry swarm path env)
  | 4 => let? entry := decode_string entry v in Ok (mk id name ty eid entry swarm path env)
  | 5 => let? swarm := decode_string swarm v in Ok (mk id name ty eid entry swarm path env)
  | 6 => let? path := decode_string path v in Ok (mk id name ty eid entry swarm path env)
  | 7 => let? env := decode_envs v in Ok (mk id name ty eid entry swarm path env)
  | _ => Ok s
  end.

Definition decode : t -> json -> result t :=
  decode_struct "portainer.Stack" names set.

End Stack.

(** ** [type Endpoint struct] *)

Module Endpoint.

Record t : Type := mk {
  Id : Z;
  Name : string;
  Type_ : Z;
  URL : string;
  GroupId : Z;
  PublicURL : string;
  SwarmID : string
}.

Definition zero : t := mk 0 "" 0 "" 0 "" "".

Definition names : list string :=
  ["Id"; "Name"; "Type"; "URL"; "GroupId"; "PublicURL"; "SwarmID"].

Definition set (i : nat) (v : json) (e : t) : result t :=
  let '(mk id name ty url gid purl swarm) := e in
  match i with
  | 0 => let? id := decode_int id v in Ok (mk id name ty url gid purl swarm)
  | 1 => let? name := decode_string name v in Ok (mk id name ty url gid purl swarm)
  | 2 => let? ty := decode_int ty v in Ok (mk id name ty url gid purl swarm)
  | 3 => let? url := decode_string url v in Ok (mk id name ty url gid purl swarm)
  | 4 => let? gid := decode_int gid v in Ok (mk id name ty url gid purl swarm)
  | 5 => let? purl := decode_string purl v in Ok (mk id name ty url gid purl swarm)
  | 6 => let? swarm := decode_string swarm v in Ok (mk id name ty url gid purl swarm)
  | _ => Ok e
  end.

Definition decode : t -> json -> result t :=
  decode_struct "portainer.Endpoint" names set.

(** The assignment [e.SwarmID = id]. *)
Definition with_SwarmID (e : t) (id : string) : t :=
  mk (Id e) (Name e) (Type_ e) (URL e) (GroupId e) (PublicURL e) id.

End Endpoint.

(** ** The destinations of [json.Unmarshal] in the client *)

(** [var endpoints []*Endpoint] *)
Definition decode_endpoints : json -> result (list (option Endpoint.t)) :=
  decode_slice "[]*portainer.Endpoint" (decode_ptr Endpoint.decode Endpoint.zero).

(** [var stacks []*Stack] *)
Definition decode_stacks : json -> result (list (option Stack.t)) :=
  decode_slice "[]*portainer.Stack" (decode_ptr Stack.decode Stack.zero).

(** [var auth struct { JWT string `json:"jwt"` }], read at [auth.JWT]. *)
Definition decode_auth : json -> result string :=
  decode_struct "struct { JWT string }" ["jwt"]
    (fun i v jwt => match i with 0 => decode_string jwt v | _ => Ok jwt end) "".

(** [var swarm struct { ID string }], read at [swarm.ID]. *)
Definition decode_swarm : json -> result string :=
  decode_struct "struct { ID string }" ["ID"]
    (fun i v id => match i with 0 => decode_string id v | _ => Ok id end) "".

(** ** The arguments of [json.Marshal] in the client *)

(** The credentials of [Auth]: a structure without tags. *)
Definition auth_args (user pass : string) : json :=
  JObject [("Username", JString user); ("Password", JString pass)].

(** The creation request of [DeployStackFromGit]. *)
Definition deploy_git_args (name swarm repo path user pass : string)
    (env : list Env.t) : json :=
  JObject [
    ("Name", JString name);
    ("SwarmID", JString swarm);
    ("RepositoryURL", JString repo);
    ("ComposeFilePathInRepository", JString path);
    ("RepositoryAuthentication",
      JBool (bool_decide (0 < String.length user)
             && bool_decide (0 < String.length pass)));
    ("RepositoryUsername", JString user);
    ("RepositoryPassword", JString pass);
    ("Env", marshal_envs env)].

(** The creation request of [DeployStackFromString]. *)
Definition deploy_string_args (name swarm config : string) (env : list Env.t)
    : json :=
  JObject [
    ("Name", JString name);
    ("SwarmID", JString swarm);
    ("StackFileContent", JString config);
    ("Env", marshal_envs env)].

(** The replacement request of [UpdateStackFromString]. *)
Definition update_args (config : string) (prune : bool) (env : list Env.t)
    : json :=
  JObject [
    ("StackFileContent", JString config);
    ("Prune", JBool prune);
    ("Env", marshal_envs env)].

#[export] Instance Env_eq_dec : EqDecision Env.t.
Proof. solve_decision. Defined.
#[export] Instance Stack_eq_dec : EqDecision Stack.t.
Proof. solve_decision. Defined.
#[export] Instance Endpoint_eq_dec : EqDecision Endpoint.t.
Proof. solve_decision. Defined.

(** ** Decoding never panics *)

Lemma Env_set_no_Panic i v e : is_Panic (Env.set i v e) = false.
Proof.
  destruct e. do 2 (destruct i as [|i]; [by destruct v|]). done.
Qed.

Lemma Env_decode_no_Panic c j : is_Panic (Env.decode c j) = false.
Proof. apply decode_struct_no_Panic, Env_set_no_Panic. Qed.

Lemma decode_envs_no_Panic j : is_Panic (decode_envs j) = false.
Proof.
  apply decode_slice_no_Panic. intros. apply decode_ptr_no_Panic.
  apply Env_decode_no_Panic.
Qed.

#[export] Hint Resolve decode_string_no_Panic decode_int_no_Panic
  decode_envs_no_Panic : go.

Lemma Stack_set_no_Panic i v s : is_Panic (Stack.set i v s) = false.
Proof.
  destruct s. do 8 (destruct i as [|i]; [simpl; auto with go|]). done.
Qed.

Lemma Endpoint_set_no_Panic i v e : is_Panic (Endpoint.set i v e) = false.
Proof.
  destruct e. do 7 (destruct i as [|i]; [simpl; auto with go|]). done.
Qed.

Lemma decode_stacks_no_Panic j : is_Panic (decode_stacks j) = false.
Proof.
  apply decode_slice_no_Panic. intros. apply decode_ptr_no_Panic.
  intros. apply decode_struct_no_Panic, Stack_set_no_Panic.
Qed.

Lemma decode_endpoints_no_Panic j : is_Panic (decode_endpoints j) = false.
Proof.
  apply decode_slice_no_Panic. intros. apply decode_ptr_no_Panic.
  intros. apply decode_struct_no_Panic, Endpoint_set_no_Panic.
Qed.

Lemma decode_auth_no_Panic j : is_Panic (decode_auth j) = false.
Proof.
  apply decode_struct_no_Panic. intros [|i] v a; simpl; auto with go.
Qed.

Lemma decode_swarm_no_Panic j : is_Panic (decode_swarm j) = false.
Proof.
  apply decode_struct_no_Panic. intros [|i] v a; simpl; auto with go.
Qed.

#[export] Hint Resolve decode_stacks_no_Panic decode_endpoints_no_Panic
  decode_auth_no_Panic decode_swarm_no_Panic : go.

(** ** What the token and cluster decoders accept *)

Lemma decode_auth_null : decode_auth JNull = Ok "".
Proof. reflexivity. Qed.

Lemma decode_auth_jwt t : decode_auth (JObject [("jwt", JString t)]) = Ok t.
Proof. reflexivity. Qed.

Lemma decode_auth_empty_object : decode_auth (JObject []) = Ok "".
Proof. reflexivity. Qed.

Lemma decode_swarm_ID id : decode_swarm (JObject [("ID", JString id)]) = Ok id.
Proof. reflexivity. Qed.

(** ** Round trip of environment entries *)

Lemma Env_decode_marshal c e : Env.decode c (Env.marshal e) = Ok e.
Proof. by destruct c, e. Qed.

Lemma decode_elems_marshal_envs (env : list Env.t) :
  decode_elems (decode_ptr Env.decode Env.zero) (Env.marshal <$> env)
  = Ok (Some <$> env).
Proof.
  induction env as [|e env IH]; [done|]. rewrite !fmap_cons. simpl.
  rewrite IH. by destruct e.
Qed.

(** ** Theorems on the codecs *)


(** Decoding a message body never panics, whatever the server sent:
    it yields a value or an error. *)
Theorem decoders_never_panic (data : bytes) :
  is_Panic (Unmarshal decode_auth data) = false
  /\ is_Panic (Unmarshal decode_swarm data) = false
  /\ is_Panic (Unmarshal decode_endpoints data) = false
  /\ is_Panic (Unmarshal decode_stacks data) = false.
Proof. split_and!; apply Unmarshal_no_Panic; auto with go. Qed.

(** The token is read from the member [jwt] under any spelling of its
    case, and a login reply that is [null] or an object without that
    member decodes to the empty token. *)
Theorem decode_auth_lenient (key t : string) :
  equal_fold "jwt" key = true ->
  decode_auth (JObject [(key, JString t)]) = Ok t
  /\ decode_auth JNull = Ok ""
  /\ decode_auth (JObject []) = Ok "".
Proof.
  intros Hk. split_and!; [|done..].
  unfold decode_auth, decode_struct. simpl. unfold field_of. simpl.
  case_bool_decide; [done|]. by rewrite Hk.
Qed.


(** ** The theorems at concrete documents *)

Lemma decode_auth_lenient_witness :
  decode_auth (JObject [("JWT", JString "token")]) = Ok "token"
  /\ decode_auth JNull = Ok ""
  /\ decode_auth (JObject []) = Ok "".
Proof. apply decode_auth_lenient. reflexivity. Defined.
