(* ===== verification/Http.v ===== *)
(** * Http: requests, responses, the platform and the world

    The program talks to its surroundings through [net/http], [io/ioutil],
    [time], [fmt] and two URL libraries.  The class [Platform] collects
    what the surroundings give the program: the server behind
    [http.Client.Do], the file system, the clock.  The class [GoLib]
    collects the pure library functions the model leaves open: URL parsing
    and printing, the rendering of a duration.  A
    [World] is the state of the surroundings together with what the program
    has done to them so far: the requests it sent, each with the client it
    went through and what came back, what it printed, how many response
    bodies it holds open.  [M] is the monad of Go code that
    runs in a world and yields a [result]. *)

From S2P Require Import Prelude Json.

#[local] Open Scope string_scope.
#[local] Open Scope list_scope.
#[local] Open Scope go_scope.

(** ** Messages *)

(** The settings of the [http.Client] the program builds: its transport's
    [tls.Config]. *)
Record Client : Type := mkClient { InsecureSkipVerify : bool }.

Record Request : Type := mkRequest {
  Method : string;
  Url : string;
  Header : list (string * string);
  Body : option bytes
}.

(** A response: the body is what [ioutil.ReadAll] returns for it. *)
Record Response : Type := mkResponse {
  StatusCode : Z;
  Status : string;
  RspBody : error + bytes
}.

(** A parsed address, [net/url.URL], as far as the program reads and writes
    it; [Rest] stands for the fields it never touches. *)
Record URL : Type := mkURL {
  Scheme : string;
  Host : string;
  Rest : string
}.

#[export] Instance Client_eq_dec : EqDecision Client.
Proof. solve_decision. Defined.
#[export] Instance Request_eq_dec : EqDecision Request.
Proof. solve_decision. Defined.
#[export] Instance Response_eq_dec : EqDecision Response.
Proof. solve_decision. Defined.
#[export] Instance URL_eq_dec : EqDecision URL.
Proof. solve_decision. Defined.

(** ** The libraries and the platform *)

(** The pure library functions the program calls and the model leaves
    open. *)
Class GoLib : Type := {
  (** the error of [url.Parse] inside [http.NewRequest], if any *)
  url_error : string -> option error;
  (** [req.URL.String()] for the request made from this URL text *)
  url_String : string -> string;
  (** [urlx.Parse] *)
  urlx_Parse : string -> error + URL;
  (** [urlx.Normalize] *)
  urlx_Normalize : URL -> error + string;
  (** [URL.Port] *)
  url_Port : URL -> string;
  (** [time.Duration.String] *)
  duration_string : Z -> string
}.

(** The surroundings of the program, over their state [S] (the server, the
    file system, the clock). *)
Class Platform (S : Type) : Type := {
  (** [http.Client.Do]: the whole exchange, redirects included. *)
  round_trip : Client -> Request -> S -> (error + Response) * S;
  (** [ioutil.ReadFile] *)
  read_file : string -> S -> error + string;
  (** [time.Now], in nanoseconds *)
  now : S -> Z
}.

(** ** The world *)

(** One [http.Client.Do]: the client that sent the request, the request
    and what came back. *)
Record Exchange : Type := mkExchange {
  via : Client;
  request : Request;
  reply : error + Response
}.

Record World (S : Type) : Type := mkWorld {
  outside : S;
  trace : list Exchange;
  stdout : list string;
  open_bodies : nat
}.
Arguments mkWorld {S} _ _ _ _.
Arguments outside {S} _.
Arguments trace {S} _.
Arguments stdout {S} _.
Arguments open_bodies {S} _.

(** A world in which the program has done nothing yet. *)
Definition initial {S} (s : S) : World S := mkWorld s [] [] 0.

(** The requests of a trace, oldest first. *)
Definition requests {S} (w : World S) : list Request := request <$> trace w.

(** The world after one exchange whose body, if any, has been closed. *)
Definition record {S} (w : World S) (client : Client) (req : Request)
    (r : error + Response) (s' : S) : World S :=
  mkWorld s' (trace w ++ [mkExchange client req r]) (stdout w) (open_bodies w).

(** The world after printing. *)
Definition printed {S} (w : World S) (lines : list string) : World S :=
  mkWorld (outside w) (trace w) (stdout w ++ lines) (open_bodies w).

(** ** The monad *)

Definition M (S A : Type) : Type := World S -> result A * World S.

Definition ret {S A} (a : A) : M S A := fun w => (Ok a, w).

Definition bind {S A B} (c : M S A) (k : A -> M S B) : M S B :=
  fun w =>
    match c w with
    | (Ok a, w') => k a w'
    | (Err e, w') => (Err e, w')
    | (Panic p, w') => (Panic p, w')
    end.

(** A call that touches nothing: [return v, err]. *)
Definition lift {S A} (r : result A) : M S A := fun w => (r, w).

(** [return err] *)
Definition raise {S A} (e : error) : M S A := lift (Err e).

(** [v, err := c] with the error kept as a value for the caller to test. *)
Definition try {S A} (c : M S A) : M S (error + A) :=
  fun w =>
    match c w with
    | (Ok a, w') => (Ok (inr a), w')
    | (Err e, w') => (Ok (inl e), w')
    | (Panic p, w') => (Panic p, w')
    end.

Notation "x <- c ;; k" := (bind c (fun x => k))
  (at level 100, c at next level, right associativity) : go_scope.
Notation "c ;; k" := (bind c (fun _ => k))
  (at level 100, right associativity) : go_scope.

(** [if err != nil { h; return err }] around the call [c]. *)
Definition or_else {S A} (c : M S A) (h : M S unit) : M S A :=
  r <- try c ;;
  match r with
  | inr a => ret a
  | inl e => h ;; raise e
  end.

Section Primitives.
Context `{!GoLib} {S : Type} `{!Platform S}.

(** [fmt.Printf] with its format already applied. *)
Definition Printf (s : string) : M S unit :=
  fun w => (Ok tt, mkWorld (outside w) (trace w) (stdout w ++ [s]) (open_bodies w)).

(** [http.NewRequest] with one of the constant methods of the program. *)
Definition NewRequest (method url : string) (body : option bytes)
    : M S Request :=
  match url_error url with
  | Some e => raise e
  | None => ret (mkRequest method url [] body)
  end.

(** [req.Header.Add(key, value)] *)
Definition Header_Add (req : Request) (key value : string) : Request :=
  mkRequest (Method req) (Url req) (Header req ++ [(key, value)]) (Body req).

(** [client.Do(req)]: the request is recorded, the surroundings take a
    step, and a response comes with a body to close. *)
Definition Do (client : Client) (req : Request) : M S Response :=
  fun w =>
    match round_trip client req (outside w) with
    | (inr rsp, s') =>
        (Ok rsp, mkWorld s' (trace w ++ [mkExchange client req (inr rsp)]) (stdout w)
                   (Datatypes.S (open_bodies w)))
    | (inl e, s') =>
        (Err e, mkWorld s' (trace w ++ [mkExchange client req (inl e)]) (stdout w)
                  (open_bodies w))
    end.

(** [rsp.Body.Close()] *)
Definition Close : M S unit :=
  fun w => (Ok tt, mkWorld (outside w) (trace w) (stdout w) (pred (open_bodies w))).

(** [defer rsp.Body.Close()] followed by the rest [c] of the function: the
    body is closed however [c] ends. *)
Definition defer_close {A} (c : M S A) : M S A :=
  fun w => let '(r, w') := c w in (r, (Close w').2).

(** [ioutil.ReadAll(rsp.Body)] *)
Definition ReadAll (rsp : Response) : M S bytes := lift (of_sum (RspBody rsp)).

(** [ioutil.ReadFile(path)] *)
Definition ReadFile (path : string) : M S string :=
  fun w => (of_sum (read_file path (outside w)), w).

(** [time.Now()] *)
Definition Now : M S Z := fun w => (Ok (now (outside w)), w).

(** [time.Since(start)], formatted by [%s]. *)
Definition Since (start : Z) : M S string :=
  fun w => (Ok (duration_string (now (outside w) - start)), w).

End Primitives.

(** ** Laws of the monad *)

Section Laws.
Context {S A B C : Type}.
Implicit Types (c : M S A) (k : A -> M S B) (w : World S).

Lemma bind_ret_l a k w : bind (ret a) k w = k a w.
Proof. reflexivity. Qed.

Lemma bind_ret_r c w : bind c ret w = c w.
Proof. unfold bind, ret. by destruct (c w) as [[]]. Qed.

Lemma bind_assoc c k (h : B -> M S C) w :
  bind (bind c k) h w = bind c (fun a => bind (k a) h) w.
Proof. unfold bind. by destruct (c w) as [[]]. Qed.

Lemma bind_lift_Ok a k w : bind (lift (Ok a)) k w = k a w.
Proof. reflexivity. Qed.

Lemma bind_Ok c k w a w' : c w = (Ok a, w') -> bind c k w = k a w'.
Proof. unfold bind. by intros ->. Qed.

Lemma bind_Err c k w e w' : c w = (Err e, w') -> bind c k w = (Err e, w').
Proof. unfold bind. by intros ->. Qed.

Lemma bind_Panic c k w p w' :
  c w = (Panic p, w') -> bind c k w = (Panic p, w').
Proof. unfold bind. by intros ->. Qed.

(** How a bind can end. *)
Lemma bind_inv c k w r w'' :
  bind c k w = (r, w'') ->
  (exists a w', c w = (Ok a, w') /\ k a w' = (r, w'')) \/
  (exists e, c w = (Err e, w'') /\ r = Err e) \/
  (exists p, c w = (Panic p, w'') /\ r = Panic p).
Proof.
  unfold bind. destruct (c w) as [[a|e|p] w'] eqn:E.
  - left. eauto.
  - intros [= <- <-]. right. left. eauto.
  - intros [= <- <-]. right. right. eauto.
Qed.

Lemma bind_Ok_inv c k w b w'' :
  bind c k w = (Ok b, w'') ->
  exists a w', c w = (Ok a, w') /\ k a w' = (Ok b, w'').
Proof. intros [H|[(e&_&?)|(p&_&?)]]%bind_inv; done. Qed.

Lemma try_Ok c w a w' : c w = (Ok a, w') -> try c w = (Ok (inr a), w').
Proof. unfold try. by intros ->. Qed.

Lemma try_Err c w e w' : c w = (Err e, w') -> try c w = (Ok (inl e), w').
Proof. unfold try. by intros ->. Qed.

Lemma try_Panic c w p w' : c w = (Panic p, w') -> try c w = (Panic p, w').
Proof. unfold try. by intros ->. Qed.

Lemma or_else_Ok c (h : M S unit) w a w' :
  c w = (Ok a, w') -> or_else c h w = (Ok a, w').
Proof. intros H. unfold or_else, bind, try. by rewrite H. Qed.

Lemma or_else_Err c (h : M S unit) w e w' w'' :
  c w = (Err e, w') -> h w' = (Ok tt, w'') -> or_else c h w = (Err e, w'').
Proof. intros H Hh. unfold or_else, bind, try. by rewrite H, Hh. Qed.

Lemma or_else_Panic c (h : M S unit) w p w' :
  c w = (Panic p, w') -> or_else c h w = (Panic p, w').
Proof. intros H. unfold or_else, bind, try. by rewrite H. Qed.

End Laws.

(** ** Running the primitives *)

Section Running.
Context `{!GoLib} {S : Type} `{!Platform S}.
Context {A B : Type}.
Implicit Types (w : World S) (r : result A).

Lemma bind_lift r (k : A -> M S B) w :
  bind (lift r) k w =
  match r with
  | Ok a => k a w
  | Err e => (Err e, w)
  | Panic p => (Panic p, w)
  end.
Proof. by destruct r. Qed.

Lemma bind_lift_lift r (f : A -> result B) w :
  bind (lift r) (fun a => lift (f a)) w = lift (rbind r f) w.
Proof. by destruct r. Qed.

Lemma Printf_run s w : Printf s w = (Ok tt, printed w [s]).
Proof. reflexivity. Qed.

Lemma printed_app w l1 l2 : printed (printed w l1) l2 = printed w (l1 ++ l2).
Proof. unfold printed. simpl. by rewrite <- (assoc_L (++)). Qed.

(** One exchange whose reply is interpreted by a pure function: the
    outcome and the world after it, the body closed. *)
Definition exchanged (client : Client) (req : Request)
    (f : Response -> result A) (w : World S) : result A * World S :=
  let '(r, s') := round_trip client req (outside w) in
  (match r with inl e => Err e | inr rsp => f rsp end, record w client req r s').

Lemma Do_defer_close client req (f : Response -> result A) w :
  bind (Do client req) (fun rsp => defer_close (lift (f rsp))) w
  = exchanged client req f w.
Proof.
  unfold bind, Do, defer_close, exchanged, record, lift.
  by destruct (round_trip client req (outside w)) as [[e|rsp] s'].
Qed.

(** [NewRequest] followed by the rest of a method. *)
Lemma bind_NewRequest method url body (k : Request -> M S B) w :
  bind (NewRequest method url body) k w =
  match url_error url with
  | Some e => (Err e, w)
  | None => k (mkRequest method url [] body) w
  end.
Proof. unfold NewRequest. by destruct (url_error url). Qed.

End Running.

(** ** What a computation leaves untouched *)

Section Extends.
Context `{!GoLib} {S : Type} `{!Platform S}.

(** [w'] is [w] after more exchanges and more output, with every body that
    was opened in between closed again. *)
Definition extends (w w' : World S) : Prop :=
  trace w `prefix_of` trace w' /\ stdout w `prefix_of` stdout w'
  /\ open_bodies w' = open_bodies w.

#[export] Instance extends_preorder : PreOrder extends.
Proof.
  split.
  - intros w. by split_and!.
  - intros w1 w2 w3 (?&?&?) (?&?&?). split_and!; [by etrans.. | congruence].
Qed.

(** Every run of [c] extends the world it starts in. *)
Definition tidy {A} (c : M S A) : Prop := forall w, extends w (c w).2.

Lemma tidy_ret {A} (a : A) : tidy (ret a).
Proof. intros w. reflexivity. Qed.

Lemma tidy_lift {A} (r : result A) : tidy (lift r).
Proof. intros w. reflexivity. Qed.

Lemma tidy_raise {A} e : tidy (@raise S A e).
Proof. intros w. reflexivity. Qed.

Lemma tidy_bind {A B} (c : M S A) (k : A -> M S B) :
  tidy c -> (forall a, tidy (k a)) -> tidy (bind c k).
Proof.
  intros Hc Hk w. specialize (Hc w). unfold bind.
  destruct (c w) as [[a|e|p] w']; simpl in *; [|done..].
  etrans; [done|]. apply Hk.
Qed.

Lemma tidy_try {A} (c : M S A) : tidy c -> tidy (try c).
Proof.
  intros Hc w. specialize (Hc w). unfold try.
  by destruct (c w) as [[a|e|p] w'].
Qed.

Lemma tidy_Printf s : tidy (Printf s).
Proof. intros w. split_and!; simpl; [done | by apply prefix_app_r | done]. Qed.

Lemma tidy_ReadFile path : tidy (ReadFile path).
Proof. intros w. reflexivity. Qed.

Lemma tidy_Now : tidy Now.
Proof. intros w. reflexivity. Qed.

Lemma tidy_Since start : tidy (Since start).
Proof. intros w. reflexivity. Qed.

Lemma tidy_NewRequest method url body : tidy (NewRequest method url body).
Proof. unfold NewRequest. destruct (url_error url); [apply tidy_raise | apply tidy_ret]. Qed.

Lemma tidy_or_else {A} (c : M S A) h : tidy c -> tidy h -> tidy (or_else c h).
Proof.
  intros Hc Hh. apply tidy_bind; [by apply tidy_try|].
  intros [e|a]; [|apply tidy_ret].
  apply tidy_bind; [done | intros; apply tidy_raise].
Qed.

(** The block every method is made of: send, defer the close, interpret. *)
Lemma tidy_exchange {A} client req (k : Response -> M S A) :
  (forall rsp, tidy (k rsp)) ->
  tidy (bind (Do client req) (fun rsp => defer_close (k rsp))).
Proof.
  intros Hk w. unfold bind, Do, defer_close.
  destruct (round_trip client req (outside w)) as [[e|rsp] s'].
  - split_and!; simpl; [by apply prefix_app_r | done..].
  - match goal with |- context [k rsp ?w1] =>
      specialize (Hk rsp w1); destruct (k rsp w1) as [r w2] end.
    destruct Hk as (Ht & Ho & Hb). simpl in *. split_and!; simpl.
    + etrans; [|done]. by apply prefix_app_r.
    + done.
    + by rewrite Hb.
Qed.

End Extends.

#[export] Hint Resolve tidy_ret tidy_lift tidy_raise tidy_bind tidy_try
  tidy_Printf tidy_ReadFile tidy_Now tidy_Since tidy_NewRequest tidy_or_else
  tidy_exchange : go.

(** ** Methods as calls *)

Section Call.
Context `{!GoLib} {S : Type} `{!Platform S}.

(** What every method of the client amounts to: the request is checked by
    [http.NewRequest], sent, and the reply interpreted by a pure function
    once the deferred close has run. *)
Definition call {A} (client : Client) (req : Request)
    (f : Response -> result A) : M S A :=
  fun w =>
    match url_error (Url req) with
    | Some e => (Err e, w)
    | None => exchanged client req f w
    end.

Lemma tidy_call {A} client req (f : Response -> result A) :
  tidy (call client req f).
Proof.
  intros w. unfold call, exchanged.
  destruct (url_error (Url req)); [reflexivity|].
  destruct (round_trip client req (outside w)) as [r s'].
  split_and!; simpl; [by apply prefix_app_r | done..].
Qed.

(** A call sends at most one request, and none when the URL is refused. *)
Lemma call_trace {A} client req (f : Response -> result A) w :
  trace (call client req f w).2 = trace w
  \/ exists r, trace (call client req f w).2 = trace w ++ [mkExchange client req r].
Proof.
  unfold call, exchanged. destruct (url_error (Url req)); [by left|].
  destruct (round_trip client req (outside w)) as [r s']. right. by exists r.
Qed.

(** A call that succeeds has sent its request and got a response that the
    interpreter accepts. *)
Lemma call_Ok {A} client req (f : Response -> result A) w a w' :
  call client req f w = (Ok a, w') ->
  exists rsp, f rsp = Ok a /\ url_error (Url req) = None
    /\ round_trip client req (outside w) = (inr rsp, outside w')
    /\ w' = record w client req (inr rsp) (outside w').
Proof.
  unfold call, exchanged. destruct (url_error (Url req)); [done|].
  destruct (round_trip client req (outside w)) as [[e|rsp] s']; [done|].
  intros [= Hf <-]. by exists rsp.
Qed.

(** A call panics only when its interpreter does. *)
Lemma call_Panic {A} client req (f : Response -> result A) w p w' :
  call client req f w = (Panic p, w') -> exists rsp, f rsp = Panic p.
Proof.
  unfold call, exchanged. destruct (url_error (Url req)); [done|].
  destruct (round_trip client req (outside w)) as [[e|rsp] s']; [done|].
  intros [= Hf <-]. by exists rsp.
Qed.

End Call.

#[export] Hint Resolve tidy_call : go.

(** Unfolds the primitives of the monad so that a method becomes a term in
    the replies of the platform. *)
Ltac go_unfold :=
  unfold call, exchanged, or_else, try, bind, Do, defer_close, Close,
    NewRequest, ReadAll, ReadFile, Now, Since, Printf, raise, lift, ret,
    record, printed in *.

(** ** Computations up to their runs

    Two computations are equivalent when they run alike in every world.
    The combinators respect the equivalence, so that a method can be
    replaced by its [call] under binds. *)

Section Equiv.
Context `{!GoLib} {S : Type} `{!Platform S}.

#[export] Instance M_equiv {A} : Equiv (M S A) := fun c c' => forall w, c w = c' w.

#[export] Instance M_equivalence {A} : Equivalence (≡@{M S A}).
Proof.
  split.
  - by intros c w.
  - intros c c' E w. by rewrite E.
  - intros c1 c2 c3 E1 E2 w. by rewrite E1.
Qed.

#[export] Instance bind_proper {A B} :
  Proper ((≡) ==> pointwise_relation A (≡) ==> (≡)) (@bind S A B).
Proof.
  intros c c' Ec k k' Ek w. unfold bind. rewrite Ec.
  destruct (c' w) as [[a|e|p] w']; [apply Ek | done..].
Qed.

#[export] Instance try_proper {A} : Proper ((≡) ==> (≡)) (@try S A).
Proof. intros c c' Ec w. unfold try. by rewrite Ec. Qed.

#[export] Instance or_else_proper {A} :
  Proper ((≡) ==> (≡) ==> (≡)) (@or_else S A).
Proof.
  intros c c' Ec h h' Eh. unfold or_else. apply bind_proper; [by rewrite Ec|].
  intros [e|a]; [|done]. by apply bind_proper.
Qed.

#[export] Instance tidy_proper {A} : Proper ((≡) ==> iff) (@tidy S A).
Proof.
  intros c c' Ec. unfold tidy. split; intros Ht w; specialize (Ht w).
  - by rewrite <- Ec.
  - by rewrite Ec.
Qed.

End Equiv.

(** ** The exchanges of a run *)

Section Sent.
Context `{!GoLib} {S : Type} `{!Platform S}.
Implicit Types (w : World S).

(** The exchanges [c] makes when run in [w], oldest first. *)
Definition sent {A} (c : M S A) (w : World S) : list Exchange :=
  drop (length (trace w)) (trace (c w).2).

(** What [c] prints when run in [w]. *)
Definition output {A} (c : M S A) (w : World S) : list string :=
  drop (length (stdout w)) (stdout (c w).2).

Lemma extends_trace w w' :
  extends w w' -> trace w' = trace w ++ drop (length (trace w)) (trace w').
Proof. intros ([t ->]&_&_). by rewrite drop_app_length. Qed.

Lemma extends_stdout w w' :
  extends w w' -> stdout w' = stdout w ++ drop (length (stdout w)) (stdout w').
Proof. intros (_&[o ->]&_). by rewrite drop_app_length. Qed.

Lemma sent_spec {A} (c : M S A) w :
  tidy c -> trace (c w).2 = trace w ++ sent c w.
Proof. intros Hc. apply extends_trace, Hc. Qed.

Lemma output_spec {A} (c : M S A) w :
  tidy c -> stdout (c w).2 = stdout w ++ output c w.
Proof. intros Hc. apply extends_stdout, Hc. Qed.

Lemma sent_eq {A} (c : M S A) w t :
  trace (c w).2 = trace w ++ t -> sent c w = t.
Proof. unfold sent. intros ->. by rewrite drop_app_length. Qed.

Lemma output_eq {A} (c : M S A) w o :
  stdout (c w).2 = stdout w ++ o -> output c w = o.
Proof. unfold output. intros ->. by rewrite drop_app_length. Qed.

#[export] Instance sent_proper {A} :
  Proper ((≡) ==> (=) ==> (=)) (@sent A).
Proof. intros c c' Ec w ? <-. unfold sent. by rewrite Ec. Qed.

#[export] Instance output_proper {A} :
  Proper ((≡) ==> (=) ==> (=)) (@output A).
Proof. intros c c' Ec w ? <-. unfold output. by rewrite Ec. Qed.

Lemma sent_lift {A} (r : result A) w : sent (lift r) w = [].
Proof. apply sent_eq. simpl. by rewrite app_nil_r. Qed.

Lemma sent_raise {A} e w : sent (@raise S A e) w = [].
Proof. apply sent_lift. Qed.

Lemma sent_Printf s w : sent (Printf s) w = [].
Proof. apply sent_eq. simpl. by rewrite app_nil_r. Qed.

Lemma output_Printf s w : output (Printf s) w = [s].
Proof. by apply output_eq. Qed.

(** The exchanges of a bind: those of the first part, then those of the
    rest when the first part succeeds. *)
Lemma sent_bind {A B} (c : M S A) (k : A -> M S B) w :
  tidy c -> (forall a, tidy (k a)) ->
  sent (bind c k) w
  = sent c w ++ match c w with
                | (Ok a, w') => sent (k a) w'
                | _ => []
                end.
Proof.
  intros Hc Hk. apply sent_eq. unfold bind.
  pose proof (sent_spec c w Hc) as E.
  destruct (c w) as [[a|e|p] w'] eqn:Ecw; simpl in *;
    rewrite ?app_nil_r; [|done..].
  by rewrite (sent_spec (k a) w' (Hk a)), E, (assoc_L (++)).
Qed.

Lemma output_bind {A B} (c : M S A) (k : A -> M S B) w :
  tidy c -> (forall a, tidy (k a)) ->
  output (bind c k) w
  = output c w ++ match c w with
                  | (Ok a, w') => output (k a) w'
                  | _ => []
                  end.
Proof.
  intros Hc Hk. apply output_eq. unfold bind.
  pose proof (output_spec c w Hc) as E.
  destruct (c w) as [[a|e|p] w'] eqn:Ecw; simpl in *;
    rewrite ?app_nil_r; [|done..].
  by rewrite (output_spec (k a) w' (Hk a)), E, (assoc_L (++)).
Qed.

Lemma sent_try {A} (c : M S A) w : sent (try c) w = sent c w.
Proof. unfold sent, try. by destruct (c w) as [[]]. Qed.

(** A call makes one exchange, unless its URL is refused. *)
Lemma sent_call {A} client req (f : Response -> result A) w :
  sent (call client req f) w
  = match url_error (Url req) with
    | Some _ => []
    | None => [mkExchange client req (round_trip client req (outside w)).1]
    end.
Proof.
  apply sent_eq. unfold call, exchanged.
  destruct (url_error (Url req)); simpl; [by rewrite app_nil_r|].
  by destruct (round_trip client req (outside w)).
Qed.

Lemma sent_call_length {A} client req (f : Response -> result A) w :
  length (sent (call client req f) w) <= 1.
Proof. rewrite sent_call. destruct (url_error _); simpl; lia. Qed.

Lemma sent_call_request {A} client req (f : Response -> result A) w :
  Forall (fun x => request x = req) (sent (call client req f) w).
Proof. rewrite sent_call. destruct (url_error _); repeat constructor. Qed.

(** A call that succeeds has made its exchange. *)
Lemma sent_call_Ok {A} client req (f : Response -> result A) w :
  is_Ok (call client req f w).1 = true -> length (sent (call client req f) w) = 1.
Proof. rewrite sent_call. unfold call. by destruct (url_error _). Qed.

(** Ways to bound what a bind sends by what its parts send: the rest is
    run on what the first part returned. *)
Lemma Forall_sent_bind_Ok {A B} (P : Exchange -> Prop) (c : M S A)
    (k : A -> M S B) w :
  tidy c -> (forall a, tidy (k a)) ->
  Forall P (sent c w) ->
  (forall a w', c w = (Ok a, w') -> Forall P (sent (k a) w')) ->
  Forall P (sent (bind c k) w).
Proof.
  intros Hc Hk H1 H2. rewrite sent_bind by done. apply Forall_app. split; [done|].
  destruct (c w) as [[a|e|p] w']; auto.
Qed.

Lemma Forall_sent_bind {A B} (P : Exchange -> Prop) (c : M S A)
    (k : A -> M S B) w :
  tidy c -> (forall a, tidy (k a)) ->
  Forall P (sent c w) -> (forall a w', Forall P (sent (k a) w')) ->
  Forall P (sent (bind c k) w).
Proof. intros Hc Hk H1 H2. apply Forall_sent_bind_Ok; auto. Qed.

Lemma length_sent_bind {A B} (c : M S A) (k : A -> M S B) w n m :
  tidy c -> (forall a, tidy (k a)) ->
  length (sent c w) <= n -> (forall a w', length (sent (k a) w') <= m) ->
  length (sent (bind c k) w) <= n + m.
Proof.
  intros Hc Hk H1 H2. rewrite sent_bind, length_app by done.
  destruct (c w) as [[a|e|p] w']; simpl; [specialize (H2 a w')|..]; lia.
Qed.

Lemma Forall_sent_call {A} (P : Exchange -> Prop) client req
    (f : Response -> result A) w :
  (forall r, P (mkExchange client req r)) -> Forall P (sent (call client req f) w).
Proof. intros HP. rewrite sent_call. destruct (url_error _); repeat constructor; auto. Qed.

Lemma sent_ret {A} (a : A) w : sent (ret a) w = [].
Proof. apply (sent_lift (Ok a)). Qed.

Lemma sent_Now w : sent Now w = [].
Proof. apply sent_eq. simpl. by rewrite app_nil_r. Qed.

Lemma sent_Since start w : sent (Since start) w = [].
Proof. apply sent_eq. simpl. by rewrite app_nil_r. Qed.

(** Printing sends nothing, before a computation or in its error
    handler. *)
Lemma sent_Printf_bind {A} s (k : M S A) w :
  sent (Printf s ;; k) w = sent k (printed w [s]).
Proof. done. Qed.

Lemma sent_or_else_Printf {A} (c : M S A) s w :
  sent (or_else c (Printf s)) w = sent c w.
Proof. unfold sent, or_else, bind, try. by destruct (c w) as [[]]. Qed.

(** A continuation that sends nothing adds nothing. *)
Lemma sent_bind_quiet {A B} (c : M S A) (k : A -> M S B) w :
  tidy c -> (forall a, tidy (k a)) -> (forall a w', sent (k a) w' = []) ->
  sent (bind c k) w = sent c w.
Proof.
  intros Hc Hk Hq. rewrite sent_bind by done.
  destruct (c w) as [[a|e|p] w']; by rewrite ?Hq, app_nil_r.
Qed.

(** A bind that succeeds has run both parts, and sent what they sent. *)
Lemma bind_Ok_sent {A B} (c : M S A) (k : A -> M S B) w b w'' :
  tidy c -> (forall a, tidy (k a)) ->
  bind c k w = (Ok b, w'') ->
  exists a w', c w = (Ok a, w') /\ k a w' = (Ok b, w'')
    /\ sent (bind c k) w = sent c w ++ sent (k a) w'.
Proof.
  intros Hc Hk (a & w' & Ha & Hb)%bind_Ok_inv. exists a, w'.
  split_and!; [done..|]. by rewrite sent_bind, Ha.
Qed.

End Sent.

#[export] Hint Rewrite @sent_lift @sent_raise @sent_Printf @output_Printf @sent_try
  @sent_Printf_bind @sent_or_else_Printf @sent_ret @sent_Now @sent_Since : go.
