(* ===== verification/Fixture.v ===== *)
(** * Fixture: executable surroundings for concrete runs

    The theorems of the development hold for every [GoLib] and every
    [Platform].  To run the program on concrete inputs, this file gives one
    small instance of each: a URL library that knows the two schemes, and a
    scripted server that answers the requests it receives with the replies
    of a list, in order, while a clock ticks once per exchange.  They are
    plain definitions, not instances: a file that wants them declares them
    instances locally, so that no theorem picks them up by accident.
    Nothing here models code of the repository. *)

From S2P Require Import Prelude GoStrings Json Wire Http.

#[local] Open Scope string_scope.
#[local] Open Scope list_scope.
#[local] Open Scope go_scope.

(** ** A URL library *)

(** [s] without the prefix [p], when it has it. *)
Fixpoint strip_prefix (p s : string) : option string :=
  match p, s with
  | EmptyString, _ => Some s
  | String a p', String b s' => if decide (a = b) then strip_prefix p' s' else None
  | String _ _, EmptyString => None
  end.

(** The empty address does not parse; an address without scheme gets
    [http], as [urlx] documents. *)
Definition fixture_Parse (a : string) : error + URL :=
  if decide (a = "") then inl (LibError goware_urlx "empty url")
  else match strip_prefix "https://" a with
       | Some h => inr (mkURL "https" h "")
       | None =>
           match strip_prefix "http://" a with
           | Some h => inr (mkURL "http" h "")
           | None => inr (mkURL "http" a "")
           end
       end.

Definition fixture_Normalize (u : URL) : error + string :=
  if decide (Host u = "") then inl (LibError goware_urlx "empty host")
  else inr (Scheme u +:+ "://" +:+ Host u).

Definition fixture_lib : GoLib := {|
  url_error := fun _ => None;
  url_String := fun u => u;
  urlx_Parse := fixture_Parse;
  urlx_Normalize := fixture_Normalize;
  url_Port := fun _ => "";
  duration_string := fun d => fmt_d d +:+ "ns"
|}.

(** ** A scripted server *)

Record Script : Type := mkScript {
  replies : list (error + Response);
  files : list (string * string);
  clock : Z
}.

Fixpoint assoc (k : string) (l : list (string * string)) : option string :=
  match l with
  | [] => None
  | (k', v) :: rest => if decide (k' = k) then Some v else assoc k rest
  end.

Definition script_round_trip (c : Client) (req : Request) (s : Script)
    : (error + Response) * Script :=
  match replies s with
  | [] => (inl (LibError net_http "connection refused"), s)
  | r :: rest => (r, mkScript rest (files s) (clock s + 1))
  end.

Definition script_read_file (path : string) (s : Script) : error + string :=
  match assoc path (files s) with
  | Some data => inr data
  | None => inl (LibError io_ioutil ("open " +:+ path +:+ ": no such file or directory"))
  end.

Definition script_platform : Platform Script := {|
  round_trip := script_round_trip;
  read_file := script_read_file;
  now := clock
|}.

(** ** Replies *)

Definition reply (code : Z) (status : string) (j : json) : error + Response :=
  inr (mkResponse code status (inr (Doc j))).

Definition ok_empty : error + Response :=
  inr (mkResponse 200 "200 OK" (inr (Raw ""))).

Definition ok_json (j : json) : error + Response := reply 200 "200 OK" j.

Definition refused : error + Response :=
  inl (LibError net_http "dial tcp: connection refused").

(** The document of an endpoint with the given identifier and name. *)
Definition endpoint_doc (id : Z) (name : string) : json :=
  JObject [("Id", JInt id); ("Name", JString name); ("Type", JInt 1);
           ("URL", JString "unix:///var/run/docker.sock")].

(** The document of a stack. *)
Definition stack_doc (id : Z) (name : string) (endpoint : Z) : json :=
  JObject [("Id", JInt id); ("Name", JString name); ("Type", JInt 1);
           ("EndpointID", JInt endpoint); ("Env", JArray [])].

Definition token_doc (t : string) : json := JObject [("jwt", JString t)].

Definition swarm_doc (id : string) : json := JObject [("ID", JString id)].

(** ** Facts about the fixture *)

Lemma strip_prefix_app (p s : string) : strip_prefix p (p +:+ s) = Some s.
Proof.
  induction p as [|a p IH]; [by rewrite string_app_nil_l|].
  rewrite string_app_cons. simpl. by rewrite decide_True.
Qed.

(** The URL library of the fixture never returns an empty scheme. *)
Lemma fixture_Parse_scheme (a : string) (u : URL) :
  fixture_Parse a = inr u -> Scheme u <> "".
Proof. unfold fixture_Parse. repeat case_match; by intros [= <-]. Qed.
