(* ===== verification/Client.v ===== *)
(** * Client: the Portainer API client of [src/lib/portainer/portainer.go]

    One definition per function of the file, in its order.  A method takes
    its receiver [self] as first argument; [Auth], which writes
    [self.auth], returns the new receiver.  Arguments that are pointers in
    the source ([endpoint *Endpoint], [stack *Stack]) are values here: the
    only caller passes pointers it has just tested or received from a
    successful call.  The loops over the decoded slices are the two
    [Fixpoint]s [endpoint_loop] and [stack_loop]; an element of such a
    slice is [None] when the server sent [null] for it, and reading its
    [Name] is then a nil dereference. *)

From S2P Require Import Prelude GoStrings Json Wire Http Fixture.

#[local] Open Scope string_scope.
#[local] Open Scope list_scope.
#[local] Open Scope go_scope.

(** ** [type Portainer struct] *)

Record Portainer : Type := mkPortainer {
  client : Client;
  address : string;
  auth : string
}.

#[export] Instance Portainer_eq_dec : EqDecision Portainer.
Proof. solve_decision. Defined.

(** The assignment [url.Scheme = s]. *)
Definition with_Scheme (u : URL) (s : string) : URL :=
  mkURL s (Host u) (Rest u).

Section Client.
Context `{!GoLib} {S : Type} `{!Platform S}.

(** ** [NewPortainer] *)

Definition NewPortainer (address : string) (insecure : bool)
    : result Portainer :=
  let client := mkClient insecure in
  match urlx_Parse address with
  | inl err => Err (Errorf ("Address parsing error : " +:+ Error err))
  | inr url =>
      let url :=
        if decide (Scheme url = "") then
          if decide (url_Port url = "443") then with_Scheme url "https://"
          else with_Scheme url "https://"
        else url in
      match urlx_Normalize url with
      | inl err => Err (Errorf ("Address normalizing error : " +:+ Error err))
      | inr address => Ok (mkPortainer client address "")
      end
  end.

(** ** Helpers shared by the methods *)

(** The error every method builds for a refused status:
    [fmt.Errorf("Portainer API error: %s %s %s", req.Method,
    req.URL.String(), rsp.Status)]. *)
Definition api_error (req : Request) (rsp : Response) : error :=
  Errorf ("Portainer API error: " +:+ Method req +:+ " "
          +:+ url_String (Url req) +:+ " " +:+ Status rsp).

(** [req.Header.Add("Authorization", fmt.Sprintf("Bearer %s", self.auth))] *)
Definition authorize (self : Portainer) (req : Request) : Request :=
  Header_Add req "Authorization" ("Bearer " +:+ auth self).

(** ** [Connect] *)

Definition Connect (self : Portainer) : M S unit :=
  req <- NewRequest "HEAD" (address self +:+ "/") None ;;
  rsp <- Do (client self) req ;;
  defer_close (
    if decide (StatusCode rsp >= 400)%Z then raise (api_error req rsp)
    else ret tt).

(** ** [Auth] *)

Definition Auth (self : Portainer) (user pass : string) : M S Portainer :=
  args <- lift (Marshal (auth_args user pass)) ;;
  req <- NewRequest "POST" (address self +:+ "/api/auth") (Some args) ;;
  rsp <- Do (client self) req ;;
  defer_close (
    if decide (StatusCode rsp > 200)%Z then raise (api_error req rsp)
    else
      data <- ReadAll rsp ;;
      jwt <- lift (Unmarshal decode_auth data) ;;
      ret (mkPortainer (client self) (address self) jwt)).

(** ** [GetEndpointByName] *)

(** The URL of the cluster query for an endpoint. *)
Definition swarm_url (self : Portainer) (id : Z) : string :=
  address self +:+ "/api/endpoints/" +:+ fmt_d id +:+ "/docker/swarm".

(** The body of the [if e.Name == endpoint] branch: the second request. *)
Definition fetch_swarm (self : Portainer) (e : Endpoint.t) : M S Endpoint.t :=
  req <- NewRequest "GET" (swarm_url self (Endpoint.Id e)) None ;;
  let req := authorize self req in
  rsp <- Do (client self) req ;;
  defer_close (
    if decide (StatusCode rsp > 200)%Z then raise (api_error req rsp)
    else
      data <- ReadAll rsp ;;
      id <- lift (Unmarshal decode_swarm data) ;;
      ret (Endpoint.with_SwarmID e id)).

(** [for _, e := range endpoints { ... }] and the error after it. *)
Fixpoint endpoint_loop (self : Portainer) (endpoint : string)
    (endpoints : list (option Endpoint.t)) : M S Endpoint.t :=
  match endpoints with
  | [] => raise (Errorf ("Endpoint " +:+ quoted endpoint +:+ " not found"))
  | None :: _ => lift (Panic NilDereference)
  | Some e :: rest =>
      if decide (Endpoint.Name e = endpoint) then fetch_swarm self e
      else endpoint_loop self endpoint rest
  end.

Definition GetEndpointByName (self : Portainer) (endpoint : string)
    : M S Endpoint.t :=
  req <- NewRequest "GET" (address self +:+ "/api/endpoints") None ;;
  let req := authorize self req in
  rsp <- Do (client self) req ;;
  defer_close (
    if decide (StatusCode rsp > 200)%Z then raise (api_error req rsp)
    else
      data <- ReadAll rsp ;;
      endpoints <- lift (Unmarshal decode_endpoints data) ;;
      endpoint_loop self endpoint endpoints).

(** ** [GetStackByName] *)

(** [for _, stack := range stacks { ... }] and [return nil, nil] after it. *)
Fixpoint stack_loop (name : string) (stacks : list (option Stack.t))
    : result (option Stack.t) :=
  match stacks with
  | [] => Ok None
  | None :: _ => Panic NilDereference
  | Some stack :: rest =>
      if decide (Stack.Name stack = name) then Ok (Some stack)
      else stack_loop name rest
  end.

Definition GetStackByName (self : Portainer) (name : string)
    : M S (option Stack.t) :=
  if decide (name = "") then raise (Errorf "Stack name not defined")
  else
    req <- NewRequest "GET" (address self +:+ "/api/stacks") None ;;
    let req := authorize self req in
    rsp <- Do (client self) req ;;
    defer_close (
      if decide (StatusCode rsp > 200)%Z then raise (api_error req rsp)
      else
        data <- ReadAll rsp ;;
        stacks <- lift (Unmarshal decode_stacks data) ;;
        lift (stack_loop name stacks)).

(** ** The deploy methods *)

Definition create_url (self : Portainer) (method : string) (id : Z) : string :=
  address self +:+ "/api/stacks?type=1&method=" +:+ method +:+ "&endpointId="
  +:+ fmt_d id.

Definition DeployStackFromGit (self : Portainer) (endpoint : Endpoint.t)
    (name repo path user pass : string) (env : list Env.t) : M S unit :=
  args <- lift (Marshal (deploy_git_args name (Endpoint.SwarmID endpoint)
                           repo path user pass env)) ;;
  req <- NewRequest "POST" (create_url self "repository" (Endpoint.Id endpoint))
           (Some args) ;;
  let req := authorize self req in
  rsp <- Do (client self) req ;;
  defer_close (
    if decide (StatusCode rsp > 200)%Z then raise (api_error req rsp)
    else ret tt).

Definition DeployStackFromString (self : Portainer) (endpoint : Endpoint.t)
    (name config : string) (env : list Env.t) : M S unit :=
  args <- lift (Marshal (deploy_string_args name (Endpoint.SwarmID endpoint)
                           config env)) ;;
  req <- NewRequest "POST" (create_url self "string" (Endpoint.Id endpoint))
           (Some args) ;;
  let req := authorize self req in
  rsp <- Do (client self) req ;;
  defer_close (
    if decide (StatusCode rsp > 200)%Z then raise (api_error req rsp)
    else ret tt).

Definition DeployStackFromFile (self : Portainer) (endpoint : Endpoint.t)
    (name path : string) (env : list Env.t) : M S unit :=
  data <- ReadFile path ;;
  DeployStackFromString self endpoint name data env.

(** ** The update methods *)

Definition update_url (self : Portainer) (stack : Stack.t) : string :=
  address self +:+ "/api/stacks/" +:+ fmt_d (Stack.Id stack) +:+ "?endpointId="
  +:+ fmt_d (Stack.EndpointID stack).

Definition UpdateStackFromString (self : Portainer) (stack : Stack.t)
    (config : string) (prune : bool) (env : list Env.t) : M S unit :=
  args <- lift (Marshal (update_args config prune env)) ;;
  req <- NewRequest "PUT" (update_url self stack) (Some args) ;;
  let req := authorize self req in
  rsp <- Do (client self) req ;;
  defer_close (
    if decide (StatusCode rsp > 200)%Z then raise (api_error req rsp)
    else ret tt).

Definition UpdateStackFromFile (self : Portainer) (stack : Stack.t)
    (path : string) (prune : bool) (env : list Env.t) : M S unit :=
  data <- ReadFile path ;;
  UpdateStackFromString self stack data prune env.

End Client.

(** * The client as a sequence of calls

    The source repeats one block in every method: build the request, send
    it, defer the close, refuse a status above 200, read and decode the
    body.  The definitions below name the request each method builds and
    the pure function it applies to the response; the theorems after them
    show that each method is exactly [Http.call] of the two, so that what
    is proved of [call] once holds for all of them. *)

Section Spec.
Context `{!GoLib}.

(** [if rsp.StatusCode >= 400], the test of [Connect]. *)
Definition connect_reply (req : Request) (rsp : Response) : result unit :=
  if decide (StatusCode rsp >= 400)%Z then Err (api_error req rsp) else Ok tt.

(** [if rsp.StatusCode > 200], the test of every other method. *)
Definition accept_200 (req : Request) (rsp : Response) : result unit :=
  if decide (StatusCode rsp > 200)%Z then Err (api_error req rsp) else Ok tt.

(** The status test, then [ioutil.ReadAll] and [json.Unmarshal]. *)
Definition read_json {A} (dec : json -> result A) (req : Request)
    (rsp : Response) : result A :=
  let? _ := accept_200 req rsp in
  let? data := of_sum (RspBody rsp) in
  Unmarshal dec data.

Definition head_request (self : Portainer) : Request :=
  mkRequest "HEAD" (address self +:+ "/") [] None.

Definition auth_request (self : Portainer) (user pass : string) : Request :=
  mkRequest "POST" (address self +:+ "/api/auth") []
    (Some (Doc (auth_args user pass))).

(** An authenticated request. *)
Definition bearer_request (self : Portainer) (method url : string)
    (body : option json) : Request :=
  authorize self (mkRequest method url [] (Doc <$> body)).

Definition endpoints_request (self : Portainer) : Request :=
  bearer_request self "GET" (address self +:+ "/api/endpoints") None.

Definition swarm_request (self : Portainer) (id : Z) : Request :=
  bearer_request self "GET" (swarm_url self id) None.

Definition stacks_request (self : Portainer) : Request :=
  bearer_request self "GET" (address self +:+ "/api/stacks") None.

Definition create_string_request (self : Portainer) (endpoint : Endpoint.t)
    (name config : string) (env : list Env.t) : Request :=
  bearer_request self "POST" (create_url self "string" (Endpoint.Id endpoint))
    (Some (deploy_string_args name (Endpoint.SwarmID endpoint) config env)).

Definition create_git_request (self : Portainer) (endpoint : Endpoint.t)
    (name repo path user pass : string) (env : list Env.t) : Request :=
  bearer_request self "POST" (create_url self "repository" (Endpoint.Id endpoint))
    (Some (deploy_git_args name (Endpoint.SwarmID endpoint) repo path user
             pass env)).

Definition update_request (self : Portainer) (stack : Stack.t)
    (config : string) (prune : bool) (env : list Env.t) : Request :=
  bearer_request self "PUT" (update_url self stack)
    (Some (update_args config prune env)).

(** The receiver after [self.auth = jwt]. *)
Definition with_auth (self : Portainer) (jwt : string) : Portainer :=
  mkPortainer (client self) (address self) jwt.

(** The scan of [GetEndpointByName] without its second request: the first
    endpoint of that name, an error when there is none, a panic at a nil
    element met before. *)
Fixpoint select_endpoint (name : string) (l : list (option Endpoint.t))
    : result Endpoint.t :=
  match l with
  | [] => Err (Errorf ("Endpoint " +:+ quoted name +:+ " not found"))
  | None :: _ => Panic NilDereference
  | Some e :: rest =>
      if decide (Endpoint.Name e = name) then Ok e
      else select_endpoint name rest
  end.

(** Both loops of the client are one scan of a decoded slice for the first
    element with a given name; [key] reads the name of an element. *)
Fixpoint scan {T} (key : T -> string) (name : string) (l : list (option T))
    : result (option T) :=
  match l with
  | [] => Ok None
  | None :: _ => Panic NilDereference
  | Some x :: rest =>
      if decide (key x = name) then Ok (Some x) else scan key name rest
  end.

(** Position [i] of [l] holds [x], the first element named [name], and no
    element before it is nil. *)
Definition first_named {T} (key : T -> string) (name : string)
    (l : list (option T)) (i : nat) (x : T) : Prop :=
  l !! i = Some (Some x) /\ key x = name
  /\ forall j, j < i -> exists y, l !! j = Some (Some y) /\ key y <> name.

(** No element of [l] is nil or named [name]. *)
Definition none_named {T} (key : T -> string) (name : string)
    (l : list (option T)) : Prop :=
  Forall (fun o => exists y, o = Some y /\ key y <> name) l.

(** Position [i] of [l] is nil, and nothing before it is nil or named
    [name]. *)
Definition nil_before_named {T} (key : T -> string) (name : string)
    (l : list (option T)) (i : nat) : Prop :=
  l !! i = Some None /\ none_named key name (take i l).

End Spec.

Section Calls.
Context `{!GoLib} {S : Type} `{!Platform S}.
Implicit Types (self : Portainer) (w : World S).

(** Closes a goal [method ≡ call ...] by running both sides on every reply
    of the platform. *)
Ltac by_running :=
  intros; try (let w := fresh "w" in intros w);
  unfold bearer_request, authorize, Header_Add, read_json, accept_200,
    connect_reply, Marshal, Unmarshal in *;
  go_unfold; simpl;
  repeat (case_match; simplify_eq/=; try done).

Lemma Connect_call self :
  Connect self
  ≡ call (client self) (head_request self) (connect_reply (head_request self)).
Proof. unfold Connect, head_request. by_running. Qed.

Lemma Auth_call self user pass :
  Auth self user pass
  ≡ call (client self) (auth_request self user pass)
      (fun rsp => rmap (with_auth self)
         (read_json decode_auth (auth_request self user pass) rsp)).
Proof. unfold Auth, auth_request, with_auth, rmap. by_running. Qed.

Lemma fetch_swarm_call self e :
  fetch_swarm self e
  ≡ call (client self) (swarm_request self (Endpoint.Id e))
      (fun rsp => rmap (Endpoint.with_SwarmID e)
         (read_json decode_swarm (swarm_request self (Endpoint.Id e)) rsp)).
Proof. unfold fetch_swarm, swarm_request, rmap. by_running. Qed.

(** The loop sends the cluster query for the endpoint the scan selects, and
    nothing when the scan selects none. *)
Lemma endpoint_loop_select self name l :
  endpoint_loop self name l
  ≡ (e <- lift (select_endpoint name l) ;; fetch_swarm self e).
Proof.
  intros w. induction l as [|[e|] l IH]; simpl; [done | | done].
  case_decide; [done | apply IH].
Qed.

Lemma GetEndpointByName_calls self name :
  GetEndpointByName self name
  ≡ (l <- call (client self) (endpoints_request self)
            (read_json decode_endpoints (endpoints_request self)) ;;
     e <- lift (select_endpoint name l) ;;
     fetch_swarm self e).
Proof.
  intros w. unfold GetEndpointByName, endpoints_request.
  rewrite bind_NewRequest. unfold call at 1, bind at 4. simpl.
  destruct (url_error _); [done|].
  unfold bind at 1, Do, defer_close, exchanged.
  destruct (round_trip _ _ _) as [[err|rsp] s']; [done|].
  unfold read_json, accept_200. simpl.
  case_decide; [done|]. unfold ReadAll. rewrite bind_lift. simpl.
  destruct (RspBody rsp) as [err|data]; simpl; [done|].
  rewrite bind_lift. destruct (Unmarshal decode_endpoints data) as [l|err|p]; simpl; [|done..].
  rewrite endpoint_loop_select, !bind_lift.
  destruct (select_endpoint name l) as [e|err|p]; simpl; [|done..].
  rewrite !fetch_swarm_call. by_running.
Qed.

Lemma GetStackByName_nameless self :
  GetStackByName self "" = raise (Errorf "Stack name not defined").
Proof. reflexivity. Qed.

Lemma GetStackByName_call self name :
  name <> "" ->
  GetStackByName self name
  ≡ call (client self) (stacks_request self)
      (fun rsp => let? stacks := read_json decode_stacks (stacks_request self) rsp in
                  stack_loop name stacks).
Proof. unfold GetStackByName, stacks_request. by_running. Qed.

Lemma DeployStackFromString_call self endpoint name config env :
  DeployStackFromString self endpoint name config env
  ≡ call (client self) (create_string_request self endpoint name config env)
      (accept_200 (create_string_request self endpoint name config env)).
Proof. unfold DeployStackFromString, create_string_request. by_running. Qed.

Lemma DeployStackFromGit_call self endpoint name repo path user pass env :
  DeployStackFromGit self endpoint name repo path user pass env
  ≡ call (client self)
      (create_git_request self endpoint name repo path user pass env)
      (accept_200 (create_git_request self endpoint name repo path user pass env)).
Proof. unfold DeployStackFromGit, create_git_request. by_running. Qed.

Lemma UpdateStackFromString_call self stack config prune env :
  UpdateStackFromString self stack config prune env
  ≡ call (client self) (update_request self stack config prune env)
      (accept_200 (update_request self stack config prune env)).
Proof. unfold UpdateStackFromString, update_request. by_running. Qed.

End Calls.

(** * The methods as one interface *)

(** A call of one of the nine methods, with its arguments; the index is
    the type of what the method returns beside the error. *)
Inductive invocation : Type -> Type :=
| IConnect : invocation unit
| IAuth (user pass : string) : invocation Portainer
| IGetEndpointByName (name : string) : invocation Endpoint.t
| IGetStackByName (name : string) : invocation (option Stack.t)
| IDeployStackFromGit (endpoint : Endpoint.t)
    (name repo path user pass : string) (env : list Env.t) : invocation unit
| IDeployStackFromString (endpoint : Endpoint.t) (name config : string)
    (env : list Env.t) : invocation unit
| IDeployStackFromFile (endpoint : Endpoint.t) (name path : string)
    (env : list Env.t) : invocation unit
| IUpdateStackFromString (stack : Stack.t) (config : string) (prune : bool)
    (env : list Env.t) : invocation unit
| IUpdateStackFromFile (stack : Stack.t) (path : string) (prune : bool)
    (env : list Env.t) : invocation unit.

(** Whether the method attaches the bearer token to what it sends. *)
Definition authenticated {A} (i : invocation A) : bool :=
  match i with
  | IConnect | IAuth _ _ => false
  | _ => true
  end.

Section Invoke.
Context `{!GoLib} {S : Type} `{!Platform S}.

Definition invoke {A} (self : Portainer) (i : invocation A) : M S A :=
  match i with
  | IConnect => Connect self
  | IAuth user pass => Auth self user pass
  | IGetEndpointByName name => GetEndpointByName self name
  | IGetStackByName name => GetStackByName self name
  | IDeployStackFromGit endpoint name repo path user pass env =>
      DeployStackFromGit self endpoint name repo path user pass env
  | IDeployStackFromString endpoint name config env =>
      DeployStackFromString self endpoint name config env
  | IDeployStackFromFile endpoint name path env =>
      DeployStackFromFile self endpoint name path env
  | IUpdateStackFromString stack config prune env =>
      UpdateStackFromString self stack config prune env
  | IUpdateStackFromFile stack path prune env =>
      UpdateStackFromFile self stack path prune env
  end.

(** The requests the method can send. *)
Definition may_send {A} (self : Portainer) (i : invocation A) (r : Request)
    : Prop :=
  match i with
  | IConnect => r = head_request self
  | IAuth user pass => r = auth_request self user pass
  | IGetEndpointByName _ =>
      r = endpoints_request self \/ exists id, r = swarm_request self id
  | IGetStackByName _ => r = stacks_request self
  | IDeployStackFromGit endpoint name repo path user pass env =>
      r = create_git_request self endpoint name repo path user pass env
  | IDeployStackFromString endpoint name config env =>
      r = create_string_request self endpoint name config env
  | IDeployStackFromFile endpoint name _ env =>
      exists config, r = create_string_request self endpoint name config env
  | IUpdateStackFromString stack config prune env =>
      r = update_request self stack config prune env
  | IUpdateStackFromFile stack _ prune env =>
      exists config, r = update_request self stack config prune env
  end.

End Invoke.

(** The number of exchanges of a call that succeeds. *)
Definition exchanges {A} (i : invocation A) : nat :=
  match i with
  | IGetEndpointByName _ => 2
  | _ => 1
  end.

(** Whether the method asks the server to change its stacks. *)
Definition mutating {A} (i : invocation A) : bool :=
  match i with
  | IConnect | IAuth _ _ | IGetEndpointByName _ | IGetStackByName _ => false
  | _ => true
  end.

(** A request that can change the stacks of the server: a POST or a PUT
    that carries a token.  The login is a POST without one. *)
Definition mutation (r : Request) : Prop :=
  (Method r = "POST" \/ Method r = "PUT") /\ Header r <> [].

#[export] Instance mutation_dec r : Decision (mutation r).
Proof. unfold mutation. apply _. Defined.

(** * Theorems on the client *)

Section Tidy.
Context `{!GoLib} {S : Type} `{!Platform S}.
Implicit Types (self : Portainer) (w : World S).

Lemma tidy_Connect self : tidy (Connect self).
Proof. rewrite Connect_call. apply tidy_call. Qed.

Lemma tidy_Auth self user pass : tidy (Auth self user pass).
Proof. rewrite Auth_call. apply tidy_call. Qed.

Lemma tidy_fetch_swarm self e : tidy (fetch_swarm self e).
Proof. rewrite fetch_swarm_call. apply tidy_call. Qed.

Lemma tidy_GetEndpointByName self name : tidy (GetEndpointByName self name).
Proof. rewrite GetEndpointByName_calls. auto using tidy_fetch_swarm with go. Qed.

Lemma tidy_GetStackByName self name : tidy (GetStackByName self name).
Proof.
  destruct (decide (name = "")) as [->|Hne].
  - rewrite GetStackByName_nameless. apply tidy_raise.
  - rewrite (GetStackByName_call _ _ Hne). apply tidy_call.
Qed.

Lemma tidy_DeployStackFromGit self endpoint name repo path user pass env :
  tidy (DeployStackFromGit self endpoint name repo path user pass env).
Proof. rewrite DeployStackFromGit_call. apply tidy_call. Qed.

Lemma tidy_DeployStackFromString self endpoint name config env :
  tidy (DeployStackFromString self endpoint name config env).
Proof. rewrite DeployStackFromString_call. apply tidy_call. Qed.

Lemma tidy_UpdateStackFromString self stack config prune env :
  tidy (UpdateStackFromString self stack config prune env).
Proof. rewrite UpdateStackFromString_call. apply tidy_call. Qed.

Lemma tidy_DeployStackFromFile self endpoint name path env :
  tidy (DeployStackFromFile self endpoint name path env).
Proof. unfold DeployStackFromFile. auto using tidy_DeployStackFromString with go. Qed.

Lemma tidy_UpdateStackFromFile self stack path prune env :
  tidy (UpdateStackFromFile self stack path prune env).
Proof. unfold UpdateStackFromFile. auto using tidy_UpdateStackFromString with go. Qed.

Lemma tidy_invoke {A} self (i : invocation A) : tidy (invoke self i).
Proof.
  destruct i; simpl;
    auto using tidy_Connect, tidy_Auth, tidy_GetEndpointByName,
      tidy_GetStackByName, tidy_DeployStackFromGit, tidy_DeployStackFromString,
      tidy_DeployStackFromFile, tidy_UpdateStackFromString,
      tidy_UpdateStackFromFile.
Qed.

End Tidy.

#[export] Hint Resolve tidy_Connect tidy_Auth tidy_fetch_swarm
  tidy_GetEndpointByName tidy_GetStackByName tidy_DeployStackFromGit
  tidy_DeployStackFromString tidy_DeployStackFromFile
  tidy_UpdateStackFromString tidy_UpdateStackFromFile tidy_invoke : go.

(** ** What a method sends *)

(** Splits a hypothesis [may_send self i r] into the requests it allows. *)
Ltac cases_may_send H :=
  simpl in H;
  repeat match type of H with
         | _ \/ _ => destruct H as [H|H]
         | ex _ => destruct H as [? H]
         end.

Section Sends.
Context `{!GoLib} {S : Type} `{!Platform S}.
Implicit Types (self : Portainer) (w : World S).

Lemma sent_ReadFile_bind {A} path (k : string -> M S A) w :
  sent (data <- ReadFile path ;; k data) w
  = match read_file path (outside w) with
    | inl _ => []
    | inr data => sent (k data) w
    end.
Proof.
  unfold sent, bind, ReadFile.
  destruct (read_file path (outside w)); simpl; [by rewrite drop_all | done].
Qed.

Lemma DeployStackFromFile_run self endpoint name path env w :
  DeployStackFromFile self endpoint name path env w
  = match read_file path (outside w) with
    | inl e => (Err e, w)
    | inr data => DeployStackFromString self endpoint name data env w
    end.
Proof.
  unfold DeployStackFromFile, bind, ReadFile. by destruct (read_file path (outside w)).
Qed.

Lemma UpdateStackFromFile_run self stack path prune env w :
  UpdateStackFromFile self stack path prune env w
  = match read_file path (outside w) with
    | inl e => (Err e, w)
    | inr data => UpdateStackFromString self stack data prune env w
    end.
Proof.
  unfold UpdateStackFromFile, bind, ReadFile. by destruct (read_file path (outside w)).
Qed.

(** A method sends requests of its own kind only, all of them through the
    client of its receiver. *)
Lemma invoke_sends {A} self (i : invocation A) w :
  Forall (fun x => via x = client self /\ may_send self i (request x))
    (sent (invoke self i) w).
Proof.
  destruct i; simpl.
  - rewrite Connect_call. by apply Forall_sent_call.
  - rewrite Auth_call. by apply Forall_sent_call.
  - rewrite GetEndpointByName_calls.
    apply Forall_sent_bind; auto with go; [apply Forall_sent_call; auto|].
    intros l w'. apply Forall_sent_bind; auto with go; [by rewrite sent_lift|].
    intros e w''. rewrite fetch_swarm_call. apply Forall_sent_call; eauto.
  - destruct (decide (name = "")) as [->|Hne].
    { by rewrite GetStackByName_nameless, sent_raise. }
    rewrite (GetStackByName_call _ _ Hne). by apply Forall_sent_call.
  - rewrite DeployStackFromGit_call. by apply Forall_sent_call.
  - rewrite DeployStackFromString_call. by apply Forall_sent_call.
  - unfold DeployStackFromFile. rewrite sent_ReadFile_bind.
    destruct (read_file _ _); [done|].
    rewrite DeployStackFromString_call. apply Forall_sent_call; eauto.
  - rewrite UpdateStackFromString_call. by apply Forall_sent_call.
  - unfold UpdateStackFromFile. rewrite sent_ReadFile_bind.
    destruct (read_file _ _); [done|].
    rewrite UpdateStackFromString_call. apply Forall_sent_call; eauto.
Qed.

Lemma invoke_may_send {A} self (i : invocation A) w :
  Forall (fun x => may_send self i (request x)) (sent (invoke self i) w).
Proof. eapply Forall_impl; [apply invoke_sends|]. by intros x [_ ?]. Qed.

Lemma invoke_via {A} self (i : invocation A) w :
  Forall (fun x => via x = client self) (sent (invoke self i) w).
Proof. eapply Forall_impl; [apply invoke_sends|]. by intros x [? _]. Qed.

(** The client of a receiver is the one [NewPortainer] built: [Auth], the
    only method that returns a receiver, changes the token only. *)
Lemma NewPortainer_client address insecure self :
  NewPortainer address insecure = Ok self ->
  client self = mkClient insecure /\ auth self = "".
Proof. unfold NewPortainer. repeat case_match; naive_solver. Qed.

Lemma Auth_client self user pass w self' w' :
  Auth self user pass w = (Ok self', w') ->
  client self' = client self /\ address self' = address self.
Proof.
  rewrite (Auth_call self user pass w).
  intros (rsp & (jwt & _ & ->)%rmap_Ok_inv & _)%call_Ok. done.
Qed.

(** A method makes at most [exchanges] exchanges. *)
Lemma length_sent_invoke {A} self (i : invocation A) w :
  length (sent (invoke self i) w) <= exchanges i.
Proof.
  destruct i; simpl.
  - rewrite Connect_call. apply sent_call_length.
  - rewrite Auth_call. apply sent_call_length.
  - rewrite GetEndpointByName_calls.
    apply (length_sent_bind _ _ _ 1 1); auto using sent_call_length with go.
    intros l w'. apply (length_sent_bind _ _ _ 0 1); auto with go.
    + by rewrite sent_lift.
    + intros e w''. rewrite fetch_swarm_call. apply sent_call_length.
  - destruct (decide (name = "")) as [->|Hne].
    { rewrite GetStackByName_nameless, sent_raise. simpl. lia. }
    rewrite (GetStackByName_call _ _ Hne). apply sent_call_length.
  - rewrite DeployStackFromGit_call. apply sent_call_length.
  - rewrite DeployStackFromString_call. apply sent_call_length.
  - unfold DeployStackFromFile. rewrite sent_ReadFile_bind.
    destruct (read_file _ _); [simpl; lia|].
    rewrite DeployStackFromString_call. apply sent_call_length.
  - rewrite UpdateStackFromString_call. apply sent_call_length.
  - unfold UpdateStackFromFile. rewrite sent_ReadFile_bind.
    destruct (read_file _ _); [simpl; lia|].
    rewrite UpdateStackFromString_call. apply sent_call_length.
Qed.

(** A method that succeeds has made all of them. *)
Lemma invoke_Ok_exchanges {A} self (i : invocation A) w :
  is_Ok (invoke self i w).1 = true ->
  length (sent (invoke self i) w) = exchanges i.
Proof.
  destruct i; simpl.
  - rewrite (Connect_call self w), Connect_call. apply sent_call_Ok.
  - rewrite (Auth_call self user pass w), Auth_call. apply sent_call_Ok.
  - rewrite (GetEndpointByName_calls self name w), GetEndpointByName_calls.
    destruct (bind _ _ w) as [[e| |] w'] eqn:E; [intros _|done..].
    apply bind_Ok_sent in E as (l & w1 & E1 & E2 & ->); auto with go.
    apply bind_Ok_sent in E2 as (e0 & w2 & _ & E3 & ->); auto with go.
    rewrite sent_lift, fetch_swarm_call, !length_app, !sent_call_Ok; [done|..].
    + by rewrite <- (fetch_swarm_call self e0 w2), E3.
    + by rewrite E1.
  - destruct (decide (name = "")) as [->|Hne]; [done|].
    rewrite (GetStackByName_call _ _ Hne w), (GetStackByName_call _ _ Hne).
    apply sent_call_Ok.
  - rewrite (DeployStackFromGit_call _ _ _ _ _ _ _ _ w), DeployStackFromGit_call.
    apply sent_call_Ok.
  - rewrite (DeployStackFromString_call _ _ _ _ _ w), DeployStackFromString_call.
    apply sent_call_Ok.
  - rewrite DeployStackFromFile_run. unfold DeployStackFromFile.
    rewrite sent_ReadFile_bind. destruct (read_file _ _); [done|].
    rewrite (DeployStackFromString_call _ _ _ _ _ w), DeployStackFromString_call.
    apply sent_call_Ok.
  - rewrite (UpdateStackFromString_call _ _ _ _ _ w), UpdateStackFromString_call.
    apply sent_call_Ok.
  - rewrite UpdateStackFromFile_run. unfold UpdateStackFromFile.
    rewrite sent_ReadFile_bind. destruct (read_file _ _); [done|].
    rewrite (UpdateStackFromString_call _ _ _ _ _ w), UpdateStackFromString_call.
    apply sent_call_Ok.
Qed.

Lemma invoke_Ok_sent {A} self (i : invocation A) w a w' :
  invoke self i w = (Ok a, w') -> length (sent (invoke self i) w) = exchanges i.
Proof. intros E. apply invoke_Ok_exchanges. by rewrite E. Qed.

(** The requests of the lookups change nothing; those of the other
    methods do. *)
Lemma may_send_mutation {A} self (i : invocation A) r :
  may_send self i r -> mutation r <-> mutating i = true.
Proof.
  unfold mutation. destruct i; intros Hr; cases_may_send Hr; subst r; simpl;
    naive_solver.
Qed.

Lemma sent_invoke_mutation {A} self (i : invocation A) w :
  Forall (fun x => mutation (request x) <-> mutating i = true)
    (sent (invoke self i) w).
Proof.
  eapply Forall_impl; [apply invoke_may_send|]. intros x. apply may_send_mutation.
Qed.

Lemma lookup_sends_no_mutation {A} self (i : invocation A) w :
  mutating i = false ->
  Forall (fun x => ~ mutation (request x)) (sent (invoke self i) w).
Proof.
  intros Hi. eapply Forall_impl; [apply sent_invoke_mutation|].
  intros x ->. by rewrite Hi.
Qed.

(** A list of one element, from its length. *)
Lemma length_one_inv {T} (P : T -> Prop) (l : list T) :
  length l = 1 -> Forall P l -> exists x, l = [x] /\ P x.
Proof. destruct l as [|x [|??]]; [done| |done]. intros _ [? _]%Forall_cons. eauto. Qed.

(** A method that changes the stacks and succeeds has sent one request,
    and that request is a mutation. *)
Lemma mutating_Ok_sent {A} self (i : invocation A) w :
  mutating i = true -> is_Ok (invoke self i w).1 = true ->
  exists x, sent (invoke self i) w = [x] /\ mutation (request x).
Proof.
  intros Hi Hok. apply length_one_inv.
  - rewrite (invoke_Ok_exchanges _ _ _ Hok). by destruct i.
  - eapply Forall_impl; [apply sent_invoke_mutation|]. by intros x ->.
Qed.

End Sends.

(** ** The two scans *)

Section Scan.
Context {T : Type} (key : T -> string).
Implicit Types (name : string) (l : list (option T)) (x : T).

Lemma scan_Some name l x :
  scan key name l = Ok (Some x) <-> exists i, first_named key name l i x.
Proof.
  unfold first_named. induction l as [|[y|] l IH]; simpl.
  - naive_solver.
  - case_decide as Hy.
    + split.
      * intros [= ->]. exists 0. split_and!; [done..|lia].
      * intros ([|i] & Hi & Hx & Hmin); [naive_solver|].
        destruct (Hmin 0) as (? & [= <-] & ?); [lia | done].
    + rewrite IH. split.
      * intros (i & ? & ? & Hmin). exists (Datatypes.S i). split_and!; [done..|].
        intros [|j] ?; [eauto | apply Hmin; lia].
      * intros ([|i] & Hi & Hx & Hmin); [naive_solver|].
        exists i. split_and!; [done..|]. intros j ?. apply (Hmin (Datatypes.S j)). lia.
  - split; [done|]. intros ([|i] & Hi & _ & Hmin); [done|].
    destruct (Hmin 0) as (? & [=] & _). lia.
Qed.

Lemma scan_None name l : scan key name l = Ok None <-> none_named key name l.
Proof.
  unfold none_named. induction l as [|[y|] l IH]; simpl.
  - split; [constructor | done].
  - rewrite Forall_cons. case_decide; naive_solver.
  - rewrite Forall_cons. naive_solver.
Qed.

Lemma scan_Panic name l p :
  scan key name l = Panic p <->
  p = NilDereference /\ exists i, nil_before_named key name l i.
Proof.
  unfold nil_before_named, none_named. induction l as [|[y|] l IH]; simpl.
  - split; [done|]. by intros (_ & i & ? & _).
  - case_decide as Hy.
    + split; [done|]. intros (_ & [|i] & Hi & Hf); [done|].
      simpl in Hf. apply Forall_cons in Hf as [(? & [= <-] & ?) _]. done.
    + rewrite IH. split.
      * intros (-> & i & ? & ?). split; [done|]. exists (Datatypes.S i).
        split; [done|]. simpl. constructor; eauto.
      * intros (-> & [|i] & Hi & Hf); [done|]. split; [done|]. exists i.
        simpl in Hf. apply Forall_cons in Hf as [_ Hf]. done.
  - split.
    + intros [= <-]. split; [done|]. exists 0. split; [done | constructor].
    + by intros (-> & _).
Qed.

Lemma scan_not_Err name l e : scan key name l <> Err e.
Proof. induction l as [|[y|] l IH]; simpl; try done. by case_decide. Qed.

End Scan.

Section Theorems.
Context `{!GoLib} {S : Type} `{!Platform S}.
Implicit Types (self : Portainer) (w : World S).

Lemma stack_loop_scan name l : stack_loop name l = scan Stack.Name name l.
Proof. induction l as [|[y|] l IH]; simpl; try done. by rewrite IH. Qed.

Lemma select_endpoint_scan_Some name l e :
  select_endpoint name l = Ok e -> exists i, first_named Endpoint.Name name l i e.
Proof.
  intros Hsel. apply scan_Some. revert Hsel.
  induction l as [|[y|] l IH]; simpl; try done. case_decide; naive_solver.
Qed.

Lemma select_endpoint_scan name l :
  select_endpoint name l
  = let? found := scan Endpoint.Name name l in
    match found with
    | Some e => Ok e
    | None => Err (Errorf ("Endpoint " +:+ quoted name +:+ " not found"))
    end.
Proof.
  induction l as [|[y|] l IH]; simpl; try done. case_decide; [done|]. by rewrite IH.
Qed.

(** ** Resources *)

(** C32: whatever a method of the client returns, error or panic included,
    every response body it opened is closed when it returns, and the
    exchanges made before it are still the beginning of the trace. *)
Theorem client_closes_every_body {A} self (i : invocation A) w :
  open_bodies (invoke self i w).2 = open_bodies w
  /\ trace w `prefix_of` trace (invoke self i w).2.
Proof. destruct (tidy_invoke self i w) as (?&?&?). done. Qed.

(** ** Status codes *)

(** C18: [Connect] succeeds exactly when the server answers the HEAD
    request with a status below 400: a redirect or an informational status
    counts as reachable. *)
Theorem Connect_succeeds_iff self w :
  (Connect self w).1 = Ok tt <->
  url_error (address self +:+ "/") = None /\
  exists rsp,
    (round_trip (client self) (head_request self) (outside w)).1 = inr rsp
    /\ (StatusCode rsp < 400)%Z.
Proof.
  rewrite (Connect_call self w). unfold call, exchanged, connect_reply. simpl.
  destruct (url_error _); [naive_solver|].
  destruct (round_trip _ _ _) as [[e|rsp] s']; simpl; [naive_solver|].
  case_decide; naive_solver lia.
Qed.

(** What a reply must be for [read_json] to accept it. *)
Lemma read_json_Ok {A} (dec : json -> result A) req rsp a :
  read_json dec req rsp = Ok a <->
  (StatusCode rsp <= 200)%Z /\
  exists data, RspBody rsp = inr data /\ Unmarshal dec data = Ok a.
Proof.
  unfold read_json, accept_200. case_decide; simpl; [naive_solver lia|].
  destruct (RspBody rsp); simpl; naive_solver lia.
Qed.

(** C19: [Auth] succeeds exactly when the server answers the POST with a
    status of at most 200 and a body that decodes; the new receiver
    differs from the old one in the token only. *)
Theorem Auth_succeeds_iff self user pass w self' :
  (Auth self user pass w).1 = Ok self' <->
  url_error (address self +:+ "/api/auth") = None /\
  exists rsp data jwt,
    (round_trip (client self) (auth_request self user pass) (outside w)).1
      = inr rsp
    /\ (StatusCode rsp <= 200)%Z
    /\ RspBody rsp = inr data
    /\ Unmarshal decode_auth data = Ok jwt
    /\ self' = with_auth self jwt.
Proof.
  rewrite (Auth_call self user pass w). unfold call, exchanged. simpl.
  destruct (url_error _); [naive_solver|].
  destruct (round_trip _ _ _) as [[e|rsp] s']; simpl; [naive_solver|].
  split.
  - intros (jwt & (?&data&?&?)%read_json_Ok & ->)%rmap_Ok_inv. naive_solver.
  - intros (_ & rsp' & data & jwt & [= <-] & ? & ? & ? & ->).
    assert (read_json decode_auth (auth_request self user pass) rsp = Ok jwt)
      as -> by (apply read_json_Ok; eauto).
    done.
Qed.


(** ** What a method sends *)

(** The header of an authenticated request. *)
Definition carries_token self (x : Exchange) : Prop :=
  Header (request x) = [("Authorization", "Bearer " +:+ auth self)].

(** C15: every request of a method other than [Connect] and [Auth]
    carries the header [Authorization: Bearer] followed by the token the
    receiver holds, whatever that token is; the client has no guard of its
    own against an empty one. *)
Theorem authenticated_requests_carry_token {A} self (i : invocation A) w :
  authenticated i = true ->
  Forall (carries_token self) (sent (invoke self i) w).
Proof.
  intros Hi. eapply Forall_impl; [apply invoke_may_send|].
  intros x Hx. unfold carries_token.
  destruct i; try done; cases_may_send Hx; by rewrite Hx.
Qed.

(** A method makes at most one exchange, except [GetEndpointByName],
    which makes at most two; a call that succeeds has made exactly that
    many, so that no method succeeds without the server. *)
Theorem invoke_exchange_bound {A} self (i : invocation A) w :
  length (sent (invoke self i) w) <= exchanges i
  /\ (is_Ok (invoke self i w).1 = true ->
      length (sent (invoke self i) w) = exchanges i).
Proof.
  split; [apply length_sent_invoke|]. apply invoke_Ok_exchanges.
Qed.

(** ** The scans *)

(** C21: the scan of [GetStackByName] returns the first stack whose name is
    the one asked for, provided no element before it is nil; it returns no
    stack exactly when no element is nil or has that name. *)
Theorem stack_loop_first_match name l :
  (forall s, stack_loop name l = Ok (Some s)
             <-> exists i, first_named Stack.Name name l i s)
  /\ (stack_loop name l = Ok None <-> none_named Stack.Name name l).
Proof. rewrite stack_loop_scan. split; [intros s; apply scan_Some | apply scan_None]. Qed.

(** The scan of [GetEndpointByName] selects the first endpoint whose
    name is the one asked for, and fails with the not-found error exactly
    when no element is nil or has that name. *)
Theorem select_endpoint_first_match name l :
  (forall e, select_endpoint name l = Ok e
             <-> exists i, first_named Endpoint.Name name l i e)
  /\ (forall err, select_endpoint name l = Err err
                  <-> none_named Endpoint.Name name l
                      /\ err = Errorf ("Endpoint " +:+ quoted name +:+ " not found")).
Proof.
  rewrite select_endpoint_scan. split.
  - intros e. rewrite <- scan_Some.
    destruct (scan _ name l) as [[?|]| |]; simpl; naive_solver.
  - intros err. rewrite <- scan_None.
    pose proof (scan_not_Err Endpoint.Name name l).
    destruct (scan _ name l) as [[?|]| |]; simpl; naive_solver.
Qed.

(** A nil element met before any element of the wanted name makes
    either scan panic with a nil dereference; the scans panic for no other
    reason. *)
Theorem scans_panic_on_nil name :
  (forall l p, stack_loop name l = Panic p
               <-> p = NilDereference
                   /\ exists i, nil_before_named Stack.Name name l i)
  /\ (forall l p, select_endpoint name l = Panic p
                  <-> p = NilDereference
                      /\ exists i, nil_before_named Endpoint.Name name l i).
Proof.
  split; intros l p.
  - rewrite stack_loop_scan. apply scan_Panic.
  - rewrite select_endpoint_scan, <- scan_Panic.
    destruct (scan _ name l) as [[?|]| |]; simpl; naive_solver.
Qed.

(** ** [GetEndpointByName] *)

(** C16: when [GetEndpointByName] succeeds it has made exactly two
    exchanges: the list of endpoints, and the cluster query for the
    identifier of the first endpoint of that name in the list; the endpoint
    it returns is that one with the cluster identifier of the second
    reply. *)
Theorem GetEndpointByName_resolves self name w e w' :
  GetEndpointByName self name w = (Ok e, w') ->
  exists rsp1 rsp2 l e0 i id,
    trace w' = trace w ++
      [mkExchange (client self) (endpoints_request self) (inr rsp1);
       mkExchange (client self) (swarm_request self (Endpoint.Id e0)) (inr rsp2)]
    /\ read_json decode_endpoints (endpoints_request self) rsp1 = Ok l
    /\ first_named Endpoint.Name name l i e0
    /\ read_json decode_swarm (swarm_request self (Endpoint.Id e0)) rsp2 = Ok id
    /\ e = Endpoint.with_SwarmID e0 id.
Proof.
  rewrite (GetEndpointByName_calls self name w).
  intros (l & w1 & (rsp1 & Hl & _ & _ & ->)%call_Ok & H2)%bind_Ok_inv.
  rewrite bind_lift in H2.
  destruct (select_endpoint name l) as [e0| |] eqn:Hsel; [|done..].
  rewrite (fetch_swarm_call self e0 _) in H2.
  apply call_Ok in H2 as (rsp2 & (id & Hid & ->)%rmap_Ok_inv & _ & _ & ->).
  apply select_endpoint_scan_Some in Hsel as [i Hi].
  exists rsp1, rsp2, l, e0, i, id. simpl. by rewrite <- (assoc_L (++)).
Qed.

(** C33: when the list the server sends holds no endpoint of the wanted
    name, [GetEndpointByName] fails with the not-found error after that
    one exchange: it asks for no cluster. *)
Theorem GetEndpointByName_not_found self name w rsp s' l :
  url_error (address self +:+ "/api/endpoints") = None ->
  round_trip (client self) (endpoints_request self) (outside w) = (inr rsp, s') ->
  read_json decode_endpoints (endpoints_request self) rsp = Ok l ->
  none_named Endpoint.Name name l ->
  GetEndpointByName self name w
  = (Err (Errorf ("Endpoint " +:+ quoted name +:+ " not found")),
     record w (client self) (endpoints_request self) (inr rsp) s').
Proof.
  intros Hurl Hrt Hl Hnone. rewrite (GetEndpointByName_calls self name w).
  unfold bind at 1, call at 1, exchanged. simpl. rewrite Hurl, Hrt, Hl.
  rewrite bind_lift, select_endpoint_scan.
  by apply scan_None in Hnone as ->.
Qed.

(** C34: when the list the server sends holds [null] before any endpoint
    of the wanted name, [GetEndpointByName] panics after that one
    exchange. *)
Theorem GetEndpointByName_nil_element self name w rsp s' l i :
  url_error (address self +:+ "/api/endpoints") = None ->
  round_trip (client self) (endpoints_request self) (outside w) = (inr rsp, s') ->
  read_json decode_endpoints (endpoints_request self) rsp = Ok l ->
  nil_before_named Endpoint.Name name l i ->
  GetEndpointByName self name w
  = (Panic NilDereference, record w (client self) (endpoints_request self) (inr rsp) s').
Proof.
  intros Hurl Hrt Hl Hnil. rewrite (GetEndpointByName_calls self name w).
  unfold bind at 1, call at 1, exchanged. simpl. rewrite Hurl, Hrt, Hl.
  rewrite bind_lift, select_endpoint_scan.
  assert (scan Endpoint.Name name l = Panic NilDereference) as ->; [|done].
  apply scan_Panic. eauto.
Qed.

(** ** [GetStackByName] *)

(** Asked for the empty name, [GetStackByName] fails at once: it
    sends nothing and leaves the world as it is. *)
Theorem GetStackByName_empty_name self w :
  GetStackByName self "" w = (Err (Errorf "Stack name not defined"), w)
  /\ sent (GetStackByName self "") w = [].
Proof. split; [done|]. by rewrite GetStackByName_nameless, sent_raise. Qed.

(** ** The file variants *)

(** [DeployStackFromFile] is [DeployStackFromString] on the content of
    the file, and fails without sending anything when the file cannot be
    read; likewise for the update. *)
Theorem from_file_as_from_string self endpoint stack name path prune env w :
  DeployStackFromFile self endpoint name path env w
  = match read_file path (outside w) with
    | inl e => (Err e, w)
    | inr data => DeployStackFromString self endpoint name data env w
    end
  /\ UpdateStackFromFile self stack path prune env w
  = match read_file path (outside w) with
    | inl e => (Err e, w)
    | inr data => UpdateStackFromString self stack data prune env w
    end.
Proof. split; [apply DeployStackFromFile_run | apply UpdateStackFromFile_run]. Qed.

(** ** [NewPortainer] *)

(** The scheme [NewPortainer] gives a parsed address that has none is
    the same text for every port, and that text is [https://], separator
    included; the new client holds no token and the TLS setting asked
    for. *)
Theorem NewPortainer_default_ignores_port address insecure :
  NewPortainer address insecure
  = match urlx_Parse address with
    | inl err => Err (Errorf ("Address parsing error : " +:+ Error err))
    | inr url =>
        match urlx_Normalize
                (if decide (Scheme url = "") then with_Scheme url "https://"
                 else url) with
        | inl err => Err (Errorf ("Address normalizing error : " +:+ Error err))
        | inr a => Ok (mkPortainer (mkClient insecure) a "")
        end
    end.
Proof.
  unfold NewPortainer. destruct (urlx_Parse address) as [err|url]; [done|].
  by repeat case_decide.
Qed.


(** ** Requests *)

(** The URLs of the cluster query and of the creation request
    determine the endpoint identifier they were built from. *)
Theorem endpoint_urls_injective self method id1 id2 :
  (swarm_url self id1 = swarm_url self id2 -> id1 = id2)
  /\ (create_url self method id1 = create_url self method id2 -> id1 = id2).
Proof.
  unfold swarm_url, create_url, fmt_d. split; intros E.
  - do 2 apply (inj (String.append _)) in E.
    apply string_app_inv_r in E. by apply (inj pretty) in E.
  - do 4 apply (inj (String.append _)) in E. by apply (inj pretty) in E.
Qed.

(** The creation request from a repository announces repository
    authentication exactly when both the user and the password are not
    empty. *)
Theorem deploy_git_authentication_flag name swarm repo path user pass env :
  member "RepositoryAuthentication"
    (deploy_git_args name swarm repo path user pass env)
  = Some (JBool (bool_decide (user <> "" /\ pass <> ""))).
Proof.
  unfold deploy_git_args. simpl. do 2 f_equal. by destruct user, pass.
Qed.

End Theorems.

(** * The theorems on a scripted server

    Each theorem with a hypothesis is applied here to a client of the
    scripted server of [Fixture], where its hypotheses hold by
    computation. *)

Section Witnesses.

#[local] Existing Instance fixture_lib.
#[local] Existing Instance script_platform.

(** A client that holds a token. *)
Definition demo : Portainer :=
  mkPortainer (mkClient false) "http://portainer.local" "token".

(** The world in which the server will give these replies. *)
Definition serving (replies : list (error + Response)) : World Script :=
  initial (mkScript replies [] 0).

(** The reply that lists one endpoint, and the one that lists [null]
    before it. *)
Definition listing : Response :=
  mkResponse 200 "200 OK" (inr (Doc (JArray [endpoint_doc 1 "local"]))).

Definition listing_null : Response :=
  mkResponse 200 "200 OK" (inr (Doc (JArray [JNull; endpoint_doc 1 "local"]))).


Lemma authenticated_requests_carry_token_witness :
  Forall (carries_token demo)
    (sent (invoke demo (IGetStackByName "web")) (serving [ok_json (JArray [])])).
Proof. apply authenticated_requests_carry_token. reflexivity. Defined.

Lemma GetEndpointByName_resolves_witness :
  let w := serving [inr listing; ok_json (swarm_doc "cluster")] in
  exists e w',
    GetEndpointByName demo "local" w = (Ok e, w')
    /\ exists rsp1 rsp2 l e0 i id,
         trace w' = trace w ++
           [mkExchange (client demo) (endpoints_request demo) (inr rsp1);
            mkExchange (client demo) (swarm_request demo (Endpoint.Id e0)) (inr rsp2)]
         /\ read_json decode_endpoints (endpoints_request demo) rsp1 = Ok l
         /\ first_named Endpoint.Name "local" l i e0
         /\ read_json decode_swarm (swarm_request demo (Endpoint.Id e0)) rsp2 = Ok id
         /\ e = Endpoint.with_SwarmID e0 id.
Proof.
  eexists _, _. split; [vm_compute; reflexivity|].
  eapply GetEndpointByName_resolves. vm_compute. reflexivity.
Defined.

Lemma GetEndpointByName_not_found_witness :
  GetEndpointByName demo "remote" (serving [inr listing])
  = (Err (Errorf ("Endpoint " +:+ quoted "remote" +:+ " not found")),
     record (serving [inr listing]) (client demo) (endpoints_request demo)
       (inr listing)
       (mkScript [] [] 1)).
Proof.
  eapply GetEndpointByName_not_found; [reflexivity..|].
  repeat constructor. eexists. split; [reflexivity|done].
Defined.

Lemma GetEndpointByName_nil_element_witness :
  GetEndpointByName demo "local" (serving [inr listing_null])
  = (Panic NilDereference,
     record (serving [inr listing_null]) (client demo) (endpoints_request demo)
       (inr listing_null) (mkScript [] [] 1)).
Proof.
  eapply (GetEndpointByName_nil_element _ _ _ _ _ _ 0); [reflexivity..|].
  split; [reflexivity|constructor].
Defined.


End Witnesses.
