(* ===== verification/Plugin.v ===== *)
(** * Plugin: the orchestrator of [src/plugin.go]

    Module [main] holds the configuration structures of the file, one
    module per structure, and [Exec].  [Exec] is one function in the
    source; here its body is cut at the blank lines of the source into the
    four phases that print a progress line ([connect_phase], [auth_phase],
    [endpoint_phase], [stack_phase]), the loop that parses the environment
    entries ([env_loop]), the joined inline configuration
    ([stack_config]), the branch test ([must_update]) and the two branches
    ([update_branch], [deploy_branch]); [Exec] composes them in the order
    of the source. *)

From S2P Require Import Prelude GoStrings Json Wire Http Fixture Client.

#[local] Open Scope string_scope.
#[local] Open Scope list_scope.
#[local] Open Scope go_scope.

Module main.

(** ** The structures of lines 11-77 *)

Module Repo.
Record t : Type := mk {
  Owner : string;
  Name : string;
  Link : string;
  Avatar : string;
  Branch : string;
  Private : bool;
  Trusted : bool
}.
End Repo.

Module Build.
Record t : Type := mk {
  Number : Z;
  Event : string;
  Status : string;
  Deploy : string;
  Created : Z;
  Started : Z;
  Finished : Z;
  Link : string
}.
End Build.

Module Author.
Record t : Type := mk {
  Name : string;
  Email : string;
  Avatar : string
}.
End Author.

Module Commit.
Record t : Type := mk {
  Remote : string;
  Sha : string;
  Ref : string;
  Link : string;
  Branch : string;
  Message : string;
  Author : Author.t
}.
End Commit.

Module Portainer.
Record t : Type := mk {
  Address : string;
  Username : string;
  Password : string;
  Endpoint : string;
  Insecure : bool
}.
End Portainer.

Module Stack.
Record t : Type := mk {
  Name : string;
  Path : string;
  Config : list string;
  Environment : list string
}.
End Stack.

Module Config.
Record t : Type := mk {
  Portainer : Portainer.t;
  Stack : Stack.t;
  Secrets : list string;
  Debug : bool
}.
End Config.

Module Plugin.
Record t : Type := mk {
  Repo : Repo.t;
  Build : Build.t;
  Commit : Commit.t;
  Config : Config.t
}.
End Plugin.

(** ** The pieces of [Exec] *)

(** The two progress marks. *)
Definition FAIL : string := " FAIL" +:+ newline.
Definition OK : string := " OK" +:+ newline.

(** Lines 117-121: every entry is split at its first [=]; [e[1]] is out of
    range for an entry without one. *)
Fixpoint env_loop (vars : list string) (env : list Env.t)
    : result (list Env.t) :=
  match vars with
  | [] => Ok env
  | v :: rest =>
      let e := SplitN v "="%char 2 in
      let? name := index e 0 in
      let? value := index e 1 in
      env_loop rest (env ++ [Env.mk name value])
  end.

(** Lines 123-126: the inline fragments joined by newlines. *)
Definition stack_config (config : list string) : string :=
  if decide (0 < length config) then Join config newline else "".

(** Line 131: [stack != nil && stack.EndpointID == endpoint.Id]. *)
Definition must_update (stack : option Wire.Stack.t) (endpoint : Endpoint.t)
    : option Wire.Stack.t :=
  match stack with
  | Some s =>
      if decide (Wire.Stack.EndpointID s = Endpoint.Id endpoint) then Some s
      else None
  | None => None
  end.

Section Exec.
Context `{!GoLib} {S : Type} `{!Platform S}.

(** Lines 132-147. *)
Definition update_branch (prtnr : Client.Portainer) (p : Plugin.t)
    (stack : Wire.Stack.t) (config : string) (env : list Env.t) (start : Z)
    : M S unit :=
  let cfg := Config.Stack (Plugin.Config p) in
  Printf ("Updating stack " +:+ quoted (Wire.Stack.Name stack) +:+ "...") ;;
  (if decide (config <> "") then
     or_else (UpdateStackFromString prtnr stack config true env) (Printf FAIL)
   else
     or_else (UpdateStackFromFile prtnr stack (Stack.Path cfg) true env)
       (Printf FAIL)) ;;
  Printf OK ;;
  d <- Since start ;;
  Printf ("Update stack " +:+ quoted (Stack.Name cfg) +:+ " finished in "
          +:+ d +:+ newline).

(** Lines 149-167. *)
Definition deploy_branch (prtnr : Client.Portainer) (p : Plugin.t)
    (endpoint : Endpoint.t) (config : string) (env : list Env.t) (start : Z)
    : M S unit :=
  let cfg := Config.Stack (Plugin.Config p) in
  Printf ("Depploy stack " +:+ quoted (Stack.Name cfg) +:+ "...") ;;
  (if decide (config <> "") then
     or_else (DeployStackFromString prtnr endpoint (Stack.Name cfg) config env)
       (Printf FAIL)
   else if decide (Stack.Path cfg <> "") then
     or_else (DeployStackFromFile prtnr endpoint (Stack.Name cfg)
                (Stack.Path cfg) env)
       (Printf FAIL)
   else
     Printf FAIL ;; raise (Errorf "Stack config not defined")) ;;
  Printf OK ;;
  d <- Since start ;;
  Printf ("Deploy stack " +:+ Stack.Name cfg +:+ " finished in " +:+ d
          +:+ newline).

(** Lines 80-91: the client is built and the server probed. *)
Definition connect_phase (p : Plugin.t) : M S Client.Portainer :=
  let pcfg := Config.Portainer (Plugin.Config p) in
  prtnr <- lift (NewPortainer (Portainer.Address pcfg) (Portainer.Insecure pcfg)) ;;
  Printf "Connecting to portainer server..." ;;
  or_else (Connect prtnr) (Printf FAIL) ;;
  Printf OK ;;
  ret prtnr.

(** Lines 93-99: the receiver that comes back holds the token. *)
Definition auth_phase (p : Plugin.t) (prtnr : Client.Portainer)
    : M S Client.Portainer :=
  let pcfg := Config.Portainer (Plugin.Config p) in
  Printf "Autentication..." ;;
  prtnr <- or_else (Auth prtnr (Portainer.Username pcfg) (Portainer.Password pcfg))
             (Printf FAIL) ;;
  Printf OK ;;
  ret prtnr.

(** Lines 101-107. *)
Definition endpoint_phase (p : Plugin.t) (prtnr : Client.Portainer)
    : M S Endpoint.t :=
  let pcfg := Config.Portainer (Plugin.Config p) in
  Printf ("Selecting endpoint " +:+ quoted (Portainer.Endpoint pcfg) +:+ "...") ;;
  endpoint <- or_else (GetEndpointByName prtnr (Portainer.Endpoint pcfg))
                (Printf FAIL) ;;
  Printf OK ;;
  ret endpoint.

(** Lines 109-115: an error of the lookup is printed and dropped; [stack]
    is then nil. *)
Definition stack_phase (p : Plugin.t) (prtnr : Client.Portainer)
    : M S (option Wire.Stack.t) :=
  let scfg := Config.Stack (Plugin.Config p) in
  Printf ("Search stack " +:+ quoted (Stack.Name scfg) +:+ "...") ;;
  found <- try (GetStackByName prtnr (Stack.Name scfg)) ;;
  match found with
  | inl _ => Printf FAIL ;; ret None
  | inr stack => Printf OK ;; ret stack
  end.

(** ** [Exec], lines 79-171 *)

Definition Exec (p : Plugin.t) : M S unit :=
  let scfg := Config.Stack (Plugin.Config p) in
  prtnr <- connect_phase p ;;
  prtnr <- auth_phase p prtnr ;;
  endpoint <- endpoint_phase p prtnr ;;
  stack <- stack_phase p prtnr ;;
  env <- lift (env_loop (Stack.Environment scfg) []) ;;
  let config := stack_config (Stack.Config scfg) in
  start <- Now ;;
  match must_update stack endpoint with
  | Some stack => update_branch prtnr p stack config env start
  | None => deploy_branch prtnr p endpoint config env start
  end.

End Exec.

End main.

(** * Theorems on the pieces of [Exec] *)

Section Pieces.
Implicit Types (vars config : list string) (env : list Env.t) (v : string).

(** The entry the loop makes of a string with a [=] in it. *)
Definition entry (v : string) : Env.t :=
  match cut "="%char v with
  | Some (name, value) => Env.mk name value
  | None => Env.mk v ""
  end.

Lemma env_loop_cons v vars env :
  main.env_loop (v :: vars) env
  = match cut "="%char v with
    | Some (name, value) => main.env_loop vars (env ++ [Env.mk name value])
    | None => Panic (IndexOutOfRange 1 1)
    end.
Proof.
  simpl. rewrite SplitN_two_cut. by destruct (cut _ v) as [[name value]|].
Qed.

Lemma env_loop_run vars env :
  main.env_loop vars env
  = if forallb (contains "="%char) vars then Ok (env ++ (entry <$> vars))
    else Panic (IndexOutOfRange 1 1).
Proof.
  revert env. induction vars as [|v vars IH]; intros env.
  { simpl. by rewrite app_nil_r. }
  rewrite env_loop_cons. unfold entry at 1. simpl.
  destruct (cut _ v) as [[name value]|] eqn:E.
  - assert (contains "="%char v = true) as ->.
    { destruct (contains _ v) eqn:Ec; [done|]. apply cut_None_contains in Ec. congruence. }
    rewrite IH. simpl. by rewrite <- (assoc_L (++)).
  - by apply cut_None_contains in E as ->.
Qed.

(** C20: the loop over the environment entries returns no error: when
    every entry holds a [=] it yields the entries split at their first
    [=], after those it was given, in order; when one entry holds none it
    panics with index 1 out of range for length 1, whatever the other
    entries are. *)
Theorem env_loop_total vars env :
  main.env_loop vars env
  = if forallb (contains "="%char) vars then Ok (env ++ (entry <$> vars))
    else Panic (IndexOutOfRange 1 1).
Proof. apply env_loop_run. Qed.

(** An entry is split at its first [=] only: the name is what stands
    before it, the value everything after it, further [=] included, and an
    entry that ends in [=] has the empty value. *)
Theorem env_loop_splits_at_first name value :
  contains "="%char name = false ->
  main.env_loop [name +:+ "=" +:+ value] [] = Ok [Env.mk name value].
Proof.
  intros Hname. rewrite env_loop_cons.
  change ("=" +:+ value) with (String "="%char value).
  by rewrite cut_app_first.
Qed.

Lemma Join_nil_iff config (sp : string) :
  sp <> "" -> Join config sp = "" <-> config = [] \/ config = [""].
Proof.
  intros Hsp. destruct config as [|x [|y config]]; simpl; [naive_solver..|].
  split; [|naive_solver].
  intros (_ & (?&_)%string_app_eq_nil)%string_app_eq_nil. done.
Qed.

(** C36: the inline configuration is its fragments joined by newlines, in
    the order given; it is empty, so that the file is used instead, exactly
    when there is no fragment or one empty fragment. *)
Theorem stack_config_joined config :
  main.stack_config config = Join config newline
  /\ (main.stack_config config = "" <-> config = [] \/ config = [""]).
Proof.
  assert (main.stack_config config = Join config newline) as E.
  { unfold main.stack_config. case_decide; [done|]. by destruct config; simpl in *; [|lia]. }
  split; [done|]. rewrite E. by apply Join_nil_iff.
Qed.


End Pieces.

(** * The phases *)

Section Phases.
Context `{!GoLib} {S : Type} `{!Platform S}.
Implicit Types (p : main.Plugin.t) (prtnr : Client.Portainer) (w : World S).

(** The shape three of the phases share: a progress line, the call, and
    the mark of its outcome; an error is returned once [FAIL] is printed. *)
Definition announced {A} (msg : string) (c : M S A) : M S A :=
  Printf msg ;;
  a <- or_else c (Printf main.FAIL) ;;
  Printf main.OK ;;
  ret a.

Lemma announced_run {A} msg (c : M S A) w :
  announced msg c w
  = match c (printed w [msg]) with
    | (Ok a, w') => (Ok a, printed w' [main.OK])
    | (Err e, w') => (Err e, printed w' [main.FAIL])
    | (Panic x, w') => (Panic x, w')
    end.
Proof.
  unfold announced, or_else, try, bind. rewrite Printf_run.
  by destruct (c _) as [[a|e|x] w'].
Qed.

Lemma tidy_announced {A} msg (c : M S A) : tidy c -> tidy (announced msg c).
Proof. unfold announced. auto 10 with go. Qed.

Lemma sent_announced {A} msg (c : M S A) w :
  tidy c -> sent (announced msg c) w = sent c (printed w [msg]).
Proof.
  intros Hc. unfold announced. rewrite sent_Printf_bind.
  rewrite sent_bind_quiet; auto with go.
  - apply sent_or_else_Printf.
  - intros a w'. rewrite sent_Printf_bind. apply (sent_lift (Ok a)).
Qed.

#[export] Instance announced_proper {A} msg :
  Proper ((≡) ==> (≡)) (@announced A msg).
Proof. intros c c' Ec w. by rewrite !announced_run, Ec. Qed.

(** The phases in that shape. *)
Lemma connect_phase_announced p :
  main.connect_phase p
  ≡ (prtnr <- lift (NewPortainer
                     (main.Portainer.Address (main.Config.Portainer (main.Plugin.Config p)))
                     (main.Portainer.Insecure (main.Config.Portainer (main.Plugin.Config p)))) ;;
     announced "Connecting to portainer server..." (Connect prtnr ;; ret prtnr)).
Proof.
  intros w. unfold main.connect_phase. rewrite !bind_lift.
  destruct (NewPortainer _ _) as [prtnr| |]; [|done..].
  rewrite announced_run. unfold or_else, try, bind. rewrite Printf_run.
  by destruct (Connect prtnr _) as [[[]|e|x] w'].
Qed.

Lemma auth_phase_announced p prtnr :
  main.auth_phase p prtnr
  ≡ announced "Autentication..."
      (Auth prtnr (main.Portainer.Username (main.Config.Portainer (main.Plugin.Config p)))
         (main.Portainer.Password (main.Config.Portainer (main.Plugin.Config p)))).
Proof. done. Qed.

Lemma endpoint_phase_announced p prtnr :
  main.endpoint_phase p prtnr
  ≡ announced
      ("Selecting endpoint "
       +:+ quoted (main.Portainer.Endpoint (main.Config.Portainer (main.Plugin.Config p)))
       +:+ "...")
      (GetEndpointByName prtnr
         (main.Portainer.Endpoint (main.Config.Portainer (main.Plugin.Config p)))).
Proof. done. Qed.

Lemma stack_phase_run p prtnr w :
  main.stack_phase p prtnr w
  = let name := main.Stack.Name (main.Config.Stack (main.Plugin.Config p)) in
    match GetStackByName prtnr name
            (printed w ["Search stack " +:+ quoted name +:+ "..."]) with
    | (Ok stack, w') => (Ok stack, printed w' [main.OK])
    | (Err _, w') => (Ok None, printed w' [main.FAIL])
    | (Panic x, w') => (Panic x, w')
    end.
Proof.
  unfold main.stack_phase, try, bind. rewrite Printf_run. simpl.
  by destruct (GetStackByName _ _ _) as [[a|e|x] w'].
Qed.

(** ** Every phase is tidy *)

Lemma tidy_connect_phase p : tidy (main.connect_phase p).
Proof. rewrite connect_phase_announced. auto 10 using tidy_announced with go. Qed.

Lemma tidy_auth_phase p prtnr : tidy (main.auth_phase p prtnr).
Proof. apply tidy_announced. auto with go. Qed.

Lemma tidy_endpoint_phase p prtnr : tidy (main.endpoint_phase p prtnr).
Proof. apply tidy_announced. auto with go. Qed.

Lemma tidy_stack_phase p prtnr : tidy (main.stack_phase p prtnr).
Proof.
  unfold main.stack_phase. apply tidy_bind; [auto with go|]. intros _.
  apply tidy_bind; [auto with go|]. intros [e|stack]; auto with go.
Qed.

Lemma tidy_update_branch prtnr p stack config env start :
  tidy (main.update_branch prtnr p stack config env start).
Proof. unfold main.update_branch. case_decide; auto 10 with go. Qed.

Lemma tidy_deploy_branch prtnr p endpoint config env start :
  tidy (main.deploy_branch prtnr p endpoint config env start).
Proof. unfold main.deploy_branch. repeat case_decide; auto 10 with go. Qed.

Lemma tidy_Exec p : tidy (main.Exec p).
Proof.
  unfold main.Exec.
  repeat (apply tidy_bind;
          [auto using tidy_connect_phase, tidy_auth_phase, tidy_endpoint_phase,
             tidy_stack_phase with go|intros ?]).
  destruct (main.must_update _ _); auto using tidy_update_branch, tidy_deploy_branch.
Qed.

End Phases.

#[export] Hint Resolve tidy_announced tidy_connect_phase tidy_auth_phase
  tidy_endpoint_phase tidy_stack_phase tidy_update_branch tidy_deploy_branch
  tidy_Exec : go.

(** * The runs of the phases and of the branches

    Each piece of [Exec] makes one call of the client between two prints.
    Its run is the run of that call in the world where the progress line
    is printed, followed by the mark of the outcome. *)

Section Runs.
Context `{!GoLib} {S : Type} `{!Platform S}.
Implicit Types (p : main.Plugin.t) (prtnr : Client.Portainer) (w : World S).

Local Abbreviation portainer_of p := (main.Config.Portainer (main.Plugin.Config p)).
Local Abbreviation stack_of p := (main.Config.Stack (main.Plugin.Config p)).

(** The call of the update branch: the inline text when there is some, the
    file otherwise. *)
Definition update_call prtnr p (stack : Wire.Stack.t) (config : string)
    (env : list Env.t) : M S unit :=
  if decide (config <> "") then UpdateStackFromString prtnr stack config true env
  else UpdateStackFromFile prtnr stack (main.Stack.Path (stack_of p)) true env.

(** The call of the deploy branch: the inline text, else the file, else
    the error of a stack without source. *)
Definition deploy_call prtnr p (endpoint : Endpoint.t) (config : string)
    (env : list Env.t) : M S unit :=
  if decide (config <> "") then
    DeployStackFromString prtnr endpoint (main.Stack.Name (stack_of p)) config env
  else if decide (main.Stack.Path (stack_of p) <> "") then
    DeployStackFromFile prtnr endpoint (main.Stack.Name (stack_of p))
      (main.Stack.Path (stack_of p)) env
  else raise (Errorf "Stack config not defined").

(** The last line of a run that succeeds. *)
Definition update_report p (start : Z) w : string :=
  "Update stack " +:+ quoted (main.Stack.Name (stack_of p)) +:+ " finished in "
  +:+ duration_string (now (outside w) - start) +:+ newline.

Definition deploy_report p (start : Z) w : string :=
  "Deploy stack " +:+ main.Stack.Name (stack_of p) +:+ " finished in "
  +:+ duration_string (now (outside w) - start) +:+ newline.

(** The end of a branch whose call succeeded. *)
Lemma finished_run (line : string -> string) (start : Z) w :
  (Printf main.OK ;; d <- Since start ;; Printf (line d)) w
  = (Ok tt, printed w [main.OK; line (duration_string (now (outside w) - start))]).
Proof.
  unfold bind. rewrite Printf_run. simpl. rewrite Printf_run.
  unfold printed. simpl. by rewrite <- (assoc_L (++)).
Qed.

Lemma connect_phase_run p w :
  main.connect_phase p w
  = match NewPortainer (main.Portainer.Address (portainer_of p))
            (main.Portainer.Insecure (portainer_of p)) with
    | Ok prtnr =>
        match Connect prtnr (printed w ["Connecting to portainer server..."]) with
        | (Ok _, w') => (Ok prtnr, printed w' [main.OK])
        | (Err e, w') => (Err e, printed w' [main.FAIL])
        | (Panic x, w') => (Panic x, w')
        end
    | Err e => (Err e, w)
    | Panic x => (Panic x, w)
    end.
Proof.
  rewrite (connect_phase_announced p w), bind_lift.
  destruct (NewPortainer _ _) as [prtnr| |]; [|done..].
  rewrite announced_run. unfold bind. by destruct (Connect prtnr _) as [[[]|e|x] w'].
Qed.

Lemma update_branch_run prtnr p stack config env start w :
  main.update_branch prtnr p stack config env start w
  = match update_call prtnr p stack config env
            (printed w ["Updating stack " +:+ quoted (Wire.Stack.Name stack) +:+ "..."]) with
    | (Ok _, w') => (Ok tt, printed w' [main.OK; update_report p start w'])
    | (Err e, w') => (Err e, printed w' [main.FAIL])
    | (Panic x, w') => (Panic x, w')
    end.
Proof.
  unfold main.update_branch, update_call, or_else, try, bind. rewrite Printf_run.
  case_decide.
  - destruct (UpdateStackFromString _ _ _ _ _ _) as [[[]|e|x] w']; [|done..].
    apply (finished_run (fun d => _ +:+ _ +:+ _ +:+ d +:+ newline)).
  - destruct (UpdateStackFromFile _ _ _ _ _ _) as [[[]|e|x] w']; [|done..].
    apply (finished_run (fun d => _ +:+ _ +:+ _ +:+ d +:+ newline)).
Qed.

Lemma deploy_branch_run prtnr p endpoint config env start w :
  main.deploy_branch prtnr p endpoint config env start w
  = match deploy_call prtnr p endpoint config env
            (printed w ["Depploy stack " +:+ quoted (main.Stack.Name (stack_of p)) +:+ "..."]) with
    | (Ok _, w') => (Ok tt, printed w' [main.OK; deploy_report p start w'])
    | (Err e, w') => (Err e, printed w' [main.FAIL])
    | (Panic x, w') => (Panic x, w')
    end.
Proof.
  unfold main.deploy_branch, deploy_call, or_else, try, bind. rewrite Printf_run.
  repeat case_decide; [| |done].
  - destruct (DeployStackFromString _ _ _ _ _ _) as [[[]|e|x] w']; [|done..].
    apply (finished_run (fun d => _ +:+ _ +:+ _ +:+ d +:+ newline)).
  - destruct (DeployStackFromFile _ _ _ _ _ _) as [[[]|e|x] w']; [|done..].
    apply (finished_run (fun d => _ +:+ _ +:+ _ +:+ d +:+ newline)).
Qed.

(** ** What the pieces send *)

Lemma sent_connect_phase p w :
  sent (main.connect_phase p) w
  = match NewPortainer (main.Portainer.Address (portainer_of p))
            (main.Portainer.Insecure (portainer_of p)) with
    | Ok prtnr => sent (Connect prtnr) (printed w ["Connecting to portainer server..."])
    | _ => []
    end.
Proof.
  unfold sent. rewrite connect_phase_run.
  destruct (NewPortainer _ _) as [prtnr| |]; simpl; rewrite ?drop_all; [|done..].
  by destruct (Connect prtnr _) as [[[]|e|x] w'].
Qed.

Lemma sent_auth_phase p prtnr w :
  sent (main.auth_phase p prtnr) w
  = sent (Auth prtnr (main.Portainer.Username (portainer_of p))
            (main.Portainer.Password (portainer_of p)))
      (printed w ["Autentication..."]).
Proof. rewrite auth_phase_announced. apply sent_announced. auto with go. Qed.

Lemma sent_endpoint_phase p prtnr w :
  sent (main.endpoint_phase p prtnr) w
  = sent (GetEndpointByName prtnr (main.Portainer.Endpoint (portainer_of p)))
      (printed w ["Selecting endpoint "
                  +:+ quoted (main.Portainer.Endpoint (portainer_of p)) +:+ "..."]).
Proof. rewrite endpoint_phase_announced. apply sent_announced. auto with go. Qed.

Lemma sent_stack_phase p prtnr w :
  sent (main.stack_phase p prtnr) w
  = sent (GetStackByName prtnr (main.Stack.Name (stack_of p)))
      (printed w ["Search stack " +:+ quoted (main.Stack.Name (stack_of p)) +:+ "..."]).
Proof.
  unfold sent. rewrite stack_phase_run. simpl.
  by destruct (GetStackByName _ _ _) as [[a|e|x] w'].
Qed.

Lemma sent_update_branch prtnr p stack config env start w :
  sent (main.update_branch prtnr p stack config env start) w
  = sent (update_call prtnr p stack config env)
      (printed w ["Updating stack " +:+ quoted (Wire.Stack.Name stack) +:+ "..."]).
Proof.
  unfold sent. rewrite update_branch_run.
  by destruct (update_call _ _ _ _ _ _) as [[a|e|x] w'].
Qed.

Lemma sent_deploy_branch prtnr p endpoint config env start w :
  sent (main.deploy_branch prtnr p endpoint config env start) w
  = sent (deploy_call prtnr p endpoint config env)
      (printed w ["Depploy stack " +:+ quoted (main.Stack.Name (stack_of p)) +:+ "..."]).
Proof.
  unfold sent. rewrite deploy_branch_run.
  by destruct (deploy_call _ _ _ _ _ _) as [[a|e|x] w'].
Qed.

End Runs.

(** * Theorems on [Exec] *)

(** Proves that a composition of tidy pieces is tidy. *)
Ltac solve_tidy :=
  repeat first [ progress auto with go
               | apply tidy_bind; [|intros ?]
               | case_decide
               | case_match ].

Section Orchestration.
Context `{!GoLib} {S : Type} `{!Platform S}.
Implicit Types (p : main.Plugin.t) (prtnr : Client.Portainer) (w : World S).

Local Abbreviation portainer_of p := (main.Config.Portainer (main.Plugin.Config p)).
Local Abbreviation stack_of p := (main.Config.Stack (main.Plugin.Config p)).

(** What [Exec] does once the lookups are made. *)
Definition finish p prtnr (endpoint : Endpoint.t) (stack : option Wire.Stack.t)
    : M S unit :=
  env <- lift (main.env_loop (main.Stack.Environment (stack_of p)) []) ;;
  start <- Now ;;
  match main.must_update stack endpoint with
  | Some stack =>
      main.update_branch prtnr p stack
        (main.stack_config (main.Stack.Config (stack_of p))) env start
  | None =>
      main.deploy_branch prtnr p endpoint
        (main.stack_config (main.Stack.Config (stack_of p))) env start
  end.

(** The four lookups, with what they found. *)
Definition lookups p : M S (Client.Portainer * Endpoint.t * option Wire.Stack.t) :=
  prtnr <- main.connect_phase p ;;
  prtnr <- main.auth_phase p prtnr ;;
  endpoint <- main.endpoint_phase p prtnr ;;
  stack <- main.stack_phase p prtnr ;;
  ret (prtnr, endpoint, stack).

Lemma Exec_lookups_finish p :
  main.Exec p ≡ (found <- lookups p ;; finish p found.1.1 found.1.2 found.2).
Proof.
  intros w. unfold main.Exec, lookups, finish, bind.
  destruct (main.connect_phase p w) as [[prtnr0|?|?] w1]; [|done..].
  destruct (main.auth_phase p prtnr0 w1) as [[prtnr|?|?] w2]; [|done..].
  destruct (main.endpoint_phase p prtnr w2) as [[e|?|?] w3]; [|done..].
  by destruct (main.stack_phase p prtnr w3) as [[s|?|?] w4].
Qed.

Lemma tidy_finish p prtnr endpoint stack : tidy (finish p prtnr endpoint stack).
Proof. unfold finish. solve_tidy. Qed.

Lemma tidy_lookups p : tidy (lookups p).
Proof. unfold lookups. solve_tidy. Qed.

(** ** The lookups change nothing *)

Lemma lookups_send_no_mutation p w :
  Forall (fun x => ~ mutation (request x)) (sent (lookups p) w).
Proof.
  unfold lookups.
  apply Forall_sent_bind; [solve_tidy..| |intros prtnr0 w1].
  { rewrite sent_connect_phase. destruct (NewPortainer _ _) as [prtnr| |]; [|done..].
    by apply (lookup_sends_no_mutation prtnr IConnect). }
  apply Forall_sent_bind; [solve_tidy..| |intros prtnr w2].
  { rewrite sent_auth_phase. by apply (lookup_sends_no_mutation prtnr0 (IAuth _ _)). }
  apply Forall_sent_bind; [solve_tidy..| |intros endpoint w3].
  { rewrite sent_endpoint_phase.
    by apply (lookup_sends_no_mutation prtnr (IGetEndpointByName _)). }
  apply Forall_sent_bind; [solve_tidy..| |intros stack w4; by rewrite sent_ret].
  rewrite sent_stack_phase. by apply (lookup_sends_no_mutation prtnr (IGetStackByName _)).
Qed.

Lemma length_sent_lookups p w : length (sent (lookups p) w) <= 5.
Proof.
  unfold lookups.
  apply (length_sent_bind _ _ _ 1 4); [solve_tidy..| |intros prtnr0 w1].
  { rewrite sent_connect_phase. destruct (NewPortainer _ _) as [prtnr| |]; simpl; [|lia..].
    apply (length_sent_invoke prtnr IConnect). }
  apply (length_sent_bind _ _ _ 1 3); [solve_tidy..| |intros prtnr w2].
  { rewrite sent_auth_phase. apply (length_sent_invoke prtnr0 (IAuth _ _)). }
  apply (length_sent_bind _ _ _ 2 1); [solve_tidy..| |intros endpoint w3].
  { rewrite sent_endpoint_phase. apply (length_sent_invoke prtnr (IGetEndpointByName _)). }
  apply (length_sent_bind _ _ _ 1 0); [solve_tidy..| |intros stack w4; by rewrite sent_ret].
  rewrite sent_stack_phase. apply (length_sent_invoke prtnr (IGetStackByName _)).
Qed.

Lemma length_sent_finish p prtnr endpoint stack w :
  length (sent (finish p prtnr endpoint stack) w) <= 1.
Proof.
  unfold finish.
  apply (length_sent_bind _ _ _ 0 1); [solve_tidy..|by rewrite sent_lift|intros env w1].
  apply (length_sent_bind _ _ _ 0 1); [solve_tidy..|by rewrite sent_Now|intros start w2].
  destruct (main.must_update _ _) as [s|].
  - rewrite sent_update_branch. unfold update_call. case_decide.
    + apply (length_sent_invoke prtnr (IUpdateStackFromString _ _ _ _)).
    + apply (length_sent_invoke prtnr (IUpdateStackFromFile _ _ _ _)).
  - rewrite sent_deploy_branch. unfold deploy_call. repeat case_decide.
    + apply (length_sent_invoke prtnr (IDeployStackFromString _ _ _ _)).
    + apply (length_sent_invoke prtnr (IDeployStackFromFile _ _ _ _)).
    + rewrite sent_raise. simpl. lia.
Qed.

(** ** One client for the whole run *)

(** The client [Exec] is told to build: the only setting of the transport
    the plugin has is whether the server's certificate is verified. *)
Definition transport p : Client := mkClient (main.Portainer.Insecure (portainer_of p)).

Lemma connect_phase_client p w prtnr w' :
  main.connect_phase p w = (Ok prtnr, w') -> client prtnr = transport p.
Proof.
  rewrite connect_phase_run.
  destruct (NewPortainer _ _) as [prtnr0| |] eqn:E; [|done..].
  apply NewPortainer_client in E as [E _].
  destruct (Connect _ _) as [[[]|?|?] ?]; [|done..]. by intros [= <- _].
Qed.

Lemma auth_phase_client p prtnr0 w prtnr w' :
  main.auth_phase p prtnr0 w = (Ok prtnr, w') -> client prtnr = client prtnr0.
Proof.
  rewrite (auth_phase_announced p prtnr0 w), announced_run.
  destruct (Auth _ _ _ _) as [[prtnr1|?|?] ?] eqn:E; [|done..].
  apply Auth_client in E as [E _]. by intros [= <- _].
Qed.

(** What the lookups return is a receiver on the client of the settings. *)
Lemma lookups_client p w found w' :
  lookups p w = (Ok found, w') -> client found.1.1 = transport p.
Proof.
  unfold lookups, bind.
  destruct (main.connect_phase p w) as [[prtnr0|?|?] w1] eqn:E0; [|done..].
  destruct (main.auth_phase p prtnr0 w1) as [[prtnr|?|?] w2] eqn:E1; [|done..].
  destruct (main.endpoint_phase p prtnr w2) as [[e|?|?] w3]; [|done..].
  destruct (main.stack_phase p prtnr w3) as [[s|?|?] w4]; [|done..].
  intros [= <- _]. simpl.
  rewrite (auth_phase_client _ _ _ _ _ E1). by eapply connect_phase_client.
Qed.

Lemma lookups_via p w : Forall (fun x => via x = transport p) (sent (lookups p) w).
Proof.
  unfold lookups.
  apply Forall_sent_bind_Ok; [solve_tidy..| |intros prtnr0 w1 E0].
  { rewrite sent_connect_phase.
    destruct (NewPortainer _ _) as [prtnr| |] eqn:E; [|done..].
    apply NewPortainer_client in E as [E _]. unfold transport. rewrite <- E.
    apply (invoke_via prtnr IConnect). }
  apply connect_phase_client in E0 as <-.
  apply Forall_sent_bind_Ok; [solve_tidy..| |intros prtnr w2 E1].
  { rewrite sent_auth_phase. apply (invoke_via prtnr0 (IAuth _ _)). }
  apply auth_phase_client in E1 as <-.
  apply Forall_sent_bind; [solve_tidy..| |intros endpoint w3].
  { rewrite sent_endpoint_phase. apply (invoke_via prtnr (IGetEndpointByName _)). }
  apply Forall_sent_bind; [solve_tidy..| |intros stack w4; by rewrite sent_ret].
  rewrite sent_stack_phase. apply (invoke_via prtnr (IGetStackByName _)).
Qed.

Lemma finish_via p prtnr endpoint stack w :
  Forall (fun x => via x = client prtnr) (sent (finish p prtnr endpoint stack) w).
Proof.
  unfold finish.
  apply Forall_sent_bind; [solve_tidy..|by rewrite sent_lift|intros env w1].
  apply Forall_sent_bind; [solve_tidy..|by rewrite sent_Now|intros start w2].
  destruct (main.must_update _ _) as [s|].
  - rewrite sent_update_branch. unfold update_call. case_decide.
    + apply (invoke_via prtnr (IUpdateStackFromString _ _ _ _)).
    + apply (invoke_via prtnr (IUpdateStackFromFile _ _ _ _)).
  - rewrite sent_deploy_branch. unfold deploy_call. repeat case_decide.
    + apply (invoke_via prtnr (IDeployStackFromString _ _ _ _)).
    + apply (invoke_via prtnr (IDeployStackFromFile _ _ _ _)).
    + by rewrite sent_raise.
Qed.

(** ** The request of the branch taken *)

(** The configuration a branch sends, given the joined inline text: that
    text when it is not empty, the content of the file otherwise. *)
Definition source_of p (inline : string) w (config : string) : Prop :=
  if decide (inline <> "") then config = inline
  else read_file (main.Stack.Path (stack_of p)) (outside w) = inr config.

(** The request [Exec] may send once the lookups have found [endpoint] and
    [stack]: the update of that stack when it sits on the endpoint, the
    creation of a stack on the endpoint otherwise. *)
Definition chosen_request p prtnr (endpoint : Endpoint.t)
    (stack : option Wire.Stack.t) w (r : Request) : Prop :=
  let env := entry <$> main.Stack.Environment (stack_of p) in
  exists config,
    source_of p (main.stack_config (main.Stack.Config (stack_of p))) w config
    /\ r = match main.must_update stack endpoint with
           | Some s => update_request prtnr s config true env
           | None =>
               create_string_request prtnr endpoint
                 (main.Stack.Name (stack_of p)) config env
           end.

Lemma sent_update_call prtnr p s inline env w :
  Forall (fun x => exists config,
            source_of p inline w config
            /\ request x = update_request prtnr s config true env)
    (sent (update_call prtnr p s inline env) w).
Proof.
  unfold update_call, source_of. case_decide.
  - rewrite UpdateStackFromString_call. apply Forall_sent_call. eauto.
  - unfold UpdateStackFromFile. rewrite sent_ReadFile_bind.
    destruct (read_file _ _) eqn:E; [done|].
    rewrite UpdateStackFromString_call. apply Forall_sent_call. eauto.
Qed.

Lemma sent_deploy_call prtnr p endpoint inline env w :
  Forall (fun x => exists config,
            source_of p inline w config
            /\ request x = create_string_request prtnr endpoint
                             (main.Stack.Name (stack_of p)) config env)
    (sent (deploy_call prtnr p endpoint inline env) w).
Proof.
  unfold deploy_call, source_of. repeat case_decide.
  - rewrite DeployStackFromString_call. apply Forall_sent_call. eauto.
  - unfold DeployStackFromFile. rewrite sent_ReadFile_bind.
    destruct (read_file _ _) eqn:E; [done|].
    rewrite DeployStackFromString_call. apply Forall_sent_call. eauto.
  - by rewrite sent_raise.
Qed.

Lemma sent_finish p prtnr endpoint stack w :
  Forall (fun x => chosen_request p prtnr endpoint stack w (request x))
    (sent (finish p prtnr endpoint stack) w).
Proof.
  unfold finish, chosen_request. rewrite env_loop_run.
  destruct (forallb _ _); [|by rewrite sent_bind, sent_lift by solve_tidy].
  rewrite sent_bind, sent_lift by solve_tidy. simpl.
  rewrite sent_bind, sent_Now by solve_tidy. simpl.
  destruct (main.must_update _ _) as [s|].
  - rewrite sent_update_branch. exact (sent_update_call _ _ _ _ _ (printed w [_])).
  - rewrite sent_deploy_branch. exact (sent_deploy_call _ _ _ _ _ (printed w [_])).
Qed.

(** ** How the run ends *)

Lemma finish_malformed p prtnr endpoint stack w :
  forallb (contains "="%char) (main.Stack.Environment (stack_of p)) = false ->
  finish p prtnr endpoint stack w = (Panic (IndexOutOfRange 1 1), w).
Proof. intros Hf. unfold finish. by rewrite env_loop_run, Hf. Qed.

(** When [finish] succeeds it has sent one request, a mutation. *)
Lemma finish_Ok p prtnr endpoint stack w w' :
  finish p prtnr endpoint stack w = (Ok tt, w') ->
  exists x, sent (finish p prtnr endpoint stack) w = [x] /\ mutation (request x).
Proof.
  unfold finish. intros Hrun.
  apply bind_Ok_sent in Hrun as (env & w1 & _ & Hrun & ->); [|solve_tidy..].
  apply bind_Ok_sent in Hrun as (start & w2 & _ & Hrun & ->); [|solve_tidy..].
  rewrite sent_lift, sent_Now. simpl.
  destruct (main.must_update _ _) as [s|].
  - rewrite update_branch_run in Hrun. rewrite sent_update_branch.
    destruct (update_call _ _ _ _ _ _) as [[[]|?|?] w3] eqn:E; [|done..].
    unfold update_call in *. case_decide.
    + apply (mutating_Ok_sent prtnr (IUpdateStackFromString _ _ _ _)); simpl; by rewrite ?E.
    + apply (mutating_Ok_sent prtnr (IUpdateStackFromFile _ _ _ _)); simpl; by rewrite ?E.
  - rewrite deploy_branch_run in Hrun. rewrite sent_deploy_branch.
    destruct (deploy_call _ _ _ _ _ _) as [[[]|?|?] w3] eqn:E; [|done..].
    unfold deploy_call in *. repeat case_decide; [| |done].
    + apply (mutating_Ok_sent prtnr (IDeployStackFromString _ _ _ _)); simpl; by rewrite ?E.
    + apply (mutating_Ok_sent prtnr (IDeployStackFromFile _ _ _ _)); simpl; by rewrite ?E.
Qed.

Lemma last_printed w (s : string) : last (stdout (printed w [s])) = Some s.
Proof. apply last_snoc. Qed.

(** An error of [finish] comes after the mark of failure. *)
Lemma finish_Err p prtnr endpoint stack w e w' :
  finish p prtnr endpoint stack w = (Err e, w') ->
  last (stdout w') = Some main.FAIL.
Proof.
  unfold finish. rewrite bind_lift, env_loop_run.
  destruct (forallb _ _); [|done]. unfold bind at 1. simpl.
  destruct (main.must_update _ _) as [s|].
  - rewrite update_branch_run.
    destruct (update_call _ _ _ _ _ _) as [[[]|?|?] w3]; [done| |done].
    intros [= _ <-]. apply last_printed.
  - rewrite deploy_branch_run.
    destruct (deploy_call _ _ _ _ _ _) as [[[]|?|?] w3]; [done| |done].
    intros [= _ <-]. apply last_printed.
Qed.

(** An error of the lookups is the error of [NewPortainer], before
    anything is printed, or comes after the mark of failure. *)
Lemma lookups_Err p w e w' :
  lookups p w = (Err e, w') ->
  (NewPortainer (main.Portainer.Address (portainer_of p))
     (main.Portainer.Insecure (portainer_of p)) = Err e /\ w' = w)
  \/ last (stdout w') = Some main.FAIL.
Proof.
  unfold lookups, bind. rewrite connect_phase_run.
  destruct (NewPortainer _ _) as [prtnr0|?|?]; [|naive_solver..].
  destruct (Connect prtnr0 _) as [[[]|?|?] w1];
    [|intros [= _ <-]; right; apply last_printed|done].
  rewrite (auth_phase_announced p prtnr0 _), announced_run.
  destruct (Auth prtnr0 _ _ _) as [[prtnr|?|?] w2];
    [|intros [= _ <-]; right; apply last_printed|done].
  rewrite (endpoint_phase_announced p prtnr _), announced_run.
  destruct (GetEndpointByName prtnr _ _) as [[endpoint|?|?] w3];
    [|intros [= _ <-]; right; apply last_printed|done].
  rewrite stack_phase_run. simpl. by destruct (GetStackByName prtnr _ _) as [[?|?|?] w4].
Qed.

(** The lookups that succeed have made at least four exchanges. *)
Lemma lookups_Ok p w found w' :
  lookups p w = (Ok found, w') -> 4 <= length (sent (lookups p) w).
Proof.
  unfold lookups. intros Hrun.
  apply bind_Ok_sent in Hrun as (prtnr0 & w1 & H1 & Hrun & ->); [|solve_tidy..].
  apply bind_Ok_sent in Hrun as (prtnr & w2 & H2 & Hrun & ->); [|solve_tidy..].
  apply bind_Ok_sent in Hrun as (endpoint & w3 & H3 & _ & ->); [|solve_tidy..].
  rewrite !length_app, sent_connect_phase, sent_auth_phase, sent_endpoint_phase.
  rewrite connect_phase_run in H1.
  destruct (NewPortainer _ _) as [prtnr'|?|?]; [|done..].
  rewrite (auth_phase_announced _ _ _), announced_run in H2.
  rewrite (endpoint_phase_announced _ _ _), announced_run in H3.
  destruct (Connect _ _) as [[[]|?|?] ?] eqn:E1; [|done..].
  destruct (Auth _ _ _ _) as [[?|?|?] ?] eqn:E2; [|done..].
  destruct (GetEndpointByName _ _ _) as [[?|?|?] ?] eqn:E3; [|done..].
  apply (invoke_Ok_sent prtnr' IConnect) in E1.
  apply (invoke_Ok_sent prtnr0 (IAuth _ _)) in E2.
  apply (invoke_Ok_sent prtnr (IGetEndpointByName _)) in E3.
  simpl in *. lia.
Qed.

End Orchestration.

#[export] Hint Resolve tidy_finish tidy_lookups : go.

Section ExecTheorems.
Context `{!GoLib} {S : Type} `{!Platform S}.
Implicit Types (p : main.Plugin.t) (prtnr : Client.Portainer) (w : World S).

Local Abbreviation portainer_of p := (main.Config.Portainer (main.Plugin.Config p)).
Local Abbreviation stack_of p := (main.Config.Stack (main.Plugin.Config p)).


(** C12: every exchange of a run goes through the client the settings ask
    for: the transport of the receiver [NewPortainer] builds verifies the
    server's certificate exactly when [Insecure] is not set, [Auth] keeps
    that client in the receiver it returns, and no phase sends through
    another one. *)
Theorem Exec_keeps_TLS_setting p w :
  Forall (fun x => via x = transport p) (sent (main.Exec p) w).
Proof.
  rewrite Exec_lookups_finish.
  apply Forall_sent_bind_Ok; [apply tidy_lookups|intros; apply tidy_finish| |].
  - apply lookups_via.
  - intros found w' <-%lookups_client. apply finish_via.
Qed.

(** A run of [Exec] makes at most six exchanges with the server. *)
Theorem Exec_exchange_bound p w : length (sent (main.Exec p) w) <= 6.
Proof.
  rewrite Exec_lookups_finish.
  apply (length_sent_bind _ _ _ 5 1); auto using length_sent_lookups with go.
  intros found w'. apply length_sent_finish.
Qed.

(** C1: a run of [Exec] that succeeds has sent exactly one request that
    changes the stacks, as its last request, after four or five requests
    that change nothing. *)
Theorem Exec_success_mutates_once p w w' :
  main.Exec p w = (Ok tt, w') ->
  exists pre x,
    sent (main.Exec p) w = pre ++ [x]
    /\ Forall (fun y => ~ mutation (request y)) pre
    /\ mutation (request x)
    /\ 4 <= length pre <= 5.
Proof.
  rewrite (Exec_lookups_finish p w). intros Hrun.
  apply bind_Ok_sent in Hrun as (found & w1 & Hl & Hf & Hsent); auto with go.
  apply finish_Ok in Hf as (x & Hx & Hmut).
  exists (sent (lookups p) w), x. rewrite Exec_lookups_finish, Hsent, Hx.
  split_and!; eauto using lookups_send_no_mutation, lookups_Ok, length_sent_lookups.
Qed.

(** C5: once the lookups have found the endpoint and looked for the
    stack, [Exec] sends at most one more request: the update of the stack
    found, when it sits on the endpoint selected, and otherwise the
    creation of a stack of the configured name on that endpoint; either
    carries the inline configuration when there is some, the content of
    the file otherwise, and the environment entries in order. *)
Theorem Exec_decides p w prtnr endpoint stack w1 :
  lookups p w = (Ok (prtnr, endpoint, stack), w1) ->
  exists rest,
    sent (main.Exec p) w = sent (lookups p) w ++ rest
    /\ length rest <= 1
    /\ Forall (fun x => chosen_request p prtnr endpoint stack w1 (request x)) rest.
Proof.
  intros Hl. exists (sent (finish p prtnr endpoint stack) w1).
  rewrite Exec_lookups_finish, sent_bind, Hl by auto with go.
  auto using length_sent_finish, sent_finish.
Qed.

Lemma Exec_malformed_fails p w :
  forallb (contains "="%char) (main.Stack.Environment (stack_of p)) = false ->
  is_Ok (main.Exec p w).1 = false.
Proof.
  intros Hf. rewrite (Exec_lookups_finish p w). unfold bind.
  destruct (lookups p w) as [[found|?|?] w1]; [|done..]. by rewrite finish_malformed.
Qed.

(** C7: when an environment entry holds no [=], [Exec] does not succeed
    and sends no request that changes the stacks; when the four lookups
    succeed it panics with the index out of range, after them. *)
Theorem Exec_malformed_environment p w :
  forallb (contains "="%char) (main.Stack.Environment (stack_of p)) = false ->
  is_Ok (main.Exec p w).1 = false
  /\ Forall (fun x => ~ mutation (request x)) (sent (main.Exec p) w)
  /\ forall found w', lookups p w = (Ok found, w') ->
       main.Exec p w = (Panic (IndexOutOfRange 1 1), w').
Proof.
  intros Hf. split_and!; [by apply Exec_malformed_fails|..];
    rewrite ?(Exec_lookups_finish p w), ?Exec_lookups_finish.
  - apply Forall_sent_bind; auto using lookups_send_no_mutation with go.
    intros found w1. unfold sent. by rewrite finish_malformed, drop_all.
  - intros found w1 Hl. unfold bind. by rewrite Hl, finish_malformed.
Qed.

(** When the server cannot be reached, or answers the probe with an
    error status, [Exec] prints the mark of failure and returns the error
    of [Connect]: it does not go on to log in. *)
Theorem Exec_stops_when_unreachable p w prtnr e w' :
  NewPortainer (main.Portainer.Address (portainer_of p))
    (main.Portainer.Insecure (portainer_of p)) = Ok prtnr ->
  Connect prtnr (printed w ["Connecting to portainer server..."]) = (Err e, w') ->
  main.Exec p w = (Err e, printed w' [main.FAIL])
  /\ length (sent (main.Exec p) w) <= 1.
Proof.
  intros Hnew Hcon.
  assert (main.connect_phase p w = (Err e, printed w' [main.FAIL])) as Hphase.
  { by rewrite connect_phase_run, Hnew, Hcon. }
  assert (main.Exec p w = (Err e, printed w' [main.FAIL])) as Hexec.
  { unfold main.Exec, bind. by rewrite Hphase. }
  split; [done|]. unfold sent. rewrite Hexec.
  pose proof (length_sent_invoke prtnr IConnect
                (printed w ["Connecting to portainer server..."])) as Hlen.
  unfold sent in Hlen. simpl in Hlen. by rewrite Hcon in Hlen.
Qed.

(** An error returned by [Exec] is the error of [NewPortainer],
    returned before anything is printed, or follows the mark of failure as
    the last thing printed. *)
Theorem Exec_failure_is_marked p w e w' :
  main.Exec p w = (Err e, w') ->
  (NewPortainer (main.Portainer.Address (portainer_of p))
     (main.Portainer.Insecure (portainer_of p)) = Err e /\ w' = w)
  \/ last (stdout w') = Some main.FAIL.
Proof.
  rewrite (Exec_lookups_finish p w). unfold bind.
  destruct (lookups p w) as [[found|e'|?] w1] eqn:Hl; [| |done].
  - intros Hf. right. eapply finish_Err, Hf.
  - intros [= -> ->]. by apply lookups_Err.
Qed.

(** C22: the search for the stack never makes [Exec] fail: an error of
    [GetStackByName] is answered by the mark of failure and the run goes
    on as if the server had no stack of that name. *)
Theorem stack_phase_absorbs_errors p prtnr w :
  (forall e, (main.stack_phase p prtnr w).1 <> Err e)
  /\ (forall e w',
        GetStackByName prtnr (main.Stack.Name (stack_of p))
          (printed w ["Search stack " +:+ quoted (main.Stack.Name (stack_of p))
                      +:+ "..."]) = (Err e, w') ->
        main.stack_phase p prtnr w = (Ok None, printed w' [main.FAIL])).
Proof.
  rewrite stack_phase_run. simpl. split.
  - intros e. by destruct (GetStackByName _ _ _) as [[?|?|?] ?].
  - by intros e w' ->.
Qed.

(** With an empty stack name the search sends nothing, prints the
    mark of failure and finds no stack, so that [Exec] goes on to deploy a
    stack without name. *)
Theorem stack_phase_empty_name p prtnr w :
  main.Stack.Name (stack_of p) = "" ->
  main.stack_phase p prtnr w
  = (Ok None, printed w ["Search stack " +:+ quoted "" +:+ "..."; main.FAIL])
  /\ sent (main.stack_phase p prtnr) w = [].
Proof.
  intros Hname. rewrite sent_stack_phase, stack_phase_run, Hname. simpl.
  rewrite GetStackByName_nameless, sent_raise. split; [|done].
  unfold raise, lift. by rewrite printed_app.
Qed.

(** C35: a deployment with neither inline configuration nor file path
    fails with the error of the missing configuration after the mark of
    failure, and sends nothing. *)
Theorem deploy_branch_without_source prtnr p endpoint env start w :
  main.Stack.Path (stack_of p) = "" ->
  main.deploy_branch prtnr p endpoint "" env start w
  = (Err (Errorf "Stack config not defined"),
     printed w ["Depploy stack " +:+ quoted (main.Stack.Name (stack_of p)) +:+ "...";
                main.FAIL])
  /\ sent (main.deploy_branch prtnr p endpoint "" env start) w = [].
Proof.
  intros Hpath. rewrite sent_deploy_branch, deploy_branch_run.
  unfold deploy_call. rewrite Hpath. simpl.
  rewrite sent_raise. split; [|done]. unfold raise, lift. by rewrite printed_app.
Qed.

(** An update without inline configuration reads the file at the
    configured path whether or not a path is configured: it is the update
    from that file, and when the file cannot be read the error is that of
    the read and nothing is sent. *)
Theorem update_branch_reads_file prtnr p stack env start w :
  let w0 := printed w ["Updating stack " +:+ quoted (Wire.Stack.Name stack) +:+ "..."] in
  sent (main.update_branch prtnr p stack "" env start) w
  = sent (UpdateStackFromFile prtnr stack (main.Stack.Path (stack_of p)) true env) w0
  /\ forall e, read_file (main.Stack.Path (stack_of p)) (outside w) = inl e ->
       main.update_branch prtnr p stack "" env start w
       = (Err e, printed w0 [main.FAIL]).
Proof.
  intros w0. rewrite sent_update_branch, update_branch_run. unfold update_call. simpl.
  split; [done|]. intros e He. rewrite UpdateStackFromFile_run. simpl. by rewrite He.
Qed.

End ExecTheorems.

(** * The theorems on a scripted server

    Each theorem with a hypothesis is applied here to a run of the plugin
    against the scripted server of [Fixture], where its hypotheses hold by
    computation. *)

Section Witnesses.

#[local] Existing Instance fixture_lib.
#[local] Existing Instance script_platform.

(** A plugin for the stack [web] on the endpoint [local], with the inline
    configuration, the file path and the environment given. *)
Definition plugin_of (name path : string) (config env : list string)
    : main.Plugin.t :=
  main.Plugin.mk
    (main.Repo.mk "" "" "" "" "" false false)
    (main.Build.mk 0 "" "" "" 0 0 0 "")
    (main.Commit.mk "" "" "" "" "" "" (main.Author.mk "" "" ""))
    (main.Config.mk
       (main.Portainer.mk "http://portainer.local" "admin" "secret" "local" false)
       (main.Stack.mk name path config env)
       [] false).

(** The replies of a server that knows the endpoint and no stack. *)
Definition fresh_server : list (error + Response) :=
  [ok_empty; ok_json (token_doc "token");
   ok_json (JArray [endpoint_doc 1 "local"]); ok_json (swarm_doc "cluster");
   ok_json (JArray []); ok_empty].

Definition run_on (replies : list (error + Response)) : World Script :=
  initial (mkScript replies [] 0).

Lemma env_loop_splits_at_first_witness :
  main.env_loop ["KEY" +:+ "=" +:+ "a=b"] [] = Ok [Env.mk "KEY" "a=b"].
Proof. apply env_loop_splits_at_first. reflexivity. Defined.

Lemma Exec_success_mutates_once_witness :
  let p := plugin_of "web" "" ["version: 3"] ["KEY=value"] in
  exists w',
    main.Exec p (run_on fresh_server) = (Ok tt, w')
    /\ exists pre x,
         sent (main.Exec p) (run_on fresh_server) = pre ++ [x]
         /\ Forall (fun y => ~ mutation (request y)) pre
         /\ mutation (request x)
         /\ 4 <= length pre <= 5.
Proof.
  eexists. split; [vm_compute; reflexivity|].
  eapply Exec_success_mutates_once. vm_compute. reflexivity.
Defined.

Lemma Exec_decides_witness :
  let p := plugin_of "web" "" ["version: 3"] ["KEY=value"] in
  exists prtnr endpoint stack w1 rest,
    lookups p (run_on fresh_server) = (Ok (prtnr, endpoint, stack), w1)
    /\ sent (main.Exec p) (run_on fresh_server)
       = sent (lookups p) (run_on fresh_server) ++ rest
    /\ length rest <= 1
    /\ Forall (fun x => chosen_request p prtnr endpoint stack w1 (request x)) rest.
Proof.
  intros p.
  eassert (lookups p (run_on fresh_server) = (Ok (_, _, _), _)) as Hl
    by (vm_compute; reflexivity).
  destruct (Exec_decides p _ _ _ _ _ Hl) as (rest & Hrest).
  eexists _, _, _, _, rest. split; [exact Hl | exact Hrest].
Defined.

Lemma Exec_malformed_environment_witness :
  let p := plugin_of "web" "" ["version: 3"] ["KEY"] in
  let w := run_on fresh_server in
  is_Ok (main.Exec p w).1 = false
  /\ Forall (fun x => ~ mutation (request x)) (sent (main.Exec p) w)
  /\ forall found w', lookups p w = (Ok found, w') ->
       main.Exec p w = (Panic (IndexOutOfRange 1 1), w').
Proof. apply Exec_malformed_environment. reflexivity. Defined.

Lemma Exec_stops_when_unreachable_witness :
  let p := plugin_of "web" "" ["version: 3"] [] in
  exists e w',
    main.Exec p (run_on [refused]) = (Err e, printed w' [main.FAIL])
    /\ length (sent (main.Exec p) (run_on [refused])) <= 1.
Proof.
  eexists _, _. eapply Exec_stops_when_unreachable; vm_compute; reflexivity.
Defined.

Lemma Exec_failure_is_marked_witness :
  let p := plugin_of "web" "" ["version: 3"] [] in
  exists e w',
    main.Exec p (run_on [ok_empty; reply 401 "401 Unauthorized" JNull]) = (Err e, w')
    /\ ((NewPortainer "http://portainer.local" false = Err e
         /\ w' = run_on [ok_empty; reply 401 "401 Unauthorized" JNull])
        \/ last (stdout w') = Some main.FAIL).
Proof.
  intros p. eexists _, _. split; [vm_compute; reflexivity|].
  apply (Exec_failure_is_marked p (run_on [ok_empty; reply 401 "401 Unauthorized" JNull])).
  vm_compute. reflexivity.
Defined.

Lemma stack_phase_empty_name_witness :
  let p := plugin_of "" "" ["version: 3"] [] in
  main.stack_phase p demo (run_on [])
  = (Ok None, printed (run_on []) ["Search stack " +:+ quoted "" +:+ "..."; main.FAIL])
  /\ sent (main.stack_phase p demo) (run_on []) = [].
Proof. apply stack_phase_empty_name. reflexivity. Defined.

Lemma deploy_branch_without_source_witness :
  let p := plugin_of "web" "" [] [] in
  let endpoint := Endpoint.mk 1 "local" 1 "" 0 "" "cluster" in
  main.deploy_branch demo p endpoint "" [] 0 (run_on [])
  = (Err (Errorf "Stack config not defined"),
     printed (run_on []) ["Depploy stack " +:+ quoted "web" +:+ "..."; main.FAIL])
  /\ sent (main.deploy_branch demo p endpoint "" [] 0) (run_on []) = [].
Proof. apply deploy_branch_without_source. reflexivity. Defined.

End Witnesses.
