(* ===== verification/Transcript.v ===== *)
(** * Transcript: what a run prints

    The orchestrator reports its progress on standard output: a line per
    phase, closed by the mark [OK] or [FAIL] once the call of the phase
    has returned, and a last line with the time the deployment took.  The
    client prints nothing ([silent]), so that the output of a run is a
    function of how its phases ended.  This file gives the output of each
    phase, of the lookups and of the rest of [Exec], and the transcript of
    a whole run: the eleven lines of a run that succeeds, and the lines
    before the mark of failure of a run that returns an error. *)

From S2P Require Import Prelude GoStrings Json Wire Http Fixture Client Plugin.

#[local] Open Scope string_scope.
#[local] Open Scope list_scope.
#[local] Open Scope go_scope.

(** * Computations that print nothing *)

Section Silent.
Context `{!GoLib} {S : Type} `{!Platform S}.
Implicit Types (w : World S) (self : Portainer).

Definition silent {A} (c : M S A) : Prop :=
  forall w, stdout (c w).2 = stdout w.

Lemma silent_equiv {A} (c c' : M S A) : c ≡ c' -> silent c -> silent c'.
Proof. intros Ec Hc w. rewrite <- (Ec w). apply Hc. Qed.

#[export] Instance silent_proper {A} : Proper ((≡) ==> iff) (@silent A).
Proof. intros c c' Ec. split; apply silent_equiv; [done | by symmetry]. Qed.

Lemma silent_lift {A} (r : result A) : silent (lift r).
Proof. done. Qed.

Lemma silent_ReadFile path : silent (ReadFile path).
Proof. done. Qed.

Lemma silent_call {A} client req (f : Response -> result A) :
  silent (call client req f).
Proof.
  intros w. unfold call, exchanged. destruct (url_error _); [done|].
  by destruct (round_trip _ _ _).
Qed.

Lemma silent_bind {A B} (c : M S A) (k : A -> M S B) :
  silent c -> (forall a, silent (k a)) -> silent (bind c k).
Proof.
  intros Hc Hk w. unfold bind. specialize (Hc w).
  destruct (c w) as [[a|e|x] w1]; [|done..]. simpl in Hc. by rewrite Hk.
Qed.

(** No method of the client prints. *)
Lemma silent_invoke {A} self (i : invocation A) : silent (invoke self i).
Proof.
  destruct i; simpl.
  - rewrite Connect_call. apply silent_call.
  - rewrite Auth_call. apply silent_call.
  - rewrite GetEndpointByName_calls.
    apply silent_bind; [apply silent_call|]. intros l.
    apply silent_bind; [apply silent_lift|]. intros e.
    rewrite fetch_swarm_call. apply silent_call.
  - destruct (decide (name = "")) as [->|Hne]; [apply silent_lift|].
    rewrite (GetStackByName_call _ _ Hne). apply silent_call.
  - rewrite DeployStackFromGit_call. apply silent_call.
  - rewrite DeployStackFromString_call. apply silent_call.
  - apply silent_bind; [apply silent_ReadFile|]. intros data.
    rewrite DeployStackFromString_call. apply silent_call.
  - rewrite UpdateStackFromString_call. apply silent_call.
  - apply silent_bind; [apply silent_ReadFile|]. intros data.
    rewrite UpdateStackFromString_call. apply silent_call.
Qed.

(** The output after a silent computation that ran once [lines] were
    printed. *)
Lemma silent_printed {A} (c : M S A) w lines r w' :
  silent c -> c (printed w lines) = (r, w') -> stdout w' = stdout w ++ lines.
Proof. intros Hc E. specialize (Hc (printed w lines)). by rewrite E in Hc. Qed.

End Silent.

#[export] Hint Resolve silent_lift silent_ReadFile silent_call silent_bind
  silent_invoke : go.

(** * The lines of a run *)

Section Lines.
Context `{!GoLib} {S : Type} `{!Platform S}.
Implicit Types (p : main.Plugin.t) (prtnr : Client.Portainer) (w : World S).

Local Abbreviation portainer_of p := (main.Config.Portainer (main.Plugin.Config p)).
Local Abbreviation stack_of p := (main.Config.Stack (main.Plugin.Config p)).

(** The progress lines, as [Exec] formats them. *)
Definition connect_line : string := "Connecting to portainer server...".
Definition auth_line : string := "Autentication...".
Definition endpoint_line p : string :=
  "Selecting endpoint " +:+ quoted (main.Portainer.Endpoint (portainer_of p)) +:+ "...".
Definition stack_line p : string :=
  "Search stack " +:+ quoted (main.Stack.Name (stack_of p)) +:+ "...".
Definition update_line (stack : Wire.Stack.t) : string :=
  "Updating stack " +:+ quoted (Wire.Stack.Name stack) +:+ "...".
Definition deploy_line p : string :=
  "Depploy stack " +:+ quoted (main.Stack.Name (stack_of p)) +:+ "...".

(** What the four lookups print when they all return: [found] is the mark
    of the stack lookup. *)
Definition lookup_lines p (found : string) : list string :=
  [connect_line; main.OK; auth_line; main.OK; endpoint_line p; main.OK;
   stack_line p; found].

(** The line that opens the branch taken, and the report that closes it. *)
Definition opening p (line : string) : Prop :=
  line = deploy_line p \/ exists stack, line = update_line stack.

Definition closing p (line report : string) : Prop :=
  (exists start w0, line = deploy_line p /\ report = deploy_report p start w0)
  \/ (exists stack start w0,
        line = update_line stack /\ report = update_report p start w0).

(** The lines printed before the mark of failure, by the phase that
    failed. *)
Definition stopped p (said : list string) : Prop :=
  (exists n, n ∈ [1; 3; 5] /\ said = take n (lookup_lines p main.OK))
  \/ (exists found line,
        (found = main.OK \/ found = main.FAIL) /\ opening p line
        /\ said = lookup_lines p found ++ [line]).

(** Turns the run of a method in a world where lines were printed into
    the output after it. *)
Ltac said_by E i :=
  apply (silent_printed _ _ _ _ _ (silent_invoke _ i)) in E; simpl in E.

Lemma lookups_Ok_stdout p w found w' :
  lookups p w = (Ok found, w') ->
  exists mark, (mark = main.OK \/ mark = main.FAIL)
               /\ stdout w' = stdout w ++ lookup_lines p mark.
Proof.
  unfold lookups, bind. rewrite connect_phase_run.
  destruct (NewPortainer _ _) as [prtnr0|?|?]; [|done..].
  destruct (Connect prtnr0 _) as [[[]|?|?] w1] eqn:E1; [|done..].
  rewrite (auth_phase_announced p prtnr0 _), announced_run.
  destruct (Auth prtnr0 _ _ _) as [[prtnr|?|?] w2] eqn:E2; [|done..].
  rewrite (endpoint_phase_announced p prtnr _), announced_run.
  destruct (GetEndpointByName prtnr _ _) as [[endpoint|?|?] w3] eqn:E3; [|done..].
  rewrite stack_phase_run. simpl.
  said_by E1 IConnect. said_by E2 (IAuth (main.Portainer.Username (portainer_of p))
                                     (main.Portainer.Password (portainer_of p))).
  said_by E3 (IGetEndpointByName (main.Portainer.Endpoint (portainer_of p))).
  destruct (GetStackByName prtnr _ _) as [[?|?|?] w4] eqn:E4; [| |done];
    said_by E4 (IGetStackByName (main.Stack.Name (stack_of p)));
    intros [= _ <-]; [exists main.OK|exists main.FAIL]; (split; [by auto|]);
    simpl; rewrite E4, E3, E2, E1; by rewrite <- !(assoc_L (++)).
Qed.

Lemma lookups_Err_stdout p w e w' :
  lookups p w = (Err e, w') ->
  (NewPortainer (main.Portainer.Address (portainer_of p))
     (main.Portainer.Insecure (portainer_of p)) = Err e /\ w' = w)
  \/ exists n, n ∈ [1; 3; 5]
       /\ stdout w' = stdout w ++ take n (lookup_lines p main.OK) ++ [main.FAIL].
Proof.
  unfold lookups, bind. rewrite connect_phase_run.
  destruct (NewPortainer _ _) as [prtnr0|?|?]; [|naive_solver..].
  destruct (Connect prtnr0 _) as [[[]|?|?] w1] eqn:E1; [| |done];
    said_by E1 IConnect.
  2:{ intros [= _ <-]. right. exists 1. split; [by repeat constructor|]. simpl.
      rewrite E1. by rewrite <- !(assoc_L (++)). }
  rewrite (auth_phase_announced p prtnr0 _), announced_run.
  destruct (Auth prtnr0 _ _ _) as [[prtnr|?|?] w2] eqn:E2; [| |done];
    said_by E2 (IAuth (main.Portainer.Username (portainer_of p))
                  (main.Portainer.Password (portainer_of p))).
  2:{ intros [= _ <-]. right. exists 3. split; [by repeat constructor|]. simpl.
      rewrite E2, E1. by rewrite <- !(assoc_L (++)). }
  rewrite (endpoint_phase_announced p prtnr _), announced_run.
  destruct (GetEndpointByName prtnr _ _) as [[endpoint|?|?] w3] eqn:E3; [| |done];
    said_by E3 (IGetEndpointByName (main.Portainer.Endpoint (portainer_of p))).
  2:{ intros [= _ <-]. right. exists 5. split; [by repeat constructor|]. simpl.
      rewrite E3, E2, E1. by rewrite <- !(assoc_L (++)). }
  rewrite stack_phase_run. simpl. by destruct (GetStackByName prtnr _ _) as [[?|?|?] w4].
Qed.

(** The calls of the two branches print nothing. *)
Lemma silent_update_call prtnr p stack config env :
  silent (update_call prtnr p stack config env).
Proof.
  unfold update_call. case_decide.
  - apply (silent_invoke prtnr (IUpdateStackFromString _ _ _ _)).
  - apply (silent_invoke prtnr (IUpdateStackFromFile _ _ _ _)).
Qed.

Lemma silent_deploy_call prtnr p endpoint config env :
  silent (deploy_call prtnr p endpoint config env).
Proof.
  unfold deploy_call. repeat case_decide.
  - apply (silent_invoke prtnr (IDeployStackFromString _ _ _ _)).
  - apply (silent_invoke prtnr (IDeployStackFromFile _ _ _ _)).
  - apply silent_lift.
Qed.

(** The output of a branch: its line, then the mark and, after [OK], the
    report. *)
Lemma update_branch_stdout prtnr p stack config env start w r w' :
  main.update_branch prtnr p stack config env start w = (r, w') ->
  match r with
  | Ok _ => exists w0, stdout w' = stdout w ++ [update_line stack; main.OK;
                                                update_report p start w0]
  | Err _ => stdout w' = stdout w ++ [update_line stack; main.FAIL]
  | Panic _ => True
  end.
Proof.
  rewrite update_branch_run.
  destruct (update_call _ _ _ _ _ _) as [[[]|?|?] w1] eqn:E; intros [= <- <-]; [| |done];
    apply (silent_printed _ _ _ _ _ (silent_update_call _ _ _ _ _)) in E;
    [exists w1|]; simpl; rewrite E; by rewrite <- !(assoc_L (++)).
Qed.

Lemma deploy_branch_stdout prtnr p endpoint config env start w r w' :
  main.deploy_branch prtnr p endpoint config env start w = (r, w') ->
  match r with
  | Ok _ => exists w0, stdout w' = stdout w ++ [deploy_line p; main.OK;
                                                deploy_report p start w0]
  | Err _ => stdout w' = stdout w ++ [deploy_line p; main.FAIL]
  | Panic _ => True
  end.
Proof.
  rewrite deploy_branch_run.
  destruct (deploy_call _ _ _ _ _ _) as [[[]|?|?] w1] eqn:E; intros [= <- <-]; [| |done];
    apply (silent_printed _ _ _ _ _ (silent_deploy_call _ _ _ _ _)) in E;
    [exists w1|]; simpl; rewrite E; by rewrite <- !(assoc_L (++)).
Qed.

(** The output of the rest of the run. *)
Lemma finish_stdout p prtnr endpoint stack w r w' :
  finish p prtnr endpoint stack w = (r, w') ->
  match r with
  | Ok _ => exists line report,
      closing p line report /\ stdout w' = stdout w ++ [line; main.OK; report]
  | Err _ => exists line, opening p line /\ stdout w' = stdout w ++ [line; main.FAIL]
  | Panic _ => True
  end.
Proof.
  unfold finish. rewrite bind_lift, env_loop_run.
  destruct (forallb _ _); [|by intros [= <- _]].
  unfold bind at 1. simpl. unfold closing, opening.
  destruct (main.must_update _ _) as [s|]; intros Hrun.
  - apply update_branch_stdout in Hrun. destruct r; naive_solver.
  - apply deploy_branch_stdout in Hrun. destruct r; naive_solver.
Qed.

End Lines.

(** * The transcript of a run *)

Section TranscriptTheorems.
Context `{!GoLib} {S : Type} `{!Platform S}.
Implicit Types (p : main.Plugin.t) (w : World S).

Local Abbreviation portainer_of p := (main.Config.Portainer (main.Plugin.Config p)).

(** C23: what a run prints.  A run that succeeds prints the eight lines
    of the lookups, where the mark of the stack lookup alone may be
    [FAIL], then the line of the branch taken, [OK] and the report.  A run
    that returns an error prints nothing when the error is that of
    [NewPortainer]; otherwise it prints the lines up to that of the phase
    that failed, with [OK] after each phase before it, and then [FAIL].  A
    run that panics keeps what was printed. *)
Theorem Exec_transcript p w r w' :
  main.Exec p w = (r, w') ->
  match r with
  | Ok _ =>
      exists found line report,
        (found = main.OK \/ found = main.FAIL) /\ closing p line report
        /\ stdout w' = stdout w ++ lookup_lines p found ++ [line; main.OK; report]
  | Err e =>
      (NewPortainer (main.Portainer.Address (portainer_of p))
         (main.Portainer.Insecure (portainer_of p)) = Err e /\ w' = w)
      \/ exists said, stopped p said /\ stdout w' = stdout w ++ said ++ [main.FAIL]
  | Panic _ => stdout w `prefix_of` stdout w'
  end.
Proof.
  intros Hrun. pose proof (tidy_Exec p w) as (_ & Hpre & _). rewrite Hrun in Hpre.
  rewrite (Exec_lookups_finish p w) in Hrun. unfold bind in Hrun.
  destruct (lookups p w) as [[found|e|x] w1] eqn:El.
  - apply lookups_Ok_stdout in El as (mark & Hmark & E1).
    apply finish_stdout in Hrun. destruct r as [[]|e|x]; [| |done].
    + destruct Hrun as (line & report & Hc & E2). exists mark, line, report.
      split_and!; [done..|]. rewrite E2, E1. by rewrite <- !(assoc_L (++)).
    + destruct Hrun as (line & Ho & E2). right. exists (lookup_lines p mark ++ [line]).
      split; [right; by eauto|]. rewrite E2, E1. by rewrite <- !(assoc_L (++)).
  - injection Hrun as <- <-.
    destruct (lookups_Err_stdout _ _ _ _ El) as [?|(n & Hn & E)]; [by left|].
    right. exists (take n (lookup_lines p main.OK)). split; [left; by eauto|done].
  - by injection Hrun as <- <-.
Qed.

End TranscriptTheorems.

(** * The transcript of a run against the scripted server *)

Section Witnesses.

#[local] Existing Instance fixture_lib.
#[local] Existing Instance script_platform.

Lemma Exec_transcript_witness :
  let p := plugin_of "web" "" ["version: 3"] ["KEY=value"] in
  exists w',
    main.Exec p (run_on fresh_server) = (Ok tt, w')
    /\ exists found line report,
         (found = main.OK \/ found = main.FAIL) /\ closing p line report
         /\ stdout w'
            = stdout (run_on fresh_server) ++ lookup_lines p found
              ++ [line; main.OK; report].
Proof.
  intros p.
  eassert (main.Exec p (run_on fresh_server) = (Ok tt, _)) as Hrun
    by (vm_compute; reflexivity).
  eexists. split; [exact Hrun|]. apply (Exec_transcript p _ _ _ Hrun).
Defined.

End Witnesses.
