(* ===== verification/Total.v ===== *)
(** * Total: what a computation achieves

    A logic of total correctness over the monad of [Http]: started in a
    world whose surroundings satisfy [P], the computation returns a value,
    without error and without panic, and the value and the surroundings it
    leaves satisfy [Q].  There is one rule per combinator of the monad and
    one for [call], the normal form of an exchange, so that a proof about
    a method or about a phase of [Exec] follows the text of the program.

    [fails] is the same for a run that ends in an error.

    [Liveness] uses the logic with conditions that do not read the state;
    [Deploy] uses it with the state of the reference server. *)

From S2P Require Import Prelude GoStrings Json Wire Http Fixture Client Plugin.

#[local] Open Scope string_scope.
#[local] Open Scope list_scope.
#[local] Open Scope go_scope.

Section Achieves.
Context `{!GoLib} {S : Type} `{!Platform S}.
Implicit Types (w : World S) (s : S) (P : S -> Prop).

(** From every world whose surroundings satisfy [P], [c] returns a value
    [a] and leaves surroundings [s] with [Q a s]. *)
Definition achieves {A} P (c : M S A) (Q : A -> S -> Prop) : Prop :=
  forall w, P (outside w) ->
    exists a w', c w = (Ok a, w') /\ Q a (outside w').

Lemma achieves_equiv {A} P (c c' : M S A) Q :
  c ≡ c' -> achieves P c Q -> achieves P c' Q.
Proof. intros Ec Hc w. rewrite <- (Ec w). apply Hc. Qed.

#[export] Instance achieves_proper {A} P :
  Proper ((≡) ==> (=) ==> iff) (@achieves A P).
Proof. intros c c' Ec Q ? <-. split; apply achieves_equiv; [done | by symmetry]. Qed.

Lemma achieves_weaken {A} P P' (c : M S A) (Q Q' : A -> S -> Prop) :
  (forall s, P' s -> P s) -> (forall a s, Q a s -> Q' a s) ->
  achieves P c Q -> achieves P' c Q'.
Proof.
  intros HP HQ Hc w Hw. destruct (Hc w (HP _ Hw)) as (a & w' & ? & ?). eauto.
Qed.

Lemma achieves_ret {A} P (a : A) (Q : A -> S -> Prop) :
  (forall s, P s -> Q a s) -> achieves P (ret a) Q.
Proof. intros Ha w Hw. exists a, w. auto. Qed.

Lemma achieves_lift {A} P (a : A) (Q : A -> S -> Prop) :
  (forall s, P s -> Q a s) -> achieves P (lift (Ok a)) Q.
Proof. intros Ha w Hw. exists a, w. auto. Qed.

Lemma achieves_Printf P line : achieves P (Printf line) (fun _ => P).
Proof. intros w Hw. eexists tt, _. by rewrite Printf_run. Qed.

Lemma achieves_Now P : achieves P Now (fun _ => P).
Proof. intros w Hw. by eexists _, _. Qed.

Lemma achieves_Since P start : achieves P (Since start) (fun _ => P).
Proof. intros w Hw. by eexists _, _. Qed.

Lemma achieves_ReadFile P path (Q : string -> S -> Prop) :
  (forall s, P s -> exists data, read_file path s = inr data /\ Q data s) ->
  achieves P (ReadFile path) Q.
Proof.
  intros Hread w Hw. destruct (Hread _ Hw) as (data & E & ?).
  exists data, w. unfold ReadFile. by rewrite E.
Qed.

Lemma achieves_bind {A B} P (c : M S A) (k : A -> M S B) Q R :
  achieves P c Q -> (forall a, achieves (Q a) (k a) R) -> achieves P (bind c k) R.
Proof.
  intros Hc Hk w Hw. destruct (Hc w Hw) as (a & w1 & E & Ha).
  destruct (Hk a w1 Ha) as (b & w2 & ? & ?). exists b, w2.
  unfold bind. by rewrite E.
Qed.

Lemma achieves_or_else {A} P (c : M S A) h Q :
  achieves P c Q -> achieves P (or_else c h) Q.
Proof.
  intros Hc w Hw. destruct (Hc w Hw) as (a & w1 & E & Ha). exists a, w1.
  by rewrite (or_else_Ok _ _ _ _ _ E).
Qed.

Lemma achieves_announced {A} P msg (c : M S A) Q :
  achieves P c Q -> achieves P (announced msg c) Q.
Proof.
  intros Hc w Hw. destruct (Hc (printed w [msg]) Hw) as (a & w1 & E & Ha).
  eexists a, _. by rewrite announced_run, E.
Qed.

(** A call achieves [Q] when its URL is accepted and, from every state
    with [P], the surroundings answer it with a response the interpreter
    accepts, leaving a state with [Q]. *)
Lemma achieves_call {A} P client req (f : Response -> result A) Q :
  url_error (Url req) = None ->
  (forall s, P s -> exists rsp s' a,
     round_trip client req s = (inr rsp, s') /\ f rsp = Ok a /\ Q a s') ->
  achieves P (call client req f) Q.
Proof.
  intros Hurl Hrt w Hw.
  destruct (Hrt _ Hw) as (rsp & s' & a & E & Hf & Ha).
  exists a, (record w client req (inr rsp) s'). unfold call, exchanged.
  by rewrite Hurl, E, Hf.
Qed.

(** A fact that does not read the state is an assumption of the rest. *)
Lemma achieves_assume {A} (fact : Prop) P (c : M S A) Q :
  (fact -> achieves P c Q) -> achieves (fun s => fact /\ P s) c Q.
Proof. intros Hc w [Hfact Hw]. by apply Hc. Qed.

End Achieves.

(** ** What a computation fails with *)

Section Fails.
Context `{!GoLib} {S : Type} `{!Platform S}.
Implicit Types (w : World S) (s : S) (P : S -> Prop).

(** From every world whose surroundings satisfy [P], [c] returns an
    error, without panic, and leaves surroundings with [Q]. *)
Definition fails {A} P (c : M S A) (Q : S -> Prop) : Prop :=
  forall w, P (outside w) -> exists e w', c w = (Err e, w') /\ Q (outside w').

Lemma fails_equiv {A} P (c c' : M S A) Q : c ≡ c' -> fails P c Q -> fails P c' Q.
Proof. intros Ec Hc w. rewrite <- (Ec w). apply Hc. Qed.

#[export] Instance fails_proper {A} P : Proper ((≡) ==> (=) ==> iff) (@fails A P).
Proof. intros c c' Ec Q ? <-. split; apply fails_equiv; [done | by symmetry]. Qed.

Lemma fails_raise {A} P e : fails P (raise (A:=A) e) P.
Proof. intros w Hw. by exists e, w. Qed.

Lemma fails_ReadFile P path :
  (forall s, P s -> exists e, read_file path s = inl e) -> fails P (ReadFile path) P.
Proof.
  intros Hread w Hw. destruct (Hread _ Hw) as [e E]. exists e, w.
  unfold ReadFile. by rewrite E.
Qed.

(** The first part fails, or it returns and the rest fails. *)
Lemma fails_bind_l {A B} P (c : M S A) (k : A -> M S B) Q :
  fails P c Q -> fails P (bind c k) Q.
Proof.
  intros Hc w Hw. destruct (Hc w Hw) as (e & w' & E & ?). exists e, w'.
  by rewrite (bind_Err _ _ _ _ _ E).
Qed.

Lemma fails_bind {A B} P (c : M S A) (k : A -> M S B) Q R :
  achieves P c Q -> (forall a, fails (Q a) (k a) R) -> fails P (bind c k) R.
Proof.
  intros Hc Hk w Hw. destruct (Hc w Hw) as (a & w1 & E & Ha).
  destruct (Hk a w1 Ha) as (e & w2 & ? & ?). exists e, w2.
  by rewrite (bind_Ok _ _ _ _ _ E).
Qed.

Lemma fails_announced {A} P msg (c : M S A) Q :
  fails P c Q -> fails P (announced msg c) Q.
Proof.
  intros Hc w Hw. destruct (Hc (printed w [msg]) Hw) as (e & w1 & E & He).
  eexists e, _. by rewrite announced_run, E.
Qed.

(** A call fails when its URL is accepted and the surroundings answer
    with an error of the transport or with a response the interpreter
    refuses. *)
Lemma fails_call {A} P client req (f : Response -> result A) Q :
  url_error (Url req) = None ->
  (forall s, P s -> exists r s',
     round_trip client req s = (r, s')
     /\ is_Err (match r with inl e => Err e | inr rsp => f rsp end) = true
     /\ Q s') ->
  fails P (call client req f) Q.
Proof.
  intros Hurl Hrt w Hw. destruct (Hrt _ Hw) as (r & s' & E & Hr & Hs).
  unfold call, exchanged. rewrite Hurl, E.
  destruct (match r with inl _ => _ | inr _ => _ end) as [|e|] eqn:Er; [done| |done].
  by exists e, (record w client req r s').
Qed.

Lemma fails_assume {A} (fact : Prop) P (c : M S A) Q :
  (fact -> fails P c Q) -> fails (fun s => fact /\ P s) c Q.
Proof. intros Hc w [Hfact Hw]. by apply Hc. Qed.

End Fails.

(** ** The branches of [Exec], from their calls *)

Section Branches.
Context `{!GoLib} {S : Type} `{!Platform S}.
Implicit Types (P Q : S -> Prop) (p : main.Plugin.t) (prtnr : Client.Portainer).

Lemma achieves_deploy_branch P prtnr p endpoint config env start Q :
  achieves P (deploy_call prtnr p endpoint config env) (fun _ => Q) ->
  achieves P (main.deploy_branch prtnr p endpoint config env start) (fun _ => Q).
Proof.
  intros Hc w Hw. rewrite deploy_branch_run.
  match goal with
  | |- context [deploy_call _ _ _ _ _ ?w0] => destruct (Hc w0 Hw) as ([] & w1 & -> & ?)
  end.
  by eexists _, _.
Qed.

Lemma achieves_update_branch P prtnr p stack config env start Q :
  achieves P (update_call prtnr p stack config env) (fun _ => Q) ->
  achieves P (main.update_branch prtnr p stack config env start) (fun _ => Q).
Proof.
  intros Hc w Hw. rewrite update_branch_run.
  match goal with
  | |- context [update_call _ _ _ _ _ ?w0] => destruct (Hc w0 Hw) as ([] & w1 & -> & ?)
  end.
  by eexists _, _.
Qed.

Lemma fails_deploy_branch P prtnr p endpoint config env start Q :
  fails P (deploy_call prtnr p endpoint config env) Q ->
  fails P (main.deploy_branch prtnr p endpoint config env start) Q.
Proof.
  intros Hc w Hw. rewrite deploy_branch_run.
  match goal with
  | |- context [deploy_call _ _ _ _ _ ?w0] => destruct (Hc w0 Hw) as (e & w1 & -> & ?)
  end.
  by eexists _, _.
Qed.

Lemma fails_update_branch P prtnr p stack config env start Q :
  fails P (update_call prtnr p stack config env) Q ->
  fails P (main.update_branch prtnr p stack config env start) Q.
Proof.
  intros Hc w Hw. rewrite update_branch_run.
  match goal with
  | |- context [update_call _ _ _ _ _ ?w0] => destruct (Hc w0 Hw) as (e & w1 & -> & ?)
  end.
  by eexists _, _.
Qed.

End Branches.

(** A computation that returns a value with [Q] from every world. *)
Abbreviation succeeds c Q := (achieves (fun _ => True) c (fun a _ => Q a)).

Section Succeeds.
Context `{!GoLib} {S : Type} `{!Platform S}.

(** Sequencing when the condition between the two parts is a fact about
    the value only. *)
Lemma succeeds_bind {A B} (c : M S A) (k : A -> M S B) (Q : A -> Prop) R :
  succeeds c Q -> (forall a, Q a -> succeeds (k a) R) -> succeeds (bind c k) R.
Proof.
  intros Hc Hk. eapply achieves_bind; [exact Hc|]. intros a w Ha. by apply Hk.
Qed.

Lemma succeeds_run {A} (c : M S A) (Q : A -> Prop) w :
  succeeds c Q -> exists a w', c w = (Ok a, w') /\ Q a.
Proof. intros Hc. by apply Hc. Qed.

End Succeeds.
