(* ===== verification/Cli.v ===== *)
(** * Cli: the command line of [src/main.go]

    [main] builds a [cli.App] with the table of flags and hands the
    arguments of the process to [app.Run], which parses them and calls the
    action [run]; [run] fills a [Plugin] from the flags, calls [Exec] and
    ends the process with status 1 when [Exec] returns an error.

    Module [cli] holds what the program uses of the flag library: the
    four kinds of flag, the context [run] reads the values from, and the
    interface [cli.Lib] of [app.Run], left open as [Http.GoLib] is.  The
    table is the list [flags], in the order of the source; the structure
    [run] builds is [run_plugin]; [os.Exit(1)] is the outcome [Exited 1].
    The arguments and the environment of the process are arguments of
    [main_], as is the build number [version]. *)

From S2P Require Import Prelude GoStrings Json Wire Http Fixture Client Plugin.

#[local] Open Scope string_scope.
#[local] Open Scope list_scope.
#[local] Open Scope go_scope.

(** ** Package [cli] *)

Module cli.

(** The flag structures of the library: [cli.StringFlag], [cli.BoolFlag],
    [cli.IntFlag], [cli.StringSliceFlag]. *)
Inductive Kind : Type := KString | KBool | KInt | KStringSlice.

(** A flag: the fields the table sets.  [EnvVar] is the text of the
    source, a list of names separated by commas. *)
Record Flag : Type := mkFlag {
  kind : Kind;
  Name : string;
  Value : string;
  Usage : string;
  EnvVar : string
}.

Definition StringFlag (name value usage envvar : string) : Flag :=
  mkFlag KString name value usage envvar.

Definition BoolFlag (name usage envvar : string) : Flag :=
  mkFlag KBool name "" usage envvar.

Definition IntFlag (name usage envvar : string) : Flag :=
  mkFlag KInt name "" usage envvar.

Definition StringSliceFlag (name usage envvar : string) : Flag :=
  mkFlag KStringSlice name "" usage envvar.

(** [cli.App], without the action. *)
Record App : Type := mkApp {
  AppName : string;
  AppUsage : string;
  Version : string;
  Flags : list Flag
}.

(** [*cli.Context]: the four readers [run] calls. *)
Record Context : Type := mkContext {
  String : string -> string;
  Bool : string -> bool;
  Int : string -> Z;
  StringSlice : string -> list string
}.

(** What [app.Run] does with the arguments: it calls the action with a
    context, or it deals with them itself (help, version, a usage error),
    prints, and returns its error, if any. *)
Inductive Parsed : Type :=
| Handled (output : list string) (err : option error)
| Invoke (c : Context).

(** [app.Run], as a function of the application, [os.Args] and the
    environment of the process. *)
Class Lib : Type := {
  Run : App -> list string -> list (string * string) -> Parsed
}.

End cli.

#[export] Instance Kind_eq_dec : EqDecision cli.Kind.
Proof. solve_decision. Defined.

(** ** The table of flags, lines 19-257 *)

(** The repo args, lines 21-64. *)
Definition repo_flags : list cli.Flag := [
  cli.StringFlag "repo.fullname" "" "repository full name"
    "DRONE_REPO";
  cli.StringFlag "repo.owner" "" "repository owner"
    "DRONE_REPO_OWNER";
  cli.StringFlag "repo.name" "" "repository name"
    "DRONE_REPO_NAME";
  cli.StringFlag "repo.link" "" "repository link"
    "DRONE_REPO_LINK";
  cli.StringFlag "repo.avatar" "" "repository avatar"
    "DRONE_REPO_AVATAR";
  cli.StringFlag "repo.branch" "" "repository default branch"
    "DRONE_REPO_BRANCH";
  cli.BoolFlag "repo.private" "repository is private"
    "DRONE_REPO_PRIVATE";
  cli.BoolFlag "repo.trusted" "repository is trusted"
    "DRONE_REPO_TRUSTED"
].

(** The commit args, lines 66-116. *)
Definition commit_flags : list cli.Flag := [
  cli.StringFlag "remote.url" "" "git remote url"
    "DRONE_REMOTE_URL";
  cli.StringFlag "commit.sha" "" "git commit sha"
    "DRONE_COMMIT_SHA";
  cli.StringFlag "commit.ref" "refs/heads/master" "git commit ref"
    "DRONE_COMMIT_REF";
  cli.StringFlag "commit.branch" "master" "git commit branch"
    "DRONE_COMMIT_BRANCH";
  cli.StringFlag "commit.message" "" "git commit message"
    "DRONE_COMMIT_MESSAGE";
  cli.StringFlag "commit.link" "" "git commit link"
    "DRONE_COMMIT_LINK";
  cli.StringFlag "commit.author.name" "" "git author name"
    "DRONE_COMMIT_AUTHOR";
  cli.StringFlag "commit.author.email" "" "git author email"
    "DRONE_COMMIT_AUTHOR_EMAIL";
  cli.StringFlag "commit.author.avatar" "" "git author avatar"
    "DRONE_COMMIT_AUTHOR_AVATAR"
].

(** The build args, lines 118-173. *)
Definition build_flags : list cli.Flag := [
  cli.StringFlag "build.event" "push" "build event"
    "DRONE_BUILD_EVENT";
  cli.IntFlag "build.number" "build number"
    "DRONE_BUILD_NUMBER";
  cli.IntFlag "build.created" "build created"
    "DRONE_BUILD_CREATED";
  cli.IntFlag "build.started" "build started"
    "DRONE_BUILD_STARTED";
  cli.IntFlag "build.finished" "build finished"
    "DRONE_BUILD_FINISHED";
  cli.StringFlag "build.status" "success" "build status"
    "DRONE_BUILD_STATUS";
  cli.StringFlag "build.link" "" "build link"
    "DRONE_BUILD_LINK";
  cli.StringFlag "build.deploy" "" "build deployment target"
    "DRONE_DEPLOY_TO";
  cli.BoolFlag "yaml.verified" "build yaml is verified"
    "DRONE_YAML_VERIFIED";
  cli.BoolFlag "yaml.signed" "build yaml is signed"
    "DRONE_YAML_SIGNED"
].

(** The prev build args, lines 175-193. *)
Definition prev_build_flags : list cli.Flag := [
  cli.IntFlag "prev.build.number" "previous build number"
    "DRONE_PREV_BUILD_NUMBER";
  cli.StringFlag "prev.build.status" "" "previous build status"
    "DRONE_PREV_BUILD_STATUS";
  cli.StringFlag "prev.commit.sha" "" "previous build sha"
    "DRONE_PREV_COMMIT_SHA"
].

(** The plugin-specific parameters, lines 195-256. *)
Definition plugin_flags : list cli.Flag := [
  cli.BoolFlag "debug" "debug mode"
    "PLUGIN_DEBUG";
  cli.StringSliceFlag "secrets" "plugin secret"
    "PLUGIN_SECRETS";
  cli.StringFlag "portainer.address" "" "portainer server address"
    "PLUGIN_PORTAINER_ADDRESS,PLUGIN_PORTAINER,PLUGIN_ADDRESS,PORTAINER_ADDRESS";
  cli.BoolFlag "portainer.insecure" "portainer insecure connection"
    "PLUGIN_PORTAINER_INSECURE,PLUGIN_INSECURE,PORTAINER_INSECURE";
  cli.StringFlag "portainer.endpoint" "local" "portainer endpoint name"
    "PLUGIN_PORTAINER_ENDPOINT,PLUGIN_ENDPOINT,PORTAINER_ENDPOINT";
  cli.StringFlag "stack.name" "stack" "stack name"
    "PLUGIN_STACK_NAME,PLUGIN_STACK,STACK_NAME";
  cli.StringFlag "stack.file" "docker-compose.yml" "stack file path"
    "PLUGIN_STACK_FILE,PLUGIN_FILE,STACK_FILE";
  cli.StringSliceFlag "stack.config" "stack config"
    "PLUGIN_STACK_CONFIG,PLUGIN_CONFIG,STACK_CONFIG";
  cli.StringSliceFlag "stack.environment" "stack environment"
    "PLUGIN_STACK_ENVIRONMENT,PLUGIN_STACK_ENV,PLUGIN_ENVIRONMENT,PLUGIN_ENV,STACK_ENVIRONMENT,STACK_ENV";
  cli.StringFlag "portainer.username" "" "portainer server username"
    "PLUGIN_PORTAINER_USERNAME,PLUGIN_USERNAME,PORTAINER_USERNAME";
  cli.StringFlag "portainer.password" "" "portainer server password"
    "PLUGIN_PORTAINER_PASSWORD,PLUGIN_PASSWORD,PORTAINER_PASSWORD"
].

(** [app.Flags], lines 19-257: the five groups in the order of the source. *)
Definition flags : list cli.Flag :=
  repo_flags ++ commit_flags ++ build_flags ++ prev_build_flags ++ plugin_flags.

(** Lines 14-19. *)
Definition app (version : string) : cli.App :=
  cli.mkApp "drone-portainer" "drone-portainer usage" version flags.

(** ** [run], lines 262-320 *)

(** The structure of lines 264-314. *)
Definition run_plugin (c : cli.Context) : main.Plugin.t :=
  main.Plugin.mk
    (main.Repo.mk
       (cli.String c "repo.owner")
       (cli.String c "repo.name")
       (cli.String c "repo.link")
       (cli.String c "repo.avatar")
       (cli.String c "repo.branch")
       (cli.Bool c "repo.private")
       (cli.Bool c "repo.trusted"))
    (main.Build.mk
       (cli.Int c "build.number")
       (cli.String c "build.event")
       (cli.String c "build.status")
       (cli.String c "build.deploy")
       (cli.Int c "build.created")
       (cli.Int c "build.started")
       (cli.Int c "build.finished")
       (cli.String c "build.link"))
    (main.Commit.mk
       (cli.String c "remote.url")
       (cli.String c "commit.sha")
       (cli.String c "commit.sha")
       (cli.String c "commit.link")
       (cli.String c "commit.branch")
       (cli.String c "commit.message")
       (main.Author.mk
          (cli.String c "commit.author.name")
          (cli.String c "commit.author.email")
          (cli.String c "commit.author.avatar")))
    (main.Config.mk
       (main.Portainer.mk
          (cli.String c "portainer.address")
          (cli.String c "portainer.username")
          (cli.String c "portainer.password")
          (cli.String c "portainer.endpoint")
          (cli.Bool c "portainer.insecure"))
       (main.Stack.mk
          (cli.String c "stack.name")
          (cli.String c "stack.file")
          (cli.StringSlice c "stack.config")
          (cli.StringSlice c "stack.environment"))
       (cli.StringSlice c "secrets")
       (cli.Bool c "debug")).

(** How a function of [main.go] leaves the process: it returns, or it calls
    [os.Exit]. *)
Inductive outcome : Type := Returned | Exited (code : Z).

#[export] Instance outcome_eq_dec : EqDecision outcome.
Proof. solve_decision. Defined.

Section Main.
Context `{!GoLib} `{!cli.Lib} {S : Type} `{!Platform S}.

Definition run (c : cli.Context) : M S outcome :=
  let plugin := run_plugin c in
  r <- try (main.Exec plugin) ;;
  match r with
  | inl err =>
      Printf ("Exited with error: " +:+ Error err +:+ newline) ;;
      ret (Exited 1)
  | inr _ => ret Returned
  end.

(** The lines the library prints when it deals with the arguments itself. *)
Fixpoint print_all (lines : list string) : M S unit :=
  match lines with
  | [] => ret tt
  | line :: rest => Printf line ;; print_all rest
  end.

(** ** [main], lines 13-260: the result of [app.Run] is dropped. *)
Definition main_ (version : string) (args : list string)
    (environ : list (string * string)) : M S outcome :=
  match cli.Run (app version) args environ with
  | cli.Handled output _ => print_all output ;; ret Returned
  | cli.Invoke c => run c
  end.

End Main.

(** The status the process ends with: that of [os.Exit], 0 when [main]
    returns, and 2, the status of the Go runtime, after a panic.  [main]
    returns no error. *)
Definition exit_code (r : result outcome) : Z :=
  match r with
  | Ok Returned => 0
  | Ok (Exited code) => code
  | Err _ => 0
  | Panic _ => 2
  end.

(** * What [run] reads *)

(** The flags [run] reads, each with the reader it is read by, in the
    order of lines 266-312. *)
Definition reads : list (cli.Kind * string) := [
  (cli.KString, "repo.owner"); (cli.KString, "repo.name");
  (cli.KString, "repo.link"); (cli.KString, "repo.avatar");
  (cli.KString, "repo.branch"); (cli.KBool, "repo.private");
  (cli.KBool, "repo.trusted");
  (cli.KInt, "build.number"); (cli.KString, "build.event");
  (cli.KString, "build.status"); (cli.KString, "build.deploy");
  (cli.KInt, "build.created"); (cli.KInt, "build.started");
  (cli.KInt, "build.finished"); (cli.KString, "build.link");
  (cli.KString, "remote.url"); (cli.KString, "commit.sha");
  (cli.KString, "commit.sha"); (cli.KString, "commit.link");
  (cli.KString, "commit.branch"); (cli.KString, "commit.message");
  (cli.KString, "commit.author.name"); (cli.KString, "commit.author.email");
  (cli.KString, "commit.author.avatar");
  (cli.KString, "portainer.address"); (cli.KString, "portainer.username");
  (cli.KString, "portainer.password"); (cli.KString, "portainer.endpoint");
  (cli.KBool, "portainer.insecure");
  (cli.KString, "stack.name"); (cli.KString, "stack.file");
  (cli.KStringSlice, "stack.config"); (cli.KStringSlice, "stack.environment");
  (cli.KStringSlice, "secrets"); (cli.KBool, "debug")
].

(** Two contexts give the flag [n] the same value when read at kind [k]. *)
Definition agree (c c' : cli.Context) (r : cli.Kind * string) : Prop :=
  match r.1 with
  | cli.KString => cli.String c r.2 = cli.String c' r.2
  | cli.KBool => cli.Bool c r.2 = cli.Bool c' r.2
  | cli.KInt => cli.Int c r.2 = cli.Int c' r.2
  | cli.KStringSlice => cli.StringSlice c r.2 = cli.StringSlice c' r.2
  end.

(** The table declares a flag of this name and kind. *)
Definition declared (r : cli.Kind * string) : Prop :=
  r ∈ (fun f => (cli.kind f, cli.Name f)) <$> flags.

(** The names of the environment variables of a flag. *)
Definition aliases (f : cli.Flag) : list string :=
  SplitN (cli.EnvVar f) ","%char (-1).

(** The flags of the table that [run] does not read. *)
Definition unread : list string :=
  cli.Name <$> filter (fun f => (cli.kind f, cli.Name f) ∉ reads) flags.

Section CliTheorems.
Context `{!GoLib} `{!cli.Lib} {S : Type} `{!Platform S}.
Implicit Types (c : cli.Context) (w : World S).

(** [run_plugin] is a function of the flags in [reads]. *)
Lemma run_plugin_agree c c' :
  Forall (agree c c') reads -> run_plugin c = run_plugin c'.
Proof.
  unfold reads, agree. intros Hagree.
  repeat (apply Forall_cons in Hagree as [? Hagree]). simpl in *.
  unfold run_plugin. congruence.
Qed.

Lemma unread_flags :
  unread = ["repo.fullname"; "commit.ref"; "yaml.verified"; "yaml.signed";
            "prev.build.number"; "prev.build.status"; "prev.commit.sha"].
Proof. by vm_compute. Qed.

(** C30: the table of flags is well formed: no two flags share a name, no
    environment variable feeds two flags, and every flag [run] reads is
    declared in the table with the kind of the reader [run] uses, so that
    no reader falls back to the zero value of an unknown flag. *)
Theorem flags_well_formed :
  NoDup (cli.Name <$> flags)
  /\ NoDup (flags ≫= aliases)
  /\ Forall declared reads.
Proof. split_and!; (eapply bool_decide_unpack; by vm_compute). Qed.

(** C28: the structure [run] builds does not depend on the flag
    [commit.ref]: its field [Ref] is the value of [commit.sha], as [Sha]
    is. *)
Theorem run_ignores_commit_ref c c' :
  (forall n, n <> "commit.ref" -> cli.String c n = cli.String c' n) ->
  (forall n, cli.Bool c n = cli.Bool c' n) ->
  (forall n, cli.Int c n = cli.Int c' n) ->
  (forall n, cli.StringSlice c n = cli.StringSlice c' n) ->
  run_plugin c = run_plugin c'
  /\ main.Commit.Ref (main.Plugin.Commit (run_plugin c)) = cli.String c "commit.sha".
Proof.
  intros Hs Hb Hi Hl. split; [|done]. apply run_plugin_agree.
  unfold reads, agree. repeat constructor; simpl; auto.
Qed.

(** The run of [run], from the run of [Exec]. *)
Lemma run_run c w :
  run c w
  = match main.Exec (run_plugin c) w with
    | (Ok _, w') => (Ok Returned, w')
    | (Err e, w') =>
        (Ok (Exited 1),
         printed w' ["Exited with error: " +:+ Error e +:+ newline])
    | (Panic x, w') => (Panic x, w')
    end.
Proof.
  unfold run, try, bind. by destruct (main.Exec _ w) as [[[]|e|x] w'].
Qed.

Lemma print_all_run lines w : print_all lines w = (Ok tt, printed w lines).
Proof.
  revert w. induction lines as [|line lines IH]; intros w; simpl.
  - unfold printed. rewrite app_nil_r. by destruct w.
  - unfold bind. rewrite Printf_run, IH, printed_app. done.
Qed.

Lemma tidy_run c : tidy (run c).
Proof. unfold run. solve_tidy. Qed.

Lemma tidy_print_all lines : tidy (print_all (S:=S) lines).
Proof. induction lines; simpl; auto with go. Qed.

Lemma tidy_main_ version args environ : tidy (main_ version args environ).
Proof. unfold main_. destruct (cli.Run _ _ _); auto using tidy_run, tidy_print_all with go. Qed.

(** [run] returns when [Exec] succeeds; when [Exec] returns an error
    it prints [Exited with error:] and the message and ends the process
    with status 1; a panic of [Exec] is not caught.  [run] itself sends
    nothing. *)
Theorem run_outcome c w :
  run c w
  = match main.Exec (run_plugin c) w with
    | (Ok _, w') => (Ok Returned, w')
    | (Err e, w') =>
        (Ok (Exited 1),
         printed w' ["Exited with error: " +:+ Error e +:+ newline])
    | (Panic x, w') => (Panic x, w')
    end
  /\ sent (run c) w = sent (main.Exec (run_plugin c)) w.
Proof.
  split; [apply run_run|]. unfold sent. rewrite run_run.
  by destruct (main.Exec _ w) as [[[]|e|x] w'].
Qed.

(** C25: the process ends with status 1 exactly when the library called
    [run] and [Exec] returned an error, and with status 2 when [Exec]
    panicked; when the library deals with the arguments itself, an error
    in them included, the status is 0, because [main] drops what
    [app.Run] returns. *)
Theorem main_exit_code version args environ w :
  exit_code (main_ version args environ w).1
  = match cli.Run (app version) args environ with
    | cli.Handled _ _ => 0
    | cli.Invoke c =>
        match (main.Exec (run_plugin c) w).1 with
        | Ok _ => 0
        | Err _ => 1
        | Panic _ => 2
        end
    end%Z.
Proof.
  unfold main_. destruct (cli.Run _ _ _) as [output err|c].
  - unfold bind. by rewrite print_all_run.
  - rewrite run_run. by destruct (main.Exec _ w) as [[[]|e|x] w'].
Qed.

End CliTheorems.

(** * The theorems at a concrete command line *)

(** The context in which every string flag but [commit.ref] holds its own
    name, and [commit.ref] holds [ref]. *)
Definition named_context (ref : string) : cli.Context :=
  cli.mkContext
    (fun n => if decide (n = "commit.ref") then ref else n)
    (fun _ => false) (fun _ => 0%Z) (fun _ => []).

Lemma run_ignores_commit_ref_witness :
  run_plugin (named_context "refs/heads/master")
  = run_plugin (named_context "refs/tags/v1")
  /\ main.Commit.Ref (main.Plugin.Commit (run_plugin (named_context "refs/heads/master")))
     = cli.String (named_context "refs/heads/master") "commit.sha".
Proof.
  apply run_ignores_commit_ref; [|done..].
  intros n Hn. simpl. by rewrite !decide_False.
Defined.
