(* ===== verification/Environ.v ===== *)
(** * Environ: the flags, from the environment of the process

    Drone starts a plugin with no arguments and with the settings of the
    step in the environment, a list setting as one variable with commas
    between the elements.  This file states what the flag library does
    with the table of [Cli] then, as version 1.20 of codegangsta/cli does
    it: a flag takes the value of the first variable of its [EnvVar] list
    that is set, a boolean and an integer are parsed, a list is cut at
    the commas and every piece is trimmed, and the first value that does
    not parse is the error [app.Run] returns, without a line of output
    and without a call of the action.

    [bare_run] is that behaviour; it models no code of the repository.
    The class [FromEnviron] says that a library [cli.Lib] behaves so on a
    command line that holds the name of the program only, and the
    theorems of this file are proved against the class: what the fields
    of [Plugin.Config] are as functions of the environment, with the
    defaults of the table, and what the program does with a value the
    library refuses or cuts. *)

From S2P Require Import Prelude GoStrings Json Wire Http Fixture Client Plugin Cli.

#[local] Open Scope string_scope.
#[local] Open Scope list_scope.
#[local] Open Scope go_scope.

(** ** What the library calls of [strings] and [strconv] *)

(** [unicode.IsSpace], on the characters below 128. *)
Definition is_space (c : ascii) : bool :=
  bool_decide (nat_of_ascii c ∈ [9; 10; 11; 12; 13; 32]).

Fixpoint trim_left (s : string) : string :=
  match s with
  | String c rest => if is_space c then trim_left rest else s
  | EmptyString => EmptyString
  end.

(** [strings.TrimSpace]. *)
Definition TrimSpace (s : string) : string :=
  String.rev (trim_left (String.rev (trim_left s))).

(** [strconv.ParseBool]. *)
Definition ParseBool (s : string) : option bool :=
  if bool_decide (s ∈ ["1"; "t"; "T"; "TRUE"; "true"; "True"]) then Some true
  else if bool_decide (s ∈ ["0"; "f"; "F"; "FALSE"; "false"; "False"]) then Some false
  else None.

(** The message of the error of [strconv] for a text it cannot read. *)
Definition invalid_syntax (fn s : string) : string :=
  "strconv." +:+ fn +:+ ": parsing " +:+ quoted s +:+ ": invalid syntax".

(** ** The value of a flag *)

(** The value a flag holds once the library has applied it. *)
Inductive Val : Type :=
| VString (s : string)
| VBool (b : bool)
| VInt (n : Z)
| VSlice (l : list string).

(** The pieces of a list setting. *)
Definition pieces (v : string) : list string :=
  TrimSpace <$> SplitN v ","%char (-1).

Section Resolve.
(** [strconv.ParseInt(s, 0, 64)] and the environment of the process. *)
Variable ParseInt : string -> error + Z.
Variable environ : list (string * string).

(** The value of the first of the variables [names] that is set. *)
Definition first_set (names : list string) : option string :=
  head (omap (fun name => assoc name environ) names).

Definition from_env (f : cli.Flag) : option string :=
  if decide (cli.EnvVar f = "") then None
  else first_set (TrimSpace <$> aliases f).

Definition could_not_parse (v what : string) (f : cli.Flag) (cause : string) : error :=
  Errorf ("could not parse " +:+ v +:+ " as " +:+ what +:+ " value for flag "
          +:+ cli.Name f +:+ ": " +:+ cause).

(** [ApplyWithError] of the four flag structures. *)
Definition flag_value (f : cli.Flag) : error + Val :=
  match cli.kind f with
  | cli.KString => inr (VString (default (cli.Value f) (from_env f)))
  | cli.KBool =>
      match from_env f with
      | None => inr (VBool false)
      | Some v =>
          if decide (v = "") then inr (VBool false)
          else match ParseBool v with
               | Some b => inr (VBool b)
               | None =>
                   inl (could_not_parse v "bool" f (invalid_syntax "ParseBool" v))
               end
      end
  | cli.KInt =>
      match from_env f with
      | None => inr (VInt 0)
      | Some v =>
          match ParseInt v with
          | inr n => inr (VInt n)
          | inl e => inl (could_not_parse v "int" f (Error e))
          end
      end
  | cli.KStringSlice => inr (VSlice (from_option pieces [] (from_env f)))
  end.

(** The error of the first flag of the table that cannot be applied. *)
Definition first_error (fs : list cli.Flag) : option error :=
  head (omap (fun f => match flag_value f with inl e => Some e | inr _ => None end) fs).

(** The value of the flag of a name. *)
Definition flag_named (fs : list cli.Flag) (name : string) : option Val :=
  match find (fun f => bool_decide (cli.Name f = name)) fs with
  | Some f => match flag_value f with inr v => Some v | inl _ => None end
  | None => None
  end.

(** The context the action is called with.  A reader gives the zero
    value for a name that is not in the table; it is not modelled on a
    flag of another kind than its own, which [run] never reads
    ([Cli.flags_well_formed]). *)
Definition bare_context (fs : list cli.Flag) : cli.Context :=
  cli.mkContext
    (fun name => match flag_named fs name with Some (VString s) => s | _ => "" end)
    (fun name => match flag_named fs name with Some (VBool b) => b | _ => false end)
    (fun name => match flag_named fs name with Some (VInt n) => n | _ => 0%Z end)
    (fun name => match flag_named fs name with Some (VSlice l) => l | _ => [] end).

(** [app.Run] on a command line without arguments. *)
Definition bare_run (a : cli.App) : cli.Parsed :=
  match first_error (cli.Flags a) with
  | Some e => cli.Handled [] (Some e)
  | None => cli.Invoke (bare_context (cli.Flags a))
  end.

End Resolve.

(** A flag library that takes the flags from the environment when the
    command line holds the name of the program only. *)
Class FromEnviron `{!cli.Lib} : Type := {
  ParseInt : string -> error + Z;
  Run_bare a prog environ : cli.Run a [prog] environ = bare_run ParseInt environ a
}.

#[export] Instance Val_eq_dec : EqDecision Val.
Proof. solve_decision. Defined.

#[export] Instance Flag_eq_dec : EqDecision cli.Flag.
Proof. solve_decision. Defined.

(** * The readers of the context *)

(** A boolean setting: set to a text [strconv.ParseBool] reads as true. *)
Definition switch (o : option string) : bool :=
  match o with
  | Some v => bool_decide (ParseBool v = Some true)
  | None => false
  end.

Section Readers.
Variable ParseInt : string -> error + Z.
Variables (environ : list (string * string)) (fs : list cli.Flag).
Implicit Types (name : string) (f : cli.Flag).

Local Abbreviation c := (bare_context ParseInt environ fs).
Local Abbreviation named name := (find (fun f => bool_decide (cli.Name f = name)) fs).

Lemma String_bare name f :
  named name = Some f -> cli.kind f = cli.KString ->
  cli.String c name = default (cli.Value f) (from_env environ f).
Proof. intros Hf Hk. simpl. unfold flag_named, flag_value. by rewrite Hf, Hk. Qed.

Lemma Bool_bare name f :
  named name = Some f -> cli.kind f = cli.KBool ->
  cli.Bool c name = switch (from_env environ f).
Proof.
  intros Hf Hk. simpl. unfold flag_named, flag_value. rewrite Hf, Hk.
  destruct (from_env environ f) as [v|]; [|done]. simpl.
  case_decide as Hv; [by subst|]. by destruct (ParseBool v) as [[]|].
Qed.

Lemma StringSlice_bare name f :
  named name = Some f -> cli.kind f = cli.KStringSlice ->
  cli.StringSlice c name = from_option pieces [] (from_env environ f).
Proof. intros Hf Hk. simpl. unfold flag_named, flag_value. by rewrite Hf, Hk. Qed.

Lemma bare_run_Invoke a c' :
  bare_run ParseInt environ a = cli.Invoke c' ->
  first_error ParseInt environ (cli.Flags a) = None
  /\ c' = bare_context ParseInt environ (cli.Flags a).
Proof. unfold bare_run. destruct (first_error _ _ _); naive_solver. Qed.

End Readers.

(** * The settings of the plugin *)

Section Settings.
Context `{!cli.Lib} `{!FromEnviron}.
Variable environ : list (string * string).

(** A text setting with its default, a list setting and a boolean
    setting, each with the names of its variables in the order of their
    priority. *)
Definition text_setting (value : string) (names : list string) : string :=
  default value (first_set environ names).

Definition list_setting (names : list string) : list string :=
  from_option pieces [] (first_set environ names).

Definition bool_setting (names : list string) : bool :=
  switch (first_set environ names).

(** The configuration of the specification, section 6, from the
    environment. *)
Definition settings : main.Config.t :=
  main.Config.mk
    (main.Portainer.mk
       (text_setting "" ["PLUGIN_PORTAINER_ADDRESS"; "PLUGIN_PORTAINER";
                         "PLUGIN_ADDRESS"; "PORTAINER_ADDRESS"])
       (text_setting "" ["PLUGIN_PORTAINER_USERNAME"; "PLUGIN_USERNAME";
                         "PORTAINER_USERNAME"])
       (text_setting "" ["PLUGIN_PORTAINER_PASSWORD"; "PLUGIN_PASSWORD";
                         "PORTAINER_PASSWORD"])
       (text_setting "local" ["PLUGIN_PORTAINER_ENDPOINT"; "PLUGIN_ENDPOINT";
                              "PORTAINER_ENDPOINT"])
       (bool_setting ["PLUGIN_PORTAINER_INSECURE"; "PLUGIN_INSECURE";
                      "PORTAINER_INSECURE"]))
    (main.Stack.mk
       (text_setting "stack" ["PLUGIN_STACK_NAME"; "PLUGIN_STACK"; "STACK_NAME"])
       (text_setting "docker-compose.yml"
          ["PLUGIN_STACK_FILE"; "PLUGIN_FILE"; "STACK_FILE"])
       (list_setting ["PLUGIN_STACK_CONFIG"; "PLUGIN_CONFIG"; "STACK_CONFIG"])
       (list_setting ["PLUGIN_STACK_ENVIRONMENT"; "PLUGIN_STACK_ENV";
                      "PLUGIN_ENVIRONMENT"; "PLUGIN_ENV"; "STACK_ENVIRONMENT";
                      "STACK_ENV"]))
    (list_setting ["PLUGIN_SECRETS"])
    (bool_setting ["PLUGIN_DEBUG"]).

Lemma Config_bare :
  main.Plugin.Config (run_plugin (bare_context ParseInt environ flags)) = settings.
Proof.
  unfold run_plugin, settings, text_setting, list_setting, bool_setting.
  cbn [main.Plugin.Config].
  repeat (erewrite String_bare by reflexivity).
  repeat (erewrite Bool_bare by reflexivity).
  repeat (erewrite StringSlice_bare by reflexivity).
  reflexivity.
Qed.

(** C24: when the library calls the action on a bare command line, the
    configuration [run] hands to [Exec] is [settings]: each field is the
    value of the first variable of its flag that is set, in the order of
    the table, with the defaults [local], [stack] and [docker-compose.yml]
    and the empty address and credentials; a list is the value cut at the
    commas, each piece trimmed; a switch is on when its value reads as
    true. *)
Theorem plugin_settings version prog c :
  cli.Run (app version) [prog] environ = cli.Invoke c ->
  main.Plugin.Config (run_plugin c) = settings.
Proof. rewrite Run_bare. intros [_ ->]%bare_run_Invoke. apply Config_bare. Qed.

(** ** Values the library refuses *)

Lemma first_error_Some fs f e :
  f ∈ fs -> flag_value ParseInt environ f = inl e ->
  is_Some (first_error ParseInt environ fs).
Proof.
  intros Hf He. unfold first_error.
  destruct (omap _ fs) as [|e' l] eqn:E; [|by eexists].
  assert (e ∈ omap (fun f => match flag_value ParseInt environ f with
                             | inl e => Some e | inr _ => None end) fs) as Hin.
  { apply list_elem_of_omap. exists f. by rewrite He. }
  rewrite E in Hin. by apply elem_of_nil in Hin.
Qed.

Lemma main_Handled `{!GoLib} {S} `{!Platform S} version args output err (w : World S) :
  cli.Run (app version) args environ = cli.Handled output err ->
  main_ version args environ w = (Ok Returned, printed w output).
Proof. intros Hrun. unfold main_, bind. by rewrite Hrun, print_all_run. Qed.

Lemma printed_nil {S} (w : World S) : printed w [] = w.
Proof. destruct w. unfold printed. simpl. by rewrite app_nil_r. Qed.

(** C27: a switch whose variable holds a text that is not a boolean ends
    the program before it starts: the library returns the error, [main]
    drops it, and the process ends with status 0 with nothing printed and
    nothing sent. *)
Theorem main_unreadable_switch `{!GoLib} {S} `{!Platform S}
    version prog f v (w : World S) :
  f ∈ flags -> cli.kind f = cli.KBool ->
  from_env environ f = Some v -> v <> "" -> ParseBool v = None ->
  main_ version [prog] environ w = (Ok Returned, w)
  /\ exit_code (main_ version [prog] environ w).1 = 0%Z
  /\ sent (main_ version [prog] environ) w = [].
Proof.
  intros Hf Hk Hv Hne Hparse.
  assert (exists e, cli.Run (app version) [prog] environ = cli.Handled [] (Some e))
    as [e Hrun].
  { rewrite Run_bare. unfold bare_run. change (cli.Flags (app version)) with flags.
    destruct (first_error_Some flags f
                (could_not_parse v "bool" f (invalid_syntax "ParseBool" v)) Hf)
      as [e ->]; [|by eexists].
    unfold flag_value. by rewrite Hk, Hv, decide_False, Hparse. }
  assert (main_ version [prog] environ w = (Ok Returned, w)) as Hmain.
  { by rewrite (main_Handled _ _ _ _ _ Hrun), printed_nil. }
  unfold sent. rewrite Hmain. split_and!; [done..|]. by rewrite drop_all.
Qed.

(** ** Values the library cuts *)

(** C26: a list setting cannot hold a comma.  When the value of the
    environment setting has a piece between two commas that holds no [=],
    the entry reaches [Exec] in two parts and the run does not succeed: the
    process ends with a panic, or with status 1 when a lookup failed
    before the entries were read. *)
Theorem environment_cut_at_commas `{!GoLib} {S} `{!Platform S}
    version prog c v (w : World S) :
  cli.Run (app version) [prog] environ = cli.Invoke c ->
  first_set environ ["PLUGIN_STACK_ENVIRONMENT"; "PLUGIN_STACK_ENV";
                     "PLUGIN_ENVIRONMENT"; "PLUGIN_ENV"; "STACK_ENVIRONMENT";
                     "STACK_ENV"] = Some v ->
  forallb (contains "="%char) (pieces v) = false ->
  main.Stack.Environment (main.Config.Stack (main.Plugin.Config (run_plugin c)))
  = pieces v
  /\ exit_code (main_ version [prog] environ w).1 <> 0%Z.
Proof.
  intros Hrun Hv Hcut.
  assert (main.Stack.Environment
            (main.Config.Stack (main.Plugin.Config (run_plugin c))) = pieces v) as Henv.
  { rewrite Run_bare in Hrun. apply bare_run_Invoke in Hrun as [_ ->].
    change (cli.Flags (app version)) with flags. rewrite Config_bare. simpl. unfold list_setting. by rewrite Hv. }
  split; [done|]. unfold main_. rewrite Hrun, run_run.
  pose proof (Exec_malformed_fails (run_plugin c) w) as Hfail.
  rewrite Henv in Hfail. specialize (Hfail Hcut).
  by destruct (main.Exec _ w) as [[[]|e|x] w'].
Qed.

End Settings.

(** * The theorems at a concrete environment *)

(** A decimal number without sign. *)
Fixpoint digits (acc : Z) (s : string) : option Z :=
  match s with
  | EmptyString => Some acc
  | String c rest =>
      let n := nat_of_ascii c in
      if bool_decide (48 <= n <= 57)%nat then digits (10 * acc + Z.of_nat (n - 48)) rest
      else None
  end.

Definition decimal_ParseInt (s : string) : error + Z :=
  match s, digits 0 s with
  | String _ _, Some n => inr n
  | _, _ => inl (Errorf (invalid_syntax "ParseInt" s))
  end.

(** A library for the runs Drone starts: it does with every command line
    what the flag library does with a bare one, and reads integers in
    decimal. *)
Definition bare_lib : cli.Lib :=
  {| cli.Run := fun a _ environ => bare_run decimal_ParseInt environ a |}.

Section Witnesses.

#[local] Existing Instance fixture_lib.
#[local] Existing Instance script_platform.
#[local] Existing Instance bare_lib.

#[local] Instance bare_lib_from_environ : FromEnviron :=
  {| ParseInt := decimal_ParseInt; Run_bare := fun _ _ _ => eq_refl |}.

(** The environment of a step that deploys the stack [web]. *)
Definition drone_step (more : list (string * string)) : list (string * string) :=
  [("DRONE_REPO", "octocat/hello"); ("DRONE_BUILD_NUMBER", "42");
   ("PLUGIN_PORTAINER", "http://portainer.local");
   ("PORTAINER_ADDRESS", "http://elsewhere.local");
   ("PLUGIN_USERNAME", "admin"); ("PLUGIN_PASSWORD", "secret");
   ("PLUGIN_STACK_NAME", "web"); ("PLUGIN_CONFIG", "version: 3")] ++ more.

Lemma plugin_settings_witness :
  let environ := drone_step [("PLUGIN_ENVIRONMENT", "KEY=value, MODE=fast")] in
  main.Plugin.Config (run_plugin (bare_context decimal_ParseInt environ flags))
  = main.Config.mk
      (main.Portainer.mk "http://portainer.local" "admin" "secret" "local" false)
      (main.Stack.mk "web" "docker-compose.yml" ["version: 3"]
         ["KEY=value"; "MODE=fast"])
      [] false.
Proof.
  intros environ.
  etrans; [apply (plugin_settings environ "1.0" "drone-portainer"); reflexivity|].
  vm_compute. reflexivity.
Defined.

Lemma main_unreadable_switch_witness :
  let environ := drone_step [("PLUGIN_INSECURE", "yes")] in
  let w := initial (mkScript [] [] 0) in
  main_ "1.0" ["drone-portainer"] environ w = (Ok Returned, w)
  /\ exit_code (main_ "1.0" ["drone-portainer"] environ w).1 = 0%Z
  /\ sent (main_ "1.0" ["drone-portainer"] environ) w = [].
Proof.
  intros environ w.
  apply (main_unreadable_switch environ "1.0" "drone-portainer"
           (cli.BoolFlag "portainer.insecure" "portainer insecure connection"
              "PLUGIN_PORTAINER_INSECURE,PLUGIN_INSECURE,PORTAINER_INSECURE") "yes");
    [eapply bool_decide_unpack; by vm_compute|done..].
Defined.

Lemma environment_cut_at_commas_witness :
  let environ := drone_step [("PLUGIN_ENVIRONMENT", "GREETING=hello, world")] in
  let w := initial (mkScript [] [] 0) in
  main.Stack.Environment
    (main.Config.Stack
       (main.Plugin.Config (run_plugin (bare_context decimal_ParseInt environ flags))))
  = ["GREETING=hello"; "world"]
  /\ exit_code (main_ "1.0" ["drone-portainer"] environ w).1 <> 0%Z.
Proof.
  intros environ w.
  apply (environment_cut_at_commas environ "1.0" "drone-portainer" _
           "GREETING=hello, world" w); reflexivity.
Defined.

End Witnesses.
