(* ===== verification/Protocol.v ===== *)
(** * Protocol: the order of the requests

    The specification describes a run as a chain: probe the server, log
    in, list the endpoints, query the cluster of the endpoint selected,
    list the stacks, then create or update.  This file states that chain
    as a machine over seven phases and seven kinds of request
    ([step], with its executable form [next]), proves what holds of every
    history the machine allows by induction on [reach], and shows that
    [Plugin.main.Exec] refines it: the requests of every run, in order,
    are a history of the machine, complete when the run succeeds.

    The refinement is proved with a small program logic over the monad of
    [Http]: [follows c ph Q] says that [c], started in phase [ph], sends
    requests the machine allows from [ph], and that the phase reached
    satisfies [Q] when [c] returns.  The last part is the converse: a
    server that answers every request of the chain positively makes [Exec]
    succeed. *)

From S2P Require Import Prelude GoStrings Json Wire Http Fixture Client Plugin.

#[local] Open Scope string_scope.
#[local] Open Scope list_scope.
#[local] Open Scope go_scope.

(** ** The machine *)

Inductive phase : Type :=
| Start | Connected | Authenticated | Listed | Resolved | Searched | Done.

Inductive action : Type :=
| Probe | Login | ListEndpoints | QueryCluster | ListStacks | Create | Update.

#[export] Instance phase_eq_dec : EqDecision phase.
Proof. solve_decision. Defined.

#[export] Instance action_eq_dec : EqDecision action.
Proof. solve_decision. Defined.

(** One request takes the run from a phase to the next.  A stack can be
    created without the stacks having been listed, because the lookup of
    a stack may send nothing; it can be updated only after they were. *)
Inductive step : phase -> action -> phase -> Prop :=
| step_probe : step Start Probe Connected
| step_login : step Connected Login Authenticated
| step_endpoints : step Authenticated ListEndpoints Listed
| step_cluster : step Listed QueryCluster Resolved
| step_stacks : step Resolved ListStacks Searched
| step_create_unsearched : step Resolved Create Done
| step_create : step Searched Create Done
| step_update : step Searched Update Done.

(** The same as a function. *)
Definition next (ph : phase) (a : action) : option phase :=
  match ph, a with
  | Start, Probe => Some Connected
  | Connected, Login => Some Authenticated
  | Authenticated, ListEndpoints => Some Listed
  | Listed, QueryCluster => Some Resolved
  | Resolved, ListStacks => Some Searched
  | Resolved, Create => Some Done
  | Searched, Create => Some Done
  | Searched, Update => Some Done
  | _, _ => None
  end.

(** The phase after a sequence of requests, if the machine allows it. *)
Fixpoint after (ph : phase) (l : list action) : option phase :=
  match l with
  | [] => Some ph
  | a :: l' => match next ph a with Some ph' => after ph' l' | None => None end
  end.

(** The histories of the machine: the sequences of requests from [Start],
    with the phase they lead to. *)
Inductive reach : list action -> phase -> Prop :=
| reach_start : reach [] Start
| reach_step l ph a ph' : reach l ph -> step ph a ph' -> reach (l ++ [a]) ph'.

(** The requests still to come: every step lowers the rank. *)
Definition rank (ph : phase) : nat :=
  match ph with
  | Start => 6 | Connected => 5 | Authenticated => 4 | Listed => 3
  | Resolved => 2 | Searched => 1 | Done => 0
  end.

(** The requests that change the stacks, and those that carry the token. *)
Definition changes (a : action) : bool :=
  match a with Create | Update => true | _ => false end.

Definition uses_token (a : action) : bool :=
  match a with Probe | Login => false | _ => true end.

(** The history of a phase before [Done], and the three complete ones. *)
Definition lookups_history : list action :=
  [Probe; Login; ListEndpoints; QueryCluster].

Definition history (ph : phase) : list (list action) :=
  match ph with
  | Start => [[]]
  | Connected => [[Probe]]
  | Authenticated => [[Probe; Login]]
  | Listed => [[Probe; Login; ListEndpoints]]
  | Resolved => [lookups_history]
  | Searched => [lookups_history ++ [ListStacks]]
  | Done => [lookups_history ++ [Create];
             lookups_history ++ [ListStacks; Create];
             lookups_history ++ [ListStacks; Update]]
  end.

(** ** The machine, by rule induction *)

Section Machine.
Implicit Types (ph : phase) (a : action) (l : list action).

Lemma step_next ph a ph' : step ph a ph' <-> next ph a = Some ph'.
Proof.
  split; [by destruct 1|].
  destruct ph, a; intros [= <-]; constructor.
Qed.

#[export] Instance step_dec ph a ph' : Decision (step ph a ph').
Proof.
  refine (cast_if (decide (next ph a = Some ph'))); by rewrite step_next.
Defined.

Lemma after_app ph l1 l2 :
  after ph (l1 ++ l2) = after ph l1 ≫= fun ph' => after ph' l2.
Proof.
  revert ph. induction l1 as [|a l1 IH]; intros ph; simpl; [done|].
  destruct (next ph a); [apply IH | done].
Qed.

Lemma after_snoc ph l a ph1 ph2 :
  after ph l = Some ph1 -> next ph1 a = Some ph2 -> after ph (l ++ [a]) = Some ph2.
Proof. intros H1 H2. rewrite after_app, H1. simpl. by rewrite H2. Qed.

Lemma reach_after l ph : reach l ph <-> after Start l = Some ph.
Proof.
  split.
  - induction 1 as [|l ph a ph' _ IH Hstep]; [done|].
    eapply after_snoc; [done | by apply step_next].
  - revert ph. induction l as [|a l IH] using rev_ind; intros ph.
    + intros [= <-]. constructor.
    + rewrite after_app. destruct (after Start l) as [ph1|] eqn:E; [|done].
      simpl. destruct (next ph1 a) as [ph2|] eqn:En; [|done].
      intros [= <-]. econstructor; [by apply IH | by apply step_next].
Qed.

Lemma step_rank ph a ph' : step ph a ph' -> rank ph' < rank ph.
Proof. destruct 1; simpl; lia. Qed.

Lemma reach_rank l ph : reach l ph -> length l + rank ph <= 6.
Proof.
  induction 1 as [|l ph a ph' _ IH Hstep]; [done|].
  apply step_rank in Hstep. rewrite length_app. simpl. lia.
Qed.

(** A history is one of the histories of its phase. *)
Lemma reach_history l ph : reach l ph -> l ∈ history ph.
Proof.
  induction 1 as [|l ph a ph' _ IH Hstep]; [set_solver|].
  destruct Hstep; simpl in *; set_solver.
Qed.

End Machine.

(** ** Requests as steps *)

(** The request [r] is a request of kind [a], of some client. *)
Definition performs (a : action) (r : Request) : Prop :=
  match a with
  | Probe => exists self, r = head_request self
  | Login => exists self user pass, r = auth_request self user pass
  | ListEndpoints => exists self, r = endpoints_request self
  | QueryCluster => exists self id, r = swarm_request self id
  | ListStacks => exists self, r = stacks_request self
  | Create =>
      (exists self endpoint name config env,
         r = create_string_request self endpoint name config env)
      \/ (exists self endpoint name repo path user pass env,
            r = create_git_request self endpoint name repo path user pass env)
  | Update =>
      exists self stack config prune env,
        r = update_request self stack config prune env
  end.

Section Logic.
Context `{!GoLib} {S : Type} `{!Platform S}.
Implicit Types (ph : phase) (w : World S).

(** Started in phase [ph], the computation [c] sends requests the machine
    allows from [ph], in order, and the phase they lead to satisfies [Q]
    with the value [c] returns. *)
Definition follows {A} (c : M S A) (ph : phase) (Q : A -> phase -> Prop) : Prop :=
  forall w, exists actions ph',
    after ph actions = Some ph'
    /\ Forall2 performs actions (request <$> sent c w)
    /\ forall a w', c w = (Ok a, w') -> Q a ph'.

Lemma follows_equiv {A} (c c' : M S A) ph Q :
  c ≡ c' -> follows c ph Q -> follows c' ph Q.
Proof.
  intros Ec Hc w. destruct (Hc w) as (l & ph' & ? & ? & Hok).
  exists l, ph'. split_and!; [done | by rewrite <- Ec |].
  intros a w' E. apply (Hok a w'). by rewrite (Ec w).
Qed.

#[export] Instance follows_proper {A} :
  Proper ((≡) ==> (=) ==> (=) ==> iff) (@follows A).
Proof.
  intros c c' Ec ph ? <- Q ? <-. split; apply follows_equiv; [done | by symmetry].
Qed.

Lemma follows_weaken {A} (c : M S A) ph (Q Q' : A -> phase -> Prop) :
  (forall a ph', Q a ph' -> Q' a ph') -> follows c ph Q -> follows c ph Q'.
Proof.
  intros HQ Hc w. destruct (Hc w) as (actions & ph' & ? & ? & Hok).
  exists actions, ph'. eauto.
Qed.

(** A computation that sends nothing stays in its phase. *)
Lemma follows_quiet {A} (c : M S A) ph :
  (forall w, sent c w = []) -> follows c ph (fun _ ph' => ph' = ph).
Proof. intros Hq w. exists [], ph. rewrite Hq. by split_and!. Qed.

Lemma follows_bind {A B} (c : M S A) (k : A -> M S B) ph Q R :
  tidy c -> (forall a, tidy (k a)) ->
  follows c ph Q -> (forall a ph1, Q a ph1 -> follows (k a) ph1 R) ->
  follows (bind c k) ph R.
Proof.
  intros Tc Tk Hc Hk w. destruct (Hc w) as (l1 & ph1 & H1 & F1 & Q1).
  rewrite sent_bind by done. unfold bind.
  destruct (c w) as [[a|e|x] w1] eqn:E.
  - destruct (Hk a ph1 (Q1 a w1 eq_refl) w1) as (l2 & ph2 & H2 & F2 & Q2).
    exists (l1 ++ l2), ph2. rewrite after_app, H1, fmap_app. simpl.
    split_and!; [done | by apply Forall2_app | done].
  - exists l1, ph1. by rewrite app_nil_r.
  - exists l1, ph1. by rewrite app_nil_r.
Qed.

(** One call is one step. *)
Lemma follows_call {A} client req (f : Response -> result A) ph a ph' :
  next ph a = Some ph' -> performs a req ->
  follows (call client req f) ph (fun _ ph2 => ph2 = ph').
Proof.
  intros Hnext Hreq w. rewrite sent_call. unfold call.
  destruct (url_error (Url req)); [by exists [], ph|].
  exists [a], ph'. simpl. rewrite Hnext. split_and!; [done | by repeat constructor | done].
Qed.

(** The marks around a call change nothing. *)
Lemma follows_announced {A} msg (c : M S A) ph Q :
  tidy c -> follows c ph Q -> follows (announced msg c) ph Q.
Proof.
  intros Tc Hc w. destruct (Hc (printed w [msg])) as (l & ph' & ? & ? & Hok).
  exists l, ph'. rewrite sent_announced, announced_run by done.
  split_and!; [done..|]. intros a w'.
  destruct (c _) as [[a'|?|?] w1]; [|done..]. intros [= <- <-]. eauto.
Qed.

End Logic.

(** ** The client follows the machine *)

Section Methods.
Context `{!GoLib} {S : Type} `{!Platform S}.
Implicit Types (self prtnr : Client.Portainer) (ph : phase) (w : World S).

Lemma follows_Connect self :
  follows (Connect self) Start (fun _ ph => ph = Connected).
Proof.
  rewrite Connect_call. apply (follows_call _ _ _ _ Probe); [done|]. by exists self.
Qed.

Lemma follows_Auth self user pass :
  follows (Auth self user pass) Connected (fun _ ph => ph = Authenticated).
Proof.
  rewrite Auth_call. apply (follows_call _ _ _ _ Login); [done|].
  by exists self, user, pass.
Qed.

Lemma follows_GetEndpointByName self name :
  follows (GetEndpointByName self name) Authenticated (fun _ ph => ph = Resolved).
Proof.
  rewrite GetEndpointByName_calls.
  eapply follows_bind; [solve_tidy..| |].
  { apply (follows_call _ _ _ _ ListEndpoints); [done|]. by exists self. }
  intros l ph1 ->. eapply follows_bind; [solve_tidy..| |].
  { apply follows_quiet. intros w. apply sent_lift. }
  intros e ph1 ->. rewrite fetch_swarm_call.
  apply (follows_call _ _ _ _ QueryCluster); [done|]. by exists self, (Endpoint.Id e).
Qed.

(** The search may send nothing, and is then still in [Resolved]. *)
Lemma follows_GetStackByName self name :
  follows (GetStackByName self name) Resolved (fun _ ph => ph = Searched).
Proof.
  destruct (decide (name = "")) as [->|Hne].
  - intros w. exists [], Resolved. by rewrite GetStackByName_nameless, sent_raise.
  - rewrite (GetStackByName_call _ _ Hne).
    apply (follows_call _ _ _ _ ListStacks); [done|]. by exists self.
Qed.

Lemma follows_DeployStackFromString self endpoint name config env ph :
  next ph Create = Some Done ->
  follows (DeployStackFromString self endpoint name config env) ph
    (fun _ ph' => ph' = Done).
Proof.
  intros Hnext. rewrite DeployStackFromString_call.
  apply (follows_call _ _ _ _ Create); [done|]. left. by exists self, endpoint, name, config, env.
Qed.

Lemma follows_UpdateStackFromString self stack config prune env :
  follows (UpdateStackFromString self stack config prune env) Searched
    (fun _ ph' => ph' = Done).
Proof.
  rewrite UpdateStackFromString_call.
  apply (follows_call _ _ _ _ Update); [done|]. by exists self, stack, config, prune, env.
Qed.

Lemma follows_ReadFile path ph :
  follows (ReadFile (S:=S) path) ph (fun _ ph' => ph' = ph).
Proof.
  apply follows_quiet. intros w. unfold sent, ReadFile. simpl. apply drop_all.
Qed.

Lemma follows_DeployStackFromFile self endpoint name path env ph :
  next ph Create = Some Done ->
  follows (DeployStackFromFile self endpoint name path env) ph
    (fun _ ph' => ph' = Done).
Proof.
  intros Hnext. unfold DeployStackFromFile.
  eapply follows_bind; [solve_tidy..|apply follows_ReadFile|].
  intros data ph1 ->. by apply follows_DeployStackFromString.
Qed.

Lemma follows_UpdateStackFromFile self stack path prune env :
  follows (UpdateStackFromFile self stack path prune env) Searched
    (fun _ ph' => ph' = Done).
Proof.
  unfold UpdateStackFromFile.
  eapply follows_bind; [solve_tidy..|apply follows_ReadFile|].
  intros data ph1 ->. apply follows_UpdateStackFromString.
Qed.

End Methods.

(** ** [Exec] follows the machine *)

Section Refinement.
Context `{!GoLib} {S : Type} `{!Platform S}.
Implicit Types (p : main.Plugin.t) (prtnr : Client.Portainer) (ph : phase)
  (w : World S).

(** Where the search leaves the run: the stacks were listed, or nothing
    was found and nothing may have been sent. *)
Definition searched (stack : option Wire.Stack.t) (ph : phase) : Prop :=
  ph = Searched \/ (stack = None /\ ph = Resolved).

Lemma follows_connect_phase p :
  follows (main.connect_phase p) Start (fun _ ph => ph = Connected).
Proof.
  rewrite connect_phase_announced.
  eapply follows_bind; [solve_tidy..| |].
  { apply follows_quiet. intros w. apply sent_lift. }
  intros prtnr ph1 ->. apply follows_announced; [solve_tidy|].
  eapply follows_bind; [solve_tidy..|apply follows_Connect|].
  intros [] ph1 ->. apply follows_quiet. intros w. apply sent_ret.
Qed.

Lemma follows_auth_phase p prtnr :
  follows (main.auth_phase p prtnr) Connected (fun _ ph => ph = Authenticated).
Proof.
  rewrite auth_phase_announced. apply follows_announced; [solve_tidy|].
  apply follows_Auth.
Qed.

Lemma follows_endpoint_phase p prtnr :
  follows (main.endpoint_phase p prtnr) Authenticated (fun _ ph => ph = Resolved).
Proof.
  rewrite endpoint_phase_announced. apply follows_announced; [solve_tidy|].
  apply follows_GetEndpointByName.
Qed.

(** Whatever [GetStackByName] returns, the stacks were listed or nothing
    was sent; in the second case it has failed. *)
Lemma GetStackByName_searched prtnr name w :
  exists l ph',
    after Resolved l = Some ph'
    /\ Forall2 performs l (request <$> sent (GetStackByName prtnr name) w)
    /\ (ph' = Searched
        \/ (ph' = Resolved /\ is_Ok (GetStackByName prtnr name w).1 = false)).
Proof.
  destruct (decide (name = "")) as [->|Hne].
  { exists [], Resolved. rewrite GetStackByName_nameless, sent_raise. naive_solver. }
  pose proof (GetStackByName_call prtnr name Hne) as Ecall.
  rewrite (Ecall w), (sent_proper _ _ Ecall w w eq_refl), sent_call.
  unfold call. destruct (url_error _).
  - exists [], Resolved. naive_solver.
  - exists [ListStacks], Searched. split_and!; [done| |by left].
    repeat constructor. by exists prtnr.
Qed.

(** The search keeps going after an error, so its phase is known whatever
    [GetStackByName] returns. *)
Lemma follows_stack_phase p prtnr :
  follows (main.stack_phase p prtnr) Resolved searched.
Proof.
  intros w. rewrite sent_stack_phase, stack_phase_run. simpl.
  match goal with
  | |- context [GetStackByName ?s ?n ?w0] =>
      destruct (GetStackByName_searched s n w0) as (l & ph' & ? & ? & Hph)
  end.
  exists l, ph'. split_and!; [done..|]. intros stack w'. unfold searched.
  destruct (GetStackByName _ _ _) as [[found|?|?] w1]; [| |done];
    intros [= <- <-]; naive_solver.
Qed.

Lemma follows_update_branch prtnr p stack config env start :
  follows (main.update_branch prtnr p stack config env start) Searched
    (fun _ ph => ph = Done).
Proof.
  assert (follows (update_call prtnr p stack config env) Searched
            (fun _ ph => ph = Done)) as Hcall.
  { unfold update_call. case_decide;
      auto using follows_UpdateStackFromString, follows_UpdateStackFromFile. }
  intros w. rewrite sent_update_branch, update_branch_run.
  destruct (Hcall (printed w ["Updating stack " +:+ quoted (Wire.Stack.Name stack) +:+ "..."]))
    as (l & ph' & ? & ? & Hok).
  exists l, ph'. split_and!; [done..|]. intros a w'.
  destruct (update_call _ _ _ _ _ _) as [[[]|?|?] w1]; [|done..]. eauto.
Qed.

Lemma follows_deploy_branch prtnr p endpoint config env start ph :
  next ph Create = Some Done ->
  follows (main.deploy_branch prtnr p endpoint config env start) ph
    (fun _ ph' => ph' = Done).
Proof.
  intros Hnext.
  assert (follows (deploy_call prtnr p endpoint config env) ph
            (fun _ ph' => ph' = Done)) as Hcall.
  { unfold deploy_call. repeat case_decide;
      auto using follows_DeployStackFromString, follows_DeployStackFromFile.
    intros w. exists [], ph. by rewrite sent_raise. }
  intros w. rewrite sent_deploy_branch, deploy_branch_run.
  destruct (Hcall (printed w ["Depploy stack "
                               +:+ quoted (main.Stack.Name (main.Config.Stack (main.Plugin.Config p)))
                               +:+ "..."]))
    as (l & ph' & ? & ? & Hok).
  exists l, ph'. split_and!; [done..|]. intros a w'.
  destruct (deploy_call _ _ _ _ _ _) as [[[]|?|?] w1]; [|done..]. eauto.
Qed.

Lemma follows_finish p prtnr endpoint stack ph :
  searched stack ph ->
  follows (finish p prtnr endpoint stack) ph (fun _ ph' => ph' = Done).
Proof.
  intros Hph. unfold finish.
  eapply follows_bind; [solve_tidy..| |].
  { apply follows_quiet. intros w. apply sent_lift. }
  intros env ph1 ->. eapply follows_bind; [solve_tidy..| |].
  { apply follows_quiet. intros w. apply sent_Now. }
  intros start ph1 ->. unfold main.must_update, searched in *.
  destruct stack as [s|].
  - destruct Hph as [->|[? _]]; [|done].
    case_decide; [apply follows_update_branch | by apply follows_deploy_branch].
  - apply follows_deploy_branch. by destruct Hph as [->|[_ ->]].
Qed.

Lemma follows_lookups p :
  follows (lookups p) Start (fun found ph => searched found.2 ph).
Proof.
  unfold lookups.
  eapply follows_bind; [solve_tidy..|apply follows_connect_phase|].
  intros prtnr0 ph1 ->.
  eapply follows_bind; [solve_tidy..|apply follows_auth_phase|].
  intros prtnr ph1 ->.
  eapply follows_bind; [solve_tidy..|apply follows_endpoint_phase|].
  intros endpoint ph1 ->.
  eapply follows_bind; [solve_tidy..|apply follows_stack_phase|].
  intros stack ph1 Hph w. exists [], ph1. rewrite sent_ret.
  split_and!; [done..|]. by intros a w' [= <- _].
Qed.

Lemma follows_Exec p : follows (main.Exec p) Start (fun _ ph => ph = Done).
Proof.
  rewrite Exec_lookups_finish.
  eapply follows_bind; [solve_tidy..|apply follows_lookups|].
  intros found ph1 Hph. by apply follows_finish.
Qed.

(** C6: [Exec] refines the machine: the requests of every run are, in
    order, a history of the machine, one of its three complete histories
    when the run succeeds, so that no run sends a request out of the
    order the specification gives. *)
Theorem Exec_refines_protocol p w :
  exists actions ph,
    reach actions ph
    /\ Forall2 performs actions (request <$> sent (main.Exec p) w)
    /\ actions ∈ history ph
    /\ ((main.Exec p w).1 = Ok tt -> ph = Done).
Proof.
  destruct (follows_Exec p w) as (actions & ph & Hafter & Hsent & Hok).
  apply reach_after in Hafter. exists actions, ph.
  split_and!; [done..|by apply reach_history|].
  destruct (main.Exec p w) as [[[]|?|?] w'] eqn:E; [|done..]. intros _. by eapply Hok.
Qed.


End Refinement.
