(* ===== verification/Session.v ===== *)
(** * Session: the conversation of a run, with its data

    [Protocol] gives the order of the requests of a run.  This file gives
    the requests themselves: a machine whose states hold what the run has
    learnt so far (the receiver with its token, the endpoint selected, its
    cluster, the stack found) and whose moves say, for each state, which
    request is sent next and what a reply must be for the run to go on.
    The machine is a function, [advance], so that a run can be computed
    ([play]); its runs are the relation [runs], on which the invariants
    are proved by rule induction ([runs_invariant]).

    [Plugin.main.Exec] is shown to be this machine in front of any
    surroundings: the exchanges of a run, its result and the state in
    which it leaves the surroundings are those of the play of the machine
    ([Exec_plays]).  The proof goes phase by phase with the relation
    [leads], which has one rule per combinator of the monad and one for
    [Http.call].  What follows is proved on the machine and carried over:
    a run is one session with one server, and its token is written once,
    by the reply to the login ([Exec_one_session]); every error of a run
    is the error of one move and has one of the nine causes of [cause],
    and the search for the stack has none ([Exec_error_origin]); a run
    can crash at three moves only ([Exec_panic_origin]).

    The machine models no code: it is the specification of the
    conversation, written from sections 4.1, 4.2 and 6 of the
    specification with the requests and the tests of the replies that
    [Client] proves the methods to make. *)

From S2P Require Import Prelude GoStrings Json Wire Http Fixture Client Plugin.

#[local] Open Scope string_scope.
#[local] Open Scope list_scope.
#[local] Open Scope go_scope.

(** ** The machine *)

(** What a run knows: nothing, the receiver [NewPortainer] built, the
    same after the probe, the receiver that holds the token, the element
    selected in the list of endpoints, the endpoint with its cluster, the
    stack found for it, and the end. *)
Inductive state : Type :=
| Idle
| Built (self : Portainer)
| Probed (self : Portainer)
| LoggedIn (self : Portainer)
| Chosen (self : Portainer) (e0 : Endpoint.t)
| Located (self : Portainer) (endpoint : Endpoint.t)
| Checked (self : Portainer) (endpoint : Endpoint.t) (stack : option Stack.t)
| Over.

#[export] Instance state_eq_dec : EqDecision state.
Proof. solve_decision. Defined.

(** The moves still to come. *)
Definition moves_left (st : state) : nat :=
  match st with
  | Idle => 7 | Built _ => 6 | Probed _ => 5 | LoggedIn _ => 4
  | Chosen _ _ => 3 | Located _ _ => 2 | Checked _ _ _ => 1 | Over => 0
  end.

(** The receiver a state holds, and the token requests carry from that
    state on: there is one once the login is over. *)
Definition holder (st : state) : option Portainer :=
  match st with
  | Idle | Over => None
  | Built self | Probed self | LoggedIn self | Chosen self _ | Located self _
  | Checked self _ _ => Some self
  end.

Definition token (st : state) : option string :=
  match st with
  | LoggedIn self | Chosen self _ | Located self _ | Checked self _ _ =>
      Some (auth self)
  | _ => None
  end.

(** What a method makes of the reply to its request. *)
Definition answered {A} (f : Response -> result A) (r : error + Response)
    : result A :=
  match r with
  | inl e => Err e
  | inr rsp => f rsp
  end.

(** The search for the stack keeps no error. *)
Definition absorbed (self : Portainer) (endpoint : Endpoint.t)
    (r : result (option Stack.t)) : result state :=
  match r with
  | Ok stack => Ok (Checked self endpoint stack)
  | Err _ => Ok (Checked self endpoint None)
  | Panic x => Panic x
  end.

Section Machine.
Context `{!GoLib} {S : Type} `{!Platform S}.
Implicit Types (p : main.Plugin.t) (self : Portainer) (s : S) (st : state).

Local Abbreviation portainer_of p := (main.Config.Portainer (main.Plugin.Config p)).
Local Abbreviation stack_of p := (main.Config.Stack (main.Plugin.Config p)).

(** A move without a request. *)
Definition pass (r : result state) s : list Exchange * result state * S :=
  ([], r, s).

(** A move with one: [unsent] is what becomes of a request whose address
    is no URL, [h] what the reply leads to. *)
Definition send (unsent : error -> result state) self (req : Request)
    (h : error + Response -> result state) s
    : list Exchange * result state * S :=
  match url_error (Url req) with
  | Some e => pass (unsent e) s
  | None =>
      let '(r, s') := round_trip (client self) req s in
      ([mkExchange (client self) req r], h r, s')
  end.

(** The configuration of the last request: the inline text, else the
    file, which a creation without path does not read. *)
Definition config_of p (create : bool) s : result string :=
  let inline := main.stack_config (main.Stack.Config (stack_of p)) in
  if decide (inline <> "") then Ok inline
  else if create && bool_decide (main.Stack.Path (stack_of p) = "") then
    Err (Errorf "Stack config not defined")
  else of_sum (read_file (main.Stack.Path (stack_of p)) s).

(** The last request: the update of the stack found on the endpoint, the
    creation of a stack there otherwise. *)
Definition last_request p self (endpoint : Endpoint.t)
    (stack : option Stack.t) s : result Request :=
  let? env := main.env_loop (main.Stack.Environment (stack_of p)) [] in
  match main.must_update stack endpoint with
  | Some found =>
      let? config := config_of p false s in
      Ok (update_request self found config true env)
  | None =>
      let? config := config_of p true s in
      Ok (create_string_request self endpoint (main.Stack.Name (stack_of p))
            config env)
  end.

(** One move of the run in state [st], the surroundings being in [s]:
    the exchange made, if any, the state reached or the failure that ends
    the run, and the surroundings after it. *)
Definition advance p st s : list Exchange * result state * S :=
  let pcfg := portainer_of p in
  let name := main.Stack.Name (stack_of p) in
  match st with
  | Idle =>
      pass (rmap Built (NewPortainer (main.Portainer.Address pcfg)
                          (main.Portainer.Insecure pcfg))) s
  | Built self =>
      let req := head_request self in
      send Err self req
        (answered (fun rsp => rmap (fun _ => Probed self) (connect_reply req rsp))) s
  | Probed self =>
      let req := auth_request self (main.Portainer.Username pcfg)
                   (main.Portainer.Password pcfg) in
      send Err self req
        (answered (fun rsp => rmap (fun jwt => LoggedIn (with_auth self jwt))
                                (read_json decode_auth req rsp))) s
  | LoggedIn self =>
      let req := endpoints_request self in
      send Err self req
        (answered (fun rsp =>
           let? l := read_json decode_endpoints req rsp in
           rmap (Chosen self) (select_endpoint (main.Portainer.Endpoint pcfg) l))) s
  | Chosen self e0 =>
      let req := swarm_request self (Endpoint.Id e0) in
      send Err self req
        (answered (fun rsp => rmap (fun id => Located self (Endpoint.with_SwarmID e0 id))
                                (read_json decode_swarm req rsp))) s
  | Located self endpoint =>
      let req := stacks_request self in
      if decide (name = "") then pass (Ok (Checked self endpoint None)) s
      else
        send (fun _ => Ok (Checked self endpoint None)) self req
          (fun r => absorbed self endpoint
             (answered (fun rsp => let? stacks := read_json decode_stacks req rsp in
                                   stack_loop name stacks) r)) s
  | Checked self endpoint stack =>
      match last_request p self endpoint stack s with
      | Ok req =>
          send Err self req
            (answered (fun rsp => rmap (fun _ => Over) (accept_200 req rsp))) s
      | Err e => pass (Err e) s
      | Panic x => pass (Panic x) s
      end
  | Over => pass (Ok Over) s
  end.

(** The runs of the machine: the exchanges made from a state, in order,
    with the state reached or the failure that ended the run. *)
Inductive runs p : state -> S -> list Exchange -> result state -> S -> Prop :=
| runs_here st s : runs p st s [] (Ok st) s
| runs_step st s l1 st1 s1 l2 r s2 :
    advance p st s = (l1, Ok st1, s1) -> runs p st1 s1 l2 r s2 ->
    runs p st s (l1 ++ l2) r s2
| runs_stop st s l r s1 :
    advance p st s = (l, r, s1) -> is_Ok r = false -> runs p st s l r s1.

(** A run is over at [Over] or at a failure. *)
Definition final (r : result state) : Prop :=
  match r with Ok st => st = Over | _ => True end.

(** The same as a function: at most [n] moves from [st]. *)
Fixpoint play p (n : nat) st s : list Exchange * result state * S :=
  match n with
  | 0 => ([], Ok st, s)
  | Datatypes.S n =>
      match advance p st s with
      | (l, Ok st', s') => let '(l', r, s'') := play p n st' s' in (l ++ l', r, s'')
      | halted => halted
      end
  end.

End Machine.

Arguments pass {S} r s /.

(** ** The machine, move by move *)

(** Opens a hypothesis [H] that says which state a reply led to. *)
Ltac told H :=
  repeat match type of H with
         | context [answered _ ?x] => destruct x; simpl in H
         | rmap _ _ = Ok _ => apply rmap_Ok_inv in H as (?&?&->)
         | rbind _ _ = Ok _ => apply rbind_Ok_inv in H as (?&?&H)
         | absorbed _ _ ?x = Ok _ => destruct x; simpl in H
         end;
  simplify_eq/=.

Section Moves.
Context `{!GoLib} {S : Type} `{!Platform S}.
Implicit Types (p : main.Plugin.t) (self : Portainer) (s : S) (st : state).
Implicit Types (l : list Exchange) (r : result state).

(** A request carries the token [jwt]. *)
Definition bears (jwt : string) (x : Exchange) : Prop :=
  Header (request x) = [("Authorization", "Bearer " +:+ jwt)].

(** What a move with a request is: nothing when the address is no URL,
    one exchange through the client of the receiver otherwise. *)
Lemma send_inv unsent self req h s l r s' :
  send unsent self req h s = (l, r, s') ->
  (exists e, url_error (Url req) = Some e /\ l = [] /\ r = unsent e /\ s' = s)
  \/ (url_error (Url req) = None
      /\ round_trip (client self) req s = ((round_trip (client self) req s).1, s')
      /\ l = [mkExchange (client self) req (round_trip (client self) req s).1]
      /\ r = h (round_trip (client self) req s).1).
Proof.
  unfold send, pass. destruct (url_error _) as [e|]; [naive_solver|].
  destruct (round_trip _ _ _) as [reply s1]. naive_solver.
Qed.

Lemma last_request_inv p self endpoint stack s req :
  last_request p self endpoint stack s = Ok req ->
  exists config env,
    (exists found, req = update_request self found config true env)
    \/ req = create_string_request self endpoint
               (main.Stack.Name (main.Config.Stack (main.Plugin.Config p))) config env.
Proof.
  unfold last_request. intros Hreq.
  apply rbind_Ok_inv in Hreq as (env & _ & Hreq).
  destruct (main.must_update _ _) as [found|];
    apply rbind_Ok_inv in Hreq as (config & _ & [= <-]); eauto 6.
Qed.

(** The exchange [x] is made with the server of [self]: through its
    client, at an address under its own. *)
Definition addressed self (x : Exchange) : Prop :=
  via x = client self /\ exists path, Url (request x) = address self +:+ path.

(** The state [st] holds a receiver for the server of [self]. *)
Definition serves self st : Prop :=
  exists self', holder st = Some self'
    /\ client self' = client self /\ address self' = address self.

(** A move talks to the server of the receiver the state holds, and
    leaves a receiver for the same server. *)
Lemma advance_addressed p st s l r s' self :
  advance p st s = (l, r, s') -> serves self st ->
  Forall (addressed self) l /\ forall st', r = Ok st' -> st' = Over \/ serves self st'.
Proof.
  unfold advance, pass, serves, addressed. intros Hadv (self' & Hst & Hc & Ha).
  destruct st; simplify_eq/=; repeat case_match; simplify_eq/=;
    try (split; [constructor | naive_solver]);
    try match goal with
        | H : last_request _ _ _ _ _ = Ok _ |- _ =>
            apply last_request_inv in H as (?&?&[[? ->]| ->])
        end;
    apply send_inv in Hadv as [(?&?&->&->&?)|(?&?&->&->)];
    (split; [repeat constructor; simpl; rewrite <- ?Ha; eauto|]); intros st' Hst';
    told Hst'; eauto 10.
Qed.

(** From the login on, a move sends its request with the token of the
    state and leaves the token as it is. *)
Lemma advance_token p st s l r s' jwt :
  advance p st s = (l, r, s') -> token st = Some jwt ->
  Forall (bears jwt) l /\ forall st', r = Ok st' -> st' = Over \/ token st' = Some jwt.
Proof.
  unfold advance, pass, bears. intros Hadv Htok.
  destruct st; simplify_eq/=; repeat case_match; simplify_eq/=;
    try (split; [constructor | naive_solver]);
    try match goal with
        | H : last_request _ _ _ _ _ = Ok _ |- _ =>
            apply last_request_inv in H as (?&?&[[? ->]| ->])
        end;
    apply send_inv in Hadv as [(?&?&->&->&?)|(?&?&->&->)];
    (split; [by repeat constructor|]); intros st' Hst';
    told Hst'; auto.
Qed.

(** Every move but the one at [Over] brings the run closer to its end. *)
Lemma advance_moves_left p st s l st' s' :
  advance p st s = (l, Ok st', s') -> st <> Over ->
  moves_left st' < moves_left st.
Proof.
  unfold advance, pass. intros Hadv Hst.
  destruct st; try done; repeat case_match; simplify_eq/=;
    try apply send_inv in Hadv as [(?&?&?&Hst'&?)|(?&?&?&Hst')];
    try match goal with H : rmap _ _ = Ok _ |- _ => apply rmap_Ok_inv in H as (?&?&->) end;
    try (simpl; lia);
    symmetry in Hst';
    told Hst'; lia.
Qed.

End Moves.

(** ** The runs of the machine *)

Section Runs.
Context `{!GoLib} {S : Type} `{!Platform S}.
Implicit Types (p : main.Plugin.t) (self : Portainer) (s : S) (st : state).
Implicit Types (l : list Exchange) (r : result state).

Lemma runs_move p st s l r s' : advance p st s = (l, r, s') -> runs p st s l r s'.
Proof.
  intros Hadv. destruct r as [st'|e|x]; try by apply runs_stop.
  rewrite <- (app_nil_r l). eauto using runs.
Qed.

Lemma runs_app p st s l1 st1 s1 l2 r s2 :
  runs p st s l1 (Ok st1) s1 -> runs p st1 s1 l2 r s2 -> runs p st s (l1 ++ l2) r s2.
Proof.
  intros H1. remember (Ok st1) as r1 eqn:E. revert l2 r s2 E.
  induction H1 as [st s|st s l1 st' s' l' r1 s1 Hadv _ IH|st s l1 r1 s1 Hadv Hr];
    intros l2 r s2 E H2; simplify_eq/=; [done|].
  rewrite <- (assoc_L (++)). eauto using runs.
Qed.

(** Nothing happens at the end. *)
Lemma runs_Over p s l r s' : runs p Over s l r s' -> l = [] /\ r = Ok Over /\ s' = s.
Proof.
  intros Hr. remember Over as st eqn:E.
  induction Hr as [st s|st s l1 st' s1 l2 r s2 Hadv _ IH|st s l r s1 Hadv Hr];
    simplify_eq/=; [done|]. by destruct IH as (->&->&->).
Qed.

(** The machine is deterministic: a state and the surroundings have one
    run to the end. *)
Lemma runs_fun p st s l r s' l' r' s'' :
  runs p st s l r s' -> final r -> runs p st s l' r' s'' -> final r' ->
  l = l' /\ r = r' /\ s' = s''.
Proof.
  intros Hr. revert l' r' s''.
  induction Hr as [st s|st s l1 st1 s1 l2 r s2 Hadv Hr IH|st s l r s1 Hadv Hr];
    intros l' r' s'' Hf Hr' Hf'.
  - simpl in Hf. subst st. by apply runs_Over in Hr' as (->&->&->).
  - inversion Hr' as [| ? ? l1' st1' s1' l2' ? ? Hadv' Hr1' | ? ? ? ? ? Hadv' Hr1'];
      try rewrite Hadv in Hadv'; simplify_eq/=.
    + apply runs_Over in Hr as (->&->&->). done.
    + by destruct (IH _ _ _ Hf Hr1' Hf') as (->&->&->).
  - inversion Hr' as [| ? ? l1' st1' s1' l2' ? ? Hadv' Hr1' | ? ? ? ? ? Hadv' Hr1'];
      try rewrite Hadv in Hadv'; by simplify_eq/=.
Qed.

(** The function [play] makes runs, complete ones when it is given the
    moves the state has left. *)
Lemma play_runs p n st s :
  runs p st s (play p n st s).1.1 (play p n st s).1.2 (play p n st s).2.
Proof.
  revert st s. induction n as [|n IH]; intros st s; simpl; [constructor|].
  destruct (advance p st s) as [[l [st'|e|x]] s1] eqn:Hadv; try by apply runs_stop.
  specialize (IH st' s1). destruct (play p n st' s1) as [[l' r] s2].
  simpl in *. eauto using runs.
Qed.

Lemma play_final p n st s : moves_left st <= n -> final (play p n st s).1.2.
Proof.
  revert st s. induction n as [|n IH]; intros st s Hn; simpl.
  { destruct st; simpl in Hn; (done || lia). }
  destruct (advance p st s) as [[l [st'|e|x]] s1] eqn:Hadv; [|done..].
  destruct (decide (st = Over)) as [->|Hst].
  { simplify_eq/=. specialize (IH Over s1 ltac:(simpl; lia)).
    by destruct (play p n Over s1) as [[l' r] s2]. }
  apply advance_moves_left in Hadv; [|done].
  specialize (IH st' s1 ltac:(lia)). by destruct (play p n st' s1) as [[l' r] s2].
Qed.

(** A complete run is the play. *)
Lemma runs_play p st s l r s' :
  runs p st s l r s' -> final r -> play p (moves_left st) st s = (l, r, s').
Proof.
  intros Hr Hf.
  destruct (runs_fun p st s _ _ _ _ _ _ (play_runs p (moves_left st) st s)
              (play_final p _ st s (le_n _)) Hr Hf) as (E1 & E2 & E3).
  destruct (play p _ st s) as [[l' r'] s'']. simpl in *. by subst.
Qed.

End Runs.

(** ** What the machine accounts for in a run *)

Section Seen.
Context `{!GoLib} {S : Type} `{!Platform S}.
Implicit Types (p : main.Plugin.t) (self : Portainer) (w : World S) (st : state).

Local Abbreviation stack_of p := (main.Config.Stack (main.Plugin.Config p)).

(** The exchanges of a run, its result and the surroundings it leaves:
    everything but what it prints. *)
Definition seen {A} (c : M S A) w : list Exchange * result A * S :=
  (sent c w, (c w).1, outside (c w).2).

#[export] Instance seen_proper {A} : Proper ((≡) ==> (=) ==> (=)) (@seen A).
Proof. intros c c' Ec w ? <-. unfold seen. by rewrite ?Ec, ?(Ec w). Qed.

Lemma seen_call {A} client req (f : Response -> result A) w :
  seen (call client req f) w
  = match url_error (Url req) with
    | Some e => ([], Err e, outside w)
    | None =>
        let '(r, s') := round_trip client req (outside w) in
        ([mkExchange client req r], answered f r, s')
    end.
Proof.
  unfold seen. rewrite sent_call. unfold call, exchanged.
  destruct (url_error _); [done|].
  by destruct (round_trip client req (outside w)) as [[e|rsp] s'].
Qed.

Lemma seen_announced {A} msg (c : M S A) w :
  tidy c -> seen (announced msg c) w = seen c (printed w [msg]).
Proof.
  intros Hc. unfold seen. rewrite sent_announced, announced_run by done.
  by destruct (c _) as [[a|e|x] w'].
Qed.

(** A value computed from what a call returns is part of the call. *)
Lemma call_bind_lift {A B} client req (f : Response -> result A)
    (k : A -> result B) :
  (a <- call client req f ;; lift (k a))
  ≡ call client req (fun rsp => let? a := f rsp in k a).
Proof.
  intros w. unfold bind, call, exchanged, lift.
  destruct (url_error _); [done|].
  destruct (round_trip _ _ _) as [[e|rsp] s']; [done|].
  by destruct (f rsp).
Qed.

(** The branches, seen from outside, are their calls. *)
Lemma seen_update_branch self p found config env start w :
  seen (main.update_branch self p found config env start) w
  = seen (update_call self p found config env)
      (printed w ["Updating stack " +:+ quoted (Wire.Stack.Name found) +:+ "..."]).
Proof.
  unfold seen. rewrite sent_update_branch, update_branch_run.
  by destruct (update_call _ _ _ _ _ _) as [[[]|e|x] w'].
Qed.

Lemma seen_deploy_branch self p endpoint config env start w :
  seen (main.deploy_branch self p endpoint config env start) w
  = seen (deploy_call self p endpoint config env)
      (printed w ["Depploy stack " +:+ quoted (main.Stack.Name (stack_of p)) +:+ "..."]).
Proof.
  unfold seen. rewrite sent_deploy_branch, deploy_branch_run.
  by destruct (deploy_call _ _ _ _ _ _) as [[[]|e|x] w'].
Qed.

Lemma seen_update_call self p found env w :
  seen (update_call self p found
          (main.stack_config (main.Stack.Config (stack_of p))) env) w
  = match config_of p false (outside w) with
    | Ok config =>
        let req := update_request self found config true env in
        seen (call (client self) req (accept_200 req)) w
    | Err e => ([], Err e, outside w)
    | Panic x => ([], Panic x, outside w)
    end.
Proof.
  unfold update_call, config_of. simpl. case_decide.
  { by rewrite UpdateStackFromString_call. }
  unfold seen. rewrite UpdateStackFromFile_run.
  unfold UpdateStackFromFile. rewrite sent_ReadFile_bind.
  destruct (read_file _ _) as [e|data]; simpl; [done|].
  by rewrite UpdateStackFromString_call, (UpdateStackFromString_call _ _ _ _ _ w).
Qed.

Lemma seen_deploy_call self p endpoint env w :
  seen (deploy_call self p endpoint
          (main.stack_config (main.Stack.Config (stack_of p))) env) w
  = match config_of p true (outside w) with
    | Ok config =>
        let req := create_string_request self endpoint
                     (main.Stack.Name (stack_of p)) config env in
        seen (call (client self) req (accept_200 req)) w
    | Err e => ([], Err e, outside w)
    | Panic x => ([], Panic x, outside w)
    end.
Proof.
  unfold deploy_call, config_of. simpl. case_decide.
  { by rewrite DeployStackFromString_call. }
  case_decide as Hpath; case_bool_decide; try done; simpl;
    [|unfold seen; by rewrite sent_raise].
  unfold seen. rewrite DeployStackFromFile_run.
  unfold DeployStackFromFile. rewrite sent_ReadFile_bind.
  destruct (read_file _ _) as [e|data]; simpl; [done|].
  by rewrite DeployStackFromString_call, (DeployStackFromString_call _ _ _ _ _ w).
Qed.

Lemma seen_lift_bind {A B} (r : result A) (k : A -> M S B) w :
  seen (bind (lift r) k) w
  = match r with
    | Ok a => seen (k a) w
    | Err e => ([], Err e, outside w)
    | Panic x => ([], Panic x, outside w)
    end.
Proof. unfold seen, sent. destruct r; simpl; by rewrite ?drop_all. Qed.

(** What [Exec] does once the lookups are made is, seen from outside, the
    call of the branch it takes. *)
Lemma seen_finish p self endpoint stack w :
  let inline := main.stack_config (main.Stack.Config (stack_of p)) in
  seen (finish p self endpoint stack) w
  = match main.env_loop (main.Stack.Environment (stack_of p)) [] with
    | Ok env =>
        match main.must_update stack endpoint with
        | Some found =>
            seen (update_call self p found inline env)
              (printed w ["Updating stack " +:+ quoted (Wire.Stack.Name found) +:+ "..."])
        | None =>
            seen (deploy_call self p endpoint inline env)
              (printed w ["Depploy stack " +:+ quoted (main.Stack.Name (stack_of p))
                          +:+ "..."])
        end
    | Err e => ([], Err e, outside w)
    | Panic x => ([], Panic x, outside w)
    end.
Proof.
  intros inline. unfold finish. rewrite seen_lift_bind.
  destruct (main.env_loop _ _) as [env|e|x]; [|done..].
  change (seen (bind Now ?k) w) with (seen (k (now (outside w))) w).
  destruct (main.must_update _ _) as [found|];
    [apply seen_update_branch | apply seen_deploy_branch].
Qed.

End Seen.

(** ** [Exec] is the machine *)

Section Refinement.
Context `{!GoLib} {S : Type} `{!Platform S}.
Implicit Types (p : main.Plugin.t) (self : Portainer) (w : World S) (st : state).

Local Abbreviation portainer_of p := (main.Config.Portainer (main.Plugin.Config p)).
Local Abbreviation stack_of p := (main.Config.Stack (main.Plugin.Config p)).

(** From the state [st], the computation [c] makes the exchanges of a run
    of the machine, and ends as that run does: in the state [g a] when it
    returns [a], with the same failure otherwise. *)
Definition leads {A} p (c : M S A) (g : A -> state) st : Prop :=
  forall w, runs p st (outside w) (sent c w) (rmap g (c w).1) (outside (c w).2).

#[export] Instance leads_proper {A} p :
  Proper ((≡) ==> (=) ==> (=) ==> iff) (@leads A p).
Proof.
  intros c c' Ec g ? <- st ? <-. unfold leads.
  split; intros Hc w; specialize (Hc w); by rewrite ?Ec, ?(Ec w) in *.
Qed.

Lemma leads_move {A} p (c : M S A) g st :
  (forall w, advance p st (outside w)
             = ((seen c w).1.1, rmap g (seen c w).1.2, (seen c w).2)) ->
  leads p c g st.
Proof. intros Hadv w. apply runs_move. by rewrite Hadv. Qed.

Lemma leads_bind {A B} p (c : M S A) (k : A -> M S B) g h st :
  tidy c -> (forall a, tidy (k a)) ->
  leads p c g st -> (forall a, leads p (k a) h (g a)) -> leads p (bind c k) h st.
Proof.
  intros Tc Tk Hc Hk w. rewrite sent_bind by done. unfold bind.
  specialize (Hc w). destruct (c w) as [[a|e|x] w1]; simpl in *.
  - eapply runs_app; [exact Hc | apply Hk].
  - by rewrite app_nil_r.
  - by rewrite app_nil_r.
Qed.

Lemma leads_announced {A} p msg (c : M S A) g st :
  tidy c -> leads p c g st -> leads p (announced msg c) g st.
Proof.
  intros Tc Hc w. specialize (Hc (printed w [msg])).
  rewrite sent_announced, announced_run by done.
  by destruct (c _) as [[a|e|x] w'].
Qed.

(** A call is the move of a state that sends its request and reads the
    reply as the call does. *)
Lemma leads_call {A} p self req (f : Response -> result A) g st h :
  (forall s, advance p st s = send Err self req h s) ->
  (forall r, h r = rmap g (answered f r)) ->
  leads p (call (client self) req f) g st.
Proof.
  intros Hadv Hh. apply leads_move. intros w. rewrite Hadv, seen_call.
  unfold send. destruct (url_error _); [done|].
  destruct (round_trip _ _ _) as [r s']. simpl. by rewrite Hh.
Qed.

Lemma leads_NewPortainer p :
  leads p (lift (NewPortainer (main.Portainer.Address (portainer_of p))
                   (main.Portainer.Insecure (portainer_of p)))) Built Idle.
Proof. apply leads_move. intros w. unfold seen. by rewrite sent_lift. Qed.

Lemma leads_Connect p self :
  leads p (announced "Connecting to portainer server..." (Connect self ;; ret self))
    Probed (Built self).
Proof.
  apply leads_announced; [solve_tidy|].
  rewrite Connect_call, (call_bind_lift _ _ _ (fun _ => Ok self)).
  eapply leads_call; [done|]. intros [e|rsp]; simpl; [done|].
  by destruct (connect_reply _ rsp) as [[]| |].
Qed.

Lemma leads_auth_phase p self :
  leads p (main.auth_phase p self) LoggedIn (Probed self).
Proof.
  rewrite auth_phase_announced. apply leads_announced; [solve_tidy|].
  rewrite Auth_call. eapply leads_call; [done|]. intros [e|rsp]; simpl; [done|].
  by destruct (read_json _ _ rsp).
Qed.

Lemma GetEndpointByName_two_calls self name :
  GetEndpointByName self name
  ≡ (e0 <- call (client self) (endpoints_request self)
             (fun rsp => let? l := read_json decode_endpoints
                                     (endpoints_request self) rsp in
                         select_endpoint name l) ;;
     fetch_swarm self e0).
Proof.
  rewrite GetEndpointByName_calls, <- call_bind_lift. intros w.
  by rewrite bind_assoc.
Qed.

Lemma leads_endpoint_phase p self :
  leads p (main.endpoint_phase p self) (Located self) (LoggedIn self).
Proof.
  rewrite endpoint_phase_announced. apply leads_announced; [solve_tidy|].
  rewrite GetEndpointByName_two_calls.
  apply (leads_bind _ _ _ (Chosen self)); [solve_tidy..| |intros e0].
  - eapply leads_call; [done|]. intros [e|rsp]; simpl; [done|].
    by destruct (read_json _ _ rsp).
  - rewrite fetch_swarm_call. eapply leads_call; [done|].
    intros [e|rsp]; simpl; [done|]. by destruct (read_json _ _ rsp).
Qed.

Lemma leads_stack_phase p self endpoint :
  leads p (main.stack_phase p self) (Checked self endpoint) (Located self endpoint).
Proof.
  apply leads_move. intros w. unfold seen.
  rewrite sent_stack_phase, stack_phase_run. simpl. case_decide as Hname.
  { rewrite Hname, GetStackByName_nameless, sent_raise. done. }
  rewrite (GetStackByName_call _ _ Hname), (GetStackByName_call _ _ Hname (printed w _)).
  rewrite sent_call. unfold send, call, exchanged. simpl.
  destruct (url_error _); [done|].
  destruct (round_trip _ _ _) as [[e|rsp] s']; simpl; [done|].
  by destruct (rbind _ _).
Qed.

Lemma leads_finish p self endpoint stack :
  leads p (finish p self endpoint stack) (fun _ => Over) (Checked self endpoint stack).
Proof.
  apply leads_move. intros w. rewrite seen_finish. cbn [advance]. unfold last_request.
  destruct (main.env_loop _ _) as [env|e|x]; [|done..]. rewrite rbind_Ok.
  destruct (main.must_update _ _) as [found|];
    [rewrite seen_update_call | rewrite seen_deploy_call];
    change (outside (printed w _)) with (outside w);
    (destruct (config_of p _ (outside w)) as [config|e|x]; [|done..]);
    rewrite rbind_Ok; cbv zeta; rewrite seen_call; unfold send;
    change (outside (printed w _)) with (outside w);
    (destruct (url_error _); [done|]);
    destruct (round_trip _ _ _) as [[e|rsp] s']; simpl; try done;
    by destruct (accept_200 _ rsp) as [[]| |].
Qed.

Lemma leads_connect_phase p : leads p (main.connect_phase p) Probed Idle.
Proof.
  rewrite connect_phase_announced.
  apply (leads_bind _ _ _ Built); [solve_tidy..|apply leads_NewPortainer|intros self].
  apply leads_Connect.
Qed.

(** The lookups lead to the state that holds what they found. *)
Lemma leads_lookups p :
  leads p (lookups p) (fun found => Checked found.1.1 found.1.2 found.2) Idle.
Proof.
  unfold lookups.
  apply (leads_bind _ _ _ Probed); [solve_tidy..|apply leads_connect_phase|intros self0].
  apply (leads_bind _ _ _ LoggedIn); [solve_tidy..|apply leads_auth_phase|intros self].
  apply (leads_bind _ _ _ (Located self));
    [solve_tidy..|apply leads_endpoint_phase|intros endpoint].
  apply (leads_bind _ _ _ (Checked self endpoint));
    [solve_tidy..|apply leads_stack_phase|intros stack w].
  rewrite sent_ret. apply runs_here.
Qed.

(** The run of the machine [Exec] makes. *)
Lemma leads_Exec p : leads p (main.Exec p) (fun _ => Over) Idle.
Proof.
  rewrite Exec_lookups_finish.
  eapply leads_bind; [solve_tidy..|apply leads_lookups|intros [[self endpoint] stack]].
  apply leads_finish.
Qed.

End Refinement.

(** ** What holds of every run of the machine *)

Section Invariants.
Context `{!GoLib} {S : Type} `{!Platform S}.
Implicit Types (p : main.Plugin.t) (self : Portainer) (s : S) (st : state).
Implicit Types (l : list Exchange) (r : result state).

(** The token a reply to the login grants. *)
Definition granted (x : Exchange) : result string :=
  answered (read_json decode_auth (request x)) (Http.reply x).

(** A session: the probe and the login carry no token, and everything
    sent after the login carries the token its reply granted. *)
Definition session (l : list Exchange) : Prop :=
  match l with
  | [] => True
  | probe :: l' =>
      Header (request probe) = []
      /\ match l' with
         | [] => True
         | login :: later =>
             Header (request login) = []
             /\ (later <> [] ->
                 exists jwt, granted login = Ok jwt /\ Forall (bears jwt) later)
         end
  end.

(** A run is over where it stands or begins with a move. *)
Lemma runs_inv p st s l r s' :
  runs p st s l r s' ->
  (l = [] /\ r = Ok st /\ s' = s)
  \/ exists l1 r1 s1,
       advance p st s = (l1, r1, s1)
       /\ match r1 with
          | Ok st1 => exists l2, l = l1 ++ l2 /\ runs p st1 s1 l2 r s'
          | _ => l = l1 /\ r = r1 /\ s' = s1
          end.
Proof.
  intros Hr. inversion Hr as [|? ? l1 st1 s1 l2 ? ? Hadv Hr1|? ? ? ? ? Hadv Hok];
    subst; [by left|right..].
  - exists l1, (Ok st1), s1. eauto.
  - exists l, r, s'. by destruct r.
Qed.

(** What every move with a state in [I] does to its exchanges, while
    keeping the state in [I], holds of a whole run from such a state. *)
Lemma runs_invariant p (I : state -> Prop) (P : Exchange -> Prop) :
  (forall st s l r s',
     advance p st s = (l, r, s') -> I st ->
     Forall P l /\ forall st', r = Ok st' -> st' = Over \/ I st') ->
  forall st s l r s', runs p st s l r s' -> I st -> Forall P l.
Proof.
  intros Hmove st s l r s'.
  induction 1 as [st s|st s l1 st1 s1 l2 r s2 Hadv Hr IH|st s l r s1 Hadv Hok];
    intros Hst; [constructor| |by destruct (Hmove _ _ _ _ _ Hadv Hst)].
  destruct (Hmove _ _ _ _ _ Hadv Hst) as [Hl Hst1].
  apply Forall_app. split; [done|].
  destruct (Hst1 st1 eq_refl) as [->|?]; [|auto].
  apply runs_Over in Hr as (->&_). constructor.
Qed.

(** From the login on, every request of a run carries the token of the
    state the run is in. *)
Lemma runs_token p st s l r s' jwt :
  runs p st s l r s' -> token st = Some jwt -> Forall (bears jwt) l.
Proof.
  apply (runs_invariant p (fun st => token st = Some jwt)).
  intros ? ? ? ? ?. apply advance_token.
Qed.

(** Every request of a run goes to the server of the receiver the state
    holds. *)
Lemma runs_addressed p st s l r s' self :
  runs p st s l r s' -> serves self st -> Forall (addressed self) l.
Proof.
  apply (runs_invariant p (serves self)).
  intros ? ? ? ? ?. apply advance_addressed.
Qed.

Lemma runs_Idle_addressed p s l r s' self :
  runs p Idle s l r s' ->
  NewPortainer (main.Portainer.Address (main.Config.Portainer (main.Plugin.Config p)))
    (main.Portainer.Insecure (main.Config.Portainer (main.Plugin.Config p))) = Ok self ->
  Forall (addressed self) l.
Proof.
  intros [(->&_)|(l1 & r1 & s1 & [= <- <- <-] & Hr)]%runs_inv Hself; [constructor|].
  rewrite Hself in Hr. destruct Hr as (l2 & -> & Hr).
  eapply runs_addressed; [exact Hr|]. by exists self.
Qed.

(** A run that ends with a failure has reached a state whose move has
    that failure. *)
Lemma runs_failure p st s l r s' :
  runs p st s l r s' -> is_Ok r = false ->
  exists pre st' s1 l1,
    runs p st s pre (Ok st') s1 /\ advance p st' s1 = (l1, r, s') /\ l = pre ++ l1.
Proof.
  induction 1 as [st s|st s l1 st1 s1 l2 r s2 Hadv Hr IH|st s l r s1 Hadv Hok];
    intros Hf; [done| |].
  - destruct (IH Hf) as (pre & st' & s' & l' & Hpre & Hadv' & ->).
    exists (l1 ++ pre), st', s', l'. rewrite (assoc_L (++)). eauto using runs.
  - exists [], st, s, l. eauto using runs.
Qed.

(** The search for the stack has no error. *)
Lemma advance_Located p self endpoint s l r s' :
  advance p (Located self endpoint) s = (l, r, s') -> is_Err r = false.
Proof.
  simpl. case_decide; [by intros [= _ <- _]|].
  intros [(?&_&_&->&_)|(_&_&_&->)]%send_inv; [done|].
  destruct (round_trip _ _ _).1 as [e|rsp]; simpl; [done|]. by destruct (rbind _ _).
Qed.

(** ** Where an error comes from *)

(** The status a state refuses: the probe refuses from 400 on, every
    other request above 200. *)
Definition refuses st (rsp : Response) : Prop :=
  match st with
  | Built _ => (StatusCode rsp >= 400)%Z
  | _ => (StatusCode rsp > 200)%Z
  end.

(** The document a state cannot decode. *)
Definition misreads st (data : bytes) (e : error) : Prop :=
  match st with
  | Probed _ => Unmarshal decode_auth data = Err e
  | LoggedIn _ => Unmarshal decode_endpoints data = Err e
  | Chosen _ _ => Unmarshal decode_swarm data = Err e
  | _ => False
  end.

(** The request a state asks for. *)
Definition asks p st s : option Request :=
  let pcfg := main.Config.Portainer (main.Plugin.Config p) in
  match st with
  | Idle | Over => None
  | Built self => Some (head_request self)
  | Probed self =>
      Some (auth_request self (main.Portainer.Username pcfg) (main.Portainer.Password pcfg))
  | LoggedIn self => Some (endpoints_request self)
  | Chosen self e0 => Some (swarm_request self (Endpoint.Id e0))
  | Located self _ => Some (stacks_request self)
  | Checked self endpoint stack =>
      match last_request p self endpoint stack s with
      | Ok req => Some req
      | _ => None
      end
  end.

(** The causes of the error of a move: four of the program's own making,
    which send nothing, and five of the one exchange of the move, which
    is made for the request the state asks for. *)
Inductive cause p s : state -> list Exchange -> error -> Prop :=
| bad_address e :
    NewPortainer (main.Portainer.Address (main.Config.Portainer (main.Plugin.Config p)))
      (main.Portainer.Insecure (main.Config.Portainer (main.Plugin.Config p))) = Err e ->
    cause p s Idle [] e
| bad_url st req e :
    asks p st s = Some req -> url_error (Url req) = Some e -> cause p s st [] e
| no_source self endpoint stack :
    main.must_update stack endpoint = None ->
    main.stack_config (main.Stack.Config (main.Config.Stack (main.Plugin.Config p))) = "" ->
    main.Stack.Path (main.Config.Stack (main.Plugin.Config p)) = "" ->
    cause p s (Checked self endpoint stack) [] (Errorf "Stack config not defined")
| no_file self endpoint stack e :
    read_file (main.Stack.Path (main.Config.Stack (main.Plugin.Config p))) s = inl e ->
    cause p s (Checked self endpoint stack) [] e
| no_answer st x e :
    asks p st s = Some (request x) -> Http.reply x = inl e -> cause p s st [x] e
| bad_status st x rsp :
    asks p st s = Some (request x) -> Http.reply x = inr rsp -> refuses st rsp ->
    cause p s st [x] (api_error (request x) rsp)
| bad_body st x rsp e :
    asks p st s = Some (request x) -> Http.reply x = inr rsp -> RspBody rsp = inl e ->
    cause p s st [x] e
| bad_document st x rsp data e :
    asks p st s = Some (request x) -> Http.reply x = inr rsp ->
    RspBody rsp = inr data -> misreads st data e ->
    cause p s st [x] e
| no_endpoint self x rsp listed :
    request x = endpoints_request self -> Http.reply x = inr rsp ->
    read_json decode_endpoints (request x) rsp = Ok listed ->
    none_named Endpoint.Name
      (main.Portainer.Endpoint (main.Config.Portainer (main.Plugin.Config p))) listed ->
    cause p s (LoggedIn self) [x]
      (Errorf ("Endpoint "
               +:+ quoted (main.Portainer.Endpoint (main.Config.Portainer (main.Plugin.Config p)))
               +:+ " not found")).

(** How a reply is refused. *)
Lemma read_json_Err {A} (dec : json -> result A) req rsp e :
  read_json dec req rsp = Err e ->
  ((StatusCode rsp > 200)%Z /\ e = api_error req rsp)
  \/ RspBody rsp = inl e
  \/ exists data, RspBody rsp = inr data /\ Unmarshal dec data = Err e.
Proof.
  unfold read_json, accept_200. case_decide; simpl; [intros [= <-]; eauto|].
  destruct (RspBody rsp); simpl; [intros [= <-]|]; eauto.
Qed.

Lemma send_Err self req (f : Response -> result state) s l e s' :
  send Err self req (answered f) s = (l, Err e, s') ->
  (l = [] /\ url_error (Url req) = Some e)
  \/ exists x, l = [x] /\ request x = req
       /\ (Http.reply x = inl e \/ exists rsp, Http.reply x = inr rsp /\ f rsp = Err e).
Proof.
  intros [(?&?&->&[= <-]&_)|(_&_&->&Hx)]%send_inv; [by left|right].
  eexists. split_and!; [done..|]. simpl.
  destruct (round_trip _ _ _).1 as [e'|rsp]; simpl in *; [left|right]; naive_solver.
Qed.

Lemma last_request_Err p self endpoint stack s e :
  last_request p self endpoint stack s = Err e ->
  cause p s (Checked self endpoint stack) [] e.
Proof.
  unfold last_request. rewrite env_loop_run. destruct (forallb _ _); [|done]. simpl.
  destruct (main.must_update _ _) eqn:Hup; unfold config_of;
    case_decide as Hinline; try done; simpl;
    try (case_bool_decide as Hpath; simpl; [intros [= <-]; apply no_source; auto;
                                            by apply dec_stable in Hinline|]);
    destruct (read_file _ s) eqn:Hfile; simpl; try done;
    intros [= <-]; by apply no_file.
Qed.

(** A refused reply, by the state that reads it. *)
Lemma refused_reply p s st x rsp {A} (dec : json -> result A) e :
  asks p st s = Some (request x) ->
  Http.reply x = inr rsp ->
  read_json dec (request x) rsp = Err e ->
  refuses st rsp = (StatusCode rsp > 200)%Z ->
  (forall data, Unmarshal dec data = Err e -> misreads st data e) ->
  cause p s st [x] e.
Proof.
  intros Hreq Hx [[Hs ->]|[Hb|(data & Hb & Hd)]]%read_json_Err Hst Hdec.
  - apply (bad_status _ _ _ _ rsp); [done..|]. by rewrite Hst.
  - by apply (bad_body _ _ _ _ rsp).
  - apply (bad_document _ _ _ _ rsp data); auto.
Qed.

(** The error of a move that sends: the causes of the exchange apart,
    what is left is an error of the reading of the reply. *)
Lemma send_cause p s st self req (f : Response -> result state) l e s' :
  asks p st s = Some req ->
  send Err self req (answered f) s = (l, Err e, s') ->
  (forall x rsp, asks p st s = Some (request x) -> req = request x ->
                 Http.reply x = inr rsp -> f rsp = Err e -> cause p s st [x] e) ->
  cause p s st l e.
Proof.
  intros Hasks [[-> ?]|(x & -> & <- & [?|(rsp & ? & Hf)])]%send_Err Hread;
    [by eapply bad_url | by apply no_answer | eauto].
Qed.

Lemma decoded_cause p s st x rsp {A} (dec : json -> result A) (g : A -> state) e :
  asks p st s = Some (request x) -> Http.reply x = inr rsp ->
  rmap g (read_json dec (request x) rsp) = Err e ->
  refuses st rsp = (StatusCode rsp > 200)%Z ->
  (forall data, Unmarshal dec data = Err e -> misreads st data e) ->
  cause p s st [x] e.
Proof.
  intros Hasks Hx Hf. destruct (read_json _ _ rsp) eqn:E; simplify_eq/=.
  by eapply refused_reply.
Qed.

(** The error of a move has one of the nine causes. *)
Lemma advance_cause p st s l e s' :
  advance p st s = (l, Err e, s') -> cause p s st l e.
Proof.
  destruct st; simpl; try done.
  - destruct (NewPortainer _ _) eqn:E; simpl; try done. intros [= <- <- _].
    by apply bad_address.
  - intros Hadv; eapply send_cause; [done|exact Hadv|]. intros x rsp Hasks Hreq Hx Hf. rewrite Hreq in Hf.
    unfold connect_reply in Hf. case_decide; simplify_eq/=.
    apply (bad_status _ _ _ _ rsp); simpl; [by f_equal|done..].
  - intros Hadv; eapply send_cause; [done|exact Hadv|]. intros x rsp Hasks Hreq Hx Hf. rewrite Hreq in Hf. by eapply decoded_cause.
  - intros Hadv; eapply send_cause; [done|exact Hadv|]. intros x rsp Hasks Hreq Hx Hf. rewrite Hreq in Hf.
    apply rbind_Err_inv in Hf as [Hf|(l0 & Hl0 & Hf)]; [by eapply refused_reply|].
    destruct (select_endpoint _ l0) eqn:Hsel; simplify_eq/=.
    rewrite select_endpoint_scan in Hsel.
    apply rbind_Err_inv in Hsel as [Hsel|([?|] & Hscan & [= <-])];
      [by apply scan_not_Err in Hsel|].
    apply (no_endpoint _ _ _ _ rsp l0); [done..|]. by apply scan_None.
  - intros Hadv; eapply send_cause; [done|exact Hadv|]. intros x rsp Hasks Hreq Hx Hf. rewrite Hreq in Hf. by eapply decoded_cause.
  - by intros ?%advance_Located.
  - destruct (last_request _ _ _ _ _) as [req|e'|y] eqn:Hreq0;
      [|intros [= <- <- _]; by apply last_request_Err|done].
    intros Hadv; eapply send_cause; [simpl; by rewrite Hreq0|exact Hadv|].
    intros x rsp Hasks Hreq Hx Hf. unfold accept_200 in Hf. case_decide; simplify_eq/=.
    apply (bad_status _ _ _ _ rsp); simpl; [by rewrite Hreq0|done..].
Qed.

(** The moves that can crash: a listing with a null element before the
    one looked for, and an environment entry without [=]. *)
Lemma read_json_no_Panic {A} (dec : json -> result A) req rsp :
  (forall j, is_Panic (dec j) = false) -> is_Panic (read_json dec req rsp) = false.
Proof.
  intros Hdec. unfold read_json, accept_200. case_decide; [done|]. simpl.
  destruct (RspBody rsp); simpl; [done|]. by apply Unmarshal_no_Panic.
Qed.

Lemma send_Panic unsent self req h s l x s' :
  send unsent self req h s = (l, Panic x, s') ->
  (exists e, unsent e = Panic x /\ l = []) \/ exists a, h a = Panic x.
Proof. intros [(?&_&->&?&_)|(_&_&_&?)]%send_inv; eauto. Qed.

Lemma send_answered_Panic self req (f : Response -> result state) s l x s' :
  send Err self req (answered f) s = (l, Panic x, s') -> exists rsp, f rsp = Panic x.
Proof. intros [(?&?&_)|([e|rsp]&Hx)]%send_Panic; [done..|eauto]. Qed.

Lemma last_request_Panic p self endpoint stack s x :
  last_request p self endpoint stack s = Panic x -> x = IndexOutOfRange 1 1.
Proof.
  unfold last_request. rewrite env_loop_run.
  destruct (forallb _ _); simpl; [|by intros [= <-]].
  assert (forall create, is_Panic (config_of p create s) = false) as Hc.
  { intros create. unfold config_of. repeat case_match; try done.
    apply of_sum_no_Panic. }
  destruct (main.must_update _ _);
    [pose proof (Hc false) | pose proof (Hc true)]; by destruct (config_of _ _ _).
Qed.

Lemma advance_Panic p st s l x s' :
  advance p st s = (l, Panic x, s') ->
  match st with
  | LoggedIn _ | Located _ _ => x = NilDereference
  | Checked _ _ _ => x = IndexOutOfRange 1 1 /\ l = []
  | _ => False
  end.
Proof.
  assert (forall {A} (dec : json -> result A) req rsp,
            (forall j, is_Panic (dec j) = false) -> read_json dec req rsp <> Panic x)
    as Hjson by (intros; by apply is_Panic_false, read_json_no_Panic).
  destruct st; simpl; try done.
  - unfold NewPortainer. by repeat case_match.
  - intros (rsp & Hx)%send_answered_Panic. unfold connect_reply in Hx. by case_decide.
  - intros (rsp & Hx)%send_answered_Panic.
    destruct (read_json _ _ rsp) eqn:E; simplify_eq/=. by apply Hjson in E; auto with go.
  - intros (rsp & [Hx|(l0 & _ & Hx)]%rbind_Panic_inv)%send_answered_Panic.
    { by apply Hjson in Hx; auto with go. }
    destruct (select_endpoint _ l0) eqn:Hsel; simplify_eq/=.
    rewrite select_endpoint_scan in Hsel.
    apply rbind_Panic_inv in Hsel as [Hsel%scan_Panic|(?&_&?)]; [by destruct Hsel|].
    by case_match.
  - intros (rsp & Hx)%send_answered_Panic.
    destruct (read_json _ _ rsp) eqn:E; simplify_eq/=. by apply Hjson in E; auto with go.
  - case_decide; [done|]. intros [(?&?&_)|(a&Hx)]%send_Panic; [done|].
    destruct (answered _ a) eqn:Hr; simplify_eq/=. destruct a as [e|rsp]; [done|].
    apply rbind_Panic_inv in Hr as [Hr|(l0 & _ & Hr)]; [by apply Hjson in Hr; auto with go|].
    rewrite stack_loop_scan in Hr. by apply scan_Panic in Hr as [-> _].
  - destruct (last_request _ _ _ _ _) as [req|e|y] eqn:Hreq;
      [|done|intros [= <- <- _]; by apply last_request_Panic in Hreq].
    intros (rsp & Hx)%send_answered_Panic. unfold accept_200 in Hx. by case_decide.
Qed.

(** What a run sends after the probe, and from the start. *)
Lemma runs_Probed p self s l r s' :
  runs p (Probed self) s l r s' ->
  match l with
  | [] => True
  | login :: later =>
      Header (request login) = []
      /\ (later <> [] -> exists jwt, granted login = Ok jwt /\ Forall (bears jwt) later)
  end.
Proof.
  intros [(->&_)|(l1 & r1 & s1 & Hadv & Hr)]%runs_inv; [done|].
  apply send_inv in Hadv as [(?&_&->&->&_)|(_&_&->&->)].
  { by destruct Hr as (->&_). }
  destruct (round_trip _ _ _).1 as [e|rsp]; simpl in Hr.
  { by destruct Hr as (->&_). }
  destruct (read_json decode_auth _ rsp) as [jwt|e|y] eqn:Hjwt; simpl in Hr;
    [|by destruct Hr as (->&_)..].
  destruct Hr as (l2 & -> & Hr). simpl. split; [done|]. intros _.
  exists jwt. split; [exact Hjwt|]. by eapply runs_token.
Qed.

Lemma runs_session p s l r s' : runs p Idle s l r s' -> session l.
Proof.
  intros [(->&_)|(l1 & r1 & s1 & [= <- <- <-] & Hr)]%runs_inv; [done|].
  destruct (NewPortainer _ _) as [self| |]; simpl in Hr; [|by destruct Hr as (->&_)..].
  destruct Hr as (l2 & -> & [(->&_)|(l1 & r1 & s2 & Hadv & Hr)]%runs_inv); [done|].
  apply send_inv in Hadv as [(?&_&->&->&_)|(_&_&->&->)].
  { by destruct Hr as (->&_). }
  destruct (answered _ _) as [st1|e|y] eqn:Hst; [|by destruct Hr as (->&_)..].
  destruct Hr as (l3 & -> & Hr). simpl. split; [done|].
  told Hst. by apply runs_Probed in Hr.
Qed.

End Invariants.

(** * Theorems *)

Section SessionTheorems.
Context `{!GoLib} {S : Type} `{!Platform S}.
Implicit Types (p : main.Plugin.t) (w : World S).

(** C4: [Exec] is the machine: in front of any surroundings, the
    exchanges of a run, in order, its result and the state in which it
    leaves the surroundings are those of the run of the machine from
    [Idle], which is the one [play] computes in seven moves.  So every
    request of a run is the request the state asks for, built from the
    settings and from what the replies before it held, and the run goes
    on exactly when the reply is one the state accepts. *)
Theorem Exec_plays p w :
  runs p Idle (outside w) (sent (main.Exec p) w)
    (rmap (fun _ => Over) (main.Exec p w).1) (outside (main.Exec p w).2)
  /\ play p 7 Idle (outside w)
     = (sent (main.Exec p) w, rmap (fun _ => Over) (main.Exec p w).1,
        outside (main.Exec p w).2).
Proof.
  split; [apply leads_Exec|].
  apply (runs_play p Idle); [apply leads_Exec|]. by destruct (main.Exec p w).1.
Qed.

(** C11: a run is one session with one server.  The probe and the login
    carry no [Authorization] header, and every request sent after the
    login carries [Bearer] followed by the token the reply to the login
    held, which is then a reply of status at most 200 whose body decodes:
    the token is written once.  Every exchange is made through the client
    and under the address of the receiver [NewPortainer] built. *)
Theorem Exec_one_session p w :
  session (sent (main.Exec p) w)
  /\ forall self,
       NewPortainer (main.Portainer.Address (main.Config.Portainer (main.Plugin.Config p)))
         (main.Portainer.Insecure (main.Config.Portainer (main.Plugin.Config p)))
       = Ok self ->
       Forall (addressed self) (sent (main.Exec p) w).
Proof.
  split; [eapply runs_session, leads_Exec|].
  intros self. eapply runs_Idle_addressed, leads_Exec.
Qed.

(** C14: every error a run of [Exec] returns is the error of one move of
    the machine, made in a state the run reached by moves that went well,
    and it has one of nine causes ([cause]).  Four send nothing: the
    address that does not parse, a request whose address is no URL, the
    stack to create without inline text and without path, the file that
    cannot be read.  Five belong to the one exchange of the move: no
    reply, a status the state refuses (from 400 on at the probe, above
    200 elsewhere), a body that cannot be read, a document that does not
    decode, the endpoint missing from the list.  That move is never the
    search for the stack, whose errors are dropped. *)
Theorem Exec_error_origin p w e :
  (main.Exec p w).1 = Err e ->
  exists pre st s l,
    runs p Idle (outside w) pre (Ok st) s
    /\ advance p st s = (l, Err e, outside (main.Exec p w).2)
    /\ sent (main.Exec p) w = pre ++ l
    /\ cause p s st l e
    /\ forall self endpoint, st <> Located self endpoint.
Proof.
  intros He. pose proof (leads_Exec p w) as Hr. rewrite He in Hr.
  apply runs_failure in Hr as (pre & st & s & l & Hpre & Hadv & ->); [|done].
  exists pre, st, s, l. split_and!; [done..|by eapply advance_cause|].
  intros self endpoint ->. by apply advance_Located in Hadv.
Qed.

(** C13: a run of [Exec] can crash at three moves only: at the reply that
    lists the endpoints and at the one that lists the stacks, with a nil
    dereference (a [null] element stands before the one looked for), and
    at the last move, before anything is sent, with index 1 out of range
    (an environment entry holds no [=]). *)
Theorem Exec_panic_origin p w x :
  (main.Exec p w).1 = Panic x ->
  exists pre st s l,
    runs p Idle (outside w) pre (Ok st) s
    /\ advance p st s = (l, Panic x, outside (main.Exec p w).2)
    /\ sent (main.Exec p) w = pre ++ l
    /\ match st with
       | LoggedIn _ | Located _ _ => x = NilDereference
       | Checked _ _ _ => x = IndexOutOfRange 1 1 /\ l = []
       | _ => False
       end.
Proof.
  intros Hx. pose proof (leads_Exec p w) as Hr. rewrite Hx in Hr.
  apply runs_failure in Hr as (pre & st & s & l & Hpre & Hadv & ->); [|done].
  exists pre, st, s, l. split_and!; [done..|]. by eapply advance_Panic.
Qed.

End SessionTheorems.

(** * The theorems at concrete runs

    The machine is run here against the scripted server of [Fixture], and
    the theorems with a hypothesis are applied to runs of [Exec] against
    it, where the hypothesis holds by computation. *)

Section Witnesses.

#[local] Existing Instance fixture_lib.
#[local] Existing Instance script_platform.

(** The conversation with a server that knows the endpoint and no stack:
    six requests, the last of which creates the stack on the endpoint
    selected, in the cluster the fourth reply named, with the token the
    second reply granted. *)
Example fresh_server_conversation :
  let p := plugin_of "web" "" ["version: 3"] ["KEY=value"] in
  let self0 := mkPortainer (mkClient false) "http://portainer.local" "" in
  let self := with_auth self0 "token" in
  let endpoint :=
    Endpoint.mk 1 "local" 1 "unix:///var/run/docker.sock" 0 "" "cluster" in
  let run := play p 7 Idle (mkScript fresh_server [] 0) in
  request <$> run.1.1
  = [head_request self0; auth_request self0 "admin" "secret";
     endpoints_request self; swarm_request self 1; stacks_request self;
     create_string_request self endpoint "web" "version: 3" [Env.mk "KEY" "value"]]
  /\ run.1.2 = Ok Over.
Proof. by vm_compute. Qed.

Lemma Exec_error_origin_witness :
  let p := plugin_of "web" "" ["version: 3"] [] in
  let w := run_on [ok_empty; reply 401 "401 Unauthorized" JNull] in
  exists e pre st s l,
    (main.Exec p w).1 = Err e
    /\ runs p Idle (outside w) pre (Ok st) s
    /\ advance p st s = (l, Err e, outside (main.Exec p w).2)
    /\ sent (main.Exec p) w = pre ++ l
    /\ cause p s st l e
    /\ forall self endpoint, st <> Located self endpoint.
Proof.
  intros p w.
  eassert ((main.Exec p w).1 = Err _) as He by (vm_compute; reflexivity).
  destruct (Exec_error_origin p w _ He) as (pre & st & s & l & Horigin).
  eexists _, pre, st, s, l. split; [exact He | exact Horigin].
Defined.

Lemma Exec_panic_origin_witness :
  let p := plugin_of "web" "" ["version: 3"] ["KEY"] in
  let w := run_on fresh_server in
  exists pre st s l,
    runs p Idle (outside w) pre (Ok st) s
    /\ advance p st s = (l, Panic (IndexOutOfRange 1 1), outside (main.Exec p w).2)
    /\ sent (main.Exec p) w = pre ++ l
    /\ match st with
       | LoggedIn _ | Located _ _ => IndexOutOfRange 1 1 = NilDereference
       | Checked _ _ _ => IndexOutOfRange 1 1 = IndexOutOfRange 1 1 /\ l = []
       | _ => False
       end.
Proof.
  intros p w. apply (Exec_panic_origin p w). vm_compute. reflexivity.
Defined.

End Witnesses.
