(* ===== verification/Liveness.v ===== *)
(** * Liveness: a server that cooperates is served

    The theorems of [Client] and [Plugin] say what a run does not do.  This
    file proves the converse for a run that meets no obstacle: when the
    address is accepted, the configuration is well formed and the server
    answers every request of the chain positively, [Exec] returns without
    error.  Since no definition of the model needs fuel, this is also the
    progress of the run through every phase of [Protocol].

    The proof uses a logic of total correctness over the monad:
    [succeeds c Q] says that [c] returns a value that satisfies [Q] from
    every world. *)

From S2P Require Import Prelude GoStrings Json Wire Http Fixture Client Plugin.
From S2P Require Import Protocol Total.

#[local] Open Scope string_scope.
#[local] Open Scope list_scope.
#[local] Open Scope go_scope.

(** ** A server that cooperates *)

Section Cooperative.
Context `{!GoLib} {S : Type} `{!Platform S}.
Implicit Types (p : main.Plugin.t) (self : Client.Portainer) (w : World S).

Local Abbreviation portainer_of p := (main.Config.Portainer (main.Plugin.Config p)).
Local Abbreviation stack_of p := (main.Config.Stack (main.Plugin.Config p)).

(** In every state the surroundings answer the request [req] with a
    response that the interpreter [f] accepts. *)
Definition answers {A} (client : Client) (req : Request)
    (f : Response -> result A) : Prop :=
  forall s, exists rsp s' a, round_trip client req s = (inr rsp, s') /\ f rsp = Ok a.

(** The server cooperates with the run of [p] from the client [prtnr0]:
    it accepts the probe and the login, lists the endpoints with the one
    wanted among them and no [null] before it, tells the cluster of any
    endpoint, lists the stacks without [null] before a stack of the name
    wanted, and accepts every creation and every update, whatever token
    the request carries. *)
Record cooperative p (prtnr0 : Client.Portainer) : Prop := {
  coop_urls : forall u, url_error u = None;
  coop_probe :
    answers (client prtnr0) (head_request prtnr0)
      (connect_reply (head_request prtnr0));
  coop_login :
    let req := auth_request prtnr0 (main.Portainer.Username (portainer_of p))
                 (main.Portainer.Password (portainer_of p)) in
    answers (client prtnr0) req (read_json decode_auth req);
  coop_endpoints : forall jwt,
    let req := endpoints_request (with_auth prtnr0 jwt) in
    answers (client prtnr0) req
      (fun rsp => let? l := read_json decode_endpoints req rsp in
                  select_endpoint (main.Portainer.Endpoint (portainer_of p)) l);
  coop_cluster : forall jwt id,
    let req := swarm_request (with_auth prtnr0 jwt) id in
    answers (client prtnr0) req (read_json decode_swarm req);
  coop_stacks : forall jwt,
    let req := stacks_request (with_auth prtnr0 jwt) in
    answers (client prtnr0) req
      (fun rsp => let? l := read_json decode_stacks req rsp in
                  stack_loop (main.Stack.Name (stack_of p)) l);
  coop_create : forall jwt endpoint config env,
    let req := create_string_request (with_auth prtnr0 jwt) endpoint
                 (main.Stack.Name (stack_of p)) config env in
    answers (client prtnr0) req (accept_200 req);
  coop_update : forall jwt stack config env,
    let req := update_request (with_auth prtnr0 jwt) stack config true env in
    answers (client prtnr0) req (accept_200 req)
}.

(** There is something to deploy: inline configuration, or a path to a
    file that can be read. *)
Definition source_ready p : Prop :=
  main.stack_config (main.Stack.Config (stack_of p)) <> ""
  \/ (main.Stack.Path (stack_of p) <> ""
      /\ forall s : S, exists data, read_file (main.Stack.Path (stack_of p)) s = inr data).

Lemma succeeds_answers {A} client req (f : Response -> result A) :
  url_error (Url req) = None -> answers client req f ->
  succeeds (call client req f) (fun _ => True).
Proof.
  intros Hurl Hans. apply achieves_call; [done|]. intros s _.
  destruct (Hans s) as (rsp & s' & a & ? & ?). by exists rsp, s', a.
Qed.

Lemma succeeds_ReadFile path :
  (forall s : S, exists data, read_file path s = inr data) ->
  succeeds (ReadFile path) (fun _ => True).
Proof.
  intros Hread. apply achieves_ReadFile. intros s _.
  destruct (Hread s) as [data E]. by exists data.
Qed.

Section Run.
Variables (p : main.Plugin.t) (prtnr0 : Client.Portainer).
Hypothesis Hcoop : cooperative p prtnr0.

Lemma succeeds_Connect : succeeds (Connect prtnr0) (fun _ => True).
Proof.
  rewrite Connect_call. apply succeeds_answers; [apply Hcoop | apply Hcoop].
Qed.

Lemma succeeds_Auth :
  succeeds (Auth prtnr0 (main.Portainer.Username (portainer_of p))
              (main.Portainer.Password (portainer_of p)))
    (fun self => exists jwt, self = with_auth prtnr0 jwt).
Proof.
  rewrite Auth_call. apply achieves_call; [apply Hcoop|]. intros s _.
  destruct (coop_login _ _ Hcoop s) as (rsp & s' & jwt & E & Hjwt).
  exists rsp, s', (with_auth prtnr0 jwt). rewrite Hjwt. eauto.
Qed.

Lemma succeeds_GetEndpointByName jwt :
  succeeds (GetEndpointByName (with_auth prtnr0 jwt)
              (main.Portainer.Endpoint (portainer_of p)))
    (fun _ => True).
Proof.
  rewrite GetEndpointByName_calls.
  apply (succeeds_bind _ _
           (fun l => is_Ok (select_endpoint (main.Portainer.Endpoint (portainer_of p)) l) = true)).
  - apply achieves_call; [apply Hcoop|]. intros s _.
    destruct (coop_endpoints _ _ Hcoop jwt s)
      as (rsp & s' & e & E & (l & Hl & Hsel)%rbind_Ok_inv).
    exists rsp, s', l. by rewrite Hsel.
  - intros l Hsel. destruct (select_endpoint _ l) as [e|?|?]; [|done..].
    apply (succeeds_bind _ _ (fun _ => True)); [by apply achieves_lift|]. intros e' _.
    rewrite fetch_swarm_call. apply achieves_call; [apply Hcoop|]. intros s _.
    destruct (coop_cluster _ _ Hcoop jwt (Endpoint.Id e') s) as (rsp & s' & id & E & Hid).
    exists rsp, s', (Endpoint.with_SwarmID e' id). simpl in *. by rewrite Hid.
Qed.

Lemma succeeds_stack_phase jwt :
  succeeds (main.stack_phase p (with_auth prtnr0 jwt)) (fun _ => True).
Proof.
  intros w _. rewrite stack_phase_run. simpl.
  destruct (decide (main.Stack.Name (stack_of p) = "")) as [E|Hne].
  { rewrite E, GetStackByName_nameless. by eexists _, _. }
  rewrite (GetStackByName_call _ _ Hne _).
  match goal with
  | |- context [call ?c ?r ?f ?w0] =>
      destruct (succeeds_run _ _ w0 (succeeds_answers c r f (coop_urls _ _ Hcoop _)
                  (coop_stacks _ _ Hcoop jwt))) as (found & w1 & -> & _)
  end.
  by eexists _, _.
Qed.

Lemma succeeds_update_call jwt stack config env :
  config <> "" \/ (forall s : S, exists data, read_file (main.Stack.Path (stack_of p)) s = inr data) ->
  succeeds (update_call (with_auth prtnr0 jwt) p stack config env) (fun _ => True).
Proof.
  intros Hsrc. unfold update_call. case_decide.
  - rewrite UpdateStackFromString_call.
    apply succeeds_answers; [apply Hcoop | apply (coop_update _ _ Hcoop)].
  - destruct Hsrc as [?|Hread]; [done|]. unfold UpdateStackFromFile.
    eapply succeeds_bind; [by apply succeeds_ReadFile|]. intros data _.
    rewrite UpdateStackFromString_call.
    apply succeeds_answers; [apply Hcoop | apply (coop_update _ _ Hcoop)].
Qed.

Lemma succeeds_deploy_call jwt endpoint config env :
  config <> ""
  \/ (main.Stack.Path (stack_of p) <> ""
      /\ forall s : S, exists data, read_file (main.Stack.Path (stack_of p)) s = inr data) ->
  succeeds (deploy_call (with_auth prtnr0 jwt) p endpoint config env) (fun _ => True).
Proof.
  intros Hsrc. unfold deploy_call. repeat case_decide.
  - rewrite DeployStackFromString_call.
    apply succeeds_answers; [apply Hcoop | apply (coop_create _ _ Hcoop)].
  - destruct Hsrc as [?|[_ Hread]]; [done|]. unfold DeployStackFromFile.
    eapply succeeds_bind; [by apply succeeds_ReadFile|]. intros data _.
    rewrite DeployStackFromString_call.
    apply succeeds_answers; [apply Hcoop | apply (coop_create _ _ Hcoop)].
  - naive_solver.
Qed.

Lemma succeeds_update_branch jwt stack config env start :
  config <> "" \/ (forall s : S, exists data, read_file (main.Stack.Path (stack_of p)) s = inr data) ->
  succeeds (main.update_branch (with_auth prtnr0 jwt) p stack config env start)
    (fun _ => True).
Proof.
  intros Hsrc w _. rewrite update_branch_run.
  match goal with
  | |- context [update_call ?s ?q ?st ?c ?e ?w0] =>
      destruct (succeeds_run _ _ w0 (succeeds_update_call jwt st c e Hsrc))
        as ([] & w1 & -> & _)
  end.
  by eexists _, _.
Qed.

Lemma succeeds_deploy_branch jwt endpoint config env start :
  config <> ""
  \/ (main.Stack.Path (stack_of p) <> ""
      /\ forall s : S, exists data, read_file (main.Stack.Path (stack_of p)) s = inr data) ->
  succeeds (main.deploy_branch (with_auth prtnr0 jwt) p endpoint config env start)
    (fun _ => True).
Proof.
  intros Hsrc w _. rewrite deploy_branch_run.
  match goal with
  | |- context [deploy_call ?s ?q ?ep ?c ?e ?w0] =>
      destruct (succeeds_run _ _ w0 (succeeds_deploy_call jwt ep c e Hsrc))
        as ([] & w1 & -> & _)
  end.
  by eexists _, _.
Qed.

Lemma succeeds_connect_phase :
  NewPortainer (main.Portainer.Address (portainer_of p))
    (main.Portainer.Insecure (portainer_of p)) = Ok prtnr0 ->
  succeeds (main.connect_phase p) (fun self => self = prtnr0).
Proof.
  intros Hnew. rewrite connect_phase_announced, Hnew.
  apply (succeeds_bind _ _ (fun self => self = prtnr0)); [by apply achieves_lift|].
  intros ? ->. apply achieves_announced.
  eapply succeeds_bind; [apply succeeds_Connect|]. intros _ _. by apply achieves_ret.
Qed.

Lemma succeeds_finish jwt endpoint stack :
  forallb (contains "="%char) (main.Stack.Environment (stack_of p)) = true ->
  source_ready p ->
  succeeds (finish p (with_auth prtnr0 jwt) endpoint stack) (fun _ => True).
Proof.
  intros Henv Hsrc. unfold finish. rewrite env_loop_run, Henv.
  apply (succeeds_bind _ _ (fun _ => True)); [by apply achieves_lift|]. intros env _.
  apply (succeeds_bind _ _ (fun _ => True)); [apply achieves_Now|]. intros start _.
  destruct (main.must_update _ _).
  - apply succeeds_update_branch. destruct Hsrc as [?|[_ ?]]; auto.
  - by apply succeeds_deploy_branch.
Qed.

Lemma succeeds_Exec :
  NewPortainer (main.Portainer.Address (portainer_of p))
    (main.Portainer.Insecure (portainer_of p)) = Ok prtnr0 ->
  forallb (contains "="%char) (main.Stack.Environment (stack_of p)) = true ->
  source_ready p ->
  succeeds (main.Exec p) (fun _ => True).
Proof.
  intros Hnew Henv Hsrc. unfold main.Exec.
  eapply succeeds_bind; [by apply succeeds_connect_phase|]. intros ? ->.
  eapply succeeds_bind.
  { rewrite auth_phase_announced. apply achieves_announced, succeeds_Auth. }
  intros ? [jwt ->]. eapply succeeds_bind.
  { rewrite endpoint_phase_announced.
    apply achieves_announced, succeeds_GetEndpointByName. }
  intros endpoint _. eapply succeeds_bind; [apply succeeds_stack_phase|].
  intros stack _. by apply succeeds_finish.
Qed.

End Run.

(** C9: when the address is accepted, every environment entry holds a
    [=], there is a configuration to send and the server cooperates,
    [Exec] returns without error, from every world. *)
Theorem Exec_succeeds_when_served p (prtnr0 : Client.Portainer) w :
  NewPortainer (main.Portainer.Address (portainer_of p))
    (main.Portainer.Insecure (portainer_of p)) = Ok prtnr0 ->
  cooperative p prtnr0 ->
  forallb (contains "="%char) (main.Stack.Environment (stack_of p)) = true ->
  source_ready p ->
  exists w', main.Exec p w = (Ok tt, w').
Proof.
  intros Hnew Hcoop Henv Hsrc.
  destruct (succeeds_run _ _ w (succeeds_Exec p prtnr0 Hcoop Hnew Henv Hsrc))
    as ([] & w' & ? & _).
  by exists w'.
Qed.

End Cooperative.

(** * The theorem on a server that always cooperates *)

Section Witnesses.

#[local] Existing Instance fixture_lib.

(** A server without state that answers every request of a client at
    [ideal_address] positively: it knows the endpoint [local] and the
    stack [web] on it. *)
Definition ideal_address : string := "http://portainer.local".

Definition ideal_reply (req : Request) : error + Response :=
  if decide (Method req = "HEAD") then ok_empty
  else if decide (Method req = "POST" /\ Header req = []) then
    ok_json (token_doc "token")
  else if decide (Method req = "GET"
                  /\ Url req = ideal_address +:+ "/api/endpoints") then
    ok_json (JArray [endpoint_doc 1 "local"])
  else if decide (Method req = "GET"
                  /\ Url req = ideal_address +:+ "/api/stacks") then
    ok_json (JArray [stack_doc 7 "web" 1])
  else if decide (Method req = "GET") then ok_json (swarm_doc "cluster")
  else ok_empty.

Definition ideal_platform : Platform unit := {|
  round_trip := fun _ req s => (ideal_reply req, s);
  read_file := fun _ _ => inl (LibError io_ioutil "no such file or directory");
  now := fun _ => 0%Z
|}.

#[local] Existing Instance ideal_platform.

Lemma ideal_cooperative :
  cooperative (plugin_of "web" "" ["version: 3"] ["KEY=value"])
    (mkPortainer (mkClient false) ideal_address "").
Proof.
  split; [done|..]; intros; intros []; eexists _, tt, _; split; try reflexivity;
    by vm_compute.
Qed.

Lemma Exec_succeeds_when_served_witness :
  exists w',
    main.Exec (plugin_of "web" "" ["version: 3"] ["KEY=value"]) (initial tt)
    = (Ok tt, w').
Proof.
  apply (Exec_succeeds_when_served _ (mkPortainer (mkClient false) ideal_address ""));
    [reflexivity | apply ideal_cooperative | reflexivity | by left].
Defined.

End Witnesses.
