(* ===== verification/Server.v ===== *)
(** * Server: a reference server for the remote API

    The program is a client of a server that is no part of the
    repository.  The theorems of [Client], [Plugin], [Protocol] and
    [Liveness] hold for every server; to say what a run achieves, this
    file gives one server that implements the eight calls the
    specification lists (section 6): it keeps accounts, endpoints and
    stacks, checks the bearer token on every call but the probe and the
    login, keeps the names of the stacks of an endpoint distinct, and
    changes its state on a creation and on an update only.

    The server models no code of the repository.  It is an instance of
    [Http.Platform]; its well-formedness [server.wf] is kept by every
    request, and its answers to the requests of the client are the lemmas
    [handle_*] that [Deploy] builds on. *)

From S2P Require Import Prelude GoStrings Json Wire Http Fixture Client.

#[local] Open Scope string_scope.
#[local] Open Scope list_scope.
#[local] Open Scope go_scope.

Module server.

(** An endpoint the server manages, with the cluster behind it. *)
Record Node : Type := mkNode {
  node_id : Z;
  node_name : string;
  cluster : string
}.

(** A stack the server keeps: where it runs, its definition and its
    environment. *)
Record Entry : Type := mkEntry {
  stack_id : Z;
  stack_name : string;
  stack_endpoint : Z;
  content : string;
  variables : list Env.t
}.

Record t : Type := mk {
  (** the address the server is reached at *)
  base : string;
  (** user names with their passwords *)
  accounts : list (string * string);
  (** the token a login hands out *)
  token : string;
  nodes : list Node;
  stacks : list Entry;
  (** the identifier of the next stack *)
  next_id : Z;
  (** the files of the machine the program runs on, and its clock *)
  files : list (string * string);
  clock : Z
}.

#[export] Instance Node_eq_dec : EqDecision Node.
Proof. solve_decision. Defined.
#[export] Instance Entry_eq_dec : EqDecision Entry.
Proof. solve_decision. Defined.

Definition with_stacks (s : t) (l : list Entry) (next : Z) : t :=
  mk (base s) (accounts s) (token s) (nodes s) l next (files s) (clock s).

(** ** Documents *)

Definition node_doc (n : Node) : json := endpoint_doc (node_id n) (node_name n).

Definition entry_doc (x : Entry) : json :=
  JObject [("Id", JInt (stack_id x)); ("Name", JString (stack_name x));
           ("Type", JInt 1); ("EndpointID", JInt (stack_endpoint x));
           ("Env", JArray (Env.marshal <$> variables x))].

Definition message (code : Z) (status text : string) : error + Response :=
  reply code status (JObject [("message", JString text)]).

(** ** Reading a request *)

Definition authorized (s : t) (req : Request) : bool :=
  bool_decide (assoc "Authorization" (Header req) = Some ("Bearer " +:+ token s)).

Definition document (req : Request) : json :=
  match Body req with
  | Some (Doc j) => j
  | _ => JNull
  end.

Definition text (key : string) (j : json) : option string :=
  match member key j with
  | Some (JString v) => Some v
  | _ => None
  end.

Definition read_env (j : json) : option Env.t :=
  match text "name" j, text "value" j with
  | Some n, Some v => Some (Env.mk n v)
  | _, _ => None
  end.

Definition read_envs (j : json) : list Env.t :=
  match member "Env" j with
  | Some (JArray l) => omap read_env l
  | _ => []
  end.

(** ** Routes *)

Definition swarm_path (n : Node) : string :=
  "/api/endpoints/" +:+ fmt_d (node_id n) +:+ "/docker/swarm".

Definition create_path (n : Node) : string :=
  "/api/stacks?type=1&method=string&endpointId=" +:+ fmt_d (node_id n).

Definition update_path (x : Entry) : string :=
  "/api/stacks/" +:+ fmt_d (stack_id x) +:+ "?endpointId="
  +:+ fmt_d (stack_endpoint x).

Inductive Route : Type :=
| Probe
| Login
| Endpoints
| Swarm (n : Node)
| Stacks
| Create (n : Node)
| Update (x : Entry)
| Unknown.

Definition route_get (s : t) (path : string) : Route :=
  if decide (path = "/api/endpoints") then Endpoints
  else if decide (path = "/api/stacks") then Stacks
  else match find (fun n => bool_decide (path = swarm_path n)) (nodes s) with
       | Some n => Swarm n
       | None => Unknown
       end.

Definition route (s : t) (req : Request) : Route :=
  match strip_prefix (base s) (Url req) with
  | None => Unknown
  | Some path =>
      if decide (Method req = "HEAD") then
        if decide (path = "/") then Probe else Unknown
      else if decide (Method req = "GET") then route_get s path
      else if decide (Method req = "POST") then
        if decide (path = "/api/auth") then Login
        else match find (fun n => bool_decide (path = create_path n)) (nodes s) with
             | Some n => Create n
             | None => Unknown
             end
      else if decide (Method req = "PUT") then
        match find (fun x => bool_decide (path = update_path x)) (stacks s) with
        | Some x => Update x
        | None => Unknown
        end
      else Unknown
  end.

(** ** Handlers *)

Definition login (s : t) (req : Request) : error + Response :=
  match text "Username" (document req), text "Password" (document req) with
  | Some user, Some pass =>
      if bool_decide ((user, pass) ∈ accounts s) then ok_json (token_doc (token s))
      else message 422 "422 Unprocessable Entity" "Invalid credentials"
  | _, _ => message 400 "400 Bad Request" "Invalid request payload"
  end.

(** Whether the endpoint already runs a stack of that name. *)
Definition taken (s : t) (name : string) (endpoint : Z) : bool :=
  bool_decide (Exists (fun x => stack_name x = name /\ stack_endpoint x = endpoint)
                 (stacks s)).

Definition create (s : t) (n : Node) (req : Request) : (error + Response) * t :=
  match text "Name" (document req), text "StackFileContent" (document req) with
  | Some name, Some config =>
      if decide (name = "") then
        (message 400 "400 Bad Request" "Invalid stack name", s)
      else if taken s name (node_id n) then
        (message 409 "409 Conflict" "A stack with this name already exists", s)
      else if negb (in_int_range (next_id s)) then
        (message 500 "500 Internal Server Error" "No identifier left", s)
      else
        let x := mkEntry (next_id s) name (node_id n) config
                   (read_envs (document req)) in
        (ok_json (entry_doc x), with_stacks s (stacks s ++ [x]) (next_id s + 1))
  | _, _ => (message 400 "400 Bad Request" "Invalid request payload", s)
  end.

(** The stack [x] with a new definition and a new environment. *)
Definition revised (x : Entry) (config : string) (env : list Env.t) : Entry :=
  mkEntry (stack_id x) (stack_name x) (stack_endpoint x) config env.

(** The stacks with [x'] in the place of the stack of its identifier. *)
Definition put (x' : Entry) (l : list Entry) : list Entry :=
  (fun y => if decide (stack_id y = stack_id x') then x' else y) <$> l.

Definition update (s : t) (x : Entry) (req : Request) : (error + Response) * t :=
  match text "StackFileContent" (document req) with
  | Some config =>
      let x' := revised x config (read_envs (document req)) in
      (ok_json (entry_doc x'), with_stacks s (put x' (stacks s)) (next_id s))
  | None => (message 400 "400 Bad Request" "Invalid request payload", s)
  end.

Definition unauthorized : error + Response :=
  message 401 "401 Unauthorized" "Unauthorized".

Definition not_found : error + Response :=
  message 404 "404 Not Found" "Not found".

(** One request: the reply and the state after it. *)
Definition handle (s : t) (req : Request) : (error + Response) * t :=
  match route s req with
  | Probe => (ok_empty, s)
  | Login => (login s req, s)
  | Unknown => (not_found, s)
  | r =>
      if negb (authorized s req) then (unauthorized, s)
      else match r with
           | Endpoints => (ok_json (JArray (node_doc <$> nodes s)), s)
           | Swarm n => (ok_json (swarm_doc (cluster n)), s)
           | Stacks => (ok_json (JArray (entry_doc <$> stacks s)), s)
           | Create n => create s n req
           | Update x => update s x req
           | _ => (not_found, s)
           end
  end.

Definition read (path : string) (s : t) : error + string :=
  match assoc path (files s) with
  | Some data => inr data
  | None => inl (LibError io_ioutil ("open " +:+ path +:+ ": no such file or directory"))
  end.

Definition platform : Platform t := {|
  round_trip := fun _ req s => handle s req;
  read_file := read;
  now := clock
|}.

(** ** Well-formed states *)

(** Identifiers are distinct and fit an [int], the identifier of the next
    stack is above those in use, and no endpoint runs two stacks of one
    name. *)
Record wf (s : t) : Prop := mkWf {
  wf_node_ids : NoDup (node_id <$> nodes s);
  wf_node_range : Forall (fun n => in_int_range (node_id n) = true) (nodes s);
  wf_stack_ids : NoDup (stack_id <$> stacks s);
  wf_stack_range :
    Forall (fun x => in_int_range (stack_id x) = true
                     /\ in_int_range (stack_endpoint x) = true
                     /\ (stack_id x < next_id s)%Z) (stacks s);
  wf_names : NoDup ((fun x => (stack_name x, stack_endpoint x)) <$> stacks s)
}.

(** What the client decodes from the two lists. *)
Definition listed_endpoint (n : Node) : Endpoint.t :=
  Endpoint.mk (node_id n) (node_name n) 1 "unix:///var/run/docker.sock" 0 "" "".

Definition listed_stack (x : Entry) : Stack.t :=
  Stack.mk (stack_id x) (stack_name x) 1 (stack_endpoint x) "" "" ""
    (Some <$> variables x).

End server.

Import server.

(** * Routes *)

Section Routes.
Implicit Types (s : server.t) (n : Node) (x : Entry) (path : string).

(** A key without duplicates tells the elements of a list apart. *)
Lemma NoDup_fmap_eq {A K} (key : A -> K) (l : list A) (x y : A) :
  NoDup (key <$> l) -> x ∈ l -> y ∈ l -> key x = key y -> x = y.
Proof.
  induction l as [|a l IH]; [by intros _ ?%elem_of_nil|].
  rewrite fmap_cons, NoDup_cons, !elem_of_cons.
  intros [Ha Hnd] [->|Hx] [->|Hy] E; auto.
  - destruct Ha. rewrite E. by apply list_elem_of_fmap_2.
  - destruct Ha. rewrite <- E. by apply list_elem_of_fmap_2.
Qed.

(** The first element with [p] is the only one, when a key tells the
    elements apart and every element with [p] has the key of [x]. *)
Lemma find_unique {A K} (key : A -> K) (p : A -> bool) (l : list A) (x : A) :
  NoDup (key <$> l) -> x ∈ l -> p x = true ->
  (forall y, y ∈ l -> p y = true -> key y = key x) ->
  find p l = Some x.
Proof.
  intros Hnd Hx Hpx Hkey.
  destruct (find p l) as [y|] eqn:E.
  - apply find_some in E as [Hy%list_elem_of_In Hpy]. f_equal.
    apply (NoDup_fmap_eq key l); auto.
  - apply list_elem_of_In in Hx. apply (find_none _ _ E) in Hx. congruence.
Qed.

Lemma swarm_path_inj n n' : swarm_path n = swarm_path n' -> node_id n = node_id n'.
Proof.
  unfold swarm_path. intros E. apply (inj (String.append _)) in E.
  by apply string_app_inv_r, fmt_d_inj in E.
Qed.

Lemma create_path_inj n n' : create_path n = create_path n' -> node_id n = node_id n'.
Proof.
  unfold create_path. intros E. by apply (inj (String.append _)), fmt_d_inj in E.
Qed.

Lemma update_path_inj x x' : update_path x = update_path x' -> stack_id x = stack_id x'.
Proof.
  unfold update_path. intros E. apply (inj (String.append _)) in E.
  rewrite !(string_app_cons "?") in E. apply (f_equal (cut "?")) in E.
  rewrite !cut_fmt_d in E by done. apply fmt_d_inj. congruence.
Qed.

End Routes.

(** * What the server reads and what the client decodes *)

Section Documents.
Implicit Types (env : list Env.t) (n : Node) (x : Entry).

Lemma omap_read_env env : omap read_env (Env.marshal <$> env) = env.
Proof. induction env as [|[] env IH]; [done|]. simpl. f_equal. apply IH. Qed.

(** The server reads the environment the client marshalled. *)
Lemma read_envs_marshal env (fields : list (string * json)) :
  lookup_member "Env" fields = Some (marshal_envs env) ->
  read_envs (JObject fields) = env.
Proof.
  unfold read_envs. simpl. intros ->. destruct env; [done|].
  apply omap_read_env.
Qed.

Lemma decode_listed_endpoint n :
  in_int_range (node_id n) = true ->
  decode_ptr Endpoint.decode Endpoint.zero (node_doc n) = Ok (Some (listed_endpoint n)).
Proof. intros Hid. simpl. by rewrite Hid. Qed.

Lemma decode_listed_stack x :
  in_int_range (stack_id x) = true -> in_int_range (stack_endpoint x) = true ->
  decode_ptr Stack.decode Stack.zero (entry_doc x) = Ok (Some (listed_stack x)).
Proof.
  intros Hid Hend. simpl. rewrite Hid. simpl. rewrite Hend. simpl.
  by rewrite decode_elems_marshal_envs.
Qed.

(** The client decodes the list of endpoints to the endpoints of the
    server, none of them nil. *)
Lemma decode_listed_endpoints (l : list Node) :
  Forall (fun n => in_int_range (node_id n) = true) l ->
  decode_endpoints (JArray (node_doc <$> l)) = Ok (Some ∘ listed_endpoint <$> l).
Proof.
  unfold decode_endpoints, decode_slice. induction 1 as [|n l Hn _ IH]; [done|].
  rewrite !fmap_cons. cbn [decode_elems].
  by rewrite decode_listed_endpoint, IH.
Qed.

Lemma decode_listed_stacks (l : list Entry) :
  Forall (fun x => in_int_range (stack_id x) = true
                   /\ in_int_range (stack_endpoint x) = true) l ->
  decode_stacks (JArray (entry_doc <$> l)) = Ok (Some ∘ listed_stack <$> l).
Proof.
  unfold decode_stacks, decode_slice. induction 1 as [|x l [??] _ IH]; [done|].
  rewrite !fmap_cons. cbn [decode_elems].
  by rewrite decode_listed_stack, IH.
Qed.

End Documents.

(** * The answers to the requests of the client *)

Ltac string_ne :=
  let E := fresh in
  intros E; rewrite ?string_app_cons, ?string_app_nil_l in E; discriminate E.

Section Answers.
Context `{!GoLib}.
Variables (s : server.t) (self : Client.Portainer).
Hypothesis Haddress : address self = base s.

(** What the client reads from a reply with status 200 and a document. *)
Lemma read_json_ok {A} (dec : json -> result A) req (j : json) :
  read_json dec req (mkResponse 200 "200 OK" (inr (Doc j))) = dec j.
Proof. done. Qed.

Lemma route_head : route s (head_request self) = Probe.
Proof.
  unfold route, head_request. simpl. by rewrite Haddress, strip_prefix_app.
Qed.

Lemma route_login user pass : route s (auth_request self user pass) = Login.
Proof.
  unfold route, auth_request. simpl. by rewrite Haddress, strip_prefix_app.
Qed.

Lemma route_endpoints : route s (endpoints_request self) = Endpoints.
Proof.
  unfold route, endpoints_request. simpl. by rewrite Haddress, strip_prefix_app.
Qed.

Lemma route_stacks : route s (stacks_request self) = Stacks.
Proof.
  unfold route, stacks_request. simpl. by rewrite Haddress, strip_prefix_app.
Qed.

Lemma route_swarm n :
  wf s -> n ∈ nodes s -> route s (swarm_request self (node_id n)) = Swarm n.
Proof.
  intros Hwf Hn. unfold route, swarm_request, swarm_url. simpl.
  rewrite Haddress, strip_prefix_app. simpl. unfold route_get.
  change ("/api/endpoints/" +:+ fmt_d (node_id n) +:+ "/docker/swarm")
    with (swarm_path n).
  rewrite !decide_False by (unfold swarm_path; string_ne).
  rewrite (find_unique node_id _ _ n); auto using wf_node_ids.
  - by apply bool_decide_eq_true.
  - intros y _ Hy%bool_decide_eq_true. symmetry. by apply swarm_path_inj.
Qed.

Lemma create_url_path n :
  create_url self "string" (node_id n) = base s +:+ create_path n.
Proof.
  unfold create_url, create_path. rewrite Haddress. by f_equal.
Qed.

Lemma route_create n e name config env :
  wf s -> n ∈ nodes s -> Endpoint.Id e = node_id n ->
  route s (create_string_request self e name config env) = Create n.
Proof.
  intros Hwf Hn Hid. unfold route, create_string_request. simpl.
  rewrite Hid, create_url_path, strip_prefix_app. cbv beta iota.
  rewrite decide_False by (unfold create_path; string_ne).
  rewrite (find_unique node_id _ _ n); auto using wf_node_ids.
  - by apply bool_decide_eq_true.
  - intros y _ Hy%bool_decide_eq_true. symmetry. by apply create_path_inj.
Qed.

Lemma route_update x stack config prune env :
  wf s -> x ∈ stacks s -> stack = listed_stack x ->
  route s (update_request self stack config prune env) = Update x.
Proof.
  intros Hwf Hx ->. unfold route, update_request, update_url. simpl.
  rewrite Haddress, strip_prefix_app. simpl.
  change (find _ (stacks s))
    with (find (fun y => bool_decide (update_path x = update_path y)) (stacks s)).
  rewrite (find_unique stack_id _ _ x); auto using wf_stack_ids.
  - by apply bool_decide_eq_true.
  - intros y _ Hy%bool_decide_eq_true. symmetry. by apply update_path_inj.
Qed.

Hypothesis Hauth : auth self = token s.

Lemma authorized_bearer method url body :
  authorized s (bearer_request self method url body) = true.
Proof.
  unfold authorized, bearer_request, authorize, Header_Add. simpl.
  rewrite Hauth. by apply bool_decide_eq_true.
Qed.

Lemma document_bearer method url (j : json) :
  document (bearer_request self method url (Some j)) = j.
Proof. done. Qed.

Lemma handle_head : handle s (head_request self) = (ok_empty, s).
Proof. unfold handle. by rewrite route_head. Qed.

Lemma handle_login user pass :
  (user, pass) ∈ accounts s ->
  handle s (auth_request self user pass) = (ok_json (token_doc (token s)), s).
Proof.
  intros Hin. unfold handle. rewrite route_login. unfold login. simpl.
  by rewrite bool_decide_true.
Qed.

Lemma handle_login_refused user pass :
  (user, pass) ∉ accounts s ->
  handle s (auth_request self user pass)
  = (message 422 "422 Unprocessable Entity" "Invalid credentials", s).
Proof.
  intros Hout. unfold handle. rewrite route_login. unfold login. simpl.
  by rewrite bool_decide_false.
Qed.

Lemma handle_endpoints :
  handle s (endpoints_request self) = (ok_json (JArray (node_doc <$> nodes s)), s).
Proof.
  unfold handle. rewrite route_endpoints.
  unfold endpoints_request. by rewrite authorized_bearer.
Qed.

Lemma handle_stacks :
  handle s (stacks_request self) = (ok_json (JArray (entry_doc <$> stacks s)), s).
Proof.
  unfold handle. rewrite route_stacks.
  unfold stacks_request. by rewrite authorized_bearer.
Qed.

Lemma handle_swarm n :
  wf s -> n ∈ nodes s ->
  handle s (swarm_request self (node_id n)) = (ok_json (swarm_doc (cluster n)), s).
Proof.
  intros Hwf Hn. unfold handle. rewrite route_swarm by done.
  unfold swarm_request. by rewrite authorized_bearer.
Qed.

Lemma handle_create n e name config env :
  wf s -> n ∈ nodes s -> Endpoint.Id e = node_id n ->
  name <> "" -> taken s name (node_id n) = false ->
  in_int_range (next_id s) = true ->
  handle s (create_string_request self e name config env)
  = let x := mkEntry (next_id s) name (node_id n) config env in
    (ok_json (entry_doc x), with_stacks s (stacks s ++ [x]) (next_id s + 1)).
Proof.
  intros Hwf Hn Hid Hname Hfree Hroom. unfold handle.
  rewrite (route_create n) by done.
  unfold create_string_request. rewrite authorized_bearer.
  unfold create. simpl. rewrite decide_False by done. rewrite Hfree, Hroom. simpl.
  rewrite document_bearer. unfold deploy_string_args.
  by rewrite (read_envs_marshal env).
Qed.

(** A creation is refused when the endpoint runs a stack of that name. *)
Lemma handle_create_taken n e name config env :
  wf s -> n ∈ nodes s -> Endpoint.Id e = node_id n ->
  name <> "" -> taken s name (node_id n) = true ->
  handle s (create_string_request self e name config env)
  = (message 409 "409 Conflict" "A stack with this name already exists", s).
Proof.
  intros Hwf Hn Hid Hname Htaken. unfold handle.
  rewrite (route_create n) by done.
  unfold create_string_request. rewrite authorized_bearer.
  unfold create. simpl. rewrite decide_False by done. by rewrite Htaken.
Qed.

(** It is refused as well without a name, and when no identifier is left. *)
Lemma handle_create_nameless n e config env :
  wf s -> n ∈ nodes s -> Endpoint.Id e = node_id n ->
  handle s (create_string_request self e "" config env)
  = (message 400 "400 Bad Request" "Invalid stack name", s).
Proof.
  intros Hwf Hn Hid. unfold handle.
  rewrite (route_create n) by done.
  unfold create_string_request. by rewrite authorized_bearer.
Qed.

Lemma handle_create_full n e name config env :
  wf s -> n ∈ nodes s -> Endpoint.Id e = node_id n ->
  name <> "" -> taken s name (node_id n) = false -> in_int_range (next_id s) = false ->
  handle s (create_string_request self e name config env)
  = (message 500 "500 Internal Server Error" "No identifier left", s).
Proof.
  intros Hwf Hn Hid Hname Hfree Hfull. unfold handle.
  rewrite (route_create n) by done.
  unfold create_string_request. rewrite authorized_bearer.
  unfold create. simpl. rewrite decide_False by done. by rewrite Hfree, Hfull.
Qed.

Lemma handle_update x stack config prune env :
  wf s -> x ∈ stacks s -> stack = listed_stack x ->
  handle s (update_request self stack config prune env)
  = let x' := revised x config env in
    (ok_json (entry_doc x'), with_stacks s (put x' (stacks s)) (next_id s)).
Proof.
  intros Hwf Hx Hst. unfold handle. rewrite (route_update x) by done.
  unfold update_request. rewrite authorized_bearer.
  unfold update. simpl. rewrite document_bearer. unfold update_args.
  by rewrite (read_envs_marshal env).
Qed.

End Answers.

(** * Every request keeps the state well formed *)

Section Invariant.
Implicit Types (s : server.t) (n : Node) (x : Entry) (req : Request).

Lemma route_Create s req n : route s req = Create n -> n ∈ nodes s.
Proof.
  unfold route, route_get. repeat case_match; try done.
  intros [= <-]. apply list_elem_of_In. by eapply find_some.
Qed.

Lemma route_Update s req x : route s req = Update x -> x ∈ stacks s.
Proof.
  unfold route, route_get. repeat case_match; try done.
  intros [= <-]. apply list_elem_of_In. by eapply find_some.
Qed.

(** Replacing a stack by one of the same identifier changes no key that
    the two share. *)
Lemma put_key {K} (key : Entry -> K) x x' (l : list Entry) :
  NoDup (stack_id <$> l) -> x ∈ l -> stack_id x' = stack_id x ->
  key x' = key x -> key <$> put x' l = key <$> l.
Proof.
  intros Hnd Hx Hid Hkey. unfold put. rewrite <- list_fmap_compose.
  apply Forall_fmap_ext_1, Forall_forall. intros y Hy. simpl.
  case_decide as E; [|done]. rewrite Hkey. f_equal.
  apply (NoDup_fmap_eq stack_id l); congruence.
Qed.

(** Putting back a stack of the list changes nothing. *)
Lemma put_same x (l : list Entry) :
  NoDup (stack_id <$> l) -> x ∈ l -> put x l = l.
Proof.
  intros Hnd Hx. unfold put. rewrite <- (list_fmap_id l) at 2.
  apply Forall_fmap_ext_1, Forall_forall. intros y Hy. simpl.
  case_decide; [|done]. by apply (NoDup_fmap_eq stack_id l).
Qed.

(** The first stack with [f] stays the first when it is replaced by one
    with [f]. *)
Lemma find_put (f : Entry -> bool) x x' (l : list Entry) :
  NoDup (stack_id <$> l) -> find f l = Some x -> stack_id x' = stack_id x ->
  f x' = true -> find f (put x' l) = Some x'.
Proof.
  intros Hnd Hfind Hid Hf. induction l as [|y l IH]; [done|].
  rewrite fmap_cons in Hnd. apply NoDup_cons in Hnd as [Hy Hnd].
  simpl in *. destruct (f y) eqn:Ey.
  - simplify_eq. rewrite decide_True by done. by rewrite Hf.
  - rewrite decide_False, Ey; [by apply IH|].
    intros E. destruct Hy. rewrite E, Hid. apply list_elem_of_fmap_2.
    apply list_elem_of_In. by eapply find_some.
Qed.

(** A stack added at the end is the first with [f] when no other has it. *)
Lemma find_snoc {A} (f : A -> bool) (l : list A) (a : A) :
  find f l = None -> f a = true -> find f (l ++ [a]) = Some a.
Proof.
  intros Hnone Hf. induction l as [|b l IH]; simpl in *; [by rewrite Hf|].
  destruct (f b); [done | by apply IH].
Qed.

Lemma find_Some_app {A} (f : A -> bool) (l k : list A) (a : A) :
  find f l = Some a -> find f (l ++ k) = Some a.
Proof.
  induction l as [|b l IH]; [done|]. simpl. destruct (f b); [done | apply IH].
Qed.

Lemma wf_add s x :
  wf s -> stack_id x = next_id s -> in_int_range (next_id s) = true ->
  in_int_range (stack_endpoint x) = true ->
  taken s (stack_name x) (stack_endpoint x) = false ->
  wf (with_stacks s (stacks s ++ [x]) (next_id s + 1)).
Proof.
  intros [Hn Hnr Hids Hr Hnames] Hid Hroom Hend Hfree.
  pose proof (proj1 (Forall_forall _ _) Hr) as Hlt.
  split; simpl; try done.
  - rewrite fmap_app. apply NoDup_app. split_and!; [done| |apply NoDup_singleton].
    intros i (y & -> & Hy)%list_elem_of_fmap_1 Hi%list_elem_of_singleton.
    apply Hlt in Hy. simpl in *. lia.
  - apply Forall_app. split.
    + eapply Forall_impl; [exact Hr|]. simpl. intros y (? & ? & ?). split_and!; [done..|lia].
    + apply Forall_singleton. rewrite Hid. split_and!; [done..|lia].
  - rewrite fmap_app. apply NoDup_app. split_and!; [done| |apply NoDup_singleton].
    intros k (y & -> & Hy)%list_elem_of_fmap_1 [= Hname Hend']%list_elem_of_singleton.
    apply bool_decide_eq_false in Hfree. destruct Hfree.
    apply Exists_exists. by exists y.
Qed.

Lemma wf_put s x x' :
  wf s -> x ∈ stacks s -> stack_id x' = stack_id x ->
  stack_name x' = stack_name x -> stack_endpoint x' = stack_endpoint x ->
  wf (with_stacks s (put x' (stacks s)) (next_id s)).
Proof.
  intros [Hn Hnr Hids Hr Hnames] Hin Hid Hname Hend.
  pose proof (proj1 (Forall_forall _ _) Hr) as Hlt.
  split; simpl; try done.
  - by rewrite (put_key stack_id x).
  - unfold put. apply Forall_fmap, Forall_forall. intros y Hy. simpl.
    case_decide; [|by apply Hlt]. rewrite Hid, Hend. by apply Hlt.
  - rewrite (put_key _ x); [done..|]. by rewrite Hname, Hend.
Qed.

Lemma create_wf s n req : wf s -> n ∈ nodes s -> wf (create s n req).2.
Proof.
  intros Hwf Hin. unfold create. repeat case_match; try done. simpl.
  apply wf_add; simpl; try done; [by apply negb_false_iff|].
  by apply (proj1 (Forall_forall _ _) (wf_node_range _ Hwf)).
Qed.

Lemma update_wf s x req : wf s -> x ∈ stacks s -> wf (update s x req).2.
Proof.
  intros Hwf Hin. unfold update. case_match; [|done]. by apply (wf_put s x).
Qed.

(** The server keeps its state well formed, whatever it is asked. *)
Lemma handle_wf s req : wf s -> wf (handle s req).2.
Proof.
  intros Hwf. unfold handle.
  destruct (route s req) eqn:E; simpl; try done; case_match; simpl; try done.
  - by eapply create_wf, route_Create.
  - by eapply update_wf, route_Update.
Qed.

End Invariant.
