(* ===== verification/Deploy.v ===== *)
(** * Deploy: what a run achieves on the reference server

    [Plugin] and [Protocol] say which requests a run sends; this file says
    what they do to a server that implements the API ([Server]).  A run of
    [Exec] against a well-formed server that knows the account and the
    endpoint leaves the stack of the configured name on that endpoint with
    the configured definition and environment: it creates the stack when
    the server has none of that name, and replaces the definition of the
    stack when the first stack of that name runs on the endpoint.  A
    second run then changes nothing.  When the first stack of that name
    runs on another endpoint, the stack on the endpoint wanted is never
    found: the run asks for a creation, which the server refuses when the
    endpoint already runs a stack of that name.  A run that has no
    definition to send, or whose creation the server declines, returns an
    error and leaves the server as it was.

    The proofs use the logic of [Total] with the precondition that the
    server is in a given state. *)

From S2P Require Import Prelude GoStrings Json Wire Http Fixture Client Plugin.
From S2P Require Import Total Server.

#[local] Open Scope string_scope.
#[local] Open Scope list_scope.
#[local] Open Scope go_scope.

Import server.

#[local] Existing Instance server.platform.

(** * What the scans of the client find in the lists of the server *)

Section Scans.
Implicit Types (name : string) (n : Node) (x : Entry).

(** The first endpoint of the server with that name. *)
Definition node_named name (s : server.t) : option Node :=
  find (fun n => bool_decide (node_name n = name)) (nodes s).

(** The first stack of the server with that name. *)
Definition stack_named name (s : server.t) : option Entry :=
  find (fun x => bool_decide (stack_name x = name)) (stacks s).

Lemma select_listed name (l : list Node) n :
  find (fun n => bool_decide (node_name n = name)) l = Some n ->
  select_endpoint name (Some ∘ listed_endpoint <$> l) = Ok (listed_endpoint n).
Proof.
  induction l as [|m l IH]; [done|]. simpl. case_bool_decide.
  - intros [= ->]. by rewrite decide_True.
  - intros Hn. rewrite decide_False by done. by apply IH.
Qed.

Lemma select_missing name (l : list Node) :
  find (fun n => bool_decide (node_name n = name)) l = None ->
  is_Err (select_endpoint name (Some ∘ listed_endpoint <$> l)) = true.
Proof.
  induction l as [|m l IH]; [done|]. simpl. case_bool_decide; [done|].
  by rewrite decide_False.
Qed.

Lemma stack_loop_listed name (l : list Entry) :
  stack_loop name (Some ∘ listed_stack <$> l)
  = Ok (listed_stack <$> find (fun x => bool_decide (stack_name x = name)) l).
Proof.
  induction l as [|y l IH]; [done|]. simpl. case_bool_decide.
  - by rewrite decide_True.
  - by rewrite decide_False.
Qed.

End Scans.

(** * The lookups *)

(** The client after the login, and the endpoint as the client knows it
    after the cluster query. *)
Definition logged_in (prtnr0 : Client.Portainer) (s : server.t) : Client.Portainer :=
  with_auth prtnr0 (token s).

Definition resolved (n : Node) : Endpoint.t :=
  Endpoint.with_SwarmID (listed_endpoint n) (cluster n).

(** Sequencing with a part that returns a known value. *)
Ltac then_ H :=
  let a := fresh in
  first [ eapply achieves_bind; [apply H|]; intros a; apply achieves_assume
        | eapply fails_bind; [apply H|]; intros a; apply fails_assume ];
  intros ->.

(** ** A server that is reached *)

Section Reached.
Context `{!GoLib}.
Variables (p : main.Plugin.t) (prtnr0 : Client.Portainer) (s : server.t).

Local Abbreviation portainer_of := (main.Config.Portainer (main.Plugin.Config p)).
Local Abbreviation stack_of := (main.Config.Stack (main.Plugin.Config p)).

(** The address of the configuration leads to the server. *)
Record reached : Prop := mkReached {
  reached_urls : forall u, url_error u = None;
  reached_client :
    NewPortainer (main.Portainer.Address portainer_of)
      (main.Portainer.Insecure portainer_of) = Ok prtnr0;
  reached_address : address prtnr0 = base s;
  reached_wf : wf s
}.

Hypothesis Hr : reached.

(** While it looks things up, the run leaves the server as it is. *)
Local Abbreviation finds c a :=
  (achieves (fun s' => s' = s) c (fun a' s' => a' = a /\ s' = s)).
Local Abbreviation stays c := (fails (fun s' => s' = s) c (fun s' => s' = s)).

Lemma Connect_reached : finds (Connect prtnr0) tt.
Proof.
  rewrite Connect_call. apply achieves_call; [apply Hr|]. intros ? ->.
  eexists _, s, tt. split; [apply handle_head, Hr | done].
Qed.

Lemma connect_phase_reached : finds (main.connect_phase p) prtnr0.
Proof.
  rewrite connect_phase_announced, (reached_client Hr).
  apply (achieves_bind _ _ _ (fun self s' => self = prtnr0 /\ s' = s));
    [by apply achieves_lift|].
  intros self. apply achieves_assume. intros ->. apply achieves_announced.
  then_ Connect_reached. by apply achieves_ret.
Qed.

(** The login succeeds with an account of the server, and fails without. *)
Lemma Auth_known user pass :
  (user, pass) ∈ accounts s -> finds (Auth prtnr0 user pass) (logged_in prtnr0 s).
Proof.
  intros Hin. rewrite Auth_call. apply achieves_call; [apply Hr|]. intros ? ->.
  eexists _, s, _. split; [apply handle_login; [apply Hr | done] | done].
Qed.

Lemma Auth_unknown user pass :
  (user, pass) ∉ accounts s -> stays (Auth prtnr0 user pass).
Proof.
  intros Hout. rewrite Auth_call. apply fails_call; [apply Hr|]. intros ? ->.
  eexists _, s. split; [apply handle_login_refused; [apply Hr | done] | done].
Qed.

(** The endpoints the client reads from the list of the server. *)
Lemma endpoints_listed :
  finds (call (client (logged_in prtnr0 s)) (endpoints_request (logged_in prtnr0 s))
           (read_json decode_endpoints (endpoints_request (logged_in prtnr0 s))))
    (Some ∘ listed_endpoint <$> nodes s).
Proof.
  apply achieves_call; [apply Hr|]. intros ? ->. eexists _, s, _.
  split; [apply handle_endpoints; [apply Hr | done]|].
  split; [|done]. rewrite read_json_ok. apply decode_listed_endpoints, Hr.
Qed.

Lemma GetEndpointByName_listed name n :
  node_named name s = Some n ->
  finds (GetEndpointByName (logged_in prtnr0 s) name) (resolved n).
Proof.
  intros Hn. rewrite GetEndpointByName_calls. then_ endpoints_listed.
  rewrite (select_listed _ _ n) by done.
  apply (achieves_bind _ _ _ (fun e s' => e = listed_endpoint n /\ s' = s));
    [by apply achieves_lift|].
  intros e. apply achieves_assume. intros ->.
  rewrite fetch_swarm_call. apply achieves_call; [apply Hr|]. intros ? ->.
  eexists _, s, _.
  split; [apply (handle_swarm s (logged_in prtnr0 s) (reached_address Hr) eq_refl n);
          [apply Hr | apply list_elem_of_In; by eapply find_some]|].
  done.
Qed.

Lemma GetEndpointByName_missing name :
  node_named name s = None -> stays (GetEndpointByName (logged_in prtnr0 s) name).
Proof.
  intros Hn. rewrite GetEndpointByName_calls.
  eapply fails_bind; [apply endpoints_listed|]. intros l. apply fails_assume. intros ->.
  apply fails_bind_l. intros w Hw.
  pose proof (select_missing name (nodes s) Hn) as Herr.
  destruct (select_endpoint _ _) as [|e|] eqn:E; [done| |done]. by exists e, w.
Qed.

Lemma GetStackByName_listed name :
  name <> "" ->
  finds (GetStackByName (logged_in prtnr0 s) name)
    (listed_stack <$> stack_named name s).
Proof.
  intros Hname. rewrite GetStackByName_call by done.
  apply achieves_call; [apply Hr|]. intros ? ->. eexists _, s, _.
  split; [apply handle_stacks; [apply Hr | done]|].
  split; [|done]. rewrite read_json_ok.
  rewrite decode_listed_stacks; [apply stack_loop_listed|].
  eapply Forall_impl; [apply Hr|]. naive_solver.
Qed.

(** The stack lookup finds the first stack of the name; without a name it
    fails before it asks, and the phase goes on as if there were none. *)
Lemma stack_phase_reached :
  finds (main.stack_phase p (logged_in prtnr0 s))
    (if decide (main.Stack.Name stack_of = "") then None
     else listed_stack <$> stack_named (main.Stack.Name stack_of) s).
Proof.
  intros w Hw. rewrite stack_phase_run. cbv zeta. case_decide as Hname.
  { rewrite Hname, GetStackByName_nameless. by eexists _, _. }
  match goal with
  | |- context [GetStackByName ?self ?name ?w0] =>
      destruct (GetStackByName_listed _ Hname w0 Hw) as (found & w1 & -> & -> & Hs)
  end.
  by eexists _, _.
Qed.

(** ** The lookups, by what the server knows *)

Local Abbreviation account :=
  (main.Portainer.Username portainer_of, main.Portainer.Password portainer_of).

Lemma lookups_unknown_account : account ∉ accounts s -> stays (lookups p).
Proof.
  intros Hout. unfold lookups. then_ connect_phase_reached.
  by apply fails_bind_l, (fails_announced _ "Autentication..."), Auth_unknown.
Qed.

Lemma lookups_missing_endpoint :
  account ∈ accounts s ->
  node_named (main.Portainer.Endpoint portainer_of) s = None -> stays (lookups p).
Proof.
  intros Hin Hn. unfold lookups. then_ connect_phase_reached.
  then_ (achieves_announced _ "Autentication..." _ _ (Auth_known _ _ Hin)).
  apply fails_bind_l. rewrite endpoint_phase_announced.
  by apply fails_announced, GetEndpointByName_missing.
Qed.

Lemma lookups_reached n :
  account ∈ accounts s ->
  node_named (main.Portainer.Endpoint portainer_of) s = Some n ->
  finds (lookups p)
    (logged_in prtnr0 s, resolved n,
     if decide (main.Stack.Name stack_of = "") then None
     else listed_stack <$> stack_named (main.Stack.Name stack_of) s).
Proof.
  intros Hin Hn. unfold lookups. then_ connect_phase_reached.
  then_ (achieves_announced _ "Autentication..." _ _ (Auth_known _ _ Hin)).
  eapply achieves_bind.
  { rewrite endpoint_phase_announced.
    by apply achieves_announced, GetEndpointByName_listed. }
  intros e. apply achieves_assume. intros ->.
  then_ stack_phase_reached. by apply achieves_ret.
Qed.

(** ** Runs that end after the lookups *)

(** With an entry of the environment that holds no [=], the run panics
    once the lookups are made. *)
Lemma Exec_malformed_reached n w :
  account ∈ accounts s ->
  node_named (main.Portainer.Endpoint portainer_of) s = Some n ->
  forallb (contains "="%char) (main.Stack.Environment stack_of) = false ->
  outside w = s ->
  exists w', main.Exec p w = (Panic (IndexOutOfRange 1 1), w') /\ outside w' = s.
Proof.
  intros Hin Hn Hf Hw. rewrite (Exec_lookups_finish p w). unfold bind.
  destruct (lookups_reached n Hin Hn w Hw) as (found & w1 & -> & _ & Hw1).
  rewrite finish_malformed by done. by exists w1.
Qed.

(** The server refuses a stack without a name. *)
Lemma DeployStackFromString_nameless n data env :
  node_named (main.Portainer.Endpoint portainer_of) s = Some n ->
  stays (DeployStackFromString (logged_in prtnr0 s) (resolved n) "" data env).
Proof.
  intros Hn. rewrite DeployStackFromString_call.
  apply fails_call; [apply Hr|]. intros ? ->.
  change (round_trip ?c ?r s) with (handle s r).
  rewrite (handle_create_nameless s (logged_in prtnr0 s) (reached_address Hr) eq_refl n);
    [by eexists _, _|apply Hr| |done].
  apply list_elem_of_In. by eapply find_some.
Qed.

Lemma deploy_call_nameless n config env :
  node_named (main.Portainer.Endpoint portainer_of) s = Some n ->
  main.Stack.Name stack_of = "" ->
  stays (deploy_call (logged_in prtnr0 s) p (resolved n) config env).
Proof.
  intros Hn Hname. unfold deploy_call. rewrite Hname. repeat case_decide.
  - by apply DeployStackFromString_nameless.
  - intros w Hw. rewrite DeployStackFromFile_run.
    destruct (read_file _ _) as [e|data]; [by exists e, w|].
    by apply DeployStackFromString_nameless.
  - apply fails_raise.
Qed.

(** A run without a stack name fails: the lookup of the stack is skipped,
    and the creation is refused or has nothing to send. *)
Lemma Exec_nameless n :
  account ∈ accounts s ->
  node_named (main.Portainer.Endpoint portainer_of) s = Some n ->
  main.Stack.Name stack_of = "" ->
  forallb (contains "="%char) (main.Stack.Environment stack_of) = true ->
  stays (main.Exec p).
Proof.
  intros Hin Hn Hname Henv. rewrite Exec_lookups_finish.
  then_ (lookups_reached n Hin Hn). rewrite decide_True by done.
  unfold finish. rewrite env_loop_run, Henv.
  apply (fails_bind _ _ _ (fun _ s' => s' = s)); [by apply achieves_lift|].
  intros env. eapply fails_bind; [apply achieves_Now|]. intros start. simpl.
  by apply fails_deploy_branch, deploy_call_nameless.
Qed.

(** A run whose lookups fail. *)
Lemma Exec_lookups_fail : stays (lookups p) -> stays (main.Exec p).
Proof. intros Hl. rewrite Exec_lookups_finish. by apply fails_bind_l. Qed.

End Reached.

Section Lookups.
Context `{!GoLib}.
Variables (p : main.Plugin.t) (prtnr0 : Client.Portainer) (s : server.t) (n : Node).

Local Abbreviation portainer_of := (main.Config.Portainer (main.Plugin.Config p)).
Local Abbreviation stack_of := (main.Config.Stack (main.Plugin.Config p)).

(** The configuration fits the server: the address leads to it, it knows
    the account, and [n] is its first endpoint of the name wanted. *)
Record fits : Prop := mkFits {
  fits_urls : forall u, url_error u = None;
  fits_client :
    NewPortainer (main.Portainer.Address portainer_of)
      (main.Portainer.Insecure portainer_of) = Ok prtnr0;
  fits_address : address prtnr0 = base s;
  fits_account :
    (main.Portainer.Username portainer_of, main.Portainer.Password portainer_of)
    ∈ accounts s;
  fits_node : node_named (main.Portainer.Endpoint portainer_of) s = Some n;
  fits_name : main.Stack.Name stack_of <> "";
  fits_wf : wf s
}.

Hypothesis Hfits : fits.

Lemma fits_reached : reached p prtnr0 s.
Proof. by destruct Hfits. Qed.

(** While it looks things up, the run leaves the server as it is. *)
Local Abbreviation finds c a :=
  (achieves (fun s' => s' = s) c (fun a' s' => a' = a /\ s' = s)).

Lemma fits_node_in : n ∈ nodes s.
Proof.
  destruct Hfits. apply list_elem_of_In. by eapply find_some.
Qed.

(** The four lookups find the client logged in, the endpoint with its
    cluster and the first stack of the name, and leave the server as it
    is. *)
Lemma lookups_on_server :
  finds (lookups p)
    (logged_in prtnr0 s, resolved n,
     listed_stack <$> stack_named (main.Stack.Name stack_of) s).
Proof.
  pose proof (lookups_reached p prtnr0 s fits_reached n (fits_account Hfits)
                (fits_node Hfits)) as Hl.
  by rewrite decide_False in Hl by apply Hfits.
Qed.

End Lookups.

(** * The effect of a run *)

Section Effect.
Context `{!GoLib}.
Variables (p : main.Plugin.t) (prtnr0 : Client.Portainer) (s : server.t) (n : Node).

Local Abbreviation stack_of := (main.Config.Stack (main.Plugin.Config p)).
Local Abbreviation name := (main.Stack.Name stack_of).
Local Abbreviation config := (main.stack_config (main.Stack.Config stack_of)).

(** The definition the run sends: the inline text, else the content of
    the file. *)
Definition source : option string :=
  if decide (config <> "") then Some config
  else if decide (main.Stack.Path stack_of <> "") then
    match read (main.Stack.Path stack_of) s with
    | inr data => Some data
    | inl _ => None
    end
  else None.

(** The environment the run sends. *)
Definition environment : list Env.t := entry <$> main.Stack.Environment stack_of.

(** The server with the new stack, and with the stack [x] replaced. *)
Definition created (data : string) : server.t :=
  with_stacks s
    (stacks s ++ [mkEntry (next_id s) name (node_id n) data environment])
    (next_id s + 1).

Definition updated (x : Entry) (data : string) : server.t :=
  with_stacks s (put (revised x data environment) (stacks s)) (next_id s).

(** The stack the run updates: the first of the name, when it runs on the
    endpoint. *)
Definition target : option Entry :=
  match stack_named name s with
  | Some x => if decide (stack_endpoint x = node_id n) then Some x else None
  | None => None
  end.

Hypothesis Hfits : fits p prtnr0 s n.
Hypothesis Henv :
  forallb (contains "="%char) (main.Stack.Environment stack_of) = true.

Local Abbreviation leads c s1 := (achieves (fun s' => s' = s) c (fun _ s' => s' = s1)).

Lemma must_update_target :
  main.must_update (listed_stack <$> stack_named name s) (resolved n)
  = listed_stack <$> target.
Proof.
  unfold target, main.must_update. destruct (stack_named name s) as [x|]; [|done].
  simpl. by case_decide.
Qed.

Lemma DeployStackFromString_on_server data :
  taken s name (node_id n) = false -> in_int_range (next_id s) = true ->
  leads (DeployStackFromString (logged_in prtnr0 s) (resolved n) name data environment)
    (created data).
Proof.
  intros Hfree Hroom. rewrite DeployStackFromString_call.
  apply achieves_call; [apply Hfits|]. intros ? ->. eexists _, _, tt.
  split.
  - apply (handle_create s (logged_in prtnr0 s) (fits_address _ _ _ _ Hfits) eq_refl n);
      try done; try apply Hfits.
    by eapply fits_node_in.
  - done.
Qed.

Lemma UpdateStackFromString_on_server x data :
  x ∈ stacks s ->
  leads (UpdateStackFromString (logged_in prtnr0 s) (listed_stack x) data true environment)
    (updated x data).
Proof.
  intros Hx. rewrite UpdateStackFromString_call.
  apply achieves_call; [apply Hfits|]. intros ? ->. eexists _, _, tt.
  split.
  - apply (handle_update s (logged_in prtnr0 s) (fits_address _ _ _ _ Hfits) eq_refl x);
      try done; apply Hfits.
  - done.
Qed.

Lemma read_source data :
  source = Some data -> config = "" ->
  main.Stack.Path stack_of <> ""
  /\ read_file (main.Stack.Path stack_of) s = inr data.
Proof.
  unfold source. intros Hsrc Hconfig. rewrite decide_False in Hsrc by naive_solver.
  case_decide; [|done]. simpl. by destruct (read _ s) as [|?]; simplify_eq.
Qed.

Lemma deploy_call_on_server data :
  source = Some data ->
  taken s name (node_id n) = false -> in_int_range (next_id s) = true ->
  leads (deploy_call (logged_in prtnr0 s) p (resolved n) config environment)
    (created data).
Proof.
  intros Hsrc Hfree Hroom. unfold deploy_call. case_decide as Hc.
  - unfold source in Hsrc. rewrite decide_True in Hsrc by done. simplify_eq.
    by apply DeployStackFromString_on_server.
  - destruct (read_source data Hsrc Hc) as [Hpath Hread].
    rewrite decide_True by done. unfold DeployStackFromFile.
    apply (achieves_bind _ _ _ (fun d s' => d = data /\ s' = s)).
    { apply achieves_ReadFile. intros ? ->. by exists data. }
    intros d. apply achieves_assume. intros ->.
    by apply DeployStackFromString_on_server.
Qed.

Lemma update_call_on_server x data :
  source = Some data -> x ∈ stacks s ->
  leads (update_call (logged_in prtnr0 s) p (listed_stack x) config environment)
    (updated x data).
Proof.
  intros Hsrc Hx. unfold update_call. case_decide as Hc.
  - unfold source in Hsrc. rewrite decide_True in Hsrc by done. simplify_eq.
    by apply UpdateStackFromString_on_server.
  - destruct (read_source data Hsrc Hc) as [Hpath Hread].
    unfold UpdateStackFromFile.
    apply (achieves_bind _ _ _ (fun d s' => d = data /\ s' = s)).
    { apply achieves_ReadFile. intros ? ->. by exists data. }
    intros d. apply achieves_assume. intros ->.
    by apply UpdateStackFromString_on_server.
Qed.

Lemma deploy_branch_on_server data start :
  source = Some data ->
  taken s name (node_id n) = false -> in_int_range (next_id s) = true ->
  leads (main.deploy_branch (logged_in prtnr0 s) p (resolved n) config environment start)
    (created data).
Proof.
  intros Hsrc Hfree Hroom. by apply achieves_deploy_branch, deploy_call_on_server.
Qed.

Lemma update_branch_on_server x data start :
  source = Some data -> x ∈ stacks s ->
  leads (main.update_branch (logged_in prtnr0 s) p (listed_stack x) config
           environment start)
    (updated x data).
Proof.
  intros Hsrc Hx. by apply achieves_update_branch, update_call_on_server.
Qed.

(** The state a run leads to: the stack it updates replaced, or a new
    stack. *)
Definition after_run (data : string) : server.t :=
  match target with
  | Some x => updated x data
  | None => created data
  end.

Lemma target_Some x :
  target = Some x ->
  stack_named name s = Some x /\ x ∈ stacks s
  /\ stack_name x = name /\ stack_endpoint x = node_id n.
Proof.
  unfold target, stack_named. destruct (find _ _) as [y|] eqn:E; [|done].
  case_decide; [|done]. intros [= <-].
  apply find_some in E as [Hin Hname%bool_decide_eq_true].
  by apply list_elem_of_In in Hin.
Qed.

Lemma finish_on_server data :
  source = Some data ->
  (target = None ->
   taken s name (node_id n) = false /\ in_int_range (next_id s) = true) ->
  leads (finish p (logged_in prtnr0 s) (resolved n)
           (listed_stack <$> stack_named name s))
    (after_run data).
Proof.
  intros Hsrc Hnew. unfold finish, after_run. rewrite env_loop_run, Henv.
  apply (achieves_bind _ _ _ (fun env s' => env = environment /\ s' = s));
    [by apply achieves_lift|].
  intros env. apply achieves_assume. intros ->.
  eapply achieves_bind; [apply achieves_Now|]. intros start.
  rewrite must_update_target. destruct target as [x|] eqn:E; simpl.
  - by apply update_branch_on_server, target_Some.
  - destruct Hnew as [Hfree Hroom]; [done|]. by apply deploy_branch_on_server.
Qed.

Lemma Exec_on_server data :
  source = Some data ->
  (target = None ->
   taken s name (node_id n) = false /\ in_int_range (next_id s) = true) ->
  leads (main.Exec p) (after_run data).
Proof.
  intros Hsrc Hnew. rewrite Exec_lookups_finish.
  then_ (lookups_on_server p prtnr0 s n Hfits). by apply finish_on_server.
Qed.

(** ** A run that fails *)

Local Abbreviation stays c := (fails (fun s' => s' = s) c (fun s' => s' = s)).

(** The server declines to create the stack: the endpoint runs a stack of
    the name, or no identifier is left. *)
Definition declined : Prop :=
  taken s name (node_id n) = true \/ in_int_range (next_id s) = false.

Lemma DeployStackFromString_declined data :
  declined ->
  stays (DeployStackFromString (logged_in prtnr0 s) (resolved n) name data environment).
Proof.
  intros Hd. rewrite DeployStackFromString_call.
  apply fails_call; [apply Hfits|]. intros ? ->.
  change (round_trip ?c ?r s) with (handle s r).
  destruct (taken s name (node_id n)) eqn:Htaken.
  - rewrite (handle_create_taken s (logged_in prtnr0 s) (fits_address _ _ _ _ Hfits)
               eq_refl n); try done; try apply Hfits; [|by eapply fits_node_in].
    by eexists _, _.
  - destruct Hd as [|Hfull]; [congruence|].
    rewrite (handle_create_full s (logged_in prtnr0 s) (fits_address _ _ _ _ Hfits)
               eq_refl n); try done; try apply Hfits; [|by eapply fits_node_in].
    by eexists _, _.
Qed.

Lemma deploy_call_declined data :
  source = Some data -> declined ->
  stays (deploy_call (logged_in prtnr0 s) p (resolved n) config environment).
Proof.
  intros Hsrc Hd. unfold deploy_call. case_decide as Hc.
  - by apply DeployStackFromString_declined.
  - destruct (read_source data Hsrc Hc) as [Hpath Hread].
    rewrite decide_True by done. unfold DeployStackFromFile.
    apply (fails_bind _ _ _ (fun d s' => d = data /\ s' = s)).
    { apply achieves_ReadFile. intros ? ->. by exists data. }
    intros d. apply fails_assume. intros ->. by apply DeployStackFromString_declined.
Qed.

(** Without a definition to send, neither branch sends anything. *)
Lemma unreadable :
  source = None -> config = "" ->
  assoc "" (files s) = None ->
  exists e, read_file (main.Stack.Path stack_of) s = inl e.
Proof.
  unfold source. intros Hsrc Hconfig Hempty. rewrite decide_False in Hsrc by naive_solver.
  simpl. case_decide as Hpath.
  - destruct (read _ s) as [e|?]; [by exists e|done].
  - rewrite Hpath. unfold read. rewrite Hempty. by eexists.
Qed.

Lemma deploy_call_unsourced :
  source = None ->
  stays (deploy_call (logged_in prtnr0 s) p (resolved n) config environment).
Proof.
  intros Hsrc. unfold deploy_call, source in *. case_decide; [done|].
  case_decide; [|apply fails_raise].
  unfold DeployStackFromFile. apply fails_bind_l, fails_ReadFile. intros ? ->.
  simpl. destruct (read _ s) as [e|?]; [by exists e|done].
Qed.

Lemma update_call_unsourced stack :
  source = None -> assoc "" (files s) = None ->
  stays (update_call (logged_in prtnr0 s) p stack config environment).
Proof.
  intros Hsrc Hempty. unfold update_call. case_decide as Hc.
  { unfold source in Hsrc. by rewrite decide_True in Hsrc. }
  unfold UpdateStackFromFile. apply fails_bind_l, fails_ReadFile. intros ? ->.
  by apply unreadable.
Qed.

(** The rest of the run, once the entries of the environment are read. *)
Lemma finish_stays :
  (forall start,
     stays (match main.must_update (listed_stack <$> stack_named name s) (resolved n) with
            | Some stack =>
                main.update_branch (logged_in prtnr0 s) p stack config environment start
            | None =>
                main.deploy_branch (logged_in prtnr0 s) p (resolved n) config
                  environment start
            end)) ->
  stays (finish p (logged_in prtnr0 s) (resolved n)
           (listed_stack <$> stack_named name s)).
Proof.
  intros Hbranch. unfold finish. rewrite env_loop_run, Henv.
  apply (fails_bind _ _ _ (fun env s' => env = environment /\ s' = s));
    [by apply achieves_lift|].
  intros env. apply fails_assume. intros ->.
  eapply fails_bind; [apply achieves_Now|]. intros start. apply Hbranch.
Qed.

Lemma Exec_stays :
  stays (finish p (logged_in prtnr0 s) (resolved n)
           (listed_stack <$> stack_named name s)) ->
  stays (main.Exec p).
Proof.
  intros Hfinish. rewrite Exec_lookups_finish.
  eapply fails_bind; [apply (lookups_on_server p prtnr0 s n Hfits)|].
  intros found. apply fails_assume. by intros ->.
Qed.

(** The run fails, and changes nothing, when it asks for a creation the
    server declines. *)
Lemma Exec_declined data :
  source = Some data -> target = None -> declined -> stays (main.Exec p).
Proof.
  intros Hsrc Hnone Hd. apply Exec_stays, finish_stays. intros start.
  rewrite must_update_target, Hnone. simpl.
  by eapply fails_deploy_branch, deploy_call_declined.
Qed.

(** It fails as well when it has no definition to send. *)
Lemma Exec_unsourced :
  source = None -> assoc "" (files s) = None -> stays (main.Exec p).
Proof.
  intros Hsrc Hempty. apply Exec_stays, finish_stays. intros start.
  destruct (main.must_update _ _).
  - by apply fails_update_branch, update_call_unsourced.
  - by apply fails_deploy_branch, deploy_call_unsourced.
Qed.

Lemma Exec_refused data w :
  source = Some data -> target = None -> taken s name (node_id n) = true ->
  outside w = s ->
  exists e w', main.Exec p w = (Err e, w') /\ outside w' = s.
Proof. intros Hsrc Hnone Htaken Hw. apply (Exec_declined data); [done..|by left|done]. Qed.

End Effect.

(** * Theorems *)

Section Theorems.
Context `{!GoLib}.
Implicit Types (p : main.Plugin.t) (self : Client.Portainer) (s : server.t).
Implicit Types (n : Node) (x : Entry) (data : string) (w : World server.t).

Local Abbreviation stack_of p := (main.Config.Stack (main.Plugin.Config p)).
Local Abbreviation name_of p := (main.Stack.Name (stack_of p)).

(** The server takes what the run asks for: when the run creates a stack,
    the endpoint runs no stack of that name and an identifier is left. *)
Definition admits p s n : Prop :=
  target p s n = None ->
  taken s (name_of p) (node_id n) = false /\ in_int_range (next_id s) = true.

(** The stack the run is to leave on the server. *)
Definition wanted p n data x : Prop :=
  stack_name x = name_of p /\ stack_endpoint x = node_id n
  /\ content x = data /\ variables x = environment p.

Lemma after_run_wf p self s n data :
  fits p self s n -> admits p s n -> wf (after_run p s n data).
Proof.
  intros Hfits Hadm. unfold after_run. destruct (target p s n) as [x|] eqn:E.
  - apply target_Some in E as (_ & Hx & _). by apply (wf_put s x); [apply Hfits|..].
  - destruct Hadm as [Hfree Hroom]; [done|].
    apply wf_add; simpl; [apply Hfits|done..| |done].
    apply (proj1 (Forall_forall _ _) (wf_node_range _ (fits_wf _ _ _ _ Hfits))).
    by eapply fits_node_in.
Qed.

Lemma after_run_wanted p s n data :
  Exists (wanted p n data) (stacks (after_run p s n data)).
Proof.
  unfold after_run. destruct (target p s n) as [x|] eqn:E; apply Exists_exists.
  - apply target_Some in E as (_ & Hx & Hname & Hend).
    exists (revised x data (environment p)). split; [|done]. unfold updated, put. simpl.
    apply (list_elem_of_fmap_2' _ _ x); [done|]. by rewrite decide_True.
  - eexists. split; [by apply elem_of_app; right; apply list_elem_of_singleton|].
    done.
Qed.

(** C2: a run against the reference server that fits the configuration
    succeeds and leaves, on the endpoint wanted, a stack of the configured
    name with the definition and the environment of the configuration: it
    replaces the definition of the first stack of that name when it runs
    on the endpoint, and creates a stack otherwise; the server stays well
    formed. *)
Theorem Exec_leaves_stack p self s n data w :
  fits p self s n ->
  forallb (contains "="%char) (main.Stack.Environment (stack_of p)) = true ->
  source p s = Some data -> admits p s n -> outside w = s ->
  exists w',
    main.Exec p w = (Ok tt, w')
    /\ outside w' = after_run p s n data
    /\ wf (outside w')
    /\ Exists (wanted p n data) (stacks (outside w')).
Proof.
  intros Hfits Henv Hsrc Hadm Hw.
  destruct (Exec_on_server p self s n Hfits Henv data Hsrc Hadm w Hw)
    as ([] & w' & Hrun & Hs).
  exists w'. rewrite Hs. eauto using after_run_wf, after_run_wanted.
Qed.

(** ** A second run *)

Lemma fits_after_run p self s n data :
  fits p self s n -> admits p s n -> fits p self (after_run p s n data) n.
Proof.
  intros Hfits Hadm. pose proof (after_run_wf _ _ _ _ data Hfits Hadm) as Hwf.
  destruct Hfits. split; try done; unfold after_run in *; by destruct (target p s n).
Qed.

Lemma source_after_run p s n data : source p (after_run p s n data) = source p s.
Proof. unfold after_run. by destruct (target p s n). Qed.

(** After the run, the first stack of the name is the stack the run left,
    unless a stack of that name on another endpoint comes before it. *)
Lemma target_after_run p self s n data :
  fits p self s n ->
  (target p s n = None -> stack_named (name_of p) s = None) ->
  exists x, target p (after_run p s n data) n = Some x
            /\ x ∈ stacks (after_run p s n data)
            /\ revised x data (environment p) = x.
Proof.
  intros Hfits Hfirst. unfold after_run.
  destruct (target p s n) as [x|] eqn:E.
  - apply target_Some in E as (Hfind & Hx & Hname & Hend).
    exists (revised x data (environment p)). unfold target, stack_named, updated. simpl.
    rewrite (find_put _ x); [|apply Hfits|done..|by apply bool_decide_eq_true].
    simpl. rewrite decide_True by done. split_and!; [done| |done].
    unfold put. apply (list_elem_of_fmap_2' _ _ x); [done|]. by rewrite decide_True.
  - eexists. unfold target, stack_named, created. simpl.
    rewrite find_snoc; [|by apply Hfirst|by apply bool_decide_eq_true].
    simpl. rewrite decide_True by done. split_and!; [done| |done].
    by apply elem_of_app; right; apply list_elem_of_singleton.
Qed.

Lemma after_run_again p self s n data :
  fits p self s n -> admits p s n ->
  (target p s n = None -> stack_named (name_of p) s = None) ->
  after_run p (after_run p s n data) n data = after_run p s n data.
Proof.
  intros Hfits Hadm Hfirst.
  destruct (target_after_run p self s n data Hfits Hfirst) as (x & Ht & Hx & Hsame).
  pose proof (after_run_wf _ _ _ _ data Hfits Hadm) as Hwf.
  unfold after_run at 1. rewrite Ht. unfold updated. rewrite Hsame.
  rewrite put_same; [by destruct (after_run p s n data)|apply Hwf|done].
Qed.

(** C10: a second run of the same configuration changes nothing on the
    server, when no stack of the configured name on another endpoint comes
    first in the list: the first run creates or updates the stack, the
    second updates it with what it holds. *)
Theorem Exec_idempotent p self s n data w :
  fits p self s n ->
  forallb (contains "="%char) (main.Stack.Environment (stack_of p)) = true ->
  source p s = Some data -> admits p s n ->
  (target p s n = None -> stack_named (name_of p) s = None) ->
  outside w = s ->
  exists w1 w2,
    main.Exec p w = (Ok tt, w1) /\ main.Exec p w1 = (Ok tt, w2)
    /\ outside w2 = outside w1.
Proof.
  intros Hfits Henv Hsrc Hadm Hfirst Hw.
  destruct (Exec_on_server p self s n Hfits Henv data Hsrc Hadm w Hw)
    as ([] & w1 & Hrun1 & Hs1).
  destruct (target_after_run p self s n data Hfits Hfirst) as (x & Ht & _).
  destruct (Exec_on_server p self _ n (fits_after_run _ _ _ _ data Hfits Hadm) Henv data)
    with (w := w1) as ([] & w2 & Hrun2 & Hs2); [by rewrite source_after_run| |done|].
  { intros Hnone. congruence. }
  exists w1, w2. split_and!; [done..|].
  rewrite Hs2, Hs1. by eapply after_run_again.
Qed.

(** ** A stack of the same name on another endpoint *)

(** The first stack of the configured name runs on another endpoint. *)
Definition shadowed p s n : Prop :=
  exists x, stack_named (name_of p) s = Some x /\ stack_endpoint x <> node_id n.

Lemma target_shadowed p s n : shadowed p s n -> target p s n = None.
Proof. intros (x & Hx & Hend). unfold target. rewrite Hx. by case_decide. Qed.

Lemma shadowed_created p s n data : shadowed p s n -> shadowed p (created p s n data) n.
Proof.
  intros (x & Hx & Hend). exists x. split; [|done].
  unfold stack_named, created. simpl. by apply find_Some_app.
Qed.

Lemma taken_created p s n data :
  taken (created p s n data) (name_of p) (node_id n) = true.
Proof.
  apply bool_decide_eq_true, Exists_exists. eexists.
  split; [by apply elem_of_app; right; apply list_elem_of_singleton|]. done.
Qed.

(** C8: when the first stack of the configured name runs on another
    endpoint, the stack on the endpoint wanted is never found.  The run
    asks for a creation: it fails, and changes nothing, when the endpoint
    already runs a stack of the name; and when it does not, the run
    creates the stack and every later run of the same configuration
    fails. *)
Theorem Exec_shadowed p self s n data w :
  fits p self s n ->
  forallb (contains "="%char) (main.Stack.Environment (stack_of p)) = true ->
  source p s = Some data -> shadowed p s n -> outside w = s ->
  (taken s (name_of p) (node_id n) = true ->
   exists e w', main.Exec p w = (Err e, w') /\ outside w' = s)
  /\ (taken s (name_of p) (node_id n) = false -> in_int_range (next_id s) = true ->
      exists w1 e w2,
        main.Exec p w = (Ok tt, w1) /\ outside w1 = created p s n data
        /\ main.Exec p w1 = (Err e, w2) /\ outside w2 = outside w1).
Proof.
  intros Hfits Henv Hsrc Hsh Hw. pose proof (target_shadowed _ _ _ Hsh) as Hnone.
  split; [intros Htaken; by eapply Exec_refused|]. intros Hfree Hroom.
  assert (admits p s n) as Hadm by done.
  destruct (Exec_on_server p self s n Hfits Henv data Hsrc Hadm w Hw)
    as ([] & w1 & Hrun1 & Hs1).
  pose proof (fits_after_run _ _ _ _ data Hfits Hadm) as Hfits1.
  unfold after_run in Hs1, Hfits1. rewrite Hnone in Hs1, Hfits1.
  destruct (Exec_refused p self _ n Hfits1 Henv data w1) as (e & w2 & Hrun2 & Hs2);
    [done|by apply target_shadowed, shadowed_created|apply taken_created|done|].
  exists w1, e, w2. split_and!; [done..|congruence].
Qed.

End Theorems.

(** * The theorems on a server with two endpoints *)

Section Witnesses.

#[local] Existing Instance fixture_lib.

(** A server with the endpoints [local] and [remote], the stacks given
    and one file. *)
Definition lab (l : list Entry) (next : Z) : server.t :=
  server.mk "http://portainer.local" [("admin", "secret")] "token"
    [mkNode 1 "local" "cluster-1"; mkNode 2 "remote" "cluster-2"] l next
    [("docker-compose.yml", "version: 2")] 0.

Definition local : Node := mkNode 1 "local" "cluster-1".

Definition anonymous : Client.Portainer :=
  mkPortainer (mkClient false) "http://portainer.local" "".

Definition web : main.Plugin.t := plugin_of "web" "" ["version: 3"] ["KEY=value"].

(** The stack [web] on the endpoint [remote]. *)
Definition elsewhere : Entry := mkEntry 1 "web" 2 "version: 1" [].

Lemma lab_fits l next : wf (lab l next) -> fits web anonymous (lab l next) local.
Proof. intros Hwf. split; try done. by left. Qed.

Lemma lab_wf l next :
  bool_decide (NoDup (stack_id <$> l)) = true ->
  bool_decide (Forall (fun x => in_int_range (stack_id x) = true
                                /\ in_int_range (stack_endpoint x) = true
                                /\ (stack_id x < next)%Z) l) = true ->
  bool_decide (NoDup ((fun x => (stack_name x, stack_endpoint x)) <$> l)) = true ->
  wf (lab l next).
Proof.
  intros ?%bool_decide_eq_true ?%bool_decide_eq_true ?%bool_decide_eq_true.
  split; simpl; try done.
  - eapply bool_decide_unpack. by vm_compute.
  - eapply bool_decide_unpack. by vm_compute.
Qed.

Lemma Exec_leaves_stack_witness :
  exists w',
    main.Exec web (initial (lab [] 1)) = (Ok tt, w')
    /\ outside w' = after_run web (lab [] 1) local "version: 3"
    /\ wf (outside w')
    /\ Exists (wanted web local "version: 3") (stacks (outside w')).
Proof.
  apply (Exec_leaves_stack web anonymous (lab [] 1) local "version: 3");
    [by apply lab_fits, lab_wf | done | done | done | done].
Defined.

Lemma Exec_idempotent_witness :
  exists w1 w2,
    main.Exec web (initial (lab [] 1)) = (Ok tt, w1)
    /\ main.Exec web w1 = (Ok tt, w2)
    /\ outside w2 = outside w1.
Proof.
  apply (Exec_idempotent web anonymous (lab [] 1) local "version: 3");
    [by apply lab_fits, lab_wf | done | done | done | done | done].
Defined.

Lemma Exec_shadowed_witness :
  let s := lab [elsewhere] 2 in
  (taken s "web" 1 = true ->
   exists e w', main.Exec web (initial s) = (Err e, w') /\ outside w' = s)
  /\ (taken s "web" 1 = false -> in_int_range (next_id s) = true ->
      exists w1 e w2,
        main.Exec web (initial s) = (Ok tt, w1)
        /\ outside w1 = created web s local "version: 3"
        /\ main.Exec web w1 = (Err e, w2) /\ outside w2 = outside w1).
Proof.
  intros s.
  apply (Exec_shadowed web anonymous s local "version: 3");
    [by apply lab_fits, lab_wf | done | done | | done].
  exists elsewhere. by split.
Defined.

End Witnesses.
