(* ===== verification/Program.v ===== *)
(** * Program: the process against the reference server

    [Cli] says how [main] ends from how [Exec] ends, [Deploy] what [Exec]
    does to the reference server.  This file composes them.  [ending_of]
    is the way a run ends as a function of the configuration and of the
    state of the server: with an error when the address is refused, the
    account unknown, the endpoint or the name of the stack missing, the
    definition unreadable or the creation declined; with a panic on an
    entry of the environment without [=]; with the stack created or
    updated otherwise.  The exit status of the process and the state it
    leaves the server in are what [ending_of] says, for every
    configuration that addresses the server ([served]).  A status of 0,
    once the flag library has called [run], therefore means that the
    stack is on the server.

    The witness runs the whole program from the environment of a Drone
    step, with the library of [Environ]; the runs at the end show what
    the step prints when it creates the stack and when the server
    declines, and how it ends with a wrong password. *)

From S2P Require Import Prelude GoStrings Json Wire Http Fixture Client Plugin Total.
From S2P Require Import Transcript Cli Environ Server Deploy.

#[local] Open Scope string_scope.
#[local] Open Scope list_scope.
#[local] Open Scope go_scope.

Import server.

#[local] Existing Instance server.platform.

(** * How a run ends *)

(** A run leaves the server with the stack, returns an error, or panics. *)
Inductive ending : Type :=
| Deployed (s' : server.t)
| Failed
| Crashed.

(** The status of the process and the state of the server after it. *)
Definition status (e : ending) : Z :=
  match e with
  | Deployed _ => 0
  | Failed => 1
  | Crashed => 2
  end.

Definition left_by (e : ending) (s : server.t) : server.t :=
  match e with
  | Deployed s' => s'
  | Failed | Crashed => s
  end.

Section Endings.
Context `{!GoLib}.
Implicit Types (p : main.Plugin.t) (self : Client.Portainer) (s : server.t).
Implicit Types (n : Node) (w : World server.t).

Local Abbreviation portainer_of p := (main.Config.Portainer (main.Plugin.Config p)).
Local Abbreviation stack_of p := (main.Config.Stack (main.Plugin.Config p)).
Local Abbreviation name_of p := (main.Stack.Name (stack_of p)).
Local Abbreviation account_of p :=
  (main.Portainer.Username (portainer_of p), main.Portainer.Password (portainer_of p)).
Local Abbreviation client_of p :=
  (NewPortainer (main.Portainer.Address (portainer_of p))
     (main.Portainer.Insecure (portainer_of p))).
Local Abbreviation well_formed p :=
  (forallb (contains "="%char) (main.Stack.Environment (stack_of p))).

(** The server has room for a new stack of the configured name on [n]. *)
Definition room p s n : bool :=
  negb (taken s (name_of p) (node_id n)) && in_int_range (next_id s).

(** How the run ends once the lookups have found the endpoint [n]: it
    panics on an entry of the environment without [=], fails without a
    stack name, without a definition to send and when the server declines
    a creation, and leaves the stack otherwise. *)
Definition ending_on p s n : ending :=
  if negb (well_formed p) then Crashed
  else if decide (name_of p = "") then Failed
  else
    match source p s, target p s n with
    | None, _ => Failed
    | Some data, Some _ => Deployed (after_run p s n data)
    | Some data, None =>
        if room p s n then Deployed (after_run p s n data) else Failed
    end.

(** How the run of [p] ends on the server [s]: it fails when the address
    is refused, when the server does not know the account and when it
    has no endpoint of the name; otherwise it ends as [ending_on] says
    for the first endpoint of the name. *)
Definition ending_of p s : ending :=
  match client_of p with
  | Ok _ =>
      if bool_decide (account_of p ∈ accounts s) then
        match node_named (main.Portainer.Endpoint (portainer_of p)) s with
        | Some n => ending_on p s n
        | None => Failed
        end
      else Failed
  | Err _ => Failed
  | Panic _ => Crashed
  end.

(** The server the configuration addresses: every address the client is
    built with is its own, and no file has the empty name. *)
Record served p s : Prop := mkServed {
  served_urls : forall u, url_error u = None;
  served_address : forall self, client_of p = Ok self -> address self = base s;
  served_wf : wf s;
  served_files : assoc "" (files s) = None
}.

(** The run returned [r] in the world [w'], as the ending [e] says. *)
Definition ends_as (e : ending) s (r : result unit) w' : Prop :=
  outside w' = left_by e s
  /\ match e with
     | Deployed _ => r = Ok tt
     | Failed => is_Err r = true
     | Crashed => is_Panic r = true
     end.

Lemma stays_Failed {A} (c : M server.t A) s w :
  fails (fun s' => s' = s) c (fun s' => s' = s) -> outside w = s ->
  exists e w', c w = (Err e, w') /\ outside w' = s.
Proof. intros Hc Hw. by apply Hc. Qed.

Lemma ending_on_Deployed p s n s' :
  ending_on p s n = Deployed s' ->
  exists data,
    well_formed p = true /\ name_of p <> ""
    /\ source p s = Some data /\ admits p s n /\ s' = after_run p s n data.
Proof.
  unfold ending_on, room, admits.
  destruct (forallb _ _); [|done]. simpl. case_decide; [done|].
  destruct (source p s) as [data|]; [|done].
  destruct (target p s n) as [x|].
  - intros [= <-]. by exists data.
  - destruct (taken _ _ _), (in_int_range _); try done. intros [= <-]. by exists data.
Qed.

Lemma ending_on_Failed p s n :
  ending_on p s n = Failed ->
  well_formed p = true
  /\ (name_of p = "" \/ source p s = None
      \/ exists data, source p s = Some data /\ target p s n = None
                      /\ declined p s n).
Proof.
  unfold ending_on, room, declined.
  destruct (forallb _ _); [|done]. simpl. case_decide; [by auto|].
  destruct (source p s) as [data|]; [|by auto].
  destruct (target p s n) as [x|]; [done|].
  destruct (taken _ _ _), (in_int_range _); try done; eauto 10.
Qed.

Lemma ending_on_Crashed p s n : ending_on p s n = Crashed -> well_formed p = false.
Proof.
  unfold ending_on. destruct (forallb _ _); [|done]. simpl. by repeat case_match.
Qed.

(** Once the endpoint is found, [Exec] ends as [ending_on] says. *)
Lemma Exec_ends_on p self s n w :
  reached p self s -> account_of p ∈ accounts s ->
  node_named (main.Portainer.Endpoint (portainer_of p)) s = Some n ->
  assoc "" (files s) = None -> outside w = s ->
  exists r w', main.Exec p w = (r, w') /\ ends_as (ending_on p s n) s r w'.
Proof.
  intros Hr Hin Hn Hempty Hw. unfold ends_as.
  destruct (ending_on p s n) as [s'| |] eqn:E; simpl.
  - apply ending_on_Deployed in E as (data & Henv & Hname & Hsrc & Hadm & ->).
    assert (fits p self s n) as Hfits by (by destruct Hr).
    destruct (Exec_on_server p self s n Hfits Henv data Hsrc Hadm w Hw)
      as ([] & w' & ? & ?).
    by exists (Ok tt), w'.
  - apply ending_on_Failed in E as [Henv Hwhy].
    assert (fails (fun s' => s' = s) (main.Exec p) (fun s' => s' = s)) as Hfail.
    { destruct Hwhy as [Hname|Hwhy]; [by apply (Exec_nameless p self s Hr n)|].
      destruct (decide (name_of p = "")) as [Hname|Hname];
        [by apply (Exec_nameless p self s Hr n)|].
      assert (fits p self s n) as Hfits by (by destruct Hr).
      destruct Hwhy as [Hsrc|(data & Hsrc & Hnone & Hd)].
      - by apply (Exec_unsourced p self s n).
      - by apply (Exec_declined p self s n Hfits Henv data). }
    destruct (stays_Failed _ s w Hfail Hw) as (e & w' & ? & ?). by exists (Err e), w'.
  - apply ending_on_Crashed in E.
    destruct (Exec_malformed_reached p self s Hr n w Hin Hn E Hw) as (w' & ? & ?).
    by eexists _, w'.
Qed.

(** A run that does not get to the lookups. *)
Lemma Exec_unbuilt p w r :
  client_of p = r -> is_Ok r = false ->
  main.Exec p w = (match r with Ok _ => Ok tt | Err e => Err e | Panic x => Panic x end, w).
Proof.
  intros Hnew Hr. unfold main.Exec, bind. rewrite connect_phase_run, Hnew.
  by destruct r.
Qed.

(** [Exec] ends as [ending_of] says. *)
Lemma Exec_ends p s w :
  served p s -> outside w = s ->
  exists r w', main.Exec p w = (r, w') /\ ends_as (ending_of p s) s r w'.
Proof.
  intros Hs Hw. unfold ending_of.
  destruct (client_of p) as [self|e|x] eqn:Enew.
  - assert (reached p self s) as Hr by (destruct Hs; split; auto).
    case_bool_decide as Hin.
    + destruct (node_named _ s) as [n|] eqn:Hn.
      * apply (Exec_ends_on p self s n w); [done..|apply Hs|done].
      * destruct (stays_Failed (main.Exec p) s w) as (e & w' & ? & ?); [|done|].
        { by apply (Exec_lookups_fail p s), (lookups_missing_endpoint p self s). }
        by exists (Err e), w'.
    + destruct (stays_Failed (main.Exec p) s w) as (e & w' & ? & ?); [|done|].
      { by apply (Exec_lookups_fail p s), (lookups_unknown_account p self s). }
      by exists (Err e), w'.
  - exists (Err e), w. by rewrite (Exec_unbuilt p w (Err e)).
  - exists (Panic x), w. by rewrite (Exec_unbuilt p w (Panic x)).
Qed.

(** A run that ends with the stack found the endpoint and had something
    to send. *)
Lemma ending_of_Deployed p s s' :
  served p s -> ending_of p s = Deployed s' ->
  exists self n data,
    fits p self s n /\ source p s = Some data /\ admits p s n
    /\ s' = after_run p s n data.
Proof.
  intros Hs. unfold ending_of.
  destruct (client_of p) as [self|e|x] eqn:Enew; [|done..].
  case_bool_decide as Hin; [|done].
  destruct (node_named _ s) as [n|] eqn:Hn; [|done].
  intros (data & Henv & Hname & Hsrc & Hadm & ->)%ending_on_Deployed.
  exists self, n, data. split_and!; [|done..]. destruct Hs. split; auto.
Qed.

End Endings.

(** * The process *)

Section Process.
Context `{!GoLib} `{!cli.Lib}.
Implicit Types (c : cli.Context) (self : Client.Portainer) (s : server.t).
Implicit Types (n : Node) (w : World server.t).

(** [main] ends as [Exec] does, and prints without touching the server. *)
Lemma main_ends version args environ c w r w' :
  cli.Run (app version) args environ = cli.Invoke c ->
  main.Exec (run_plugin c) w = (r, w') ->
  exit_code (main_ version args environ w).1
  = match r with Ok _ => 0 | Err _ => 1 | Panic _ => 2 end%Z
  /\ outside (main_ version args environ w).2 = outside w'.
Proof.
  intros Hrun Hexec. unfold main_. rewrite Hrun, run_run, Hexec.
  by destruct r as [[]|e|x].
Qed.

(** C3: the whole program against the reference server.  When the flag
    library calls [run] with a configuration that addresses the server,
    the exit status of the process and the state the server is left in
    are those of [ending_of]: status 1 and no change when the address is
    refused, the account unknown, the endpoint or the stack name missing,
    without a definition to send or when the server declines the
    creation; status 2 and no change on an entry of the environment
    without [=]; status 0 and the stack created or updated otherwise.  A
    status of 0 therefore means that a stack of the configured name,
    definition and environment runs on the endpoint wanted. *)
Theorem main_on_server version args environ c s w :
  cli.Run (app version) args environ = cli.Invoke c ->
  served (run_plugin c) s -> outside w = s ->
  let r := main_ version args environ w in
  let e := ending_of (run_plugin c) s in
  exit_code r.1 = status e
  /\ outside r.2 = left_by e s
  /\ (exit_code r.1 = 0%Z ->
      exists self n data,
        fits (run_plugin c) self s n /\ source (run_plugin c) s = Some data
        /\ wf (outside r.2)
        /\ Exists (wanted (run_plugin c) n data) (stacks (outside r.2))).
Proof.
  intros Hrun Hs Hw r e.
  destruct (Exec_ends _ s w Hs Hw) as (r' & w' & Hexec & Hout' & Hr).
  destruct (main_ends version args environ c w r' w' Hrun Hexec) as [Hcode Hout].
  fold r in Hcode, Hout. fold e in Hout', Hr. rewrite Hcode, Hout, Hout'.
  destruct e as [s'| |] eqn:E; simpl in *.
  - subst r'. split_and!; [done..|]. intros _.
    apply ending_of_Deployed in E as (self & n & data & Hfits & Hsrc & Hadm & ->); [|done].
    exists self, n, data. eauto using after_run_wf, after_run_wanted.
  - by destruct r'.
  - by destruct r'.
Qed.

End Process.

(** * The program in a Drone step *)

Section Witnesses.

#[local] Existing Instance fixture_lib.
#[local] Existing Instance bare_lib.

(** The context of the step of [Environ] with one entry of environment. *)
Definition step_context (entry : string) : cli.Context :=
  bare_context decimal_ParseInt (drone_step [("PLUGIN_ENVIRONMENT", entry)]) flags.

Lemma step_served entry l next :
  wf (lab l next) -> served (run_plugin (step_context entry)) (lab l next).
Proof. intros Hwf. split; [done| |done..]. by intros self [= <-]. Qed.

Lemma main_on_server_witness :
  let environ := drone_step [("PLUGIN_ENVIRONMENT", "KEY=value")] in
  let c := step_context "KEY=value" in
  let r := main_ "1.0" ["drone-portainer"] environ (initial (lab [] 1)) in
  let e := ending_of (run_plugin c) (lab [] 1) in
  (exit_code r.1 = status e
   /\ outside r.2 = left_by e (lab [] 1)
   /\ (exit_code r.1 = 0%Z ->
       exists self n data,
         fits (run_plugin c) self (lab [] 1) n
         /\ source (run_plugin c) (lab [] 1) = Some data /\ wf (outside r.2)
         /\ Exists (wanted (run_plugin c) n data) (stacks (outside r.2))))
  /\ e = Deployed
           (with_stacks (lab [] 1)
              [mkEntry 1 "web" 1 "version: 3" [Env.mk "KEY" "value"]] 2).
Proof.
  intros environ c. split; [|by vm_compute].
  apply (main_on_server "1.0" ["drone-portainer"] environ c (lab [] 1));
    [done|by apply step_served, lab_wf|done].
Defined.

(** The same step with the password of another account: the login is
    refused, and the process ends with status 1. *)
Lemma wrong_password_ending :
  let environ := drone_step [("PLUGIN_PORTAINER_PASSWORD", "guess")] in
  let c := bare_context decimal_ParseInt environ flags in
  ending_of (run_plugin c) (lab [] 1) = Failed
  /\ exit_code (main_ "1.0" ["drone-portainer"] environ (initial (lab [] 1))).1 = 1%Z.
Proof. by vm_compute. Qed.

(** What the step prints on a server without stacks. *)
Lemma drone_step_transcript :
  let p := run_plugin (step_context "KEY=value") in
  stdout (main_ "1.0" ["drone-portainer"] (drone_step [("PLUGIN_ENVIRONMENT", "KEY=value")])
            (initial (lab [] 1))).2
  = lookup_lines p main.OK
    ++ [deploy_line p; main.OK; "Deploy stack web finished in 0ns" +:+ newline].
Proof. by vm_compute. Qed.

(** What it prints when the stack [web] runs on both endpoints and the
    one on the other endpoint is listed first: the stack on [local] is
    not found, and the server declines to create a second one. *)
Lemma shadowed_step_transcript :
  let p := run_plugin (step_context "KEY=value") in
  let s := lab [elsewhere; mkEntry 2 "web" 1 "version: 1" []] 3 in
  stdout (main_ "1.0" ["drone-portainer"] (drone_step [("PLUGIN_ENVIRONMENT", "KEY=value")])
            (initial s)).2
  = lookup_lines p main.OK
    ++ [deploy_line p; main.FAIL;
        "Exited with error: Portainer API error: POST "
        +:+ "http://portainer.local/api/stacks?type=1&method=string&endpointId=1"
        +:+ " 409 Conflict" +:+ newline]
  /\ ending_of p s = Failed.
Proof. by vm_compute. Qed.

End Witnesses.
